(* ===== verification/_CoqProject ===== *)
-Q . S2P
Prelude.v
Model.v
WireFrame.v
Channel.v
Testing.v
EdgeHub.v
Tokens.v
EdgeServer.v
EdgeUpstream.v
EdgeTests.v
Hubs.v
Relay.v
Events.v
Calldata.v
Keccak.v
ChainTests.v
Float64.v
Gate.v
GateTests.v
Feed.v
FeedLoops.v
Category.v
Regex.v
CategoryRegex.v
CategoryTests.v
Probe.v
HeadRace.v
Uint256.v
Calendar.v
Catalog.v
Forfeit.v
Pipeline.v
Service.v
Storage.v
System.v
Accounting.v
Durability.v
Config.v
ForfeitFeed.v
CatalogSync.v
Startup.v
CatalogTests.v
Registry.v
RegistryTests.v
Store.v
Savers.v
ConsoleServer.v
Cluster.v
Routes.v
ConsoleFeed.v
ConsoleTests.v
Alerts.v
AlertsTests.v
Rpc.v
PipelineTests.v
Readers.v
Api.v
ForfeitTests.v
Programs.v
