(* ===== verification/Prelude.v ===== *)
(** * Verification of rust_uma

    rust_uma follows UMA's optimistic oracle on Polygon and tells its subscribers about
    every price proposal and dispute that concerns a Polymarket market.  This library is a
    shallow embedding of its four programs (all paths below [src/src/]), file by file, with
    the theorems that make them correct.

    ** The program

    - The _service_ ([main.rs]) reads the oracle's logs from several racing WebSocket
      endpoints and by HTTP back-fill ([uma/rpc.rs]), decodes them ([uma/events/]), looks the
      market up in a catalog kept current from the Gamma API ([enrichment.rs],
      [category.rs]), leaves out forfeited matches ([forfeit.rs]), numbers, deduplicates,
      batches and encodes the events ([pipeline.rs], [wire.rs], [model.rs]), journals them
      ([storage.rs]) and serves the frames to WebSocket clients ([hub.rs], [api.rs]).
    - _mempool-uma_ ([bin/mempool-uma.rs], [mempool/]) feeds the same pipeline from pending
      transactions, behind a gate that learns which senders to believe.
    - An _edge_ ([edge/]) keeps one upstream connection and fans its frames out, with tokens,
      bounded client queues, draining and administration.
    - The _console_ ([console/]) issues the tokens, registers the edges and balances their
      clients, relays the frames to its panel and raises alerts.

    ** The files, and what they model

    - [Prelude] (this file): bytes, big-endian numbers, wrapping and saturating machine
      arithmetic, [result] and its monad, lists, the parts of [str] and of number formatting
      the program uses, sorting, with their lemmas and hint databases.
    - [Model]: the data of [model.rs] and [uma/events/common.rs], to and from protobuf.
      [WireFrame]: the frame encoder of [wire.rs] and the edge's partial parser
      [edge/frame.rs], over a wire-format reference of protobuf fields.
    - [Channel]: the interface of [tokio::sync::mpsc] with a list instance.
    - [EdgeHub] ([edge/ring.rs], [edge/hub.rs]), [Tokens] ([console/tokens.rs],
      [edge/auth.rs]), [EdgeServer] ([edge/server.rs], [edge/heartbeat.rs]; [Module Drain] is
      the drain as a transition system over its atomics), [EdgeUpstream]
      ([edge/upstream.rs]).
    - [Hubs]: the event ring, the frame ring and the downstream session ([hub.rs],
      [api.rs]).  [Relay] composes these sessions with the edge's upstream loop and hub,
      [Service] puts the pipeline, batcher and encoder in front.
    - [Events] ([uma/events/]), [Calldata] ([mempool/calldata.rs]), [Float64] (an [f64] as
      SpecFloat), [Gate] ([mempool/gate.rs]), [Feed] and [FeedLoops] ([mempool/feed.rs]).
    - [Category] ([category.rs] with the shipped rule file), [Uint256], [Calendar], [Catalog]
      and [CatalogSync] ([enrichment.rs]), [Forfeit] and [ForfeitFeed] ([forfeit.rs]: the list,
      then its tasks side by side, cut at its two locks).
    - [Pipeline] ([pipeline.rs], [stats.rs]): [process] split where concurrent calls
      interleave, and the batcher.  [Storage] ([storage.rs]): catalog file, journal with
      crashes, writer.  [Rpc] ([uma/rpc.rs]): back-fill, gap-fill, live sessions;
      [Readers]: all of them side by side over a growing chain.
    - [System]: the service with everything in flight, every call of [process] cut at each
      access to something shared, next to the batcher, the writer, the other tasks and the
      stop.  [Accounting] and [Durability] are its theorems; [Accounting.call_alone] says
      that an undisturbed call there is [Pipeline.process].
    - [Programs]: the entry points ([main.rs], [bin/]): what each program opens, how long it
      runs, what its stop waits for and leaves.
    - [Config]: the three [from_env].  [Startup]: both services from their files to their
      first event ([main.rs], [bin/mempool-uma.rs]).
    - [Registry] ([console/registry.rs]), [ConsoleServer] ([console/server.rs]), [Cluster] (the
      console and its edges with requests in flight), [Routes] (the routers of both),
      [ConsoleFeed] ([console/feed.rs], [console/upstream.rs]), [Alerts]
      ([console/alerts.rs]), [Store] ([console/store.rs]),
      [Savers] (all writers of files at once, over names and inodes).
    - [Api]: the service's HTTP interface ([api.rs], [stats.rs]).
    - [Regex]: the documented semantics of the regex crate, with a matcher that is proved to
      compute it; [CategoryRegex]: the shipped patterns on it.  [Keccak]: the real hash.
    - [Testing] and the files [*Tests]: the source's own unit tests, function by function
      under their names, run on the model: [CategoryTests], [RegistryTests], [AlertsTests],
      [ConsoleTests], [EdgeTests], [GateTests], [ChainTests] (mainnet transactions),
      [PipelineTests], [ForfeitTests], [CatalogTests].
    - [Probe]: the mempool probe, a process of its own ([examples/mempool_probe.rs]);
      [HeadRace]: another ([examples/head_race.rs], [HeadRace.race_writes_all]).

    ** Conventions

    A struct is a record with the source's field names, a [u64] or [usize] (64 bits) a [Z]
    whose wrap-around is written out ([u64_add], [u64_mul]: a release build wraps), a [str]
    its UTF-8 bytes, a [HashMap] a [gmap], with the iteration order as a parameter where it
    shows.  A handler is a function from the state and its request to its reply and the new
    state; a task is a function over the list of what its [select!] loop receives; locks and
    atomics that several tasks touch give the granularity of steps where interleavings are
    considered ([EdgeHub.run_ops], [Pipeline.pipe_run], [EdgeServer.Drain.step],
    [ForfeitFeed.list_step], [Feed.feed_run]).  Clocks, random draws and the outcome of
    writes are arguments.  Third-party code is an interface with its documented laws as class
    fields or hypotheses, each with a concrete instance in the samples: prost and zstd
    ([WireFrame.Prost], [zstd_law]), mpsc ([Mpsc]), hex and sha3 ([EthCodec]), regex and
    Unicode ([TextEngine]), crc32 and the journal's codec ([WalCodec]), serde_json on cursors
    ([CursorJson]), the url crate ([UrlCrate]), the generated protobuf enumerations
    ([WireNumbers]).

    ** What is shown

    - Delivery: a client of an edge gets a contiguous run of frames in every interleaving or
      is cut off ([EdgeHub.subscriber_gapless]); the edge's frames are the service's, once
      and in order, across reconnections ([Service.service_to_client],
      [EdgeUpstream.session_forwards], [Hubs.session_delivers]); a
      restart loses no client an event silently, as far as the journal holds
      ([Startup.restart_serves_cursors]).
    - Codecs: frames, forged logs and calls read back ([WireFrame.parse_encode_frame],
      [Calldata.synth_log_decodes], [Calldata.decode_input_abi]); the edge's parser always
      gives a verdict ([WireFrame.parse_frame_total]); catalog, journal, token ids and
      addresses round-trip.
    - In every interleaving of the whole service each log is counted under what became of it,
      each event has a number of its own and is in one place, what was sent to the batcher
      comes out in batches in that order, and the service comes to rest
      ([Accounting.every_log_accounted], [concurrent_numbers], [service_settles]); one call and the
      batcher by themselves ([Pipeline.process_outcome], [batcher_preserves]); no block stays unread across restarts whose
      back-fills go on from each other ([Rpc.restart_leaves_no_block_out],
      [backfill_range_covers]) and no log is missed over reconnections, under conditions that
      [Readers.orderly] names ([Readers.no_log_missed]); the mempool feed pushes a request
      once while it remembers it ([Feed.feed_pushes_once]).
    - Durability: the journal holds the ring but for what the writer has not been given
      ([Durability.journal_covers_ring]), the console's files are old or new
      ([Store.save_json_atomic]), and so is every file whose temporary one is its writer's alone
      ([Savers.saves_are_whole]); writer, crash points of the catalog and its cursors, the saver of the
      blocklist ([Storage.writer_keeps_log], [CatalogSync.catalog_before_cursor],
      [ForfeitFeed.saved_list_restored]); a stop flushes ([Programs.stop_flushes]).
    - The tables are what they stand for ([Catalog.catalog_is_table],
      [ForfeitFeed.forfeit_index_exact], [ForfeitFeed.feed_blocks_exactly]), and
      the metrics page is the counters ([Api.metrics_scrape]); the probe's figures are the lines
      it writes, in every interleaving of its tasks ([Probe.probe_accounts]), and what it saw in
      time is a hit ([Probe.seen_is_hit]).
    - Access: admission and the synchronisation of tokens ([EdgeServer.websocket_admission],
      [Cluster.edges_follow_tokens]); what a request may do and see depends on its secret
      ([Routes.requests_privileged], [Routes.edge_requests_privileged]).
    - Control: drains end and the edge's stop is one, releases complete and do not overshoot,
      alerts wait, persist and are said once ([EdgeServer.drain_completes], [Programs.edge_stop_drains], [Registry.manual_release_completes],
      [Registry.auto_release_no_overshoot], [Alerts.alert_life]).
    - Classification: with any engine that does what the regex crate documents, every market
      has the class the rule file gives it ([CategoryRegex.classify_by_rules]), and a verified
      matcher computes it ([CategoryRegex.classify_computed], [Regex.search_exact]).
    - The source's unit tests hold of the model ([CategoryTests.category_tests_pass] and the
      like in each of those files), its topics and selectors are the hashes they are said to
      be ([Keccak.topics_are_event_hashes], [Keccak.selectors_are_function_hashes]), and real
      transactions decode as their logs do ([ChainTests.chain_tests_pass]).
    - Errors: what a start needs and reports ([Config.config_invariant],
      [Startup.boot_survives_any_journal]).

    Where the code does not do what it says, an [Example] or a theorem runs the case
    ([EdgeUpstream.rejected_cursor_never_returns], [EdgeServer.Drain.exit_drain_lost],
    [Hubs.late_frame_skipped], [CatalogSync.SyncRuns.skipped_market_not_seen_again],
    [Startup.StartupRuns.lost_number_given_again], [ForfeitFeed.FeedRuns.overlap_unblocks],
    [Durability.DurabilityRuns.compaction_repeats_the_tail],
    [Readers.ReadersSample.slow_first_dial_leaves_gap],
    [Routes.RoutesSample.revoked_during_upgrade] and others).

    ** Fuel

    A [Fixpoint] with fuel returns [None] when it runs out, and its theorems say it does not:
    the protobuf walks take the length of the input plus one ([parse_frame_total]); the
    journal reader likewise, every record taking a byte at least; the back-fill loop of
    [Rpc] one round per window ([range_fuel]), the bisection of [first_block_at_or_after] 65, for it
    halves an interval of 64-bit numbers; the mempool back-fill [head - from + 2]
    ([Feed.backfill_covers]); the walks over Gamma's pages one round per answer there is, so
    that [None] there means that the given list of answers is at its end.  Number printing
    takes the binary logarithm plus one.

    ** Not modelled

    - axum, tokio, reqwest and tungstenite: routing, framing, TLS, timers as such; a task is
      driven by the list of events its loop sees, in any order a caller chooses.
    - Output only: the HTML and text pages, the JSON text of the answers, log lines,
      [send_feishu].
    - [net.rs] (a socket option), [lib.rs] and the [mod.rs] without code; the set-up of the log.
    - The protobuf schema is a submodule and its Rust code is generated, so message types are
      records of the fields the program uses.
    - [tests/], [tools/] (Python and Go programs of their own), [deploy/]. *)
From Stdlib Require Export ZArith Lia ZifyBool Ascii String.
From Stdlib Require Export Strings.Byte.
From stdpp Require Export base decidable countable option list numbers gmap strings sorting.

#[global] Open Scope Z_scope.

(** ** Bytes

    A Rust [u8] is [Byte.byte]; [[u8; N]] and [Vec<u8>] are lists of bytes, the
    length of an array being a hypothesis of the theorems that need it. *)

Abbreviation bytes := (list Byte.byte).

Definition byte_val (b : Byte.byte) : Z := Z.of_N (Byte.to_N b).

Definition byte_of (z : Z) : Byte.byte :=
  match Byte.of_N (Z.to_N (z mod 256)) with
  | Some b => b
  | None => Byte.x00
  end.

Lemma byte_val_range b : 0 <= byte_val b < 256.
Proof.
  unfold byte_val. pose proof (Byte.to_N_bounded b). lia.
Qed.

Lemma byte_val_of z : byte_val (byte_of z) = z mod 256.
Proof.
  unfold byte_of, byte_val.
  pose proof (Z.mod_pos_bound z 256 eq_refl) as Hb.
  destruct (Byte.of_N (Z.to_N (z mod 256))) as [b|] eqn:E.
  - apply Byte.to_of_N in E. rewrite E. lia.
  - apply Byte.of_N_None_iff in E. lia.
Qed.

Lemma byte_val_inj b1 b2 : byte_val b1 = byte_val b2 -> b1 = b2.
Proof.
  unfold byte_val. intros H. apply N2Z.inj in H.
  pose proof (Byte.of_to_N b1). pose proof (Byte.of_to_N b2). congruence.
Qed.

Lemma byte_of_val b : byte_of (byte_val b) = b.
Proof.
  apply byte_val_inj. rewrite byte_val_of.
  pose proof (byte_val_range b). apply Z.mod_small. lia.
Qed.

#[global] Instance byte_eq_dec : EqDecision Byte.byte.
Proof. intros x y. apply Byte.byte_eq_dec. Defined.

#[global] Program Instance byte_countable : Countable Byte.byte :=
  inj_countable Byte.to_N Byte.of_N _.
Next Obligation. intros b. apply Byte.of_to_N. Qed.

(** ** Big-endian integers ([to_be_bytes], [from_be_bytes]) *)

Fixpoint be_encode (n : nat) (z : Z) : bytes :=
  match n with
  | O => []
  | S k => byte_of (z / 256 ^ Z.of_nat k) :: be_encode k z
  end.

Definition be_step (acc : Z) (b : Byte.byte) : Z := acc * 256 + byte_val b.

Definition be_decode (bs : bytes) : Z := foldl be_step 0 bs.

Lemma be_encode_length n z : length (be_encode n z) = n.
Proof. induction n; simpl; auto. Qed.

Lemma be_fold_shift acc bs :
  foldl be_step acc bs = acc * 256 ^ Z.of_nat (length bs) + be_decode bs.
Proof.
  unfold be_decode. revert acc. induction bs as [|b bs IH]; intros acc; simpl.
  - lia.
  - rewrite IH. rewrite (IH (be_step 0 b)). unfold be_step.
    rewrite Nat2Z.inj_succ, Z.pow_succ_r by lia. ring.
Qed.

Lemma be_decode_cons b bs :
  be_decode (b :: bs) = byte_val b * 256 ^ Z.of_nat (length bs) + be_decode bs.
Proof. unfold be_decode at 1. simpl. rewrite be_fold_shift. unfold be_step. lia. Qed.

Lemma be_decode_bound bs : 0 <= be_decode bs < 256 ^ Z.of_nat (length bs).
Proof.
  induction bs as [|b bs IH].
  - simpl. unfold be_decode. simpl. lia.
  - rewrite be_decode_cons. simpl length. rewrite Nat2Z.inj_succ, Z.pow_succ_r by lia.
    pose proof (byte_val_range b). nia.
Qed.

Lemma be_decode_encode n z : be_decode (be_encode n z) = z mod 256 ^ Z.of_nat n.
Proof.
  induction n as [|n IH].
  - simpl. rewrite Z.mod_1_r. reflexivity.
  - simpl be_encode. rewrite be_decode_cons, IH, be_encode_length, byte_val_of.
    rewrite Nat2Z.inj_succ, Z.pow_succ_r by lia.
    rewrite (Z.mul_comm 256). rewrite Z.rem_mul_r by lia. lia.
Qed.

Lemma be_decode_encode_small n z :
  0 <= z < 256 ^ Z.of_nat n -> be_decode (be_encode n z) = z.
Proof. intros H. rewrite be_decode_encode. apply Z.mod_small. lia. Qed.

Lemma be_encode_shift k h l :
  0 <= l < 256 ^ Z.of_nat k -> be_encode k (h * 256 ^ Z.of_nat k + l) = be_encode k l.
Proof.
  assert (Hgen : forall k' a z, (k' <= k)%nat ->
            be_encode k' (a * 256 ^ Z.of_nat k + z) = be_encode k' z).
  { induction k' as [|k' IH]; intros a z Hk; simpl; [reflexivity|].
    rewrite IH by lia. f_equal. apply byte_val_inj. rewrite !byte_val_of.
    replace (Z.of_nat k) with (Z.of_nat k' + (1 + Z.of_nat (k - S k'))) by lia.
    rewrite Z.pow_add_r, Z.pow_add_r by lia.
    replace (a * (256 ^ Z.of_nat k' * (256 ^ 1 * 256 ^ Z.of_nat (k - S k'))) + z)
      with (z + (a * 256 ^ Z.of_nat (k - S k') * 256) * 256 ^ Z.of_nat k') by ring.
    rewrite Z.div_add by lia. rewrite Z.mod_add by lia. reflexivity. }
  intros _. apply Hgen. lia.
Qed.

Lemma be_encode_decode bs : be_encode (length bs) (be_decode bs) = bs.
Proof.
  induction bs as [|b bs IH]; simpl; [reflexivity|].
  rewrite be_decode_cons.
  pose proof (be_decode_bound bs) as Hb. rewrite be_encode_shift by lia. rewrite IH. f_equal.
  rewrite Z.add_comm, Z.div_add by lia. rewrite Z.div_small by lia.
  simpl. apply byte_of_val.
Qed.

Lemma be_decode_zeros n : be_decode (replicate n Byte.x00) = 0.
Proof. induction n as [|n IH]; [reflexivity|]. simpl replicate. rewrite be_decode_cons, IH. reflexivity. Qed.

Lemma be_decode_app xs ys :
  be_decode (xs ++ ys) = be_decode xs * 256 ^ Z.of_nat (length ys) + be_decode ys.
Proof. unfold be_decode at 1. rewrite foldl_app. rewrite be_fold_shift. reflexivity. Qed.

(** ** Machine integers

    The deployed binaries are built with the release profile, in which [+], [-] and
    [*] wrap; [saturating_*] and [checked_*] are what their names say. *)

Definition u64_max : Z := 2 ^ 64 - 1.
Definition u64_add (x y : Z) : Z := (x + y) mod 2 ^ 64.
Definition u64_sub (x y : Z) : Z := (x - y) mod 2 ^ 64.
Definition u64_mul (x y : Z) : Z := (x * y) mod 2 ^ 64.
Definition u32_add (x y : Z) : Z := (x + y) mod 2 ^ 32.
Definition sat_sub (x y : Z) : Z := Z.max 0 (x - y).
Definition u64_sat_add (x y : Z) : Z := Z.min u64_max (x + y).
Definition u64_sat_mul (x y : Z) : Z := Z.min u64_max (x * y).
Definition u64_checked_add (x y : Z) : option Z :=
  if x + y <=? u64_max then Some (x + y) else None.

Definition u64_ok (x : Z) : Prop := 0 <= x <= u64_max.
Definition u32_ok (x : Z) : Prop := 0 <= x < 2 ^ 32.

Lemma u64_add_small x y : 0 <= x -> 0 <= y -> x + y <= u64_max -> u64_add x y = x + y.
Proof. unfold u64_add, u64_max. intros. apply Z.mod_small. lia. Qed.

Lemma u64_add_range x y : 0 <= u64_add x y < 2 ^ 64.
Proof. apply Z.mod_pos_bound. lia. Qed.

(** ** Fallible code: [Result<A, E>] as an error monad *)

Inductive result (E A : Type) : Type :=
| Ok (a : A)
| Err (e : E).
Arguments Ok {E A} a.
Arguments Err {E A} e.

#[global] Instance result_ret E : MRet (result E) := fun A a => Ok a.
#[global] Instance result_bind E : MBind (result E) := fun A B f m =>
  match m with Ok a => f a | Err e => Err e end.
#[global] Instance result_fmap E : FMap (result E) := fun A B f m =>
  match m with Ok a => Ok (f a) | Err e => Err e end.

(** [Option::ok_or] and [Result::map_err] *)
Definition ok_or {E A} (e : E) (o : option A) : result E A :=
  match o with Some a => Ok a | None => Err e end.
Definition result_ok {E A} (r : result E A) : option A :=
  match r with Ok a => Some a | Err _ => None end.

(** [require c e]: the early return [if !c { return Err(e) }] *)
Definition require {E} (c : bool) (e : E) : result E unit := if c then Ok tt else Err e.

#[global] Instance result_eq_dec E A `{EqDecision E, EqDecision A} : EqDecision (result E A).
Proof. solve_decision. Defined.

Lemma option_bind_Some {A B} (f : A -> option B) x : (Some x ≫= f) = f x.
Proof. reflexivity. Qed.

Lemma result_bind_ok E A B (m : result E A) (f : A -> result E B) b :
  (m ≫= f) = Ok b -> exists a, m = Ok a /\ f a = Ok b.
Proof. destruct m as [a|e]; simpl; [eauto|discriminate]. Qed.

(** ** Slices

    Positions and lengths are [usize] on a 64-bit target, so they are [Z]. *)

Definition zlen {A} (l : list A) : Z := Z.of_nat (length l).

(** [l.get(a..e)] *)
Definition get_range {A} (l : list A) (a e : Z) : option (list A) :=
  if (a <=? e) && (e <=? zlen l)
  then Some (take (Z.to_nat (e - a)) (drop (Z.to_nat a) l))
  else None.

(** [l.get(a..)] *)
Definition get_from {A} (l : list A) (a : Z) : option (list A) :=
  if a <=? zlen l then Some (drop (Z.to_nat a) l) else None.

(** [l.get(i)] *)
Definition get_at {A} (l : list A) (i : Z) : option A :=
  if (0 <=? i) then l !! Z.to_nat i else None.

(** The last [n] elements: [skip(len - n.min(len))]. *)
Definition last_n {A} (n : nat) (l : list A) : list A := drop (length l - n) l.

Section Slices.
Context {A : Type}.
Implicit Types l xs ys zs : list A.

Lemma zlen_nonneg l : 0 <= zlen l.
Proof. unfold zlen. lia. Qed.

Lemma zlen_nil : zlen (@nil A) = 0.
Proof. reflexivity. Qed.

Lemma zlen_cons x l : zlen (x :: l) = 1 + zlen l.
Proof. unfold zlen. simpl. lia. Qed.

Lemma zlen_app xs ys : zlen (xs ++ ys) = zlen xs + zlen ys.
Proof. unfold zlen. rewrite length_app. lia. Qed.

Lemma get_range_app xs ys zs a e :
  a = zlen xs -> e = zlen xs + zlen ys -> get_range (xs ++ ys ++ zs) a e = Some ys.
Proof.
  intros -> ->. unfold get_range. rewrite !zlen_app.
  pose proof (zlen_nonneg xs). pose proof (zlen_nonneg ys). pose proof (zlen_nonneg zs).
  replace (_ && _) with true by lia. f_equal. unfold zlen.
  rewrite Nat2Z.id, drop_app_length. replace (Z.to_nat _) with (length ys) by lia.
  apply take_app_length.
Qed.

Lemma get_range_length l a e s :
  get_range l a e = Some s -> 0 <= a -> zlen s = e - a /\ a <= e <= zlen l.
Proof.
  unfold get_range. destruct (_ && _) eqn:E; [|discriminate]. intros [= <-] Ha.
  unfold zlen in *. rewrite length_take, length_drop. lia.
Qed.

(** A range whose bounds wrapped at the [usize] width reads nothing that the
    unwrapped range would not read. *)
Lemma get_range_wrap l a n :
  0 <= a <= zlen l -> 0 <= n < 2 ^ 64 -> zlen l < 2 ^ 63 ->
  get_range l a (u64_add a n) = get_range l a (a + n).
Proof.
  intros Ha Hn Hl. unfold u64_add.
  destruct (Z.lt_ge_cases (a + n) (2 ^ 64)) as [Hlt|Hge].
  - rewrite Z.mod_small by lia. reflexivity.
  - replace ((a + n) mod 2 ^ 64) with (a + n - 2 ^ 64).
    + unfold get_range. replace (_ && _) with false by lia.
      replace (_ && _) with false by lia. reflexivity.
    + apply Z.mod_unique_pos with (q := 1); lia.
Qed.

Lemma last_n_length n l : length (last_n n l) = Nat.min n (length l).
Proof. unfold last_n. rewrite length_drop. lia. Qed.

Lemma last_n_app_ge n xs ys : (n <= length ys)%nat -> last_n n (xs ++ ys) = last_n n ys.
Proof.
  intros H. unfold last_n. rewrite length_app.
  rewrite drop_app_ge by lia. f_equal. lia.
Qed.

(** Cutting before appending does not show in the last [n]. *)
Lemma last_n_app n xs ys : last_n n (last_n n xs ++ ys) = last_n n (xs ++ ys).
Proof.
  unfold last_n. rewrite !length_app, length_drop.
  destruct (Nat.le_gt_cases (length xs) n) as [Hle|Hgt].
  - replace (length xs - n)%nat with 0%nat by lia. by rewrite drop_0, Nat.sub_0_r.
  - replace (length xs - (length xs - n) + length ys - n)%nat with (length ys) by lia.
    rewrite !drop_app, drop_drop, length_drop.
    replace (length xs - n + length ys)%nat with (length xs + length ys - n)%nat by lia. f_equal. f_equal. lia.
Qed.

Lemma last_n_suffix n l : last_n n l `suffix_of` l.
Proof. unfold last_n. exists (take (length l - n) l). symmetry. apply take_drop. Qed.

Lemma last_n_all n l : (length l <= n)%nat -> last_n n l = l.
Proof. intros H. unfold last_n. replace (_ - n)%nat with 0%nat by lia. reflexivity. Qed.

(** Keeping the last [n] of a list and then appending is the same as appending
    first: the law every bounded ring of the program relies on. *)
Lemma last_n_snoc n l x :
  last_n n (last_n n l ++ [x]) = last_n n (l ++ [x]).
Proof.
  unfold last_n. rewrite !length_app, length_drop. simpl.
  destruct (Nat.le_gt_cases (length l) n) as [Hle|Hgt].
  - replace (length l - n)%nat with 0%nat by lia. rewrite drop_0.
    f_equal. lia.
  - replace (length l - (length l - n) + 1 - n)%nat with 1%nat by lia.
    replace (length l + 1 - n)%nat with (1 + (length l - n))%nat by lia.
    destruct n as [|n].
    + replace (length l - 0)%nat with (length l) by lia. rewrite drop_all.
      rewrite (drop_ge (l ++ [x])); [reflexivity|]. rewrite length_app. simpl. lia.
    + rewrite (drop_app_le l) by lia.
      rewrite drop_app_le by (rewrite length_drop; lia).
      rewrite drop_drop. f_equal. f_equal. lia.
Qed.

End Slices.

(** ** Sorting: [sort_by] is a stable insertion sort *)

Fixpoint insert_sorted {A} (le : A -> A -> bool) (x : A) (l : list A) : list A :=
  match l with
  | [] => [x]
  | y :: l' => if le x y then x :: l else y :: insert_sorted le x l'
  end.
Definition sort_by {A} (le : A -> A -> bool) (l : list A) : list A := foldr (insert_sorted le) [] l.

Section Sorting.
Context {A : Type} (le : A -> A -> bool).

Lemma insert_sorted_perm x l : insert_sorted le x l ≡ₚ x :: l.
Proof.
  induction l as [|y l IH]; cbn [insert_sorted]; [done|]. destruct (le x y); [done|]. rewrite IH. apply Permutation_swap.
Qed.
Lemma sort_by_perm l : sort_by le l ≡ₚ l.
Proof. induction l as [|x l IH]; [done|]. cbn. by rewrite insert_sorted_perm, IH. Qed.
Lemma sort_by_elem l y : y ∈ sort_by le l <-> y ∈ l.
Proof. by rewrite sort_by_perm. Qed.

(** For a total preorder the result is sorted. *)
Hypothesis le_total : forall x y, le x y = false -> le y x = true.
Hypothesis le_trans : forall x y z, le x y = true -> le y z = true -> le x z = true.
#[local] Abbreviation sorted := (StronglySorted (fun x y => le x y = true)).

Lemma insert_sorted_sorted x l : sorted l -> sorted (insert_sorted le x l).
Proof.
  induction l as [|y l IH]; intros Hs; cbn [insert_sorted]; [by repeat constructor|].
  apply StronglySorted_inv in Hs as [Hs Hy]. destruct (le x y) eqn:E.
  - constructor; [by constructor|]. constructor; [done|]. eapply Forall_impl; [exact Hy|]. intros z Hz. by eapply le_trans.
  - constructor; [by apply IH|]. rewrite insert_sorted_perm. constructor; [by apply le_total|done].
Qed.
Lemma sort_by_sorted l : sorted (sort_by le l).
Proof. induction l as [|x l IH]; [constructor|]. by apply insert_sorted_sorted. Qed.
End Sorting.

Create HintDb uma.
#[export] Hint Resolve zlen_nonneg byte_val_range : core uma.

(** ** Rust strings

    A [&str] is its UTF-8 bytes, one [ascii] per byte. *)

Definition str_of_bytes (bs : bytes) : string := String.string_of_list_byte bs.
Definition bytes_of_str (s : string) : bytes := String.list_byte_of_string s.

Lemma str_of_bytes_of_str s : str_of_bytes (bytes_of_str s) = s.
Proof. apply String.string_of_list_byte_of_string. Qed.
Lemma bytes_of_str_of_bytes bs : bytes_of_str (str_of_bytes bs) = bs.
Proof. apply String.list_byte_of_string_of_list_byte. Qed.

Definition ascii_code (c : ascii) : Z := Z.of_N (N_of_ascii c).

Definition to_ascii_lower_char (c : ascii) : ascii :=
  let n := ascii_code c in
  if (65 <=? n) && (n <=? 90) then ascii_of_N (Z.to_N (n + 32)) else c.

(** [str::to_ascii_lowercase] *)
Fixpoint to_ascii_lower (s : string) : string :=
  match s with
  | EmptyString => EmptyString
  | String c r => String (to_ascii_lower_char c) (to_ascii_lower r)
  end.

(** [str::strip_prefix] *)
Fixpoint strip_prefix (p s : string) : option string :=
  match p, s with
  | EmptyString, _ => Some s
  | String a p', String b s' => if Ascii.eqb a b then strip_prefix p' s' else None
  | String _ _, EmptyString => None
  end.

Definition starts_with (p s : string) : bool :=
  match strip_prefix p s with Some _ => true | None => false end.

Lemma strip_prefix_app p s : strip_prefix p (p +:+ s) = Some s.
Proof. induction p as [|c p IH]; simpl; [reflexivity|]. rewrite Ascii.eqb_refl. apply IH. Qed.

Lemma strip_prefix_Some p s r : strip_prefix p s = Some r -> s = p +:+ r.
Proof.
  revert s. induction p as [|c p IH]; intros s; simpl; [by intros [= ->]|].
  destruct s as [|c' s]; [discriminate|].
  destruct (Ascii.eqb_spec c c') as [->|]; [|discriminate]. intros H%IH. by subst.
Qed.

(** [str::trim_start_matches(p)] for a non-empty pattern; the fuel is the length
    of the string, each round removing at least one byte. *)
Fixpoint trim_start_matches_fuel (fuel : nat) (p s : string) : string :=
  match fuel with
  | O => s
  | S f => match strip_prefix p s with
           | Some r => trim_start_matches_fuel f p r
           | None => s
           end
  end.
Definition trim_start_matches (p s : string) : string :=
  trim_start_matches_fuel (String.length s) p s.

(** [str::trim] removes the characters with the Unicode [White_Space] property;
    these are their UTF-8 encodings. *)
Definition white_space : list bytes :=
  [ [x09]; [x0a]; [x0b]; [x0c]; [x0d]; [x20]; [xc2; x85]; [xc2; xa0]; [xe1; x9a; x80];
    [xe2; x80; x80]; [xe2; x80; x81]; [xe2; x80; x82]; [xe2; x80; x83]; [xe2; x80; x84];
    [xe2; x80; x85]; [xe2; x80; x86]; [xe2; x80; x87]; [xe2; x80; x88]; [xe2; x80; x89];
    [xe2; x80; x8a]; [xe2; x80; xa8]; [xe2; x80; xa9]; [xe2; x80; xaf]; [xe2; x81; x9f];
    [xe3; x80; x80] ]%byte.

Fixpoint strip_bytes (p s : bytes) : option bytes :=
  match p, s with
  | [], _ => Some s
  | a :: p', b :: s' => if decide (a = b) then strip_bytes p' s' else None
  | _ :: _, [] => None
  end.

Fixpoint strip_any (ps : list bytes) (s : bytes) : option bytes :=
  match ps with
  | [] => None
  | p :: ps' => match strip_bytes p s with Some r => Some r | None => strip_any ps' s end
  end.

Fixpoint trim_front (fuel : nat) (ps : list bytes) (s : bytes) : bytes :=
  match fuel with
  | O => s
  | S f => match strip_any ps s with Some r => trim_front f ps r | None => s end
  end.

Definition trim_bytes (s : bytes) : bytes :=
  let front := trim_front (length s) white_space s in
  rev (trim_front (length front) (map (@rev _) white_space) (rev front)).

(** [str::trim] *)
Definition trim (s : string) : string := str_of_bytes (trim_bytes (bytes_of_str s)).

(** [str::split(c)] for a one-byte separator: never empty. *)
Fixpoint split_on (c : ascii) (s : string) : list string :=
  match s with
  | EmptyString => [EmptyString]
  | String a r =>
      if Ascii.eqb a c then EmptyString :: split_on c r
      else match split_on c r with
           | w :: ws => String a w :: ws
           | [] => [String a EmptyString]
           end
  end.

(** [[_]::join(sep)] *)
Definition join (sep : string) (l : list string) : string := String.concat sep l.

(** ** Numbers in text: [from_str_radix], [str::parse], [format!("{}")], [format!("{:x}")] *)

Definition digit_val (radix : Z) (c : ascii) : option Z :=
  let n := ascii_code c in
  let d := if (48 <=? n) && (n <=? 57) then Some (n - 48)
           else if (97 <=? n) && (n <=? 122) then Some (n - 87)
           else if (65 <=? n) && (n <=? 90) then Some (n - 55)
           else None in
  match d with Some v => if v <? radix then Some v else None | None => None end.

Fixpoint parse_digits (radix max : Z) (s : string) (acc : Z) : option Z :=
  match s with
  | EmptyString => Some acc
  | String c r =>
      match digit_val radix c with
      | Some v => let acc' := acc * radix + v in
                  if acc' <=? max then parse_digits radix max r acc' else None
      | None => None
      end
  end.

(** An unsigned [from_str_radix] with a type's maximum: one leading [+] is
    accepted, the empty string and a lone sign are not. *)
Definition from_str_radix (radix max : Z) (s : string) : option Z :=
  let body := match strip_prefix "+" s with Some r => r | None => s end in
  match body with
  | EmptyString => None
  | _ => parse_digits radix max body 0
  end.

Definition parse_u64 (s : string) : option Z := from_str_radix 10 u64_max s.
Definition parse_u32 (s : string) : option Z := from_str_radix 10 (2 ^ 32 - 1) s.

Definition digit_char (d : Z) : ascii :=
  ascii_of_N (Z.to_N (if d <? 10 then d + 48 else d + 87)).

Fixpoint fmt_radix_fuel (fuel : nat) (radix z : Z) (acc : string) : string :=
  match fuel with
  | O => acc
  | S f => let acc' := String (digit_char (z mod radix)) acc in
           if z <? radix then acc' else fmt_radix_fuel f radix (z / radix) acc'
  end.

(** Each digit at least halves the number, so [log2 z + 1] rounds are enough. *)
Definition fmt_radix (radix z : Z) : string :=
  fmt_radix_fuel (S (Z.to_nat (Z.log2 z))) radix z EmptyString.

Definition fmt_u64 (z : Z) : string := fmt_radix 10 z.
Definition fmt_hex (z : Z) : string := fmt_radix 16 z.

Lemma digit_val_char radix d :
  0 <= d < radix -> radix <= 36 -> digit_val radix (digit_char d) = Some d.
Proof.
  intros Hd Hr. unfold digit_val, digit_char, ascii_code.
  destruct (d <? 10) eqn:E; rewrite N_ascii_embedding by lia; rewrite Z2N.id by lia.
  - replace (_ && _) with true by lia. replace (d + 48 - 48) with d by lia.
    by replace (d <? radix) with true by lia.
  - replace ((48 <=? d + 87) && _) with false by lia. replace (_ && _) with true by lia.
    replace (d + 87 - 87) with d by lia. by replace (d <? radix) with true by lia.
Qed.

Lemma fmt_radix_parse radix max fuel z acc :
  2 <= radix <= 36 -> 0 <= z <= max -> z < 2 ^ Z.of_nat fuel ->
  parse_digits radix max (fmt_radix_fuel fuel radix z acc) 0 = parse_digits radix max acc z.
Proof.
  intros Hr. revert z acc. induction fuel as [|fuel IH]; intros z acc Hz Hf.
  { simpl in Hf. replace z with 0 by lia. reflexivity. }
  pose proof (Z.mod_pos_bound z radix ltac:(lia)) as Hm.
  pose proof (Z.div_mod z radix ltac:(lia)) as Hdm.
  cbn [fmt_radix_fuel]. destruct (z <? radix) eqn:E.
  - cbn [parse_digits]. rewrite Z.mod_small by lia. rewrite digit_val_char by lia.
    replace (0 * radix + z <=? max) with true by lia. f_equal.
  - assert (0 < z / radix) by (apply Z.div_str_pos; lia).
    rewrite IH.
    + cbn [parse_digits]. rewrite digit_val_char by lia.
      replace (z / radix * radix + z mod radix) with z by lia.
      replace (z <=? max) with true by lia. reflexivity.
    + nia.
    + rewrite Nat2Z.inj_succ, Z.pow_succ_r in Hf by lia.
      apply Z.div_lt_upper_bound; nia.
Qed.

Definition is_digit (c : ascii) : Prop := is_Some (digit_val 36 c).

Lemma fmt_radix_head radix fuel z acc :
  2 <= radix <= 36 -> 0 <= z ->
  (fuel <> O \/ exists c r, acc = String c r /\ is_digit c) ->
  exists c r, fmt_radix_fuel fuel radix z acc = String c r /\ is_digit c.
Proof.
  intros Hr. revert z acc. induction fuel as [|fuel IH]; intros z acc Hz Hacc.
  { destruct Hacc as [|(c & r & -> & ?)]; [done|]. simpl. eauto. }
  pose proof (Z.mod_pos_bound z radix ltac:(lia)) as Hm.
  assert (is_digit (digit_char (z mod radix))).
  { unfold is_digit. rewrite digit_val_char by lia. eauto. }
  cbn [fmt_radix_fuel]. destruct (z <? radix); [eauto|].
  apply IH; [apply Z.div_pos; lia|]. right. eauto.
Qed.

(** Printing a machine integer and parsing it back gives the integer. *)
Lemma from_str_radix_fmt radix max z :
  2 <= radix <= 36 -> 0 <= z <= max -> from_str_radix radix max (fmt_radix radix z) = Some z.
Proof.
  intros Hr Hz. unfold from_str_radix, fmt_radix.
  destruct (fmt_radix_head radix (S (Z.to_nat (Z.log2 z))) z EmptyString) as (c & r & E & Hc);
    [done|lia|by left|].
  assert (Hp : parse_digits radix max (fmt_radix_fuel (S (Z.to_nat (Z.log2 z))) radix z "") 0 = Some z).
  { rewrite fmt_radix_parse; [done|done|done|].
    rewrite Nat2Z.inj_succ, Z2Nat.id by apply Z.log2_nonneg.
    destruct (Z.eq_dec z 0) as [->|]; [done|]. apply Z.log2_spec. lia. }
  rewrite E in *. destruct (strip_prefix "+" (String c r)) as [s|] eqn:Es.
  - apply strip_prefix_Some in Es. simpl in Es. injection Es as -> ->.
    destruct Hc as [v Hv]. discriminate Hv.
  - exact Hp.
Qed.

Lemma digit_val_nonneg radix c v : digit_val radix c = Some v -> 0 <= v < radix.
Proof.
  unfold digit_val. cbv zeta. generalize (ascii_code c) as n. intros n.
  destruct ((48 <=? n) && (n <=? 57)) eqn:E1; [|destruct ((97 <=? n) && (n <=? 122)) eqn:E2;
    [|destruct ((65 <=? n) && (n <=? 90)) eqn:E3; [|discriminate]]];
    (match goal with |- context [?v <? radix] => destruct (v <? radix) eqn:E; [|discriminate] end);
    intros H; injection H as <-; lia.
Qed.

Lemma parse_digits_bound radix max s : forall acc v,
  0 <= acc <= max -> 0 <= radix -> parse_digits radix max s acc = Some v -> 0 <= v <= max.
Proof.
  induction s as [|c s IH]; intros acc v Ha Hr; cbn [parse_digits]; [intros [= <-]; lia|].
  destruct (digit_val radix c) as [d|] eqn:E; [|done]. apply digit_val_nonneg in E.
  destruct (_ <=? max) eqn:?; [|done]. apply IH; nia.
Qed.

Lemma from_str_radix_nonneg radix max s v :
  0 <= radix -> 0 <= max -> from_str_radix radix max s = Some v -> 0 <= v <= max.
Proof.
  intros Hr Hm. unfold from_str_radix. destruct (match strip_prefix "+" s with Some r => r | None => s end); [done|].
  apply parse_digits_bound; lia.
Qed.

(** [format!("{z:0w}")] of an unsigned number. *)
Fixpoint zeros (n : nat) : string := match n with O => EmptyString | S n => String "0" (zeros n) end.
Definition fmt_padded (w : nat) (z : Z) : string :=
  let s := fmt_u64 z in zeros (w - String.length s) +:+ s.

Lemma str_app_assoc (p q r : string) : (p +:+ q) +:+ r = p +:+ (q +:+ r).
Proof. induction p as [|a p IH]; [done|]. change (String a ((p +:+ q) +:+ r) = String a (p +:+ (q +:+ r))). by rewrite IH. Qed.
Lemma str_app_nil_r (p : string) : p +:+ "" = p.
Proof. induction p as [|a p IH]; [done|]. change (String a (p +:+ "") = String a p). by rewrite IH. Qed.
Lemma str_length_app (p q : string) : String.length (p +:+ q) = (String.length p + String.length q)%nat.
Proof. induction p as [|a p IH]; [done|]. change (S (String.length (p +:+ q)) = S (String.length p + String.length q)). by rewrite IH. Qed.

(** The order of [str]: by bytes. *)
Fixpoint str_ltb (s t : string) : bool :=
  match s, t with
  | _, EmptyString => false
  | EmptyString, String _ _ => true
  | String a s, String b t =>
      (ascii_code a <? ascii_code b) || ((ascii_code a =? ascii_code b) && str_ltb s t)
  end.

Lemma ascii_code_inj a b : ascii_code a = ascii_code b -> a = b.
Proof.
  unfold ascii_code. intros E. apply N2Z.inj in E.
  rewrite <- (ascii_N_embedding a), <- (ascii_N_embedding b). by rewrite E.
Qed.

Lemma str_ltb_app p q s t : String.length p = String.length q ->
  str_ltb (p +:+ s) (q +:+ t) = str_ltb p q || (String.eqb p q && str_ltb s t).
Proof.
  revert q. induction p as [|a p IH]; intros [|b q] Hl; try done.
  change (str_ltb (String a (p +:+ s)) (String b (q +:+ t)) = str_ltb (String a p) (String b q)
          || (String.eqb (String a p) (String b q) && str_ltb s t)).
  cbn [str_ltb String.eqb]. rewrite IH by (cbn in Hl; lia).
  destruct (Ascii.eqb_spec a b) as [->|Hne].
  - by rewrite Z.ltb_irrefl, Z.eqb_refl.
  - replace (ascii_code a =? ascii_code b) with false; [|symmetry; apply Z.eqb_neq; intros E; by apply ascii_code_inj in E].
    by rewrite !andb_false_l, !orb_false_r.
Qed.

Lemma str_ltb_irrefl s : str_ltb s s = false.
Proof. induction s as [|a s IH]; [done|]. cbn [str_ltb]. by rewrite Z.ltb_irrefl, IH, andb_false_r. Qed.

Lemma str_ltb_trans s t u : str_ltb s t = true -> str_ltb t u = true -> str_ltb s u = true.
Proof.
  revert t u. induction s as [|a s IH]; intros [|b t] [|c u]; try done. cbn [str_ltb].
  rewrite !orb_true_iff, !andb_true_iff. intros [H1|[H1 H1']] [H2|[H2 H2']]; [left; lia|left; lia|left; lia|].
  right. split; [lia|by eapply IH].
Qed.

Lemma str_ltb_total s t : str_ltb s t = false -> str_ltb t s = false -> s = t.
Proof.
  revert t. induction s as [|a s IH]; intros [|b t]; try done. cbn [str_ltb].
  rewrite !orb_false_iff, !andb_false_iff. intros [H1 H1'] [H2 H2'].
  assert (ascii_code a = ascii_code b) as E by lia. rewrite (ascii_code_inj _ _ E). f_equal.
  apply IH; [destruct H1' as [|]; [lia|done]|destruct H2' as [|]; [lia|done]].
Qed.

(** ** Splitting and joining *)

Fixpoint has_char (c : ascii) (s : string) : bool :=
  match s with EmptyString => false | String a r => Ascii.eqb a c || has_char c r end.

Lemma has_char_app c s t : has_char c (s +:+ t) = has_char c s || has_char c t.
Proof. induction s as [|a s IH]; simpl; [done|]. by rewrite IH, orb_assoc. Qed.

Lemma split_on_no_char c s : Forall (fun w => has_char c w = false) (split_on c s).
Proof.
  induction s as [|a s IH]; cbn; [by repeat constructor|].
  destruct (Ascii.eqb a c) eqn:E; [by constructor|].
  destruct (split_on c s) as [|w ws]; [constructor; [cbn; by rewrite E|constructor]|].
  apply Forall_cons in IH as [? ?]. constructor; [cbn; by rewrite E|done].
Qed.

Lemma split_on_word c w rest :
  has_char c w = false -> split_on c (w +:+ String c rest) = w :: split_on c rest.
Proof.
  induction w as [|a w IH]; simpl; [by rewrite Ascii.eqb_refl|].
  intros [Ha Hw]%orb_false_iff. rewrite Ha, IH by done. done.
Qed.

Lemma split_on_last c w : has_char c w = false -> split_on c w = [w].
Proof.
  induction w as [|a w IH]; cbn; [done|]. intros [Ha Hw]%orb_false_iff. by rewrite Ha, IH.
Qed.

(** Splitting undoes joining when no part contains the separator. *)
Lemma split_on_join c ws :
  Forall (fun w => has_char c w = false) ws -> ws <> [] -> split_on c (join (String c EmptyString) ws) = ws.
Proof.
  unfold join. induction ws as [|w ws IH]; intros Hf Hne; [done|]. apply Forall_cons in Hf as [Hw Hf].
  destruct ws as [|w' ws]; [by apply split_on_last|].
  change (String.concat (String c EmptyString) (w :: w' :: ws))
    with (w +:+ String c (String.concat (String c EmptyString) (w' :: ws))).
  rewrite split_on_word by done. by rewrite IH.
Qed.

(** [str::split_once] *)
Fixpoint split_once (c : ascii) (s : string) : option (string * string) :=
  match s with
  | EmptyString => None
  | String a r => if Ascii.eqb a c then Some (EmptyString, r)
                  else match split_once c r with Some (p, q) => Some (String a p, q) | None => None end
  end.

Lemma split_once_Some c s p q : split_once c s = Some (p, q) -> s = p +:+ String c q /\ has_char c p = false.
Proof.
  revert p q. induction s as [|a s IH]; intros p q; cbn; [done|].
  destruct (Ascii.eqb a c) eqn:E; [intros [= <- <-]; apply Ascii.eqb_eq in E as ->; done|].
  destruct (split_once c s) as [[p' q']|]; [|done]. intros [= <- <-].
  destruct (IH p' q' eq_refl) as [-> ?]. split; [done|]. cbn. by rewrite E.
Qed.

Lemma split_once_None c s : split_once c s = None -> has_char c s = false.
Proof.
  induction s as [|a s IH]; cbn; [done|]. destruct (Ascii.eqb a c); [done|].
  destruct (split_once c s) as [[]|]; [done|auto].
Qed.

Lemma split_once_app c p q : has_char c p = false -> split_once c (p +:+ String c q) = Some (p, q).
Proof.
  induction p as [|a p IH]; simpl; [by rewrite Ascii.eqb_refl|]. intros [Ha Hp]%orb_false_iff.
  by rewrite Ha, IH.
Qed.

Lemma split_once_no c p : has_char c p = false -> split_once c p = None.
Proof. induction p as [|a p IH]; cbn; [done|]. intros [Ha Hp]%orb_false_iff. by rewrite Ha, IH. Qed.

Lemma digit_char_no c d : digit_val 36 c = None -> 0 <= d < 36 -> Ascii.eqb (digit_char d) c = false.
Proof.
  intros Hc Hd. apply Ascii.eqb_neq. intros <-. rewrite digit_val_char in Hc by lia. done.
Qed.

Lemma fmt_radix_no_char c radix z :
  digit_val 36 c = None -> 2 <= radix <= 36 -> has_char c (fmt_radix radix z) = false.
Proof.
  intros Hc Hr. unfold fmt_radix. generalize (S (Z.to_nat (Z.log2 z))) as fuel. intros fuel.
  assert (H : forall acc z, has_char c acc = false -> has_char c (fmt_radix_fuel fuel radix z acc) = false).
  { clear z. induction fuel as [|fuel IH]; intros acc z Ha; [done|]. cbn [fmt_radix_fuel].
    pose proof (Z.mod_pos_bound z radix ltac:(lia)).
    assert (has_char c (String (digit_char (z mod radix)) acc) = false)
      by (cbn; rewrite digit_char_no, Ha by (done || lia); done).
    destruct (z <? radix); [done|]. by apply IH. }
  by apply H.
Qed.

(** ** UTF-8 ([std::str::from_utf8]) *)

Definition cont (b : Byte.byte) : bool := (128 <=? byte_val b) && (byte_val b <=? 191).
Definition between (lo v hi : Z) : bool := (lo <=? v) && (v <=? hi).

Fixpoint utf8_valid (bs : bytes) : bool :=
  match bs with
  | [] => true
  | b0 :: r0 =>
      let v0 := byte_val b0 in
      if v0 <? 128 then utf8_valid r0 else
      match r0 with
      | [] => false
      | b1 :: r1 =>
          let v1 := byte_val b1 in
          if between 194 v0 223 then cont b1 && utf8_valid r1 else
          match r1 with
          | [] => false
          | b2 :: r2 =>
              if between 224 v0 239 then
                (if v0 =? 224 then between 160 v1 191
                 else if v0 =? 237 then between 128 v1 159 else cont b1)
                && cont b2 && utf8_valid r2
              else
              match r2 with
              | [] => false
              | b3 :: r3 =>
                  between 240 v0 244
                  && (if v0 =? 240 then between 144 v1 191
                      else if v0 =? 244 then between 128 v1 143 else cont b1)
                  && cont b2 && cont b3 && utf8_valid r3
              end
          end
      end
  end.

(** [u8::is_ascii_whitespace], [char::is_ascii_digit] *)
Definition is_ascii_ws (b : Byte.byte) : bool :=
  let v := byte_val b in (v =? 9) || (v =? 10) || (v =? 12) || (v =? 13) || (v =? 32).
Definition is_ascii_digit (b : Byte.byte) : bool := between 48 (byte_val b) 57.

Fixpoint take_while {A} (p : A -> bool) (l : list A) : list A :=
  match l with
  | [] => []
  | x :: r => if p x then x :: take_while p r else []
  end.

(** ** Bits *)

Lemma lor_shiftl_add a b s : 0 <= s -> 0 <= a < 2 ^ s -> Z.lor a (Z.shiftl b s) = a + b * 2 ^ s.
Proof.
  intros Hs Ha. rewrite <- Z.shiftl_mul_pow2 by lia.
  assert (Hland : Z.land a (Z.shiftl b s) = 0).
  { apply Z.bits_inj'. intros n Hn. rewrite Z.land_spec, Z.bits_0, Z.shiftl_spec by lia.
    destruct (Z.lt_ge_cases n s).
    - rewrite (Z.testbit_neg_r b) by lia. apply andb_false_r.
    - destruct (Z.eq_dec a 0) as [->|]; [by rewrite Z.bits_0|].
      rewrite Z.bits_above_log2; [done|lia|].
      assert (Z.log2 a < s) by (apply Z.log2_lt_pow2; lia). lia. }
  rewrite Z.add_nocarry_lxor by done. rewrite Z.lxor_lor by done. reflexivity.
Qed.

Lemma land_127 v : 0 <= v -> Z.land v 127 = v mod 128.
Proof. intros H. exact (Z.land_ones v 7 ltac:(lia)). Qed.

Lemma land_7 v : 0 <= v -> Z.land v 7 = v mod 8.
Proof. intros H. exact (Z.land_ones v 3 ltac:(lia)). Qed.
