(* ===== verification/Model.v ===== *)
(** * Model: the event and market records ([src/model.rs], [src/uma/events/common.rs])

    The domain enums with their protobuf numbering, the decoded on-chain event, the
    enriched record, and the conversion to and from the wire message that the WAL and
    the downstream frames carry.  The generated protobuf code ([pb]) is not under
    [src/]: its messages are records with the fields the program reads and writes, and
    the numbers the .proto file assigns to the enum constants are a parameter
    ([WireNumbers]). *)
From S2P Require Import Prelude.

Module pb.
Inductive EventType : Set := EventType_Unspecified | EventType_Propose | EventType_Dispute.
Inductive PriceOutcome : Set :=
| PO_Unspecified | PO_Token0 | PO_Token1 | PO_Tie.
Inductive Category : Set :=
| Cat_Unspecified | Cat_Sports | Cat_Esports | Cat_Politics | Cat_Crypto | Cat_Culture
| Cat_Weather | Cat_Other | Cat_Mentions.
Inductive BetType : Set :=
| BT_Unspecified | BT_Moneyline | BT_Spread | BT_OverUnder | BT_GameWinner | BT_Outright
| BT_SportsProp | BT_TempHigh | BT_TempLow | BT_Precipitation | BT_Storm | BT_WeatherOther
| BT_PriceTarget | BT_PriceThreshold | BT_UpDown | BT_CryptoProp | BT_ElectionWinner | BT_FedRateDecision
| BT_TweetCount | BT_PoliticsProp | BT_AwardWinner | BT_MediaMetricRange | BT_CultureProp | BT_MentionTerm
| BT_MentionCount | BT_MentionProp.

Definition all_event_types := [EventType_Unspecified; EventType_Propose; EventType_Dispute].
Definition all_price_outcomes := [PO_Unspecified; PO_Token0; PO_Token1; PO_Tie].
Definition all_categories :=
  [Cat_Unspecified; Cat_Sports; Cat_Esports; Cat_Politics; Cat_Crypto; Cat_Culture; Cat_Weather; Cat_Other; Cat_Mentions].
Definition all_bet_types :=
  [BT_Unspecified; BT_Moneyline; BT_Spread; BT_OverUnder; BT_GameWinner; BT_Outright;
   BT_SportsProp; BT_TempHigh; BT_TempLow; BT_Precipitation; BT_Storm; BT_WeatherOther;
   BT_PriceTarget; BT_PriceThreshold; BT_UpDown; BT_CryptoProp; BT_ElectionWinner;
   BT_FedRateDecision; BT_TweetCount; BT_PoliticsProp; BT_AwardWinner; BT_MediaMetricRange;
   BT_CultureProp; BT_MentionTerm; BT_MentionCount; BT_MentionProp].

(** The message [polyuma.wire.v1.UmaEvent]. *)
Record UmaEvent := {
  sequence : Z;
  event_type : Z;
  transaction_hash : bytes;
  log_index : Z;
  market_id : Z;
  condition_id : bytes;
  token_ids : list bytes;
  tag_ids : list Z;
  upstream_received_at_us : Z;
  removed : bool;
  enrichment_status : Z;
  price_outcome : Z;
  category : Z;
  bet_type : Z;
  neg_risk : bool }.

(** The message [polyuma.wire.v1.UmaBatch]. *)
Record UmaBatch := {
  schema_version : Z;
  batch_sequence : Z;
  sent_at_us : Z;
  events : list UmaEvent }.
End pb.

(** The constants' numbers in the .proto file: distinct within an enum, the first
    one zero (proto3).  The catalog file also stores a category in one byte and a
    bet type in four, so they are bounded accordingly. *)
Class WireNumbers := {
  EventType_num : pb.EventType -> Z;
  PriceOutcome_num : pb.PriceOutcome -> Z;
  Category_num : pb.Category -> Z;
  BetType_num : pb.BetType -> Z;
  EnrichmentStatus_Hit : Z;
  EnrichmentStatus_Miss : Z;
  EventType_num_inj : Inj (=) (=) EventType_num;
  PriceOutcome_num_inj : Inj (=) (=) PriceOutcome_num;
  Category_num_inj : Inj (=) (=) Category_num;
  BetType_num_inj : Inj (=) (=) BetType_num;
  EnrichmentStatus_distinct : EnrichmentStatus_Hit <> EnrichmentStatus_Miss;
  Category_num_byte : forall c, 0 <= Category_num c < 256;
  BetType_num_i32 : forall b, 0 <= BetType_num b < 2 ^ 31 }.

(** [T::try_from(i32)] of a generated enum: the constant with that number. *)
Definition pb_try_from {T} (num : T -> Z) (all : list T) (v : Z) : option T :=
  List.find (fun t => num t =? v) all.

#[global] Arguments pb_try_from : simpl never.

Lemma pb_try_from_num {T} (num : T -> Z) (all : list T) t :
  Inj (=) (=) num -> t ∈ all -> pb_try_from num all (num t) = Some t.
Proof.
  intros Hinj. unfold pb_try_from. induction all as [|a all IH]; [by intros ?%elem_of_nil|].
  intros Ht. simpl. destruct (num a =? num t) eqn:E.
  - apply Z.eqb_eq, Hinj in E. by subst.
  - apply IH. apply elem_of_cons in Ht as [->|]; [lia|done].
Qed.

(** ** Enums *)

Inductive EventKind : Set := Propose | Dispute.
Inductive PriceOutcome : Set :=
| Outcome_Unspecified | Outcome_Token0 | Outcome_Token1 | Outcome_Tie.
Inductive Category : Set :=
| Category_Unspecified | Category_Sports | Category_Esports | Category_Politics | Category_Crypto | Category_Culture
| Category_Weather | Category_Other | Category_Mentions.
Inductive BetType : Set :=
| Bet_Unspecified | Bet_Moneyline | Bet_Spread | Bet_OverUnder | Bet_GameWinner | Bet_Outright
| Bet_SportsProp | Bet_TempHigh | Bet_TempLow | Bet_Precipitation | Bet_Storm | Bet_WeatherOther
| Bet_PriceTarget | Bet_PriceThreshold | Bet_UpDown | Bet_CryptoProp | Bet_ElectionWinner | Bet_FedRateDecision
| Bet_TweetCount | Bet_PoliticsProp | Bet_AwardWinner | Bet_MediaMetricRange | Bet_CultureProp | Bet_MentionTerm
| Bet_MentionCount | Bet_MentionProp.
#[global] Instance EventKind_eq_dec : EqDecision EventKind.
Proof. solve_decision. Defined.
#[global] Instance PriceOutcome_eq_dec : EqDecision PriceOutcome.
Proof. solve_decision. Defined.
#[global] Instance Category_eq_dec : EqDecision Category.
Proof. solve_decision. Defined.
#[global] Instance BetType_eq_dec : EqDecision BetType.
Proof. solve_decision. Defined.

Section Proto.
Context `{WireNumbers}.

Definition EventKind_to_proto (k : EventKind) : Z :=
  match k with
  | Propose => EventType_num pb.EventType_Propose
  | Dispute => EventType_num pb.EventType_Dispute
  end.

Definition EventKind_from_proto (v : Z) : option EventKind :=
  match pb_try_from EventType_num pb.all_event_types v with
  | Some pb.EventType_Propose => Some Propose
  | Some pb.EventType_Dispute => Some Dispute
  | Some pb.EventType_Unspecified | None => None
  end.

Definition PriceOutcome_to_proto (x : PriceOutcome) : Z :=
  match x with
  | Outcome_Unspecified => PriceOutcome_num pb.PO_Unspecified
  | Outcome_Token0 => PriceOutcome_num pb.PO_Token0
  | Outcome_Token1 => PriceOutcome_num pb.PO_Token1
  | Outcome_Tie => PriceOutcome_num pb.PO_Tie
  end.

Definition PriceOutcome_from_proto (v : Z) : PriceOutcome :=
  match default pb.PO_Unspecified (pb_try_from PriceOutcome_num pb.all_price_outcomes v) with
  | pb.PO_Unspecified => Outcome_Unspecified
  | pb.PO_Token0 => Outcome_Token0
  | pb.PO_Token1 => Outcome_Token1
  | pb.PO_Tie => Outcome_Tie
  end.

Definition Category_to_proto (x : Category) : Z :=
  match x with
  | Category_Unspecified => Category_num pb.Cat_Unspecified
  | Category_Sports => Category_num pb.Cat_Sports
  | Category_Esports => Category_num pb.Cat_Esports
  | Category_Politics => Category_num pb.Cat_Politics
  | Category_Crypto => Category_num pb.Cat_Crypto
  | Category_Culture => Category_num pb.Cat_Culture
  | Category_Weather => Category_num pb.Cat_Weather
  | Category_Other => Category_num pb.Cat_Other
  | Category_Mentions => Category_num pb.Cat_Mentions
  end.

Definition Category_from_proto (v : Z) : Category :=
  match default pb.Cat_Unspecified (pb_try_from Category_num pb.all_categories v) with
  | pb.Cat_Unspecified => Category_Unspecified
  | pb.Cat_Sports => Category_Sports
  | pb.Cat_Esports => Category_Esports
  | pb.Cat_Politics => Category_Politics
  | pb.Cat_Crypto => Category_Crypto
  | pb.Cat_Culture => Category_Culture
  | pb.Cat_Weather => Category_Weather
  | pb.Cat_Other => Category_Other
  | pb.Cat_Mentions => Category_Mentions
  end.

Definition BetType_to_proto (x : BetType) : Z :=
  match x with
  | Bet_Unspecified => BetType_num pb.BT_Unspecified
  | Bet_Moneyline => BetType_num pb.BT_Moneyline
  | Bet_Spread => BetType_num pb.BT_Spread
  | Bet_OverUnder => BetType_num pb.BT_OverUnder
  | Bet_GameWinner => BetType_num pb.BT_GameWinner
  | Bet_Outright => BetType_num pb.BT_Outright
  | Bet_SportsProp => BetType_num pb.BT_SportsProp
  | Bet_TempHigh => BetType_num pb.BT_TempHigh
  | Bet_TempLow => BetType_num pb.BT_TempLow
  | Bet_Precipitation => BetType_num pb.BT_Precipitation
  | Bet_Storm => BetType_num pb.BT_Storm
  | Bet_WeatherOther => BetType_num pb.BT_WeatherOther
  | Bet_PriceTarget => BetType_num pb.BT_PriceTarget
  | Bet_PriceThreshold => BetType_num pb.BT_PriceThreshold
  | Bet_UpDown => BetType_num pb.BT_UpDown
  | Bet_CryptoProp => BetType_num pb.BT_CryptoProp
  | Bet_ElectionWinner => BetType_num pb.BT_ElectionWinner
  | Bet_FedRateDecision => BetType_num pb.BT_FedRateDecision
  | Bet_TweetCount => BetType_num pb.BT_TweetCount
  | Bet_PoliticsProp => BetType_num pb.BT_PoliticsProp
  | Bet_AwardWinner => BetType_num pb.BT_AwardWinner
  | Bet_MediaMetricRange => BetType_num pb.BT_MediaMetricRange
  | Bet_CultureProp => BetType_num pb.BT_CultureProp
  | Bet_MentionTerm => BetType_num pb.BT_MentionTerm
  | Bet_MentionCount => BetType_num pb.BT_MentionCount
  | Bet_MentionProp => BetType_num pb.BT_MentionProp
  end.

Definition BetType_from_proto (v : Z) : BetType :=
  match default pb.BT_Unspecified (pb_try_from BetType_num pb.all_bet_types v) with
  | pb.BT_Unspecified => Bet_Unspecified
  | pb.BT_Moneyline => Bet_Moneyline
  | pb.BT_Spread => Bet_Spread
  | pb.BT_OverUnder => Bet_OverUnder
  | pb.BT_GameWinner => Bet_GameWinner
  | pb.BT_Outright => Bet_Outright
  | pb.BT_SportsProp => Bet_SportsProp
  | pb.BT_TempHigh => Bet_TempHigh
  | pb.BT_TempLow => Bet_TempLow
  | pb.BT_Precipitation => Bet_Precipitation
  | pb.BT_Storm => Bet_Storm
  | pb.BT_WeatherOther => Bet_WeatherOther
  | pb.BT_PriceTarget => Bet_PriceTarget
  | pb.BT_PriceThreshold => Bet_PriceThreshold
  | pb.BT_UpDown => Bet_UpDown
  | pb.BT_CryptoProp => Bet_CryptoProp
  | pb.BT_ElectionWinner => Bet_ElectionWinner
  | pb.BT_FedRateDecision => Bet_FedRateDecision
  | pb.BT_TweetCount => Bet_TweetCount
  | pb.BT_PoliticsProp => Bet_PoliticsProp
  | pb.BT_AwardWinner => Bet_AwardWinner
  | pb.BT_MediaMetricRange => Bet_MediaMetricRange
  | pb.BT_CultureProp => Bet_CultureProp
  | pb.BT_MentionTerm => Bet_MentionTerm
  | pb.BT_MentionCount => Bet_MentionCount
  | pb.BT_MentionProp => Bet_MentionProp
  end.

(** Every enum value survives the trip through its protobuf number. *)
Lemma EventKind_proto_rt k : EventKind_from_proto (EventKind_to_proto k) = Some k.
Proof.
  unfold EventKind_from_proto. destruct k; cbn;
    (rewrite pb_try_from_num; [reflexivity|apply EventType_num_inj|set_solver]).
Qed.
Lemma PriceOutcome_proto_rt x : PriceOutcome_from_proto (PriceOutcome_to_proto x) = x.
Proof.
  unfold PriceOutcome_from_proto. destruct x; cbn;
    (rewrite pb_try_from_num; [reflexivity|apply PriceOutcome_num_inj|set_solver]).
Qed.
Lemma Category_proto_rt x : Category_from_proto (Category_to_proto x) = x.
Proof.
  unfold Category_from_proto. destruct x; cbn;
    (rewrite pb_try_from_num; [reflexivity|apply Category_num_inj|set_solver]).
Qed.
Lemma BetType_proto_rt x : BetType_from_proto (BetType_to_proto x) = x.
Proof.
  unfold BetType_from_proto. destruct x; cbn;
    (rewrite pb_try_from_num; [reflexivity|apply BetType_num_inj|set_solver]).
Qed.
End Proto.

(** [PriceOutcome::from_propose_price]: the three prices the adapter contract accepts. *)
Definition token0_price : bytes := replicate 24 Byte.x00 ++ be_encode 8 1000000000000000000.
Definition tie_price : bytes := replicate 24 Byte.x00 ++ be_encode 8 500000000000000000.

Definition from_propose_price (proposed_price : bytes) : PriceOutcome :=
  if forallb (fun b => byte_val b =? 0) proposed_price then Outcome_Token1
  else if decide (proposed_price = token0_price) then Outcome_Token0
  else if decide (proposed_price = tie_price) then Outcome_Tie
  else Outcome_Unspecified.

(** ** Decoded events *)

Record ChainLog := {
  block_number : Z;
  transaction_hash : bytes;
  log_index : Z;
  upstream_received_at_us : Z;
  removed : bool }.

Record PolymarketAncillary := {
  question_id : bytes;
  anc_market_id : option Z }.

Record PriceRequest := {
  requester : bytes;
  req_condition_id : bytes;
  ancillary : PolymarketAncillary;
  proposed_price : bytes }.

Record SignalLog := { chain_log : ChainLog; price_request : PriceRequest }.

Inductive UmaEvent :=
| ProposePrice (e : SignalLog)
| DisputePrice (e : SignalLog).

Definition event_kind (e : UmaEvent) : EventKind :=
  match e with ProposePrice _ => Propose | DisputePrice _ => Dispute end.

Definition event_chain (e : UmaEvent) : ChainLog :=
  match e with ProposePrice s => chain_log s | DisputePrice s => chain_log s end.

Definition event_request (e : UmaEvent) : PriceRequest :=
  match e with ProposePrice s => price_request s | DisputePrice s => price_request s end.

Definition event_market_id (e : UmaEvent) : Z :=
  default 0 (anc_market_id (ancillary (event_request e))).

(** ** Enriched records *)

Record MarketEnrichment := {
  market_id : Z;
  condition_id : bytes;
  token_ids : list bytes;
  tag_ids : list Z;
  category : Category;
  bet_type : BetType;
  neg_risk : bool }.

#[global] Instance MarketEnrichment_eq_dec : EqDecision MarketEnrichment.
Proof. solve_decision. Defined.

Record EventKey := {
  key_transaction_hash : bytes;
  key_log_index : Z;
  key_removed : bool }.

#[global] Instance EventKey_eq_dec : EqDecision EventKey.
Proof. solve_decision. Defined.

#[global] Program Instance EventKey_countable : Countable EventKey :=
  inj_countable' (fun k => (key_transaction_hash k, key_log_index k, key_removed k))
                 (fun '(h, i, r) => {| key_transaction_hash := h; key_log_index := i; key_removed := r |}) _.
Next Obligation. by intros []. Qed.

Record EventRecord := {
  sequence : Z;
  event : UmaEvent;
  enrichment : option MarketEnrichment;
  price_outcome : PriceOutcome }.

Definition chain_key (c : ChainLog) : EventKey :=
  {| key_transaction_hash := transaction_hash c; key_log_index := log_index c;
     key_removed := removed c |}.

Definition record_key (r : EventRecord) : EventKey :=
  {| key_transaction_hash := transaction_hash (event_chain (event r));
     key_log_index := log_index (event_chain (event r));
     key_removed := removed (event_chain (event r)) |}.

Definition resolved_condition_id (r : EventRecord) : bytes :=
  match enrichment r with
  | Some e => condition_id e
  | None => req_condition_id (event_request (event r))
  end.

Section Records.
Context `{WireNumbers}.

Definition to_proto (r : EventRecord) : pb.UmaEvent :=
  let chain := event_chain (event r) in
  {| pb.sequence := sequence r;
     pb.event_type := EventKind_to_proto (event_kind (event r));
     pb.transaction_hash := transaction_hash chain;
     pb.log_index := log_index chain;
     pb.market_id := event_market_id (event r);
     pb.condition_id := resolved_condition_id r;
     pb.token_ids := match enrichment r with Some v => token_ids v | None => [] end;
     pb.tag_ids := match enrichment r with Some v => tag_ids v | None => [] end;
     pb.upstream_received_at_us := upstream_received_at_us chain;
     pb.removed := removed chain;
     pb.enrichment_status :=
       match enrichment r with Some _ => EnrichmentStatus_Hit | None => EnrichmentStatus_Miss end;
     pb.price_outcome := PriceOutcome_to_proto (price_outcome r);
     pb.category :=
       Category_to_proto (match enrichment r with Some v => category v | None => Category_Unspecified end);
     pb.bet_type :=
       BetType_to_proto (match enrichment r with Some v => bet_type v | None => Bet_Unspecified end);
     pb.neg_risk := match enrichment r with Some v => neg_risk v | None => false end |}.

(** [fixed::<32>] *)
Definition fixed32 (v : bytes) : option bytes := if decide (length v = 32%nat) then Some v else None.

Definition from_proto (v : pb.UmaEvent) : option EventRecord :=
  cid ← fixed32 (pb.condition_id v);
  let enr :=
    if pb.enrichment_status v =? EnrichmentStatus_Hit then
      Some {| market_id := pb.market_id v; condition_id := cid;
              token_ids := omap fixed32 (pb.token_ids v);
              tag_ids := pb.tag_ids v;
              category := Category_from_proto (pb.category v);
              bet_type := BetType_from_proto (pb.bet_type v);
              neg_risk := pb.neg_risk v |}
    else None in
  kind ← EventKind_from_proto (pb.event_type v);
  hash ← fixed32 (pb.transaction_hash v);
  let chain := {| block_number := 0; transaction_hash := hash;
                  log_index := pb.log_index v;
                  upstream_received_at_us := pb.upstream_received_at_us v;
                  removed := pb.removed v |} in
  let request := {| requester := replicate 20 Byte.x00;
                    req_condition_id := cid;
                    ancillary := {| question_id := replicate 32 Byte.x00;
                                    anc_market_id := if pb.market_id v =? 0 then None
                                                     else Some (pb.market_id v) |};
                    proposed_price := replicate 32 Byte.x00 |} in
  let s := {| chain_log := chain; price_request := request |} in
  Some {| sequence := pb.sequence v;
          event := match kind with Propose => ProposePrice s | Dispute => DisputePrice s end;
          enrichment := enr;
          price_outcome := PriceOutcome_from_proto (pb.price_outcome v) |}.
End Records.

(** ** What a record keeps across a persist and reload *)

(** The array lengths the Rust types guarantee. *)
Record wf_market (m : MarketEnrichment) : Prop := {
  wf_market_cid : length (condition_id m) = 32%nat;
  wf_market_tokens : Forall (fun t => length t = 32%nat) (token_ids m) }.

Record wf_record (r : EventRecord) : Prop := {
  wf_record_hash : length (transaction_hash (event_chain (event r))) = 32%nat;
  wf_record_cid : length (req_condition_id (event_request (event r))) = 32%nat;
  wf_record_market : forall m, enrichment r = Some m -> wf_market m }.

(** The record a reload produces: the block number, the requester, the question and the
    proposed price are gone, the market id is the event's own. *)
Definition persisted_view (r : EventRecord) : EventRecord :=
  let cid := resolved_condition_id r in
  let mid := event_market_id (event r) in
  let c := event_chain (event r) in
  let s := {| chain_log := {| block_number := 0; transaction_hash := transaction_hash c;
                              log_index := log_index c;
                              upstream_received_at_us := upstream_received_at_us c;
                              removed := removed c |};
              price_request :=
                {| requester := replicate 20 Byte.x00; req_condition_id := cid;
                   ancillary := {| question_id := replicate 32 Byte.x00;
                                   anc_market_id := if mid =? 0 then None else Some mid |};
                   proposed_price := replicate 32 Byte.x00 |} |} in
  {| sequence := sequence r;
     event := match event_kind (event r) with Propose => ProposePrice s | Dispute => DisputePrice s end;
     enrichment := match enrichment r with
                   | Some m => Some {| market_id := mid; condition_id := condition_id m;
                                       token_ids := token_ids m; tag_ids := tag_ids m;
                                       category := category m; bet_type := bet_type m;
                                       neg_risk := neg_risk m |}
                   | None => None
                   end;
     price_outcome := price_outcome r |}.

Lemma fixed32_ok v : length v = 32%nat -> fixed32 v = Some v.
Proof. intros H. unfold fixed32. by rewrite decide_True. Qed.

Lemma fixed32_all l : Forall (fun t => length t = 32%nat) l -> omap fixed32 l = l.
Proof. induction 1 as [|t l Ht Hl IH]; [done|]. cbn. rewrite fixed32_ok by done. cbn. f_equal. exact IH. Qed.

Lemma resolved_condition_id_length r : wf_record r -> length (resolved_condition_id r) = 32%nat.
Proof.
  intros [_ Hc Hm]. unfold resolved_condition_id.
  destruct (enrichment r) as [m|]; [apply (Hm m eq_refl)|done].
Qed.

Lemma persisted_view_key r : record_key (persisted_view r) = record_key r.
Proof. unfold persisted_view, record_key. destruct (event r); reflexivity. Qed.

Lemma persisted_view_cid r : resolved_condition_id (persisted_view r) = resolved_condition_id r.
Proof.
  unfold resolved_condition_id, persisted_view. simpl.
  destruct (enrichment r) as [m|] eqn:E; simpl; [done|].
  unfold resolved_condition_id. rewrite E. destruct (event r); reflexivity.
Qed.

Lemma persisted_view_market r : event_market_id (event (persisted_view r)) = event_market_id (event r).
Proof.
  unfold persisted_view, event_market_id. destruct (event r) as [s|s]; simpl;
    (destruct (default 0 _ =? 0) eqn:E; simpl; lia).
Qed.

Section RecordProofs.
Context `{WireNumbers}.

Lemma from_to_proto r : wf_record r -> from_proto (to_proto r) = Some (persisted_view r).
Proof.
  intros Hwf. pose proof (resolved_condition_id_length r Hwf) as Hcid.
  destruct Hwf as [Hh Hc Hm].
  unfold from_proto, to_proto. cbn.
  rewrite fixed32_ok by done. cbn. rewrite EventKind_proto_rt. cbn.
  rewrite fixed32_ok by done. cbn. rewrite PriceOutcome_proto_rt.
  unfold persisted_view. repeat f_equal.
  unfold resolved_condition_id. destruct (enrichment r) as [m|] eqn:E.
  - destruct (Hm m eq_refl) as [_ Ht].
    rewrite Z.eqb_refl, Category_proto_rt, BetType_proto_rt, fixed32_all by done. reflexivity.
  - destruct (Z.eqb_spec EnrichmentStatus_Miss EnrichmentStatus_Hit) as [Heq|]; [|reflexivity].
    symmetry in Heq. by apply EnrichmentStatus_distinct in Heq.
Qed.
End RecordProofs.

(** ** A numbering and a record for the examples *)

Fixpoint number_in `{EqDecision T} (n : Z) (all : list T) (t : T) : Z :=
  match all with [] => n | a :: all => if decide (a = t) then n else number_in (n + 1) all t end.

#[global] Instance pb_EventType_eq_dec : EqDecision pb.EventType.
Proof. solve_decision. Defined.
#[global] Instance pb_PriceOutcome_eq_dec : EqDecision pb.PriceOutcome.
Proof. solve_decision. Defined.
#[global] Instance pb_Category_eq_dec : EqDecision pb.Category.
Proof. solve_decision. Defined.
#[global] Instance pb_BetType_eq_dec : EqDecision pb.BetType.
Proof. solve_decision. Defined.

Definition number_of_event_type : pb.EventType -> Z := number_in 0 pb.all_event_types.
Definition number_of_outcome : pb.PriceOutcome -> Z := number_in 0 pb.all_price_outcomes.
Definition number_of_category : pb.Category -> Z := number_in 0 pb.all_categories.
Definition number_of_bet_type : pb.BetType -> Z := number_in 0 pb.all_bet_types.

Definition sample_numbers : WireNumbers.
Proof.
  refine {| EventType_num := number_of_event_type;
            PriceOutcome_num := number_of_outcome;
            Category_num := number_of_category;
            BetType_num := number_of_bet_type;
            EnrichmentStatus_Hit := 1; EnrichmentStatus_Miss := 2 |};
    first [discriminate | intros a b; destruct a, b; vm_compute; intros; congruence
          | intros a; destruct a; vm_compute; split; congruence].
Defined.

Definition sample_market : MarketEnrichment :=
  {| market_id := 512; condition_id := replicate 32 x01;
     token_ids := [replicate 32 x02; replicate 32 x03]; tag_ids := [5; 9];
     category := Category_Sports; bet_type := Bet_Moneyline; neg_risk := false |}.

Definition sample_record (seq : Z) : EventRecord :=
  {| sequence := seq;
     event := ProposePrice
       {| chain_log := {| block_number := 77; transaction_hash := replicate 32 xaa; log_index := 3;
                          upstream_received_at_us := 1600; removed := false |};
          price_request := {| requester := replicate 20 x11; req_condition_id := replicate 32 x01;
                              ancillary := {| question_id := replicate 32 x04; anc_market_id := Some 512 |};
                              proposed_price := replicate 32 x00 |} |};
     enrichment := Some sample_market;
     price_outcome := Outcome_Token1 |}.
