(* ===== verification/WireFrame.v ===== *)
(** * WireFrame: the downstream frame ([src/wire.rs], [src/edge/frame.rs])

    [encode_frame] is what the main service puts on the wire, [parse_frame] is the
    edge's partial parser: a header check and a hand-written walk over the protobuf
    fields.  The protobuf wire format itself is given here as a reference encoder
    ([Wire]); prost's message encoding and zstd are parameters. *)
From S2P Require Import Prelude Model.

Definition MAGIC : bytes := bytes_of_str "UMA1".
Definition HEADER_LEN : Z := 12.
Definition FLAG_ZSTD : Z := 1.
Definition SCHEMA_VERSION : Z := 1.
Definition MAX_DECOMPRESSED : Z := 262144.

(** ** The edge's parser *)

Record FrameInfo := {
  compressed : bool;
  schema : Z;
  payload_size : Z;
  info_batch_sequence : Z;
  info_sent_at_us : Z;
  last_event_sequence : Z }.

#[global] Instance FrameInfo_eq_dec : EqDecision FrameInfo.
Proof. solve_decision. Defined.

Definition set_batch_sequence (v : Z) (i : FrameInfo) : FrameInfo :=
  {| compressed := compressed i; schema := schema i; payload_size := payload_size i;
     info_batch_sequence := v; info_sent_at_us := info_sent_at_us i;
     last_event_sequence := last_event_sequence i |}.
Definition set_sent_at_us (v : Z) (i : FrameInfo) : FrameInfo :=
  {| compressed := compressed i; schema := schema i; payload_size := payload_size i;
     info_batch_sequence := info_batch_sequence i; info_sent_at_us := v;
     last_event_sequence := last_event_sequence i |}.
Definition set_last_event_sequence (v : Z) (i : FrameInfo) : FrameInfo :=
  {| compressed := compressed i; schema := schema i; payload_size := payload_size i;
     info_batch_sequence := info_batch_sequence i; info_sent_at_us := info_sent_at_us i;
     last_event_sequence := v |}.

Inductive BadFrame : Set :=
| TooShort
| BadMagic
| TruncatedVarint
| TruncatedField
| WireType (w : Z).

#[global] Instance BadFrame_eq_dec : EqDecision BadFrame.
Proof. solve_decision. Defined.

Record Cursor := { buf : bytes; pos : Z }.

Definition cursor_done (c : Cursor) : bool := zlen (buf c) <=? pos c.
Definition cursor_at (c : Cursor) (p : Z) : Cursor := {| buf := buf c; pos := p |}.

(** The loop of [Cursor::varint]: [shift] grows by 7 from 0 and a byte with the high
    bit at [shift = 70] is an error, so eleven rounds are enough (fuel below). *)
Fixpoint varint_loop (fuel : nat) (c : Cursor) (value shift : Z) : result BadFrame (Z * Cursor) :=
  match fuel with
  | O => Err TruncatedVarint
  | S f =>
      byte ← ok_or TruncatedVarint (get_at (buf c) (pos c));
      let c := cursor_at c (pos c + 1) in
      let value := if shift <? 64
                   then Z.lor value (Z.shiftl (Z.land (byte_val byte) 127) shift mod 2 ^ 64)
                   else value in
      if Z.land (byte_val byte) 128 =? 0 then Ok (value, c)
      else let shift := shift + 7 in
           if 70 <? shift then Err TruncatedVarint else varint_loop f c value shift
  end.

Definition cursor_varint (c : Cursor) : result BadFrame (Z * Cursor) := varint_loop 11 c 0 0.

Definition cursor_bytes (c : Cursor) : result BadFrame (bytes * Cursor) :=
  '(len, c) ← cursor_varint c;
  e ← ok_or TruncatedField (u64_checked_add (pos c) len);
  slice ← ok_or TruncatedField (get_range (buf c) (pos c) e);
  Ok (slice, cursor_at c e).

Definition cursor_advance (c : Cursor) (n : Z) : result BadFrame Cursor :=
  e ← ok_or TruncatedField (u64_checked_add (pos c) n);
  if zlen (buf c) <? e then Err TruncatedField else Ok (cursor_at c e).

Definition cursor_skip (c : Cursor) (wire : Z) : result BadFrame Cursor :=
  if wire =? 0 then '(_, c) ← cursor_varint c; Ok c
  else if wire =? 1 then cursor_advance c 8
  else if wire =? 2 then '(_, c) ← cursor_bytes c; Ok c
  else if wire =? 5 then cursor_advance c 4
  else Err (WireType wire).

(** [while !cursor.done()]: a round reads at least the key byte, so the fuel
    [length + 1] is never used up; [None] marks that impossible case. *)
Fixpoint walk_event_loop (fuel : nat) (c : Cursor) (seq : Z) : option (result BadFrame Z) :=
  match fuel with
  | O => None
  | S f =>
      if cursor_done c then Some (Ok seq) else
      match cursor_varint c with
      | Err e => Some (Err e)
      | Ok (key, c) =>
          let wire := Z.land key 7 in
          if (Z.shiftr key 3 =? 1) && (wire =? 0) then
            match cursor_varint c with
            | Err e => Some (Err e)
            | Ok (v, c) => walk_event_loop f c v
            end
          else
            match cursor_skip c wire with
            | Err e => Some (Err e)
            | Ok c => walk_event_loop f c seq
            end
      end
  end.

Definition walk_event (payload : bytes) : option (result BadFrame Z) :=
  walk_event_loop (S (length payload)) {| buf := payload; pos := 0 |} 0.

Fixpoint walk_batch_loop (fuel : nat) (c : Cursor) (info : FrameInfo)
  : option (result BadFrame FrameInfo) :=
  match fuel with
  | O => None
  | S f =>
      if cursor_done c then Some (Ok info) else
      match cursor_varint c with
      | Err e => Some (Err e)
      | Ok (key, c) =>
          let field := Z.shiftr key 3 in
          let wire := Z.land key 7 in
          if (field =? 2) && (wire =? 0) then
            match cursor_varint c with
            | Err e => Some (Err e)
            | Ok (v, c) => walk_batch_loop f c (set_batch_sequence v info)
            end
          else if (field =? 3) && (wire =? 0) then
            match cursor_varint c with
            | Err e => Some (Err e)
            | Ok (v, c) => walk_batch_loop f c (set_sent_at_us v info)
            end
          else if (field =? 4) && (wire =? 2) then
            match cursor_bytes c with
            | Err e => Some (Err e)
            | Ok (event, c) =>
                match walk_event event with
                | None => None
                | Some (Err e) => Some (Err e)
                | Some (Ok seq) =>
                    walk_batch_loop f c
                      (set_last_event_sequence (Z.max (last_event_sequence info) seq) info)
                end
            end
          else
            match cursor_skip c wire with
            | Err e => Some (Err e)
            | Ok c => walk_batch_loop f c info
            end
      end
  end.

Definition walk_batch (payload : bytes) (info : FrameInfo) : option (result BadFrame FrameInfo) :=
  walk_batch_loop (S (length payload)) {| buf := payload; pos := 0 |} info.

Section ParseFrame.
(** [zstd::bulk::decompress(data, capacity)] *)
Variable zstd_decompress : bytes -> Z -> option bytes.

Definition parse_frame (bs : bytes) : option (result BadFrame FrameInfo) :=
  if zlen bs <? HEADER_LEN then Some (Err TooShort) else
  if decide (take 4 bs = MAGIC) then
    let at_ i := match bs !! i with Some b => byte_val b | None => 0 end in
    let flags := at_ 4%nat in
    let size := be_decode (take 4 (drop 8 bs)) in
    let body := drop 12 bs in
    let info := {| compressed := negb (Z.land flags FLAG_ZSTD =? 0);
                   schema := at_ 5%nat;
                   payload_size := size;
                   info_batch_sequence := 0; info_sent_at_us := 0; last_event_sequence := 0 |} in
    if compressed info then
      match zstd_decompress body (Z.min size MAX_DECOMPRESSED) with
      | Some payload => walk_batch payload info
      | None => Some (Ok info)
      end
    else walk_batch body info
  else Some (Err BadMagic).
End ParseFrame.

(** ** The protobuf wire format *)

Module Wire.
Inductive value :=
| Varint (n : Z)
| I64 (b : bytes)
| Len (b : bytes)
| I32 (b : bytes).

Record field := { num : Z; val : value }.

(** Base-128 varint, least significant group first; ten bytes hold a [u64]. *)
Fixpoint varint_fuel (fuel : nat) (n : Z) : bytes :=
  match fuel with
  | O => []
  | S f => if n <? 128 then [byte_of n] else byte_of (128 + n mod 128) :: varint_fuel f (n / 128)
  end.
Definition varint (n : Z) : bytes := varint_fuel 10 n.

Definition wire_type (v : value) : Z :=
  match v with Varint _ => 0 | I64 _ => 1 | Len _ => 2 | I32 _ => 5 end.

Definition payload (v : value) : bytes :=
  match v with
  | Varint n => varint n
  | I64 b | I32 b => b
  | Len b => varint (zlen b) ++ b
  end.

Definition encode_field (f : field) : bytes :=
  varint (num f * 8 + wire_type (val f)) ++ payload (val f).

Definition encode (fs : list field) : bytes := concat (map encode_field fs).

Definition wf_value (v : value) : Prop :=
  match v with
  | Varint n => u64_ok n
  | I64 b => length b = 8%nat
  | Len b => zlen b < 2 ^ 62
  | I32 b => length b = 4%nat
  end.

(** Field numbers have 29 bits. *)
Definition wf (f : field) : Prop := 1 <= num f < 2 ^ 29 /\ wf_value (val f).
End Wire.

(** ** The encoder *)

Record WireConfig := { zstd_threshold : Z; max_decompressed_bytes : Z }.

Record WireFrame := {
  batch_sequence : Z;
  first_sequence : Z;
  last_sequence : Z;
  frame_bytes : bytes }.

Inductive WireError : Set := EmptyBatch | Oversized | Zstd.

(** The twelve header bytes: magic, flags, schema, two reserved bytes, payload size. *)
Definition frame_header (flags len : Z) : bytes :=
  MAGIC ++ [byte_of flags] ++ [byte_of SCHEMA_VERSION] ++ be_encode 2 0 ++ be_encode 4 len.
#[global] Arguments frame_header : simpl never.

Section EncodeFrame.
Context `{WireNumbers}.
(** prost's [encode_to_vec] and [encoded_len], [zstd::stream::encode_all]. *)
Variable encode_event : pb.UmaEvent -> bytes.
Variable encode_batch : pb.UmaBatch -> bytes.
Variable zstd_encode : bytes -> option bytes.

Definition encoded_event_len (e : EventRecord) : Z := zlen (encode_event (to_proto e)).

(** [encode_frame]; [now] is the clock reading of [now_us()]. *)
Definition encode_frame (now : Z) (seq : Z) (events : list EventRecord) (config : WireConfig)
  : result WireError WireFrame :=
  first ← ok_or EmptyBatch (head events);
  lst ← ok_or EmptyBatch (last events);
  let batch := {| pb.schema_version := SCHEMA_VERSION; pb.batch_sequence := seq;
                  pb.sent_at_us := now; pb.events := map to_proto events |} in
  let payload := encode_batch batch in
  _ ← require (negb (max_decompressed_bytes config <? zlen payload)) Oversized;
  '(flags, body) ← (if zstd_threshold config <=? zlen payload
                    then z ← ok_or Zstd (zstd_encode payload); Ok (FLAG_ZSTD, z)
                    else Ok (0, payload));
  Ok {| batch_sequence := seq;
        first_sequence := sequence first;
        last_sequence := sequence lst;
        frame_bytes := frame_header flags (zlen payload) ++ body |}.
End EncodeFrame.

(** What the walk extracts from a batch: the last [batch_sequence] and [sent_at_us]
    and the largest of the events' sequences. *)
Inductive batch_field :=
| BatchSequence (n : Z)
| SentAt (n : Z)
| Event (fs : list Wire.field)
| Other (f : Wire.field).

Definition to_field (f : batch_field) : Wire.field :=
  match f with
  | BatchSequence n => {| Wire.num := 2; Wire.val := Wire.Varint n |}
  | SentAt n => {| Wire.num := 3; Wire.val := Wire.Varint n |}
  | Event fs => {| Wire.num := 4; Wire.val := Wire.Len (Wire.encode fs) |}
  | Other f => f
  end.

Definition wf_batch_field (f : batch_field) : Prop :=
  Wire.wf (to_field f) /\
  match f with
  | Event fs => Forall Wire.wf fs
  | Other g => match Wire.val g with
               | Wire.Varint _ => Wire.num g <> 2 /\ Wire.num g <> 3
               | Wire.Len _ => Wire.num g <> 4
               | _ => True
               end
  | _ => True
  end.

Definition event_step (seq : Z) (f : Wire.field) : Z :=
  match Wire.val f with
  | Wire.Varint n => if Wire.num f =? 1 then n else seq
  | _ => seq
  end.

Definition batch_step (info : FrameInfo) (f : batch_field) : FrameInfo :=
  match f with
  | BatchSequence n => set_batch_sequence n info
  | SentAt n => set_sent_at_us n info
  | Event fs => set_last_event_sequence (Z.max (last_event_sequence info) (foldl event_step 0 fs)) info
  | Other _ => info
  end.

(** ** Lemmas on the cursor *)

Lemma land_128 b : (Z.land (byte_val b) 128 =? 0) = (byte_val b <? 128).
Proof. by destruct b. Qed.

Lemma get_at_app xs (b : Byte.byte) ys : get_at (xs ++ b :: ys) (zlen xs) = Some b.
Proof.
  unfold get_at. replace (0 <=? zlen xs) with true by (pose proof (zlen_nonneg xs); lia).
  unfold zlen. rewrite Nat2Z.id. by apply list_lookup_middle.
Qed.

(** The cursor standing after [pre] in [pre ++ rest]. *)
Definition cursor_after (pre rest : bytes) : Cursor := {| buf := pre ++ rest; pos := zlen pre |}.

Lemma cursor_after_step pre x rest :
  {| buf := pre ++ x ++ rest; pos := zlen pre + zlen x |} = cursor_after (pre ++ x) rest.
Proof. unfold cursor_after. by rewrite <- app_assoc, zlen_app. Qed.

Lemma varint_loop_encode fe : forall fuel n value s pre post,
  0 <= n < 2 ^ (7 * Z.of_nat fe) -> (fe <> 0)%nat -> (fe <= fuel)%nat ->
  0 <= s -> s + 7 * Z.of_nat fe <= 70 -> 0 <= value < 2 ^ s -> value + n * 2 ^ s <= u64_max ->
  varint_loop fuel (cursor_after pre (Wire.varint_fuel fe n ++ post)) value s
  = Ok (value + n * 2 ^ s, cursor_after (pre ++ Wire.varint_fuel fe n) post).
Proof.
  induction fe as [|fe IH]; intros fuel n value s pre post Hn Hfe Hfuel Hs Hs70 Hv Hmax; [done|].
  destruct fuel as [|fuel]; [lia|]. cbn [varint_loop Wire.varint_fuel].
  assert (0 < 2 ^ s) by lia. unfold u64_max in *.
  destruct (n <? 128) eqn:E.
  - cbn [app buf pos cursor_after]. rewrite get_at_app. cbn [ok_or mbind result_bind].
    rewrite land_128, byte_val_of, (Z.mod_small n) by lia. rewrite E.
    replace (s <? 64) with true by lia.
    rewrite land_127, (Z.mod_small n 128) by lia.
    rewrite (Z.mod_small (Z.shiftl _ _)) by (rewrite Z.shiftl_mul_pow2 by lia; lia).
    rewrite lor_shiftl_add by lia. f_equal. f_equal.
    unfold cursor_at, cursor_after. cbn [buf pos]. rewrite <- app_assoc. cbn [app].
    f_equal. rewrite zlen_app, zlen_cons, zlen_nil. lia.
  - assert (Hfe' : (fe <> 0)%nat).
    { intros ->. change (2 ^ (7 * Z.of_nat 1)) with 128 in Hn. lia. }
    cbn [app buf pos cursor_after]. rewrite get_at_app. cbn [ok_or mbind result_bind].
    pose proof (Z.mod_pos_bound n 128 ltac:(lia)) as Hm.
    pose proof (Z.div_mod n 128 ltac:(lia)) as Hdm.
    rewrite land_128, byte_val_of, (Z.mod_small (128 + n mod 128)) by lia.
    replace (128 + n mod 128 <? 128) with false by lia.
    replace (s <? 64) with true by lia.
    rewrite land_127 by lia.
    replace ((128 + n mod 128) mod 128) with (n mod 128)
      by (rewrite Z.add_mod, Z.mod_same, Z.add_0_l, !Z.mod_mod by lia; reflexivity).
    assert (Hp : 2 ^ (s + 7) = 2 ^ s * 128) by (rewrite Z.pow_add_r by lia; reflexivity).
    set (P := 2 ^ s) in *. set (q := n / 128) in *. set (r := n mod 128) in *.
    assert (Hsum : value + r * P + q * (P * 128) = value + n * P) by (rewrite Hdm; ring).
    assert (Hr : 0 <= r * P <= 127 * P)
      by (split; [apply Z.mul_nonneg_nonneg|apply Z.mul_le_mono_nonneg_r]; lia).
    assert (Hq : 0 <= q) by (apply Z.div_pos; lia).
    assert (0 <= q * (P * 128)) by (apply Z.mul_nonneg_nonneg; lia).
    rewrite (Z.mod_small (Z.shiftl _ _)) by (rewrite Z.shiftl_mul_pow2 by lia; fold P; lia).
    rewrite lor_shiftl_add by lia. replace (70 <? s + 7) with false by lia.
    replace (cursor_at _ _) with
      (cursor_after (pre ++ [byte_of (128 + r)]) (Wire.varint_fuel fe q ++ post)).
    2:{ unfold cursor_at, cursor_after. cbn [buf pos]. rewrite <- app_assoc. cbn [app].
        f_equal. rewrite zlen_app, zlen_cons, zlen_nil. lia. }
    fold P. rewrite IH; rewrite ?Hp; try lia.
    + f_equal. f_equal; [lia|]. by rewrite <- app_assoc.
    + split; [done|]. apply Z.div_lt_upper_bound; [lia|].
      rewrite Nat2Z.inj_succ, Z.mul_succ_r, Z.pow_add_r in Hn by lia.
      change (2 ^ 7) with 128 in Hn. lia.
Qed.

Lemma varint_encode n pre post :
  u64_ok n ->
  cursor_varint (cursor_after pre (Wire.varint n ++ post)) = Ok (n, cursor_after (pre ++ Wire.varint n) post).
Proof.
  unfold u64_ok, u64_max. intros Hn. unfold cursor_varint, Wire.varint.
  rewrite varint_loop_encode; try (cbn; lia); [|unfold u64_max; lia].
  f_equal. f_equal. lia.
Qed.

Lemma varint_nonempty n : (0 < length (Wire.varint n))%nat.
Proof. unfold Wire.varint. cbn [Wire.varint_fuel]. destruct (n <? 128); simpl; lia. Qed.

Lemma cursor_bytes_encode b pre post :
  zlen b < 2 ^ 62 -> zlen pre < 2 ^ 62 ->
  cursor_bytes (cursor_after pre (Wire.varint (zlen b) ++ b ++ post))
  = Ok (b, cursor_after (pre ++ Wire.varint (zlen b) ++ b) post).
Proof.
  intros Hb Hpre. unfold cursor_bytes.
  pose proof (zlen_nonneg b).
  rewrite varint_encode by (unfold u64_ok, u64_max; lia).
  cbn [mbind result_bind]. unfold u64_checked_add.
  assert (Hl : zlen (Wire.varint (zlen b)) <= 10).
  { unfold Wire.varint, zlen. generalize (Z.of_nat (length b)) as n. intros n.
    assert (Hg : forall k m, (length (Wire.varint_fuel k m) <= k)%nat).
    { induction k as [|k IH]; intros m; simpl; [lia|]. destruct (m <? 128); simpl; [lia|].
      specialize (IH (m / 128)). lia. }
    specialize (Hg 10%nat n). lia. }
  cbn [cursor_after pos buf]. rewrite zlen_app.
  replace (_ <=? u64_max) with true by (unfold u64_max; lia).
  cbn [ok_or mbind result_bind].
  rewrite get_range_app by (rewrite ?zlen_app; lia). cbn [ok_or mbind result_bind].
  f_equal. f_equal. unfold cursor_at, cursor_after. cbn [buf pos].
  rewrite <- !app_assoc, !zlen_app. f_equal. lia.
Qed.

Lemma cursor_advance_encode b pre post n :
  zlen b = n -> zlen pre + n < 2 ^ 63 ->
  cursor_advance (cursor_after pre (b ++ post)) n = Ok (cursor_after (pre ++ b) post).
Proof.
  intros <- Hp. unfold cursor_advance, u64_checked_add. cbn [cursor_after pos buf].
  replace (_ <=? u64_max) with true by (unfold u64_max; lia). cbn [ok_or mbind result_bind].
  rewrite !zlen_app. pose proof (zlen_nonneg post).
  replace (_ <? _) with false by lia. f_equal. unfold cursor_at. cbn [buf].
  apply cursor_after_step.
Qed.

Lemma cursor_skip_encode v pre post :
  Wire.wf_value v -> zlen pre < 2 ^ 62 ->
  cursor_skip (cursor_after pre (Wire.payload v ++ post)) (Wire.wire_type v)
  = Ok (cursor_after (pre ++ Wire.payload v) post).
Proof.
  intros Hv Hp. unfold cursor_skip.
  destruct v as [n|b|b|b]; cbn [Wire.wire_type Wire.payload Wire.wf_value] in *; cbn [Z.eqb Pos.eqb].
  - by rewrite varint_encode.
  - apply cursor_advance_encode; unfold zlen in *; lia.
  - rewrite <- app_assoc. by rewrite cursor_bytes_encode.
  - apply cursor_advance_encode; unfold zlen in *; lia.
Qed.

Lemma key_parts num w : 0 <= num -> 0 <= w < 8 ->
  Z.shiftr (num * 8 + w) 3 = num /\ Z.land (num * 8 + w) 7 = w.
Proof.
  intros Hn Hw. rewrite Z.shiftr_div_pow2 by lia. rewrite land_7 by lia. split.
  - symmetry. apply Z.div_unique_pos with (r := w); lia.
  - symmetry. apply Z.mod_unique_pos with (q := num); lia.
Qed.

Lemma wire_type_range v : 0 <= Wire.wire_type v < 8.
Proof. destruct v; simpl; lia. Qed.

Lemma key_varint f pre post :
  Wire.wf f ->
  cursor_varint (cursor_after pre (Wire.encode_field f ++ post))
  = Ok (Wire.num f * 8 + Wire.wire_type (Wire.val f),
        cursor_after (pre ++ Wire.varint (Wire.num f * 8 + Wire.wire_type (Wire.val f)))
                     (Wire.payload (Wire.val f) ++ post)).
Proof.
  intros [Hn _]. unfold Wire.encode_field. rewrite <- app_assoc.
  apply varint_encode. pose proof (wire_type_range (Wire.val f)). unfold u64_ok, u64_max. lia.
Qed.

Lemma encode_field_nonempty f : (0 < length (Wire.encode_field f))%nat.
Proof.
  unfold Wire.encode_field. rewrite length_app.
  pose proof (varint_nonempty (Wire.num f * 8 + Wire.wire_type (Wire.val f))). lia.
Qed.

Lemma cursor_done_after pre b rest : cursor_done (cursor_after pre (b ++ rest)) = (zlen (b ++ rest) <=? 0).
Proof. unfold cursor_done, cursor_after. cbn [buf pos]. rewrite (zlen_app pre). lia. Qed.

Lemma encode_cons f fs : Wire.encode (f :: fs) = Wire.encode_field f ++ Wire.encode fs.
Proof. reflexivity. Qed.

Lemma encode_field_after pre f rest :
  cursor_after ((pre ++ Wire.varint (Wire.num f * 8 + Wire.wire_type (Wire.val f)))
                ++ Wire.payload (Wire.val f)) rest
  = cursor_after (pre ++ Wire.encode_field f) rest.
Proof. unfold Wire.encode_field. by rewrite <- app_assoc. Qed.

Lemma cursor_done_end pre : cursor_done (cursor_after pre []) = true.
Proof. unfold cursor_done, cursor_after. cbn [buf pos]. rewrite app_nil_r. lia. Qed.

Lemma cursor_done_field pre f rest : cursor_done (cursor_after pre (Wire.encode_field f ++ rest)) = false.
Proof.
  rewrite cursor_done_after, zlen_app. pose proof (encode_field_nonempty f).
  pose proof (zlen_nonneg rest). unfold zlen in *. lia.
Qed.

Lemma key_length f : zlen (Wire.varint (Wire.num f * 8 + Wire.wire_type (Wire.val f)))
                     <= zlen (Wire.encode_field f).
Proof. unfold Wire.encode_field. rewrite zlen_app. pose proof (zlen_nonneg (Wire.payload (Wire.val f))). lia. Qed.

Lemma walk_event_loop_encode fs : forall fuel seq pre,
  Forall Wire.wf fs -> zlen pre + zlen (Wire.encode fs) < 2 ^ 62 ->
  (length (Wire.encode fs) < fuel)%nat ->
  walk_event_loop fuel (cursor_after pre (Wire.encode fs)) seq = Some (Ok (foldl event_step seq fs)).
Proof.
  induction fs as [|f fs IH]; intros fuel seq pre Hwf Hlen Hfuel;
    (destruct fuel as [|fuel]; [lia|]); cbn [walk_event_loop foldl].
  { change (Wire.encode []) with (@nil Byte.byte). by rewrite cursor_done_end. }
  apply Forall_cons in Hwf as [Hf Hfs]. rewrite encode_cons in *.
  rewrite cursor_done_field, key_varint by done.
  destruct (key_parts (Wire.num f) (Wire.wire_type (Wire.val f))) as [-> ->];
    [destruct Hf; lia|apply wire_type_range|].
  rewrite zlen_app in Hlen. rewrite length_app in Hfuel.
  pose proof (encode_field_nonempty f) as Hne. pose proof (key_length f) as Hk.
  pose proof (zlen_nonneg (Wire.encode fs)).
  assert (IH' : forall s, walk_event_loop fuel (cursor_after (pre ++ Wire.encode_field f) (Wire.encode fs)) s
                          = Some (Ok (foldl event_step s fs))).
  { intros s. apply IH; [done|rewrite zlen_app; lia|lia]. }
  pose proof (fun rest => encode_field_after pre f rest) as Hafter. destruct Hf as [Hnum Hv].
  unfold event_step at 2.
  destruct (Wire.val f) as [n|b|b|b]; cbn [Wire.wire_type Wire.payload Z.eqb] in *;
    rewrite ?andb_true_r, ?andb_false_r.
  - destruct (Wire.num f =? 1).
    + rewrite varint_encode by done. by rewrite Hafter, IH'.
    + rewrite (cursor_skip_encode (Wire.Varint n)) by (done || rewrite zlen_app; lia).
      by rewrite Hafter, IH'.
  - rewrite (cursor_skip_encode (Wire.I64 b)) by (done || rewrite zlen_app; lia).
    by rewrite Hafter, IH'.
  - rewrite (cursor_skip_encode (Wire.Len b)) by (done || rewrite zlen_app; lia).
    by rewrite Hafter, IH'.
  - rewrite (cursor_skip_encode (Wire.I32 b)) by (done || rewrite zlen_app; lia).
    by rewrite Hafter, IH'.
Qed.

Lemma walk_event_encode fs :
  Forall Wire.wf fs -> zlen (Wire.encode fs) < 2 ^ 62 ->
  walk_event (Wire.encode fs) = Some (Ok (foldl event_step 0 fs)).
Proof.
  intros Hwf Hlen. unfold walk_event.
  apply (walk_event_loop_encode fs _ 0 []); [done|exact Hlen|lia].
Qed.

Lemma walk_batch_loop_encode fs : forall fuel info pre,
  Forall wf_batch_field fs -> zlen pre + zlen (Wire.encode (map to_field fs)) < 2 ^ 62 ->
  (length (Wire.encode (map to_field fs)) < fuel)%nat ->
  walk_batch_loop fuel (cursor_after pre (Wire.encode (map to_field fs))) info
  = Some (Ok (foldl batch_step info fs)).
Proof.
  induction fs as [|f fs IH]; intros fuel info pre Hwf Hlen Hfuel;
    (destruct fuel as [|fuel]; [lia|]); cbn [walk_batch_loop foldl map].
  { change (Wire.encode []) with (@nil Byte.byte). by rewrite cursor_done_end. }
  apply Forall_cons in Hwf as [[Hf Hkind] Hfs]. cbn [map] in *. rewrite encode_cons in *.
  rewrite cursor_done_field, key_varint by done.
  destruct (key_parts (Wire.num (to_field f)) (Wire.wire_type (Wire.val (to_field f)))) as [-> ->];
    [destruct Hf; lia|apply wire_type_range|].
  rewrite zlen_app in Hlen. rewrite length_app in Hfuel.
  pose proof (encode_field_nonempty (to_field f)) as Hne. pose proof (key_length (to_field f)) as Hk.
  pose proof (zlen_nonneg (Wire.encode (map to_field fs))).
  pose proof (zlen_nonneg pre).
  assert (IH' : forall i, walk_batch_loop fuel
                  (cursor_after (pre ++ Wire.encode_field (to_field f)) (Wire.encode (map to_field fs))) i
                  = Some (Ok (foldl batch_step i fs))).
  { intros i. apply IH; [done|rewrite zlen_app; lia|lia]. }
  pose proof (fun rest => encode_field_after pre (to_field f) rest) as Hafter.
  destruct f as [n|n|evs|g]; cbn [to_field Wire.num Wire.val Wire.wire_type Wire.payload] in *;
    cbn [Z.eqb Pos.eqb andb]; destruct Hf as [Hnum Hv]; cbn [Wire.wf_value] in Hv.
  - rewrite varint_encode by done. by rewrite Hafter, IH'.
  - rewrite varint_encode by done. by rewrite Hafter, IH'.
  - rewrite <- app_assoc, cursor_bytes_encode by (rewrite ?zlen_app; cbn in *; lia).
    rewrite walk_event_encode by (done || lia). by rewrite Hafter, IH'.
  - rewrite cursor_skip_encode by (try done; rewrite zlen_app; lia).
    rewrite Hafter, IH'.
    destruct (Wire.val g) as [m|b|b|b]; cbn [Wire.wire_type Z.eqb Pos.eqb] in *;
      rewrite ?andb_false_r, ?andb_true_r; try done.
    + replace (Wire.num g =? 2) with false by lia. by replace (Wire.num g =? 3) with false by lia.
    + by replace (Wire.num g =? 4) with false by lia.
Qed.

Lemma walk_batch_encode fs info :
  Forall wf_batch_field fs -> zlen (Wire.encode (map to_field fs)) < 2 ^ 62 ->
  walk_batch (Wire.encode (map to_field fs)) info = Some (Ok (foldl batch_step info fs)).
Proof.
  intros Hwf Hlen. unfold walk_batch.
  apply (walk_batch_loop_encode fs _ info []); [done|exact Hlen|lia].
Qed.

(** ** Totality *)

Definition advances (c c' : Cursor) : Prop :=
  buf c' = buf c /\ pos c <= pos c' <= zlen (buf c).

Lemma varint_loop_progress fuel : forall c v s n c',
  0 <= pos c -> varint_loop fuel c v s = Ok (n, c') -> advances c c' /\ pos c < pos c'.
Proof.
  induction fuel as [|fuel IH]; intros c v s n c' Hp; cbn [varint_loop]; [discriminate|].
  unfold get_at. replace (0 <=? pos c) with true by lia.
  destruct (buf c !! Z.to_nat (pos c)) as [b|] eqn:E; cbn [ok_or mbind result_bind]; [|discriminate].
  apply lookup_lt_Some in E. unfold advances, zlen.
  destruct (Z.land (byte_val b) 128 =? 0).
  - intros [= _ <-]. cbn. repeat split; lia.
  - destruct (70 <? s + 7); [discriminate|]. intros H%IH; [|cbn; lia].
    destruct H as [[Hb ?] ?]. cbn in *. unfold zlen in *. split; [split; [done|lia]|lia].
Qed.

Lemma cursor_varint_progress c n c' :
  0 <= pos c -> cursor_varint c = Ok (n, c') -> advances c c' /\ pos c < pos c'.
Proof. apply varint_loop_progress. Qed.

Lemma cursor_bytes_progress c b c' :
  0 <= pos c -> cursor_bytes c = Ok (b, c') -> advances c c' /\ zlen b <= zlen (buf c).
Proof.
  intros Hp. unfold cursor_bytes. intros ([n c1] & Hv & H)%result_bind_ok.
  apply cursor_varint_progress in Hv as [[Hb ?] ?]; [|done].
  unfold u64_checked_add in H. destruct (_ <=? _); cbn [ok_or mbind result_bind] in H; [|discriminate].
  destruct (get_range _ _ _) as [sl|] eqn:E; cbn in H; [|discriminate]. injection H as <- <-.
  apply get_range_length in E; [|lia]. unfold advances. cbn. rewrite Hb in *. repeat split; try done; lia.
Qed.

Lemma cursor_skip_progress c w c' : 0 <= pos c -> 0 <= w -> cursor_skip c w = Ok c' -> advances c c'.
Proof.
  intros Hp Hw. unfold cursor_skip, cursor_advance, u64_checked_add.
  destruct (w =? 0); [|destruct (w =? 1); [|destruct (w =? 2); [|destruct (w =? 5)]]].
  - intros ([n c1] & Hv & [= <-])%result_bind_ok. by apply cursor_varint_progress in Hv as [? _].
  - destruct (_ <=? _); cbn; [|discriminate]. destruct (_ <? _) eqn:E; [discriminate|].
    intros [= <-]. split; cbn; [done|lia].
  - intros ([b c1] & Hv & [= <-])%result_bind_ok. by apply cursor_bytes_progress in Hv as [? _].
  - destruct (_ <=? _); cbn; [|discriminate]. destruct (_ <? _) eqn:E; [discriminate|].
    intros [= <-]. split; cbn; [done|lia].
  - discriminate.
Qed.

(** The fuel that is enough at a cursor: one round per byte left, plus the last test. *)
Definition enough (fuel : nat) (c : Cursor) : Prop :=
  0 <= pos c <= zlen (buf c) /\ zlen (buf c) - pos c < Z.of_nat fuel.

Lemma enough_step fuel c c1 c2 :
  enough (S fuel) c -> advances c c1 /\ pos c < pos c1 -> advances c1 c2 -> enough fuel c2.
Proof. unfold enough, advances. intros [? ?] [[E1 ?] ?] [E2 ?]. rewrite E2, E1 in *. lia. Qed.

Lemma enough_pos fuel c c' : enough fuel c -> advances c c' -> 0 <= pos c'.
Proof. unfold enough, advances. lia. Qed.

Lemma land_7_range key : 0 <= Z.land key 7.
Proof. apply Z.land_nonneg. lia. Qed.

#[local] Hint Resolve enough_step enough_pos land_7_range cursor_skip_progress : uma.

Lemma walk_event_loop_total fuel : forall c seq,
  enough fuel c -> exists r, walk_event_loop fuel c seq = Some r.
Proof.
  induction fuel as [|fuel IH]; intros c seq Hf; cbn [walk_event_loop];
    [destruct Hf; lia|].
  destruct (cursor_done c); [eauto|].
  destruct (cursor_varint c) as [[key c1]|e] eqn:E1; [|eauto].
  apply cursor_varint_progress in E1; [|apply Hf].
  assert (H1 : 0 <= pos c1) by (destruct E1; eauto with uma).
  destruct (_ && _).
  - destruct (cursor_varint c1) as [[v c2]|e] eqn:E2; [|eauto].
    apply cursor_varint_progress in E2 as [E2 _]; eauto with uma.
  - destruct (cursor_skip c1 _) as [c2|e] eqn:E2; [|eauto].
    apply cursor_skip_progress in E2; eauto with uma.
Qed.

Lemma enough_start (p : bytes) : enough (S (length p)) {| buf := p; pos := 0 |}.
Proof. unfold enough, zlen. cbn. lia. Qed.

Lemma walk_event_total p : exists r, walk_event p = Some r.
Proof. apply walk_event_loop_total, enough_start. Qed.

Lemma walk_batch_loop_total fuel : forall c info,
  enough fuel c -> exists r, walk_batch_loop fuel c info = Some r.
Proof.
  induction fuel as [|fuel IH]; intros c info Hf; cbn [walk_batch_loop];
    [destruct Hf; lia|].
  destruct (cursor_done c); [eauto|].
  destruct (cursor_varint c) as [[key c1]|e] eqn:E1; [|eauto].
  apply cursor_varint_progress in E1; [|apply Hf].
  assert (H1 : 0 <= pos c1) by (destruct E1; eauto with uma).
  repeat (destruct (_ && _);
    [destruct (cursor_varint c1) as [[v c2]|e] eqn:E2; [|eauto];
     apply cursor_varint_progress in E2 as [E2 _]; solve [eauto with uma]|]).
  destruct (_ && _).
  - destruct (cursor_bytes c1) as [[ev c2]|e] eqn:E2; [|eauto].
    apply cursor_bytes_progress in E2 as [E2 _]; [|done].
    destruct (walk_event_total ev) as [[s|e] ->]; eauto with uma.
  - destruct (cursor_skip c1 _) as [c2|e] eqn:E2; [|eauto].
    apply cursor_skip_progress in E2; eauto with uma.
Qed.

Lemma walk_batch_total p info : exists r, walk_batch p info = Some r.
Proof. apply walk_batch_loop_total, enough_start. Qed.

(** ** Encoding and parsing agree *)

(** proto3 leaves a zero scalar out. *)
Definition opt_field (num n : Z) : list Wire.field :=
  if n =? 0 then [] else [{| Wire.num := num; Wire.val := Wire.Varint n |}].

(** What the code relies on in prost: [UmaBatch] is its fields in the order of their
    numbers, an event being a length-delimited field 4 whose field 1 is the sequence. *)
Record Prost (event_rest : pb.UmaEvent -> list Wire.field)
             (encode_event : pb.UmaEvent -> bytes) (encode_batch : pb.UmaBatch -> bytes) : Prop := {
  prost_event e : encode_event e = Wire.encode (opt_field 1 (pb.sequence e) ++ event_rest e);
  prost_rest e : Forall (fun f => Wire.wf f /\ Wire.num f <> 1) (event_rest e);
  prost_batch b : encode_batch b = Wire.encode
    (opt_field 1 (pb.schema_version b) ++ opt_field 2 (pb.batch_sequence b)
     ++ opt_field 3 (pb.sent_at_us b)
     ++ map (fun e => {| Wire.num := 4; Wire.val := Wire.Len (encode_event e) |}) (pb.events b)) }.

(** What it relies on in zstd: a stream decompresses when the capacity is enough. *)
Definition zstd_law (enc : bytes -> option bytes) (dec : bytes -> Z -> option bytes) : Prop :=
  forall x y cap, enc x = Some y -> zlen x <= cap -> dec y cap = Some x.

Lemma walk_batch_app fs gs info :
  foldl batch_step info (fs ++ gs) = foldl batch_step (foldl batch_step info fs) gs.
Proof. apply foldl_app. Qed.

Section Agree.
Context `{WireNumbers}.
Variable event_rest : pb.UmaEvent -> list Wire.field.
Variable encode_event : pb.UmaEvent -> bytes.
Variable encode_batch : pb.UmaBatch -> bytes.
Hypothesis prost : Prost event_rest encode_event encode_batch.

Definition event_fields (e : pb.UmaEvent) : list Wire.field := opt_field 1 (pb.sequence e) ++ event_rest e.

Definition batch_fields (b : pb.UmaBatch) : list batch_field :=
  map Other (opt_field 1 (pb.schema_version b))
  ++ (if pb.batch_sequence b =? 0 then [] else [BatchSequence (pb.batch_sequence b)])
  ++ (if pb.sent_at_us b =? 0 then [] else [SentAt (pb.sent_at_us b)])
  ++ map (fun e => Event (event_fields e)) (pb.events b).

Lemma encode_batch_fields b : encode_batch b = Wire.encode (map to_field (batch_fields b)).
Proof using prost.
  rewrite (prost_batch _ _ _ prost). f_equal. unfold batch_fields, opt_field.
  rewrite !map_app, !map_map. f_equal; [by destruct (_ =? 0)|].
  f_equal; [by destruct (_ =? 0)|]. f_equal; [by destruct (_ =? 0)|].
  apply map_ext. intros e. cbn. by rewrite (prost_event _ _ _ prost).
Qed.

Lemma event_fields_wf e : u64_ok (pb.sequence e) -> Forall Wire.wf (event_fields e).
Proof using prost.
  intros Hs. apply Forall_app_2.
  - unfold opt_field. destruct (_ =? 0); repeat constructor; cbn; try apply Hs; lia.
  - eapply Forall_impl; [apply (prost_rest _ _ _ prost)|by intros f [? _]].
Qed.

Lemma event_fields_sequence e : foldl event_step 0 (event_fields e) = pb.sequence e.
Proof using prost.
  assert (Hr : forall s, foldl event_step s (event_rest e) = s).
  { pose proof (prost_rest _ _ _ prost e) as Hf. induction Hf as [|f fs [_ Hn] _ IH]; [done|].
    intros s. cbn. rewrite IH. unfold event_step. destruct (Wire.val f); try done.
    by replace (Wire.num f =? 1) with false by lia. }
  unfold event_fields. rewrite foldl_app, Hr. unfold opt_field.
  destruct (_ =? 0) eqn:E; [cbn; lia|done].
Qed.

Lemma foldl_events info es :
  foldl batch_step info (map (fun e => Event (event_fields e)) es)
  = set_last_event_sequence (foldl Z.max (last_event_sequence info) (map pb.sequence es)) info.
Proof using prost.
  revert info. induction es as [|e es IH]; intros info; cbn [map foldl batch_step].
  - by destruct info.
  - by rewrite IH, event_fields_sequence.
Qed.

Lemma encode_field_len n b :
  zlen b <= zlen (Wire.encode_field {| Wire.num := n; Wire.val := Wire.Len b |}).
Proof.
  unfold Wire.encode_field. rewrite zlen_app. cbn [Wire.val Wire.payload]. rewrite zlen_app.
  pose proof (zlen_nonneg (Wire.varint (zlen b))).
  pose proof (zlen_nonneg (Wire.varint (Wire.num {| Wire.num := n; Wire.val := Wire.Len b |} * 8
                                        + Wire.wire_type (Wire.Len b)))). lia.
Qed.

Lemma encode_suffix fs gs : zlen (Wire.encode (fs ++ gs)) = zlen (Wire.encode fs) + zlen (Wire.encode gs).
Proof. unfold Wire.encode. by rewrite map_app, concat_app, zlen_app. Qed.

Lemma Forall_wire_len {A} (f : A -> bytes) (g : A -> Wire.field) (l : list A) :
  (forall x, zlen (f x) <= zlen (Wire.encode_field (g x))) ->
  Forall (fun x => zlen (f x) <= zlen (Wire.encode (map g l))) l.
Proof.
  intros Hg. induction l as [|x l IH]; constructor.
  - cbn [map]. rewrite encode_cons, zlen_app. pose proof (Hg x). pose proof (zlen_nonneg (Wire.encode (map g l))). lia.
  - eapply Forall_impl; [apply IH|]. cbn [map]. intros y Hy. rewrite encode_cons, zlen_app.
    pose proof (zlen_nonneg (Wire.encode_field (g x))). lia.
Qed.

Lemma batch_fields_wf b :
  u64_ok (pb.schema_version b) -> u64_ok (pb.batch_sequence b) -> u64_ok (pb.sent_at_us b) ->
  Forall (fun e => u64_ok (pb.sequence e)) (pb.events b) ->
  zlen (encode_batch b) < 2 ^ 62 ->
  Forall wf_batch_field (batch_fields b).
Proof using prost.
  intros Hv Hb Ht He Hlen. unfold batch_fields, opt_field.
  apply Forall_app_2; [|apply Forall_app_2; [|apply Forall_app_2]];
    [destruct (_ =? 0); [done|]; constructor; [|done]; unfold wf_batch_field, Wire.wf; cbn; auto with lia..|].
  assert (Hw : Forall (fun e => zlen (Wire.encode (event_fields e)) < 2 ^ 62) (pb.events b)).
  { eapply Forall_impl; [apply (Forall_wire_len (fun e => Wire.encode (event_fields e))
      (fun e => to_field (Event (event_fields e)))); intros e; apply encode_field_len|].
    cbn beta. intros e Hl. rewrite encode_batch_fields in Hlen. unfold batch_fields in Hlen.
    rewrite !map_app, !encode_suffix, (map_map (fun e => Event (event_fields e)) to_field) in Hlen.
    repeat match type of Hlen with context [zlen (Wire.encode ?l)] =>
      lazymatch goal with _ : 0 <= zlen (Wire.encode l) |- _ => fail
      | _ => pose proof (zlen_nonneg (Wire.encode l)) end end. lia. }
  clear Hlen. induction (pb.events b) as [|e es IH]; [constructor|].
  apply Forall_cons in He as [? ?]. apply Forall_cons in Hw as [? ?]. constructor; [|by apply IH].
  split; [split; [cbn; lia|done]|]. by apply event_fields_wf.
Qed.
End Agree.

Definition frame_batch `{WireNumbers} (now seq : Z) (events : list EventRecord) : pb.UmaBatch :=
  {| pb.schema_version := SCHEMA_VERSION; pb.batch_sequence := seq;
     pb.sent_at_us := now; pb.events := map to_proto events |}.

Lemma frame_header_lookup flags len (body : bytes) :
  let bs := frame_header flags len ++ body in
  take 4 bs = MAGIC /\ bs !! 4%nat = Some (byte_of flags) /\ bs !! 5%nat = Some (byte_of SCHEMA_VERSION)
  /\ take 4 (drop 8 bs) = be_encode 4 len /\ drop 12 bs = body /\ HEADER_LEN <= zlen bs.
Proof.
  cbv zeta. unfold frame_header. change MAGIC with [x55; x4d; x41; x31]%byte.
  change (be_encode 2 0) with [x00; x00]%byte.
  pose proof (be_encode_length 4 len) as Hl.
  destruct (be_encode 4 len) as [|b0 [|b1 [|b2 [|b3 [|]]]]]; try (cbn in Hl; lia).
  cbn. rewrite take_0, drop_0. repeat split. unfold HEADER_LEN. rewrite !zlen_cons.
  pose proof (zlen_nonneg body). lia.
Qed.

(** The walk's verdict on an encoded batch, the header's fields being given. *)
Definition frame_info (info : FrameInfo) (now seq : Z) (events : list EventRecord) : FrameInfo :=
  {| compressed := compressed info; schema := schema info; payload_size := payload_size info;
     info_batch_sequence := seq; info_sent_at_us := now;
     last_event_sequence := foldl Z.max 0 (map sequence events) |}.

Lemma walk_frame_batch `{WireNumbers} event_rest encode_event encode_batch now seq events info :
  Prost event_rest encode_event encode_batch ->
  u64_ok now -> u64_ok seq -> Forall (fun e => u64_ok (sequence e)) events ->
  last_event_sequence info = 0 -> info_batch_sequence info = 0 -> info_sent_at_us info = 0 ->
  zlen (encode_batch (frame_batch now seq events)) < 2 ^ 62 ->
  walk_batch (encode_batch (frame_batch now seq events)) info = Some (Ok (frame_info info now seq events)).
Proof.
  intros Hp Hnow Hseq Hev E1 E2 E3 Hsize. rewrite (encode_batch_fields _ _ _ Hp).
  rewrite walk_batch_encode.
  - f_equal. f_equal. unfold batch_fields. rewrite !foldl_app, (foldl_events _ _ _ Hp).
    cbn [frame_batch pb.schema_version pb.batch_sequence pb.sent_at_us pb.events].
    rewrite map_map. change (map (fun x => pb.sequence (to_proto x)) events) with (map sequence events).
    cbn. destruct info; cbn in *; subst.
    destruct (seq =? 0) eqn:?, (now =? 0) eqn:?; cbn; unfold set_last_event_sequence, frame_info;
      cbn; f_equal; lia.
  - apply (batch_fields_wf _ _ _ Hp); try assumption.
    + change (u64_ok 1). unfold u64_ok, u64_max. lia.
    + cbn. apply Forall_map. eapply Forall_impl; [apply Hev|done].
  - by rewrite <- (encode_batch_fields _ _ _ Hp).
Qed.

(** C4: the edge's parser terminates on every input with a verdict: neither walk ever
    runs out of the fuel [length + 1], whatever the bytes claim. *)
Theorem parse_frame_total zd bs : exists r, parse_frame zd bs = Some r.
Proof.
  unfold parse_frame. destruct (_ <? _); [eauto|]. destruct (decide _); [|eauto].
  cbv zeta. destruct (compressed _); [|apply walk_batch_total].
  destruct (zd _ _); [apply walk_batch_total|eauto].
Qed.

Lemma encoded_frame_parses `{WireNumbers} event_rest encode_event encode_batch zstd_encode zstd_dec
    now seq events config frame :
  Prost event_rest encode_event encode_batch ->
  zstd_law zstd_encode zstd_dec ->
  max_decompressed_bytes config <= MAX_DECOMPRESSED ->
  u64_ok now -> u64_ok seq -> Forall (fun e => u64_ok (sequence e)) events ->
  encode_frame encode_batch zstd_encode now seq events config = Ok frame ->
  let size := zlen (encode_batch (frame_batch now seq events)) in
  parse_frame zstd_dec (frame_bytes frame)
  = Some (Ok {| compressed := zstd_threshold config <=? size; schema := SCHEMA_VERSION;
                payload_size := size; info_batch_sequence := seq; info_sent_at_us := now;
                last_event_sequence := foldl Z.max 0 (map sequence events) |}).
Proof.
  intros Hp Hz Hcfg Hnow Hseq Hev Henc size.
  unfold encode_frame in Henc. apply result_bind_ok in Henc as (first & _ & Henc).
  apply result_bind_ok in Henc as (lst & _ & Henc). cbv zeta in Henc.
  fold (frame_batch now seq events) in Henc. set (b := frame_batch now seq events) in *.
  fold size in Henc. apply result_bind_ok in Henc as (? & Hreq & Henc).
  unfold require in Hreq. destruct (negb _) eqn:Hsz in Hreq; [|discriminate].
  apply result_bind_ok in Henc as ([flags body] & Hbody & Henc).
  assert (frame_bytes frame = frame_header flags size ++ body) as -> by (injection Henc as <-; reflexivity).
  clear Henc.
  assert (Hsize : 0 <= size <= MAX_DECOMPRESSED) by (split; [apply zlen_nonneg|lia]).
  unfold MAX_DECOMPRESSED in Hsize.
  assert (Hwalk : forall info, last_event_sequence info = 0 ->
    info_batch_sequence info = 0 -> info_sent_at_us info = 0 ->
    walk_batch (encode_batch b) info = Some (Ok (frame_info info now seq events)))
    by (intros; apply (walk_frame_batch _ _ _ _ _ _ _ Hp); try assumption; fold b size; lia).
  pose proof (frame_header_lookup flags size body) as Hh. cbv zeta in Hh.
  destruct Hh as (H1 & H2 & H3 & H4 & H5 & H6).
  unfold parse_frame. rewrite (proj2 (Z.ltb_ge _ _) H6).
  rewrite decide_True by exact H1. rewrite H2, H3, H4, H5. cbv zeta. cbn [compressed].
  rewrite be_decode_encode_small by (cbn; lia).
  destruct (zstd_threshold config <=? size) eqn:Ethr.
  - destruct (zstd_encode (encode_batch b)) as [z|] eqn:Ez; [|discriminate].
    injection Hbody as <- <-. change (negb (Z.land (byte_val (byte_of FLAG_ZSTD)) FLAG_ZSTD =? 0)) with true.
    cbn match. rewrite (Hz _ _ _ Ez) by (fold size; lia). by rewrite Hwalk.
  - injection Hbody as <- <-. change (negb (Z.land (byte_val (byte_of 0)) FLAG_ZSTD =? 0)) with false.
    cbn match. by rewrite Hwalk.
Qed.

(** C3: what the main service encodes, the edge reads back: the header's flags and size,
    the batch sequence, the send time, and the largest event sequence of the batch.
    The bound on the configuration is the edge's own decompression limit. *)
Theorem parse_encode_frame `{WireNumbers} event_rest encode_event encode_batch zstd_encode zstd_dec
    now seq events config frame :
  Prost event_rest encode_event encode_batch ->
  zstd_law zstd_encode zstd_dec ->
  max_decompressed_bytes config <= MAX_DECOMPRESSED ->
  u64_ok now -> u64_ok seq -> Forall (fun e => u64_ok (sequence e)) events ->
  encode_frame encode_batch zstd_encode now seq events config = Ok frame ->
  let size := zlen (encode_batch (frame_batch now seq events)) in
  parse_frame zstd_dec (frame_bytes frame)
  = Some (Ok {| compressed := zstd_threshold config <=? size; schema := SCHEMA_VERSION;
                payload_size := size; info_batch_sequence := seq; info_sent_at_us := now;
                last_event_sequence := foldl Z.max 0 (map sequence events) |}).
Proof. apply encoded_frame_parses. Qed.

(** A frame of two events, the first in the zstd range of the configuration. *)
Module Sample.
Definition event_rest (e : pb.UmaEvent) : list Wire.field :=
  [{| Wire.num := 4; Wire.val := Wire.Varint (pb.log_index e mod 2 ^ 32) |};
   {| Wire.num := 2; Wire.val := Wire.Varint 1 |}].
Definition encode_event (e : pb.UmaEvent) : bytes :=
  Wire.encode (opt_field 1 (pb.sequence e) ++ event_rest e).
Definition encode_batch (b : pb.UmaBatch) : bytes := Wire.encode
  (opt_field 1 (pb.schema_version b) ++ opt_field 2 (pb.batch_sequence b)
   ++ opt_field 3 (pb.sent_at_us b)
   ++ map (fun e => {| Wire.num := 4; Wire.val := Wire.Len (encode_event e) |}) (pb.events b)).
Definition zstd_encode (x : bytes) : option bytes := Some (Byte.xff :: x).
Definition zstd_decode (y : bytes) (cap : Z) : option bytes :=
  match y with x :: y => if zlen y <=? cap then Some y else None | [] => None end.

Lemma prost : Prost event_rest encode_event encode_batch.
Proof.
  split; [done| |done]. intros e. unfold event_rest.
  rewrite !Forall_cons, Forall_nil. unfold Wire.wf, Wire.wf_value, u64_ok, u64_max; cbn.
  pose proof (Z.mod_pos_bound (pb.log_index e) (2 ^ 32) ltac:(lia)). lia.
Qed.

Lemma zstd : zstd_law zstd_encode zstd_decode.
Proof. intros x y cap [= <-] H. unfold zstd_decode. by replace (_ <=? _) with true by lia. Qed.

Definition config : WireConfig := {| zstd_threshold := 8; max_decompressed_bytes := 65536 |}.
Definition events : list EventRecord := [sample_record 41; sample_record 300].
Definition frame : WireFrame :=
  {| batch_sequence := 7; first_sequence := 41; last_sequence := 300;
     frame_bytes := match encode_frame (H := sample_numbers) encode_batch zstd_encode 1700 7 events config with
                    | Ok f => frame_bytes f | Err _ => [] end |}.
End Sample.

Lemma parse_encode_frame_witness :
  exists size, parse_frame Sample.zstd_decode (frame_bytes Sample.frame)
  = Some (Ok {| compressed := true; schema := 1; payload_size := size; info_batch_sequence := 7;
                info_sent_at_us := 1700; last_event_sequence := 300 |}).
Proof.
  eexists. refine (parse_encode_frame (H := sample_numbers) Sample.event_rest Sample.encode_event
    Sample.encode_batch Sample.zstd_encode Sample.zstd_decode 1700 7 Sample.events Sample.config Sample.frame
    Sample.prost Sample.zstd _ _ _ _ _);
    [cbn; unfold MAX_DECOMPRESSED; lia|unfold u64_ok, u64_max; lia..| |vm_compute; reflexivity].
  repeat constructor; cbn; unfold u64_max; lia.
Defined.
