(* ===== verification/Channel.v ===== *)
(** * Channel: the bounded queue between a hub and its readers ([tokio::sync::mpsc])

    tokio is not under [src/]: a channel is an interface, whose laws are the documented
    behaviour of [mpsc::channel], [Sender::try_send], [Receiver::recv] and of dropping
    the receiver.  [list_mpsc] is a concrete instance, used to evaluate examples. *)
From S2P Require Import Prelude.

(** [Result<(), TrySendError>], the channel's new state in the success case. *)
Inductive send_result (C : Type) : Type := Sent (c : C) | Full | Closed.
#[global] Arguments Sent {_} _.
#[global] Arguments Full {_}.
#[global] Arguments Closed {_}.

Class Mpsc (A : Type) := {
  chan : Type;
  chan_new : Z -> chan;
  try_send : chan -> A -> send_result chan;
  recv : chan -> option (A * chan);
  drop_receiver : chan -> chan;
  queued : chan -> list A;
  receiving : chan -> bool;
  capacity : chan -> Z;
  chan_new_spec n : queued (chan_new n) = [] /\ receiving (chan_new n) = true /\ capacity (chan_new n) = n;
  try_send_spec c x :
    match try_send c x with
    | Sent c' => receiving c = true /\ zlen (queued c) < capacity c /\ queued c' = queued c ++ [x]
                 /\ receiving c' = true /\ capacity c' = capacity c
    | Full => receiving c = true /\ capacity c <= zlen (queued c)
    | Closed => receiving c = false
    end;
  recv_spec c :
    match recv c with
    | Some (x, c') => queued c = x :: queued c' /\ receiving c' = receiving c /\ capacity c' = capacity c
    | None => queued c = []
    end;
  drop_receiver_spec c :
    queued (drop_receiver c) = [] /\ receiving (drop_receiver c) = false
    /\ capacity (drop_receiver c) = capacity c }.

(** A list with a capacity and a receiver flag. *)
Record list_chan (A : Type) := { lc_queue : list A; lc_open : bool; lc_capacity : Z }.
#[global] Arguments lc_queue {_} _.
#[global] Arguments lc_open {_} _.
#[global] Arguments lc_capacity {_} _.

Definition list_mpsc (A : Type) : Mpsc A.
Proof.
  refine {| chan := list_chan A;
            chan_new n := {| lc_queue := []; lc_open := true; lc_capacity := n |};
            try_send c x :=
              if lc_open c
              then if zlen (lc_queue c) <? lc_capacity c
                   then Sent {| lc_queue := lc_queue c ++ [x]; lc_open := true; lc_capacity := lc_capacity c |}
                   else Full
              else Closed;
            recv c := match lc_queue c with
                      | x :: q => Some (x, {| lc_queue := q; lc_open := lc_open c; lc_capacity := lc_capacity c |})
                      | [] => None
                      end;
            drop_receiver c := {| lc_queue := []; lc_open := false; lc_capacity := lc_capacity c |};
            queued := lc_queue; receiving := lc_open; capacity := lc_capacity |}.
  - done.
  - intros c x. destruct (lc_open c) eqn:E; [|done].
    destruct (_ <? _) eqn:E'; cbn; repeat split; try done; lia.
  - intros c. by destruct (lc_queue c).
  - done.
Defined.
