(* ===== verification/Testing.v ===== *)
(** * Testing: running the repository's own tests on the model

    A unit test of the source is a computation over the state it exercises that gives up at
    an assertion that does not hold; the files [*Tests] translate the tests function by
    function, under their names, and evaluate them. *)
From S2P Require Import Prelude.

Definition Test (S A : Type) : Type := S -> option (A * S).

#[export] Instance test_ret {S} : MRet (Test S) := fun A x s => Some (x, s).
#[export] Instance test_bind {S} : MBind (Test S) := fun A B f t s => '(x, s) ← t s; f x s.

(** An operation with a result, one without, a reading of the state. *)
Definition calling {S A} (f : S -> A * S) : Test S A := fun s => Some (f s).
Definition act {S} (f : S -> S) : Test S unit := fun s => Some (tt, f s).
Definition peek {S A} (f : S -> A) : Test S A := fun s => Some (f s, s).

(** [assert!], and [unwrap] of a [Result] or an [Option]. *)
Definition assert {S} (b : bool) : Test S unit := fun s => if b then Some (tt, s) else None.
Definition unwrap {S E A} (r : result E A) : Test S A := fun s => match r with Ok a => Some (a, s) | Err _ => None end.
Definition expect {S A} (o : option A) : Test S A := fun s => a ← o; Some (a, s).



Definition passes {S A} (t : Test S A) (s : S) : bool := match t s with Some _ => true | None => false end.

(** [for x in l]. *)
Fixpoint for_each {S X} (l : list X) (body : X -> Test S unit) : Test S unit :=
  match l with [] => mret tt | x :: l => body x ;; for_each l body end.

Definition eqb {A} `{EqDecision A} (x y : A) : bool := bool_decide (x = y).

(** [haystack.contains(needle)], [matches(needle).count()] of texts. *)
Fixpoint contains (needle s : string) : bool :=
  starts_with needle s || match s with EmptyString => false | String _ s => contains needle s end.
Fixpoint occurrences (needle s : string) : nat :=
  (if starts_with needle s then 1 else 0) + match s with EmptyString => 0 | String _ s => occurrences needle s end.
