(* ===== verification/EdgeHub.v ===== *)
(** * EdgeHub: the edge's frame ring and subscriber table ([src/edge/ring.rs],
    [src/edge/hub.rs])

    The ring keeps the last frames; the hub stores a published frame, offers it to
    every subscriber without waiting, and drops those whose queue is full.  A
    subscriber's channel and close code are shared between the hub and the session
    that reads them, so they live in a store keyed by the subscriber's id.  A HashMap's
    iteration order is a parameter. *)
From S2P Require Import Prelude Channel.

(** ** The ring *)

Record Frame := {
  offset : Z;
  batch_sequence : Z;
  event_sequence : Z;
  payload : bytes;
  recv_at_us : Z }.

Definition set_offset (o : Z) (f : Frame) : Frame :=
  {| offset := o; batch_sequence := batch_sequence f; event_sequence := event_sequence f;
     payload := payload f; recv_at_us := recv_at_us f |}.

Record Ring := { frames : list Frame; ring_capacity : Z; next_offset : Z }.

Record RingStats := { count : Z; oldest_offset : Z; latest_offset : Z }.

Definition ring_new (capacity : Z) : Ring :=
  {| frames := []; ring_capacity := Z.max capacity 1; next_offset := 1 |}.

Definition ring_push (r : Ring) (f : Frame) : Frame * Ring :=
  let f := set_offset (next_offset r) f in
  let kept := if zlen (frames r) =? ring_capacity r then tail (frames r) else frames r in
  (f, {| frames := kept ++ [f]; ring_capacity := ring_capacity r;
         next_offset := u64_add (next_offset r) 1 |}).

Definition ring_tail (r : Ring) (n : Z) : list Frame :=
  let n := Z.min n (zlen (frames r)) in
  drop (Z.to_nat (zlen (frames r) - n)) (frames r).

Definition last_event_sequence (r : Ring) : Z :=
  match last (frames r) with Some f => event_sequence f | None => 0 end.

Definition ring_stats (r : Ring) : RingStats :=
  {| count := zlen (frames r);
     oldest_offset := match head (frames r) with Some f => offset f | None => 0 end;
     latest_offset := match last (frames r) with Some f => offset f | None => 0 end |}.

(** ** The hub *)

Definition CLOSE_NORMAL : Z := 1000.
Definition CLOSE_POLICY : Z := 1008.
Definition CLOSE_RESTART : Z := 1012.

Record ClientInfo := {
  client_id : Z;
  client_ip : string;
  client_port : Z;
  token_id : option string;
  connected_at_ms : Z }.

#[global] Instance ClientInfo_eq_dec : EqDecision ClientInfo.
Proof. solve_decision. Defined.

(** What [publish] does with one subscriber. *)
Inductive delivery : Set := Delivered | Slow | Gone.

Section Hub.
Context `{Mpsc Frame}.
(** The order in which the subscriber [HashMap] iterates. *)
Variable iter : gmap Z ClientInfo -> list (Z * ClientInfo).

(** The state a hub and a session share: the channel and the close code. *)
Record Link := { link_chan : chan; link_code : Z }.

Record Hub := {
  ring : Ring;
  subs : gmap Z ClientInfo;
  next_id : Z;
  queue : Z;
  links : gmap Z Link;
  deliveries : Z;
  slow_clients_disconnected : Z;
  fanout_last_us : Z;
  fanout_max_us : Z }.

Definition hub_new (capacity queue_len : Z) : Hub :=
  {| ring := ring_new capacity; subs := ∅; next_id := 1; queue := Z.max queue_len 1; links := ∅;
     deliveries := 0; slow_clients_disconnected := 0; fanout_last_us := 0; fanout_max_us := 0 |}.

Definition with_subs (s : gmap Z ClientInfo) (l : gmap Z Link) (h : Hub) : Hub :=
  {| ring := ring h; subs := s; next_id := next_id h; queue := queue h; links := l;
     deliveries := deliveries h; slow_clients_disconnected := slow_clients_disconnected h;
     fanout_last_us := fanout_last_us h; fanout_max_us := fanout_max_us h |}.

Definition store_code (code : Z) (l : Link) : Link := {| link_chan := link_chan l; link_code := code |}.

Definition offer (f : Frame) (l : Link) : Link * delivery :=
  match try_send (link_chan l) f with
  | Sent c => ({| link_chan := c; link_code := link_code l |}, Delivered)
  | Full => (store_code CLOSE_POLICY l, Slow)
  | Closed => (l, Gone)
  end.

Record Fanout := { fo_links : gmap Z Link; evicted : list Z; delivered : Z; slow : Z }.

Definition fanout_one (f : Frame) (a : Fanout) (id : Z) : Fanout :=
  match fo_links a !! id with
  | None => a
  | Some l =>
      let '(l, d) := offer f l in
      {| fo_links := <[id := l]> (fo_links a);
         evicted := match d with Delivered => evicted a | _ => evicted a ++ [id] end;
         delivered := match d with Delivered => u64_add (delivered a) 1 | _ => delivered a end;
         slow := match d with Slow => u64_add (slow a) 1 | _ => slow a end |}
  end.

(** [publish]; [elapsed] is the duration the clock measures. *)
Definition publish (f : Frame) (elapsed : Z) (h : Hub) : Frame * Hub :=
  let '(f, ring') := ring_push (ring h) f in
  let fo := foldl (fanout_one f) {| fo_links := links h; evicted := []; delivered := 0; slow := 0 |}
                  (map fst (iter (subs h))) in
  (f, {| ring := ring';
         subs := foldl (fun m id => delete id m) (subs h) (evicted fo);
         next_id := next_id h; queue := queue h; links := fo_links fo;
         deliveries := u64_add (deliveries h) (delivered fo);
         slow_clients_disconnected :=
           if 0 <? slow fo then u64_add (slow_clients_disconnected h) (slow fo)
           else slow_clients_disconnected h;
         fanout_last_us := elapsed;
         fanout_max_us := Z.max (fanout_max_us h) elapsed |}).

(** [subscribe]: the replay snapshot and the id, whose link is the session's. *)
Definition subscribe (replay : Z) (ip : string) (port : Z) (token : option string) (now : Z) (h : Hub)
  : (Z * list Frame) * Hub :=
  let id := next_id h in
  let frames := ring_tail (ring h) replay in
  let info := {| client_id := id; client_ip := ip; client_port := port; token_id := token;
                 connected_at_ms := now |} in
  ((id, frames),
   {| ring := ring h; subs := <[id := info]> (subs h); next_id := u64_add id 1; queue := queue h;
      links := <[id := {| link_chan := chan_new (queue h); link_code := CLOSE_NORMAL |}]> (links h);
      deliveries := deliveries h; slow_clients_disconnected := slow_clients_disconnected h;
      fanout_last_us := fanout_last_us h; fanout_max_us := fanout_max_us h |}).

Definition unsubscribe (id : Z) (h : Hub) : Hub := with_subs (delete id (subs h)) (links h) h.

(** [for id in &ids { if let Some(sub) = subs.remove(id) { close_code.store(code) } }] *)
Definition drop_one (code : Z) (h : Hub) (id : Z) : Hub :=
  match subs h !! id with
  | None => h
  | Some _ => with_subs (delete id (subs h)) (alter (store_code code) id (links h)) h
  end.

Definition release (n code : Z) (h : Hub) : Z * Hub :=
  let ids := take (Z.to_nat n) (map fst (iter (subs h))) in
  (zlen ids, foldl (drop_one code) h ids).

Definition kick_tokens (keep : string -> bool) (h : Hub) : Z * Hub :=
  let dead s := match token_id s with Some t => negb (keep t) | None => false end in
  let ids := map fst (List.filter (fun p => dead (snd p)) (iter (subs h))) in
  (zlen ids, foldl (drop_one CLOSE_POLICY) h ids).

Definition clients (h : Hub) : Z := Z.of_nat (size (subs h)).

Definition by_client_id (a b : ClientInfo) : Prop := client_id a <= client_id b.
#[local] Instance by_client_id_dec : RelDecision by_client_id.
Proof. intros a b. unfold by_client_id. apply _. Defined.

Definition client_list (h : Hub) : list ClientInfo :=
  merge_sort by_client_id (map snd (iter (subs h))).

Definition count_token (m : gmap string Z) (s : ClientInfo) : gmap string Z :=
  match token_id s with
  | Some t => <[t := u64_add (default 0 (m !! t)) 1]> m
  | None => m
  end.

Definition clients_by_token (h : Hub) : gmap string Z :=
  foldl count_token ∅ (map snd (iter (subs h))).

Definition hub_ring_stats (h : Hub) : RingStats * Z := (ring_stats (ring h), ring_capacity (ring h)).

(** The session's side of a link: [rx.recv()] and dropping [rx]. *)
Definition receive (id : Z) (h : Hub) : option Frame * Hub :=
  match links h !! id with
  | None => (None, h)
  | Some l =>
      match recv (link_chan l) with
      | Some (f, c) =>
          (Some f, with_subs (subs h) (<[id := {| link_chan := c; link_code := link_code l |}]> (links h)) h)
      | None => (None, h)
      end
  end.

Definition drop_rx (id : Z) (h : Hub) : Hub :=
  with_subs (subs h)
    (alter (fun l => {| link_chan := drop_receiver (link_chan l); link_code := link_code l |}) id (links h)) h.

(** ** Histories

    A run of the hub under a sequence of its operations, with what was published and,
    for every client, what it was replayed, when it subscribed and what it received. *)

Inductive hub_op :=
| Publish (f : Frame) (elapsed : Z)
| Subscribe (replay : Z) (ip : string) (port : Z) (token : option string) (now : Z)
| Unsubscribe (id : Z)
| Release (n code : Z)
| KickTokens (keep : string -> bool)
| Receive (id : Z)
| DropRx (id : Z).

Record ClientLog := { log_replay : list Frame; log_from : nat; log_got : list Frame }.

Record Run := { hub : Hub; published : list Frame; logs : gmap Z ClientLog }.

Definition run_new (capacity queue_len : Z) : Run :=
  {| hub := hub_new capacity queue_len; published := []; logs := ∅ |}.

Definition log_frame (f : Frame) (lg : ClientLog) : ClientLog :=
  {| log_replay := log_replay lg; log_from := log_from lg; log_got := log_got lg ++ [f] |}.

Definition run_step (r : Run) (op : hub_op) : Run :=
  match op with
  | Publish f elapsed =>
      let '(f, h) := publish f elapsed (hub r) in
      {| hub := h; published := published r ++ [f]; logs := logs r |}
  | Subscribe n ip port token now =>
      let '((id, frames), h) := subscribe n ip port token now (hub r) in
      {| hub := h; published := published r;
         logs := <[id := {| log_replay := frames; log_from := length (published r); log_got := [] |}]> (logs r) |}
  | Unsubscribe id => {| hub := unsubscribe id (hub r); published := published r; logs := logs r |}
  | Release n code => {| hub := snd (release n code (hub r)); published := published r; logs := logs r |}
  | KickTokens keep => {| hub := snd (kick_tokens keep (hub r)); published := published r; logs := logs r |}
  | Receive id =>
      match receive id (hub r) with
      | (Some f, h) => {| hub := h; published := published r; logs := alter (log_frame f) id (logs r) |}
      | (None, h) => {| hub := h; published := published r; logs := logs r |}
      end
  | DropRx id => {| hub := drop_rx id (hub r); published := published r; logs := logs r |}
  end.

Definition run_ops (capacity queue_len : Z) (ops : list hub_op) : Run :=
  foldl run_step (run_new capacity queue_len) ops.

(** ** Lemmas *)

Hypothesis iter_perm : forall m, iter m ≡ₚ map_to_list m.

Lemma iter_keys_NoDup m : NoDup (map fst (iter m)).
Proof using iter_perm. rewrite iter_perm. apply NoDup_fst_map_to_list. Qed.

Lemma iter_keys m id : id ∈ map fst (iter m) <-> is_Some (m !! id).
Proof using iter_perm.
  rewrite list_elem_of_fmap. split.
  - intros ([k v] & -> & Hin). rewrite iter_perm in Hin. apply elem_of_map_to_list in Hin. by exists v.
  - intros [v Hv]. exists (id, v). split; [done|]. rewrite iter_perm. by apply elem_of_map_to_list.
Qed.

Lemma iter_length m : length (iter m) = size m.
Proof using iter_perm. by rewrite iter_perm, length_map_to_list. Qed.

Lemma ring_tail_last_n r n : 0 <= n -> ring_tail r n = last_n (Z.to_nat n) (frames r).
Proof. intros Hn. unfold ring_tail, last_n, zlen. f_equal. lia. Qed.

Lemma decide_cons_ne {T} (k i : Z) ids (x y : T) : k <> i ->
  (if decide (k ∈ i :: ids) then x else y) = (if decide (k ∈ ids) then x else y).
Proof.
  intros Hne. apply decide_ext. split; [intros [?|?]%elem_of_cons; done|by right].
Qed.

(** The subscriber [id] does not survive the publication of [f]. *)
Definition lost (f : Frame) (m : gmap Z Link) (id : Z) : bool :=
  match m !! id with
  | Some l => match snd (offer f l) with Delivered => false | _ => true end
  | None => false
  end.
Definition served (d : delivery) (f : Frame) (m : gmap Z Link) (id : Z) : bool :=
  match m !! id with
  | Some l => match snd (offer f l), d with
              | Delivered, Delivered | Slow, Slow | Gone, Gone => true
              | _, _ => false
              end
  | None => false
  end.

Lemma filter_insert_ne (p : gmap Z Link -> Z -> bool) m id l ids :
  (forall k m', k <> id -> p (<[id := m']> m) k = p m k) -> id ∉ ids ->
  List.filter (p (<[id := l]> m)) ids = List.filter (p m) ids.
Proof.
  intros Hp Hid. apply List.filter_ext_in. intros k Hk%list_elem_of_In. apply Hp. by intros ->.
Qed.

Lemma lost_insert_ne f m id k l : k <> id -> lost f (<[id := l]> m) k = lost f m k.
Proof. intros Hk. unfold lost. by rewrite lookup_insert_ne. Qed.
Lemma served_insert_ne d f m id k l : k <> id -> served d f (<[id := l]> m) k = served d f m k.
Proof. intros Hk. unfold served. by rewrite lookup_insert_ne. Qed.

Lemma fanout_links f ids : forall a id, NoDup ids ->
  fo_links (foldl (fanout_one f) a ids) !! id
  = if decide (id ∈ ids) then (fun l => fst (offer f l)) <$> fo_links a !! id else fo_links a !! id.
Proof.
  induction ids as [|k ids IH]; intros a id Hnd; cbn [foldl].
  { by rewrite decide_False by (by intros ?%elem_of_nil). }
  apply NoDup_cons in Hnd as [Hk Hnd]. rewrite IH by done. unfold fanout_one.
  destruct (decide (id = k)) as [->|Hne].
  - rewrite decide_False by done. rewrite decide_True by (by left).
    destruct (fo_links a !! k) as [l|] eqn:E; [|done]. destruct (offer f l) as [l' d] eqn:Eo.
    cbn [fo_links]. rewrite lookup_insert_eq. cbn. by rewrite Eo.
  - assert (Hl : fo_links match fo_links a !! k with
                          | Some l => let '(l, d) := offer f l in
                             {| fo_links := <[k := l]> (fo_links a);
                                evicted := match d with Delivered => evicted a | _ => evicted a ++ [k] end;
                                delivered := match d with Delivered => u64_add (delivered a) 1 | _ => delivered a end;
                                slow := match d with Slow => u64_add (slow a) 1 | _ => slow a end |}
                          | None => a end !! id = fo_links a !! id).
    { destruct (fo_links a !! k) as [l|]; [|done]. destruct (offer f l). cbn. by rewrite lookup_insert_ne. }
    rewrite Hl. destruct (decide (id ∈ ids)).
    + by rewrite decide_True by (by right).
    + rewrite decide_False; [done|]. by intros [?|?]%elem_of_cons.
Qed.

Lemma fanout_evicted f ids : forall a, NoDup ids ->
  evicted (foldl (fanout_one f) a ids) = evicted a ++ List.filter (lost f (fo_links a)) ids.
Proof.
  induction ids as [|k ids IH]; intros a Hnd; cbn [foldl List.filter]; [by rewrite app_nil_r|].
  apply NoDup_cons in Hnd as [Hk Hnd]. rewrite IH by done. unfold fanout_one, lost at 2.
  destruct (fo_links a !! k) as [l|]; [|done]. destruct (offer f l) as [l' d] eqn:Eo.
  cbn [fo_links evicted snd]. rewrite (filter_insert_ne (lost f)) by (done || intros; by apply lost_insert_ne).
  destruct d; [done|by rewrite <- app_assoc..].
Qed.

Lemma fanout_delivered f ids : forall a, NoDup ids -> 0 <= delivered a < 2 ^ 64 ->
  delivered (foldl (fanout_one f) a ids)
  = (delivered a + zlen (List.filter (served Delivered f (fo_links a)) ids)) mod 2 ^ 64.
Proof.
  induction ids as [|k ids IH]; intros a Hnd Hr; cbn [foldl List.filter].
  { rewrite zlen_nil, Z.add_0_r, Z.mod_small; done. }
  apply NoDup_cons in Hnd as [Hk Hnd]. rewrite IH; [|done|].
  - unfold fanout_one, served at 2. destruct (fo_links a !! k) as [l|]; [|done].
    destruct (offer f l) as [l' d] eqn:Eo. cbn [fo_links delivered snd].
    rewrite (filter_insert_ne (served Delivered f)) by (done || intros; by apply served_insert_ne).
    destruct d; [|done..]. rewrite zlen_cons. unfold u64_add.
    rewrite Zplus_mod_idemp_l. f_equal. lia.
  - unfold fanout_one. destruct (fo_links a !! k) as [l|]; [|done].
    destruct (offer f l) as [l' []]; cbn; [apply u64_add_range|done..].
Qed.

Lemma fanout_slow f ids : forall a, NoDup ids -> 0 <= slow a < 2 ^ 64 ->
  slow (foldl (fanout_one f) a ids)
  = (slow a + zlen (List.filter (served Slow f (fo_links a)) ids)) mod 2 ^ 64.
Proof.
  induction ids as [|k ids IH]; intros a Hnd Hr; cbn [foldl List.filter].
  { rewrite zlen_nil, Z.add_0_r, Z.mod_small; done. }
  apply NoDup_cons in Hnd as [Hk Hnd]. rewrite IH; [|done|].
  - unfold fanout_one, served at 2. destruct (fo_links a !! k) as [l|]; [|done].
    destruct (offer f l) as [l' d] eqn:Eo. cbn [fo_links slow snd].
    rewrite (filter_insert_ne (served Slow f)) by (done || intros; by apply served_insert_ne).
    destruct d; [done| |done]. rewrite zlen_cons. unfold u64_add.
    rewrite Zplus_mod_idemp_l. f_equal. lia.
  - unfold fanout_one. destruct (fo_links a !! k) as [l|]; [|done].
    destruct (offer f l) as [l' []]; cbn; [done|apply u64_add_range|done].
Qed.

Lemma delete_all_lookup {V} (ids : list Z) : forall (m : gmap Z V) k,
  foldl (fun m id => delete id m) m ids !! k = if decide (k ∈ ids) then None else m !! k.
Proof.
  induction ids as [|i ids IH]; intros m k; cbn [foldl].
  { by rewrite decide_False by (by intros ?%elem_of_nil). }
  rewrite IH. destruct (decide (k ∈ ids)).
  - by rewrite decide_True by (by right).
  - destruct (decide (k = i)) as [->|].
    + rewrite lookup_delete_eq. by rewrite decide_True by (by left).
    + rewrite lookup_delete_ne by done. rewrite decide_False; [done|]. by intros [?|?]%elem_of_cons.
Qed.

Lemma publish_ring f e h : fst (publish f e h) = fst (ring_push (ring h) f)
  /\ ring (snd (publish f e h)) = snd (ring_push (ring h) f).
Proof. unfold publish. by destruct (ring_push (ring h) f). Qed.

Lemma publish_subs f e h id :
  subs (snd (publish f e h)) !! id
  = if lost (fst (publish f e h)) (links h) id then None else subs h !! id.
Proof using iter_perm.
  unfold publish. destruct (ring_push (ring h) f) as [f' r']. cbn [fst snd subs].
  rewrite delete_all_lookup, fanout_evicted by apply iter_keys_NoDup. cbn [evicted fo_links app].
  destruct (decide (id ∈ _)) as [Hin|Hin]; rewrite list_elem_of_In, List.filter_In, <- list_elem_of_In in Hin.
  - destruct Hin as [_ ->]. done.
  - destruct (lost f' (links h) id); [|done]. rewrite iter_keys in Hin.
    destruct (subs h !! id) eqn:E; [|done]. exfalso. apply Hin. split; [by eexists|done].
Qed.

Lemma publish_links f e h id :
  links (snd (publish f e h)) !! id
  = match subs h !! id with
    | Some _ => (fun l => fst (offer (fst (publish f e h)) l)) <$> links h !! id
    | None => links h !! id
    end.
Proof using iter_perm.
  unfold publish. destruct (ring_push (ring h) f) as [f' r']. cbn [fst snd links].
  rewrite fanout_links by apply iter_keys_NoDup. cbn [fo_links].
  destruct (decide (id ∈ _)) as [Hin|Hin]; rewrite iter_keys in Hin.
  - by destruct Hin as [? ->].
  - destruct (subs h !! id) eqn:E; [|done]. exfalso. apply Hin. by eexists.
Qed.

Lemma drop_ids_spec code ids : forall h, exists s l,
  foldl (drop_one code) h ids = with_subs s l h
  /\ (forall k, s !! k = if decide (k ∈ ids) then None else subs h !! k)
  /\ (forall k, l !! k = match subs h !! k with
                         | Some _ => if decide (k ∈ ids) then store_code code <$> links h !! k else links h !! k
                         | None => links h !! k
                         end).
Proof.
  induction ids as [|i ids IH]; intros h; cbn [foldl].
  { exists (subs h), (links h). split; [by destruct h|]. split; intros k.
    - by rewrite decide_False by (by intros ?%elem_of_nil).
    - destruct (subs h !! k); [|done]. by rewrite decide_False by (by intros ?%elem_of_nil). }
  destruct (IH (drop_one code h i)) as (s & l & -> & Hs & Hl).
  unfold drop_one in *. destruct (subs h !! i) as [info|] eqn:Ei.
  - exists s, l. split; [done|]. cbn [subs links with_subs] in *.
    split; intros k; [rewrite Hs|rewrite Hl]; destruct (decide (k = i)) as [->|Hne].
    + rewrite lookup_delete_eq, (decide_True (P := i ∈ i :: ids)) by (by left). by destruct (decide _).
    + rewrite lookup_delete_ne by done.
      by rewrite decide_cons_ne.
    + rewrite lookup_delete_eq, Ei, decide_True by (by left). by rewrite lookup_alter_eq.
    + rewrite lookup_delete_ne, lookup_alter_ne by done.
      by rewrite decide_cons_ne.
  - exists s, l. split; [done|]. split; intros k; [rewrite Hs|rewrite Hl]; destruct (decide (k = i)) as [->|Hne].
    + rewrite (decide_True (P := i ∈ i :: ids)) by (by left). by destruct (decide _).
    + by rewrite decide_cons_ne.
    + by rewrite Ei.
    + by rewrite decide_cons_ne.
Qed.

(** ** The invariant of a run *)

Record tracks (pub : list Frame) (cap : Z) (live : bool) (lg : ClientLog) (l : Link) : Prop := {
  tracks_from : (log_from lg <= length pub)%nat;
  tracks_replay : log_replay lg `suffix_of` take (log_from lg) pub;
  tracks_prefix : log_got lg ++ queued (link_chan l) `prefix_of` drop (log_from lg) pub;
  tracks_live : live = true -> receiving (link_chan l) = true ->
                log_got lg ++ queued (link_chan l) = drop (log_from lg) pub;
  tracks_open : live = true -> link_code l = CLOSE_NORMAL;
  tracks_bound : zlen (queued (link_chan l)) <= capacity (link_chan l);
  tracks_capacity : capacity (link_chan l) = cap }.

Definition live (h : Hub) (id : Z) : bool := match subs h !! id with Some _ => true | None => false end.

Record run_inv (r : Run) : Prop := {
  inv_capacity : 1 <= ring_capacity (ring (hub r)) /\ 1 <= queue (hub r);
  inv_ring : frames (ring (hub r)) = last_n (Z.to_nat (ring_capacity (ring (hub r)))) (published r);
  inv_offset : next_offset (ring (hub r)) = (1 + zlen (published r)) mod 2 ^ 64;
  inv_offsets : forall i f, published r !! i = Some f -> offset f = (1 + Z.of_nat i) mod 2 ^ 64;
  inv_fresh : forall id, is_Some (logs r !! id) -> id < next_id (hub r);
  inv_subs : forall id, is_Some (subs (hub r) !! id) -> is_Some (logs r !! id);
  inv_links : forall id, is_Some (logs r !! id) <-> is_Some (links (hub r) !! id);
  inv_tracks : forall id lg l, logs r !! id = Some lg -> links (hub r) !! id = Some l ->
               tracks (published r) (queue (hub r)) (live (hub r) id) lg l }.

Lemma run_inv_new capacity queue_len : run_inv (run_new capacity queue_len).
Proof.
  split; cbn; try done; try lia.
  - intros id [? ?]. set_solver.
  - intros id [? ?]. set_solver.
  - intros id. rewrite !lookup_empty. done.
Qed.

Lemma ring_push_inv r pub f f' r' :
  1 <= ring_capacity r -> frames r = last_n (Z.to_nat (ring_capacity r)) pub ->
  ring_push r f = (f', r') ->
  frames r' = last_n (Z.to_nat (ring_capacity r)) (pub ++ [f']) /\ ring_capacity r' = ring_capacity r.
Proof.
  intros Hc Hf [= <- <-]. cbn [frames ring_capacity]. split; [|done].
  rewrite <- last_n_snoc, <- Hf.
  assert (Hl : (length (frames r) <= Z.to_nat (ring_capacity r))%nat) by (rewrite Hf, last_n_length; lia).
  unfold last_n, zlen. rewrite length_app. cbn [length].
  destruct (_ =? _) eqn:E.
  - replace (length (frames r) + 1 - _)%nat with 1%nat by lia. by destruct (frames r); [cbn in E; lia|].
  - by replace (length (frames r) + 1 - _)%nat with 0%nat by lia.
Qed.

(** A change of the subscriber table that only shrinks it and only touches the close
    codes of the ones it drops keeps the invariant. *)
Lemma run_inv_shrink r s l :
  run_inv r ->
  (forall k, is_Some (s !! k) -> s !! k = subs (hub r) !! k /\ l !! k = links (hub r) !! k) ->
  (forall k, match links (hub r) !! k with
             | Some x => exists y, l !! k = Some y /\ (queued (link_chan y) = queued (link_chan x)
                                   \/ queued (link_chan y) = [])
                         /\ capacity (link_chan y) = capacity (link_chan x)
             | None => l !! k = None
             end) ->
  run_inv {| hub := with_subs s l (hub r); published := published r; logs := logs r |}.
Proof.
  intros [Hc Hr Ho Hos Hf Hs Hl Ht] Hsub Hlink.
  split; cbn [hub published logs with_subs ring queue next_id subs links]; try done.
  - intros k Hk. apply Hs. destruct (Hsub k Hk) as [<- _]. done.
  - intros k. rewrite Hl. specialize (Hlink k). destruct (links (hub r) !! k) as [x|].
    + destruct Hlink as (y & -> & _). split; by eexists.
    + rewrite Hlink. done.
  - intros k lg y Hlg Hy. unfold live. cbn [subs with_subs].
    specialize (Hlink k). destruct (links (hub r) !! k) as [x|] eqn:Ex; [|congruence].
    destruct Hlink as (y' & Hy' & Hq & Hcap). rewrite Hy in Hy'. injection Hy' as <-.
    destruct (Ht k lg x Hlg Ex) as [T1 T2 T3 T4 T5 T6 T7].
    assert (Hk : is_Some (s !! k) -> y = x /\ live (hub r) k = true).
    { intros Hk. destruct (Hsub k Hk) as [E1 E2]. split; [congruence|].
      unfold live. destruct Hk as [? Hk]. rewrite <- E1, Hk. done. }
    split; try done.
    + destruct Hq as [->| ->]; [done|]. rewrite app_nil_r. etrans; [|apply T3]. by apply prefix_app_r.
    + destruct (s !! k) as [?|] eqn:E; [|done]. destruct Hk as [-> ?]; [by eexists|]. auto.
    + destruct (s !! k) as [?|] eqn:E; [|done]. destruct Hk as [-> ?]; [by eexists|]. auto.
    + rewrite Hcap. destruct Hq as [->| ->]; [done|]. rewrite zlen_nil.
      pose proof (zlen_nonneg (queued (link_chan x))). lia.
    + congruence.
Qed.

Lemma run_inv_drop r code ids :
  run_inv r ->
  run_inv {| hub := foldl (drop_one code) (hub r) ids; published := published r; logs := logs r |}.
Proof.
  intros Hinv. destruct (drop_ids_spec code ids (hub r)) as (s & l & -> & Hs & Hl).
  apply run_inv_shrink; [done|..].
  - intros k [x Hx]. rewrite Hs in *. rewrite Hl. destruct (decide (k ∈ ids)); [done|].
    by destruct (subs (hub r) !! k).
  - intros k. rewrite Hl. destruct (links (hub r) !! k) as [x|].
    + destruct (subs (hub r) !! k), (decide (k ∈ ids)); cbn; eexists; (split; [done|]); auto.
    + by destruct (subs (hub r) !! k), (decide (k ∈ ids)).
Qed.

Lemma tracks_publish pub f cap lg l alive :
  tracks pub cap alive lg l ->
  tracks (pub ++ [f]) cap (alive && match snd (offer f l) with Delivered => true | _ => false end)
         lg (if alive then fst (offer f l) else l).
Proof.
  intros [T1 T2 T3 T4 T5 T6 T7].
  assert (Htake : take (log_from lg) (pub ++ [f]) = take (log_from lg) pub) by (apply take_app_le; lia).
  assert (Hdrop : drop (log_from lg) (pub ++ [f]) = drop (log_from lg) pub ++ [f]) by (apply drop_app_le; lia).
  assert (Hp : log_got lg ++ queued (link_chan l) `prefix_of` drop (log_from lg) pub ++ [f])
    by (etrans; [exact T3|by apply prefix_app_r]).
  destruct alive; cbn [andb]; [|by split; rewrite ?length_app, ?Htake, ?Hdrop; auto; lia].
  unfold offer. pose proof (try_send_spec (link_chan l) f) as Hs.
  destruct (try_send (link_chan l) f) as [c| |]; cbn [fst snd].
  - destruct Hs as (Hr & Hlt & Hq & Hr' & Hcap).
    specialize (T4 eq_refl Hr).
    split; cbn [link_chan link_code]; rewrite ?length_app, ?Htake, ?Hdrop, ?Hq, ?Hcap; try done; [lia|..].
    + rewrite app_assoc, T4. done.
    + intros _ _. by rewrite app_assoc, T4.
    + rewrite zlen_app, zlen_cons, zlen_nil. lia.
  - split; cbn [link_chan link_code store_code]; rewrite ?length_app, ?Htake, ?Hdrop; try done; lia.
  - split; rewrite ?length_app, ?Htake, ?Hdrop; try done; lia.
Qed.

Lemma run_inv_publish r f e : run_inv r -> run_inv (run_step r (Publish f e)).
Proof using iter_perm.
  intros [Hc Hr Ho Hos Hf Hs Hl Ht]. cbn [run_step].
  pose proof (publish_subs f e (hub r)) as Psubs. pose proof (publish_links f e (hub r)) as Plinks.
  destruct (publish_ring f e (hub r)) as [P1 P2].
  assert (Pq : queue (snd (publish f e (hub r))) = queue (hub r)
               /\ next_id (snd (publish f e (hub r))) = next_id (hub r))
    by (unfold publish; by destruct (ring_push (ring (hub r)) f)).
  destruct (publish f e (hub r)) as [f' h']. cbn [fst snd] in *.
  destruct (ring_push (ring (hub r)) f) as [f2 r2] eqn:Ep. cbn [fst snd] in *. subst f' .
  assert (Hoff : offset f2 = next_offset (ring (hub r)) /\ next_offset r2 = u64_add (next_offset (ring (hub r))) 1)
    by (injection Ep as <- <-; done).
  apply (ring_push_inv _ (published r)) in Ep as [R1 R2]; [|lia|done]. subst r2.
  destruct Pq as [Pq Pn]. split; cbn [hub published logs]; rewrite ?Pq, ?Pn, ?R2; try done.
  - destruct Hoff as [_ ->]. rewrite Ho. unfold u64_add. rewrite Zplus_mod_idemp_l, zlen_app, zlen_cons, zlen_nil.
    f_equal. lia.
  - intros i g Hg. apply lookup_app_Some in Hg as [Hg|[Hi Hg]]; [by apply Hos|].
    apply list_lookup_singleton_Some in Hg as [Hi' <-]. destruct Hoff as [-> _]. rewrite Ho. f_equal. unfold zlen. lia.
  - intros id. rewrite Psubs. destruct (lost _ _ _); [by intros [? ?]|auto].
  - intros id. rewrite Hl, Plinks. destruct (subs (hub r) !! id); [|done]. by rewrite fmap_is_Some.
  - intros id lg l Hlg Hlk. rewrite Plinks in Hlk. unfold live. rewrite Psubs.
    specialize (Ht id lg). unfold live in Ht. unfold lost.
    destruct (links (hub r) !! id) as [l0|] eqn:E0; [|by destruct (subs (hub r) !! id)].
    specialize (Ht l0 Hlg eq_refl). apply (tracks_publish _ f2) in Ht.
    destruct (subs (hub r) !! id) as [info|]; cbn [fmap option_fmap option_map] in Hlk; injection Hlk as <-;
      cbn [andb] in Ht; [|by destruct (snd (offer f2 l0))].
    destruct (snd (offer f2 l0)); done.
Qed.

Lemma run_inv_subscribe r n ip port token now :
  run_inv r -> 0 <= n -> 0 < next_id (hub r) < u64_max -> run_inv (run_step r (Subscribe n ip port token now)).
Proof.
  intros [Hc Hr Ho Hos Hf Hs Hl Ht] Hn Hid. cbn [run_step subscribe].
  destruct (chan_new_spec (queue (hub r))) as (Q1 & Q2 & Q3).
  assert (Hnew : u64_add (next_id (hub r)) 1 = next_id (hub r) + 1) by (apply u64_add_small; lia).
  split; cbn [hub published logs ring queue next_id subs links]; try done.
  - intros id [lg Hlg]. rewrite Hnew. destruct (decide (id = next_id (hub r))) as [->|Hne]; [lia|].
    rewrite lookup_insert_ne in Hlg by done. pose proof (Hf id ltac:(by eexists)). lia.
  - intros id. destruct (decide (id = next_id (hub r))) as [->|Hne].
    + rewrite !lookup_insert_eq. by eexists.
    + rewrite !lookup_insert_ne by done. auto.
  - intros id. destruct (decide (id = next_id (hub r))) as [->|Hne].
    + rewrite !lookup_insert_eq. split; by eexists.
    + rewrite !lookup_insert_ne by done. auto.
  - intros id lg l. unfold live. cbn [subs]. destruct (decide (id = next_id (hub r))) as [->|Hne].
    + rewrite !lookup_insert_eq. intros [= <-] [= <-].
      assert (Hd : drop (length (published r)) (published r) = []) by apply drop_all.
      split; cbn [log_from log_replay log_got link_chan link_code app]; rewrite ?Q1, ?Q3, ?Hd; try done.
      * rewrite ring_tail_last_n, Hr, firstn_all by lia.
        etrans; [apply last_n_suffix|apply last_n_suffix].
      * rewrite zlen_nil. lia.
    + rewrite !lookup_insert_ne by done. apply Ht.
Qed.

Lemma run_inv_receive r id : run_inv r -> run_inv (run_step r (Receive id)).
Proof.
  intros Hinv. destruct Hinv as [Hc Hr Ho Hos Hf Hs Hl Ht]. cbn [run_step]. unfold receive.
  destruct (links (hub r) !! id) as [l|] eqn:El; [|done].
  pose proof (recv_spec (link_chan l)) as Hrecv.
  destruct (recv (link_chan l)) as [[f c]|] eqn:Er; [|done]. destruct Hrecv as (Hq & Hrc & Hcap).
  split; cbn [hub published logs with_subs ring queue next_id subs links]; try done.
  - intros k [lg Hk]. apply Hf. destruct (decide (k = id)) as [->|]; [|rewrite lookup_alter_ne in Hk by done; by eexists].
    rewrite lookup_alter_eq in Hk. destruct (logs r !! id); [by eexists|done].
  - intros k Hk. apply Hs in Hk as [lg Hk]. destruct (decide (k = id)) as [->|].
    + rewrite lookup_alter_eq, Hk. by eexists.
    + rewrite lookup_alter_ne by done. by eexists.
  - intros k. destruct (decide (k = id)) as [->|].
    + rewrite lookup_alter_eq, lookup_insert_eq, fmap_is_Some, Hl, El. split; by eexists.
    + rewrite lookup_alter_ne, lookup_insert_ne by done. apply Hl.
  - intros k lg l' Hlg Hl'. change (live (with_subs _ _ _) k) with (live (hub r) k).
    destruct (decide (k = id)) as [->|].
    + rewrite lookup_alter_eq in Hlg. rewrite lookup_insert_eq in Hl'. injection Hl' as <-.
      destruct (logs r !! id) as [lg0|] eqn:E0; [|done]. injection Hlg as <-.
      destruct (Ht id lg0 l E0 El) as [T1 T2 T3 T4 T5 T6 T7]. rewrite Hq in *.
      split; cbn [log_from log_replay log_got log_frame link_chan link_code];
        rewrite <- ?app_assoc, ?Hcap, ?Hrc; try done. rewrite zlen_cons in T6. lia.
    + rewrite lookup_alter_ne in Hlg by done. rewrite lookup_insert_ne in Hl' by done. by apply Ht.
Qed.

Definition op_ok (op : hub_op) : Prop := match op with Subscribe n _ _ _ _ => 0 <= n | _ => True end.

Lemma run_step_next_id r op :
  0 < next_id (hub r) < u64_max -> next_id (hub r) <= next_id (hub (run_step r op)) <= next_id (hub r) + 1.
Proof.
  intros Hid. destruct op as [f e|n ip port tk now|id|n code|keep|id|id]; cbn [run_step].
  - unfold publish. destruct (ring_push (ring (hub r)) f). cbn. lia.
  - cbn. rewrite u64_add_small; lia.
  - cbn. lia.
  - cbn [hub]. unfold release. cbn [snd].
    destruct (drop_ids_spec code (take (Z.to_nat n) (map fst (iter (subs (hub r))))) (hub r)) as (s & l & -> & _).
    cbn. lia.
  - cbn [hub]. unfold kick_tokens. cbn [snd]. cbv zeta.
    edestruct (drop_ids_spec CLOSE_POLICY) as (s & l & -> & _). cbn. lia.
  - unfold receive. destruct (links (hub r) !! id); [|cbn; lia]. destruct (recv _) as [[? ?]|]; cbn; lia.
  - cbn. lia.
Qed.

Lemma run_inv_step r op :
  run_inv r -> op_ok op -> 0 < next_id (hub r) < u64_max -> run_inv (run_step r op).
Proof using iter_perm.
  intros Hinv Hop Hid. destruct op as [f e|n ip port tk now|id|n code|keep|id|id].
  - by apply run_inv_publish.
  - by apply run_inv_subscribe.
  - cbn [run_step]. apply run_inv_shrink; [done|..].
    + intros k [x Hx]. split; [|done]. destruct (decide (k = id)) as [->|]; [by rewrite lookup_delete_eq in Hx|].
      by rewrite lookup_delete_ne.
    + intros k. destruct (links (hub r) !! k) as [x|]; [|done]. exists x. auto.
  - by apply run_inv_drop.
  - by apply run_inv_drop.
  - by apply run_inv_receive.
  - cbn [run_step]. destruct Hinv as [Hc Hr Ho Hos Hf Hs Hl Ht].
    split; cbn [hub published logs drop_rx with_subs ring queue next_id subs links]; try done.
    + intros k. rewrite Hl. destruct (decide (k = id)) as [->|];
        [rewrite lookup_alter_eq; symmetry; apply fmap_is_Some|by rewrite lookup_alter_ne].
    + intros k lg l Hlg Hlk. change (live (drop_rx id (hub r)) k) with (live (hub r) k).
      destruct (decide (k = id)) as [->|]; [|rewrite lookup_alter_ne in Hlk by done; by apply Ht].
      rewrite lookup_alter_eq in Hlk. destruct (links (hub r) !! id) as [l0|] eqn:E; [|done].
      injection Hlk as <-. destruct (Ht id lg l0 Hlg E) as [T1 T2 T3 T4 T5 T6 T7].
      destruct (drop_receiver_spec (link_chan l0)) as (D1 & D2 & D3).
      split; cbn [link_chan link_code]; rewrite ?D1, ?D2, ?D3, ?app_nil_r; try done.
      * etrans; [|exact T3]. by apply prefix_app_r.
      * pose proof (zlen_nonneg (queued (link_chan l0))). rewrite zlen_nil. lia.
Qed.

Lemma run_inv_ops c q ops :
  Forall op_ok ops -> zlen ops < u64_max - 1 ->
  run_inv (run_ops c q ops) /\ 0 < next_id (hub (run_ops c q ops)) <= 1 + zlen ops.
Proof using iter_perm.
  induction ops as [|op ops IH] using rev_ind; intros Hok Hlen.
  { split; [apply run_inv_new|]. change (0 < 1 <= 1). lia. }
  apply Forall_app in Hok as [Hok Hop]. rewrite zlen_app, zlen_cons, zlen_nil in Hlen.
  destruct IH as [Hinv Hid]; [done|lia|].
  unfold run_ops in *. rewrite foldl_app. cbn [foldl].
  assert (zlen (ops ++ [op]) = zlen ops + 1) as -> by (unfold zlen; rewrite length_app; simpl; lia).
  set (r := foldl run_step (run_new c q) ops) in *.
  assert (Hb : 0 < next_id (hub r) < u64_max) by lia.
  pose proof (run_step_next_id r op Hb). split; [|lia].
  apply run_inv_step; [done| |done]. by apply Forall_cons in Hop as [? _].
Qed.

Lemma client_contiguous capacity_ queue_len ops id lg l :
  Forall op_ok ops -> zlen ops < u64_max - 1 ->
  let r := run_ops capacity_ queue_len ops in
  logs r !! id = Some lg -> links (hub r) !! id = Some l ->
  exists before after,
    published r = before ++ (log_replay lg ++ log_got lg ++ queued (link_chan l)) ++ after
    /\ (is_Some (subs (hub r) !! id) -> receiving (link_chan l) = true -> after = [])
    /\ zlen (queued (link_chan l)) <= queue (hub r).
Proof using iter_perm.
  intros Hok Hlen r Hlg Hlk. destruct (run_inv_ops capacity_ queue_len ops Hok Hlen) as [Hinv _].
  destruct (inv_tracks _ Hinv id lg l Hlg Hlk) as [T1 [before T2] [after T3] T4 T5 T6 T7].
  fold r in T1, T2, T3, T4, T7. exists before.
  set (rest := drop (log_from lg) (published r)) in *.
  assert (Hp : published r = (before ++ log_replay lg) ++ rest) by (rewrite <- T2; symmetry; apply take_drop).
  exists after. split; [rewrite Hp, T3; by rewrite <- !app_assoc|].
  split; [|lia]. intros [x Hx] Hr. unfold live in T4. rewrite Hx in T4. specialize (T4 eq_refl Hr).
  rewrite <- T4 in T3. rewrite <- (app_nil_r (log_got lg ++ _)) in T3 at 1. by apply app_inv_head in T3.
Qed.

(** C1: gapless delivery.  Whatever the interleaving of publications, subscriptions,
    releases, kicks and receptions, what a client has been given — its replay, then what
    it received, then what waits in its queue — is one contiguous segment of the
    published sequence; as long as it is subscribed and reading, the segment reaches the
    last published frame; and its queue never exceeds the configured bound. *)
Theorem subscriber_gapless capacity_ queue_len ops id lg l :
  Forall op_ok ops -> zlen ops < u64_max - 1 ->
  let r := run_ops capacity_ queue_len ops in
  logs r !! id = Some lg -> links (hub r) !! id = Some l ->
  exists before after,
    published r = before ++ (log_replay lg ++ log_got lg ++ queued (link_chan l)) ++ after
    /\ (is_Some (subs (hub r) !! id) -> receiving (link_chan l) = true -> after = [])
    /\ zlen (queued (link_chan l)) <= queue (hub r).
Proof using iter_perm. apply client_contiguous. Qed.

(** The ring holds the last [ring_capacity] published frames, numbered by
    consecutive offsets from 1. *)
Theorem ring_holds_last capacity_ queue_len ops :
  Forall op_ok ops -> zlen ops < u64_max - 1 ->
  let r := run_ops capacity_ queue_len ops in
  frames (ring (hub r)) = last_n (Z.to_nat (ring_capacity (ring (hub r)))) (published r)
  /\ (forall i f, published r !! i = Some f -> offset f = (1 + Z.of_nat i) mod 2 ^ 64).
Proof using iter_perm.
  intros Hok Hlen r. destruct (run_inv_ops capacity_ queue_len ops Hok Hlen) as [[] _]. done.
Qed.

(** Publication.  A subscriber with room gets the frame at the end of its queue and
    stays; one with a full queue is dropped with close code 1008; one that stopped
    reading is dropped with its code untouched; nothing else changes in the table. *)
Theorem publish_outcome f e h id info l :
  subs h !! id = Some info -> links h !! id = Some l ->
  let '(f', h') := publish f e h in
  match try_send (link_chan l) f' with
  | Sent c => subs h' !! id = Some info
              /\ links h' !! id = Some {| link_chan := c; link_code := link_code l |}
  | Full => subs h' !! id = None
            /\ links h' !! id = Some {| link_chan := link_chan l; link_code := CLOSE_POLICY |}
  | Closed => subs h' !! id = None /\ links h' !! id = Some l
  end.
Proof using iter_perm.
  intros Hs Hl. pose proof (publish_subs f e h id) as P1. pose proof (publish_links f e h id) as P2.
  destruct (publish f e h) as [f' h']. cbn [fst snd] in *. rewrite Hs, Hl in *. unfold lost, offer in *.
  rewrite Hl in P1. rewrite P1, P2. cbn. by destruct (try_send (link_chan l) f').
Qed.

Lemma drop_ids_size (s : gmap Z ClientInfo) (ids : list Z) (m : gmap Z ClientInfo) :
  NoDup ids -> (forall k, k ∈ ids -> is_Some (m !! k)) ->
  (forall k, s !! k = if decide (k ∈ ids) then None else m !! k) ->
  Z.of_nat (size s) = Z.of_nat (size m) - zlen ids.
Proof.
  intros Hnd Hin Hs.
  assert (Hdom : dom s = dom m ∖ list_to_set ids).
  { apply leibniz_equiv. intros k. rewrite elem_of_difference, elem_of_list_to_set, !elem_of_dom, Hs.
    destruct (decide (k ∈ ids)); [|tauto]. split; [by intros [? ?]|tauto]. }
  assert (Hsub : list_to_set ids ⊆ dom m).
  { intros k. rewrite elem_of_list_to_set. intros Hk. by apply elem_of_dom, Hin. }
  rewrite <- !size_dom, Hdom, size_difference by done.
  apply subseteq_size in Hsub. rewrite size_list_to_set in * by done. unfold zlen. lia.
Qed.

(** The outcome of dropping a list of subscribers with a code. *)
Definition dropped (gone : Z -> bool) (code : Z) (h h' : Hub) : Prop :=
  ring h' = ring h /\ next_id h' = next_id h /\ forall id,
    match subs h !! id with
    | Some info => if gone id
                   then subs h' !! id = None /\ links h' !! id = store_code code <$> links h !! id
                   else subs h' !! id = Some info /\ links h' !! id = links h !! id
    | None => subs h' !! id = None /\ links h' !! id = links h !! id
    end.

Lemma drop_ids_dropped ids code h :
  dropped (fun id => bool_decide (id ∈ ids)) code h (foldl (drop_one code) h ids).
Proof.
  destruct (drop_ids_spec code ids h) as (s & l & -> & Hs & Hl). split; [done|split; [done|]].
  intros id. cbn [with_subs subs links]. rewrite Hs, Hl.
  destruct (decide (id ∈ ids)); [rewrite bool_decide_eq_true_2 by done|rewrite bool_decide_eq_false_2 by done];
    by destruct (subs h !! id).
Qed.

Lemma drop_ids_clients ids code h :
  NoDup ids -> (forall k, k ∈ ids -> is_Some (subs h !! k)) ->
  clients (foldl (drop_one code) h ids) = clients h - zlen ids.
Proof.
  intros Hnd Hin. destruct (drop_ids_spec code ids h) as (s & l & -> & Hs & _).
  unfold clients. cbn [with_subs subs]. by apply drop_ids_size.
Qed.

Lemma release_spec n code h :
  0 <= n ->
  let '(k, h') := release n code h in
  k = Z.min n (clients h) /\ clients h' = clients h - k
  /\ exists ids, zlen ids = k /\ NoDup ids /\ dropped (fun id => bool_decide (id ∈ ids)) code h h'.
Proof using iter_perm.
  intros Hn. unfold release. cbv zeta. set (ids := take _ _).
  assert (Hlen : zlen ids = Z.min n (clients h)).
  { unfold ids, zlen, clients. rewrite length_take, length_map, iter_length. lia. }
  assert (Hnd : NoDup ids).
  { eapply sublist_NoDup; [apply (iter_keys_NoDup (subs h))|apply sublist_take]. }
  assert (Hin : forall k, k ∈ ids -> is_Some (subs h !! k)).
  { intros k Hk. apply iter_keys. eapply elem_of_sublist; [exact Hk|apply sublist_take]. }
  split; [done|]. split; [by apply drop_ids_clients|].
  exists ids. split; [done|split; [done|apply drop_ids_dropped]].
Qed.

(** Releasing [n] clients drops exactly [min n clients] of them, marks those with the
    close code, leaves the others and their queues alone, and reports the count. *)
Theorem release_exact n code h :
  0 <= n ->
  let '(k, h') := release n code h in
  k = Z.min n (clients h) /\ clients h' = clients h - k
  /\ exists ids, zlen ids = k /\ NoDup ids /\ dropped (fun id => bool_decide (id ∈ ids)) code h h'.
Proof using iter_perm. apply release_spec. Qed.

Definition token_dead (keep : string -> bool) (m : gmap Z ClientInfo) (id : Z) : bool :=
  match m !! id with
  | Some i => match token_id i with Some t => negb (keep t) | None => false end
  | None => false
  end.

Lemma kick_tokens_spec keep h :
  let '(k, h') := kick_tokens keep h in
  k = clients h - clients h' /\ dropped (token_dead keep (subs h)) CLOSE_POLICY h h'.
Proof using iter_perm.
  unfold kick_tokens. cbv zeta. set (dead := fun s => _). set (ids := map fst _).
  assert (Hids : forall k, k ∈ ids <-> token_dead keep (subs h) k = true).
  { intros k. unfold ids. rewrite list_elem_of_fmap. unfold token_dead. split.
    - intros ([k' i] & -> & Hin). rewrite list_elem_of_In, List.filter_In, <- list_elem_of_In in Hin.
      destruct Hin as [Hin Hd]. rewrite iter_perm in Hin. apply elem_of_map_to_list in Hin. cbn [fst].
      rewrite Hin. exact Hd.
    - destruct (subs h !! k) as [i|] eqn:E; [|done]. intros Hd. exists (k, i). split; [done|].
      rewrite list_elem_of_In, List.filter_In, <- list_elem_of_In, iter_perm. split; [|exact Hd].
      by apply elem_of_map_to_list. }
  assert (Hnd : NoDup ids).
  { eapply sublist_NoDup; [apply (iter_keys_NoDup (subs h))|].
    apply (fmap_sublist fst). clear. induction (iter (subs h)) as [|p l IH]; cbn; [constructor|].
    destruct (dead p); by constructor. }
  assert (Hin : forall k, k ∈ ids -> is_Some (subs h !! k)).
  { intros k Hk%Hids. unfold token_dead in Hk. destruct (subs h !! k); [by eexists|done]. }
  split; [rewrite drop_ids_clients by done; lia|].
  destruct (drop_ids_dropped ids CLOSE_POLICY h) as (D1 & D2 & D3). split; [done|split; [done|]].
  intros id. specialize (D3 id). destruct (subs h !! id); [|done].
  replace (token_dead keep (subs h) id) with (bool_decide (id ∈ ids)); [done|].
  apply eq_bool_prop_intro. rewrite bool_decide_spec, Hids. by destruct (token_dead _ _ _).
Qed.

(** A token refresh drops exactly the clients whose token id is no longer live, with
    close code 1008, and keeps every other client. *)
Theorem kick_tokens_exact keep h :
  let '(k, h') := kick_tokens keep h in
  k = clients h - clients h' /\ dropped (token_dead keep (subs h)) CLOSE_POLICY h h'.
Proof using iter_perm. apply kick_tokens_spec. Qed.

End Hub.

(** Two clients on a hub of ring size 2 and queue size 1: the first reads, the second
    does not and is evicted by the second publication. *)
Module Sample.
#[local] Instance mpsc : Mpsc Frame := list_mpsc Frame.
Definition iter (m : gmap Z ClientInfo) : list (Z * ClientInfo) := map_to_list m.
Definition frame (seq : Z) : Frame :=
  {| offset := 0; batch_sequence := seq; event_sequence := 10 * seq; payload := [byte_of seq]; recv_at_us := 5 |}.
Definition ops : list hub_op :=
  [Publish (frame 1) 3; Publish (frame 2) 4; Publish (frame 3) 2;
   Subscribe 9 "10.0.0.1" 4001 (Some "alice"%string) 77; Subscribe 0 "10.0.0.2" 4002 (Some "bob"%string) 78;
   Publish (frame 4) 3; Receive 1; Publish (frame 5) 3].
Definition final : Run := run_ops iter 2 1 ops.
Definition info (id : Z) : ClientInfo := default
  {| client_id := 0; client_ip := ""; client_port := 0; token_id := None; connected_at_ms := 0 |} (subs (hub final) !! id).
Definition link (id : Z) : Link := default {| link_chan := chan_new 1; link_code := 0 |} (links (hub final) !! id).
Definition log (id : Z) : ClientLog := default
  {| log_replay := []; log_from := 0; log_got := [] |} (logs final !! id).

Lemma iter_perm m : iter m ≡ₚ map_to_list m.
Proof. reflexivity. Qed.
Lemma ops_ok : Forall op_ok ops.
Proof. repeat constructor; cbn; lia. Qed.
Lemma ops_len : zlen ops < u64_max - 1.
Proof. vm_compute. reflexivity. Qed.
End Sample.

Lemma subscriber_gapless_witness :
  (exists before after,
    published Sample.final = before ++ (log_replay (Sample.log 1) ++ log_got (Sample.log 1)
                                        ++ queued (link_chan (Sample.link 1))) ++ after
    /\ (is_Some (subs (hub Sample.final) !! 1) -> receiving (link_chan (Sample.link 1)) = true -> after = [])
    /\ zlen (queued (link_chan (Sample.link 1))) <= queue (hub Sample.final))
  /\ map batch_sequence (log_replay (Sample.log 1) ++ log_got (Sample.log 1)
                         ++ queued (link_chan (Sample.link 1))) = [2; 3; 4; 5]
  /\ subs (hub Sample.final) !! 2 = None /\ link_code (Sample.link 2) = CLOSE_POLICY.
Proof.
  split; [|vm_compute; done].
  apply (subscriber_gapless Sample.iter Sample.iter_perm 2 1 Sample.ops 1);
    [exact Sample.ops_ok|exact Sample.ops_len|vm_compute; reflexivity..].
Defined.

Lemma ring_holds_last_witness :
  map batch_sequence (frames (ring (hub Sample.final))) = [4; 5]
  /\ frames (ring (hub Sample.final)) = last_n 2 (published Sample.final).
Proof.
  split; [vm_compute; done|].
  exact (proj1 (ring_holds_last Sample.iter Sample.iter_perm 2 1 Sample.ops Sample.ops_ok Sample.ops_len)).
Defined.

Lemma publish_outcome_witness :
  (let '(f', h') := publish Sample.iter (Sample.frame 6) 3 (hub Sample.final) in
   match try_send (link_chan (Sample.link 1)) f' with
   | Sent c => subs h' !! 1 = Some (Sample.info 1)
               /\ links h' !! 1 = Some {| link_chan := c; link_code := link_code (Sample.link 1) |}
   | Full => subs h' !! 1 = None
             /\ links h' !! 1 = Some {| link_chan := link_chan (Sample.link 1); link_code := CLOSE_POLICY |}
   | Closed => subs h' !! 1 = None /\ links h' !! 1 = Some (Sample.link 1)
   end)
  /\ clients (snd (publish Sample.iter (Sample.frame 6) 3 (hub Sample.final))) = 0.
Proof.
  split; [|vm_compute; done].
  refine (publish_outcome Sample.iter Sample.iter_perm (Sample.frame 6) 3 (hub Sample.final) 1
            (Sample.info 1) (Sample.link 1) _ _); vm_compute; reflexivity.
Defined.

Lemma release_exact_witness :
  fst (release Sample.iter 5 CLOSE_RESTART (hub Sample.final)) = 1
  /\ clients (snd (release Sample.iter 5 CLOSE_RESTART (hub Sample.final))) = 0.
Proof.
  pose proof (release_exact Sample.iter Sample.iter_perm 5 CLOSE_RESTART (hub Sample.final) ltac:(lia)) as Hw.
  destruct (release Sample.iter 5 CLOSE_RESTART (hub Sample.final)) as [k h']. cbn [fst snd].
  destruct Hw as (-> & -> & _). split; vm_compute; done.
Defined.

Lemma kick_tokens_exact_witness :
  fst (kick_tokens Sample.iter (String.eqb "bob") (hub Sample.final)) = 1
  /\ dropped (token_dead (String.eqb "bob") (subs (hub Sample.final))) CLOSE_POLICY (hub Sample.final)
             (snd (kick_tokens Sample.iter (String.eqb "bob") (hub Sample.final))).
Proof.
  split; [vm_compute; done|].
  exact (proj2 (kick_tokens_exact Sample.iter Sample.iter_perm (String.eqb "bob") (hub Sample.final))).
Defined.
