(* ===== verification/Tokens.v ===== *)
(** * Tokens: the console's token table ([src/console/tokens.rs], [src/console/store.rs])
    and the edge's token set ([src/edge/auth.rs])

    The console file is the state on disk: [save_json] replaces it by a rename, so it
    holds either the old or the new table; its JSON text is not modelled.  Random
    strings, the clock and the success of the write are inputs. *)
From S2P Require Import Prelude.

(** ** The console's table *)

Record Token := {
  id : string;
  secret : string;
  name : string;
  enabled : bool;
  created_at_ms : Z;
  updated_at_ms : Z }.

#[global] Instance Token_eq_dec : EqDecision Token.
Proof. solve_decision. Defined.

Record TokensFile := { version : Z; tokens : list Token }.

Record TokenGrant := { grant_id : string; grant_secret : string }.

Record TokenView := {
  view_id : string;
  view_name : string;
  prefix : string;
  view_enabled : bool;
  view_created_at_ms : Z;
  view_updated_at_ms : Z }.

Record TokenStore := { inner : TokensFile; disk : option TokensFile }.

Definition set_state (on : bool) (now : Z) (t : Token) : Token :=
  {| id := id t; secret := secret t; name := name t; enabled := on;
     created_at_ms := created_at_ms t; updated_at_ms := now |}.
Definition set_name (n : string) (now : Z) (t : Token) : Token :=
  {| id := id t; secret := secret t; name := n; enabled := enabled t;
     created_at_ms := created_at_ms t; updated_at_ms := now |}.

(** [load_json(path)?.unwrap_or_default()] *)
Definition open_store (disk : option TokensFile) : TokenStore :=
  {| inner := default {| version := 0; tokens := [] |} disk; disk := disk |}.

Definition grants (s : TokenStore) : Z * list TokenGrant :=
  (version (inner s),
   map (fun t => {| grant_id := id t; grant_secret := secret t |}) (List.filter enabled (tokens (inner s)))).

(** [secret.chars().take(6)] *)
Definition view (take_chars : nat -> string -> string) (t : Token) : TokenView :=
  {| view_id := id t; view_name := name t; prefix := take_chars 6%nat (secret t); view_enabled := enabled t;
     view_created_at_ms := created_at_ms t; view_updated_at_ms := updated_at_ms t |}.
Definition list_tokens (take_chars : nat -> string -> string) (s : TokenStore) : list TokenView :=
  map (view take_chars) (tokens (inner s)).

(** [mutate]: [f] edits the table in place and reports a change; the memory keeps the
    edit and the new version even when the write fails ([saves = false]). *)
Definition mutate (f : list Token -> list Token * bool) (saves : bool) (s : TokenStore)
  : result unit bool * TokenStore :=
  let '(ts, changed) := f (tokens (inner s)) in
  if changed then
    let file := {| version := u64_add (version (inner s)) 1; tokens := ts |} in
    if saves then (Ok true, {| inner := file; disk := Some file |})
    else (Err tt, {| inner := file; disk := disk s |})
  else (Ok false, {| inner := {| version := version (inner s); tokens := ts |}; disk := disk s |}).

(** [iter_mut().find(|t| t.id == id)] and the assignment behind it *)
Fixpoint update_first (i : string) (g : Token -> Token) (ts : list Token) : list Token * bool :=
  match ts with
  | [] => ([], false)
  | t :: ts => if String.eqb (id t) i then (g t :: ts, true)
               else let '(ts', b) := update_first i g ts in (t :: ts', b)
  end.

(** [create]: the returned token carries its secret; [Err] when the file is not written. *)
Definition create (nm new_id new_secret : string) (now : Z) (saves : bool) (s : TokenStore)
  : result unit Token * TokenStore :=
  let token := {| id := new_id; secret := new_secret; name := trim nm; enabled := true;
                  created_at_ms := now; updated_at_ms := now |} in
  let '(r, s) := mutate (fun ts => (ts ++ [token], true)) saves s in
  (match r with Ok _ => Ok token | Err e => Err e end, s).

Definition set_enabled (i : string) (on : bool) (now : Z) (saves : bool) (s : TokenStore)
  : result unit bool * TokenStore :=
  mutate (update_first i (set_state on now)) saves s.

Definition rename (i nm : string) (now : Z) (saves : bool) (s : TokenStore)
  : result unit bool * TokenStore :=
  mutate (update_first i (set_name (trim nm) now)) saves s.

Definition delete_token (i : string) (saves : bool) (s : TokenStore) : result unit bool * TokenStore :=
  mutate (fun ts => let ts' := List.filter (fun t => negb (String.eqb (id t) i)) ts in
                    (ts', negb (Nat.eqb (length ts') (length ts)))) saves s.

(** ** The edge's set *)

Definition STATIC_TOKEN_ID : string := "env".

Record TokenSet := {
  set_version : Z;
  console : gmap string string;
  statics : list string;
  received_from_console : bool }.

Definition set_new (statics : list string) : TokenSet :=
  {| set_version := 0; console := ∅; statics := statics; received_from_console := false |}.

(** [collect()] into a HashMap: a later grant with the same secret wins. *)
Definition add_grant (m : gmap string string) (g : TokenGrant) : gmap string string :=
  <[grant_secret g := grant_id g]> m.
Definition grant_map (gs : list TokenGrant) : gmap string string := foldl add_grant ∅ gs.

Definition replace (v : Z) (gs : list TokenGrant) (s : TokenSet) : bool * TokenSet :=
  let next := grant_map gs in
  let changed := negb (bool_decide (next = console s)) || negb (received_from_console s) in
  (changed, {| set_version := v; console := next; statics := statics s; received_from_console := true |}).

Definition check (sec : string) (s : TokenSet) : option string :=
  if String.eqb sec "" then None else
  match console s !! sec with
  | Some i => Some i
  | None => if negb (received_from_console s) && existsb (fun x => String.eqb x sec) (statics s)
            then Some STATIC_TOKEN_ID else None
  end.

Definition is_live (token_id : string) (s : TokenSet) : bool :=
  if String.eqb token_id STATIC_TOKEN_ID then negb (received_from_console s)
  else existsb (fun p => String.eqb (snd p) token_id) (map_to_list (console s)).

(** ** Properties *)

Lemma update_first_spec i g ts :
  (forall t, id (g t) = id t) ->
  let '(ts', b) := update_first i g ts in
  map id ts' = map id ts /\ b = bool_decide (i ∈ map id ts)
  /\ (forall t, t ∈ ts' -> id t <> i -> t ∈ ts)
  /\ (NoDup (map id ts) -> forall t, t ∈ ts' -> id t = i -> exists t0, t0 ∈ ts /\ id t0 = i /\ t = g t0).
Proof.
  intros Hg. induction ts as [|t ts IH]; cbn [update_first map].
  - split_and!; try done.
    intros _ t Ht. by apply elem_of_nil in Ht.
  - destruct (String.eqb_spec (id t) i) as [<-|Hne].
    + cbn [map]. rewrite Hg. split_and!; [done|..].
      * rewrite bool_decide_eq_true_2; [done|by left].
      * intros t' [->|?]%elem_of_cons Hi; [by rewrite Hg in Hi|by right].
      * intros [Hnin _]%NoDup_cons t' [->|Hin]%elem_of_cons Hi.
        { exists t. repeat split. by left. }
        exfalso. apply Hnin. rewrite list_elem_of_fmap. exists t'. done.
    + destruct (update_first i g ts) as [ts' b]. destruct IH as (H1 & H2 & H3 & H4). cbn [map]. split_and!.
      * by rewrite H1.
      * rewrite H2. apply bool_decide_ext. split; [by right|]. by intros [?|?]%elem_of_cons.
      * intros t' [->|?]%elem_of_cons Hi; [by left|right; auto].
      * intros [_ Hnd]%NoDup_cons t' [->|Hin]%elem_of_cons Hi; [done|].
        destruct (H4 Hnd t' Hin Hi) as (t0 & ? & ? & ?). exists t0. repeat split; [by right|done..].
Qed.

Lemma grant_map_elem gs : forall m s i,
  foldl add_grant m gs !! s = Some i ->
  m !! s = Some i \/ exists g, g ∈ gs /\ grant_secret g = s /\ grant_id g = i.
Proof.
  induction gs as [|g gs IH]; intros m s i H; cbn [foldl] in H; [by left|].
  apply IH in H as [H|(g' & ? & ? & ?)]; [|right; exists g'; split; [by right|done]].
  unfold add_grant in H. destruct (decide (s = grant_secret g)) as [->|Hne].
  - rewrite lookup_insert_eq in H. injection H as <-. right. exists g. split; [by left|done].
  - rewrite lookup_insert_ne in H by done. by left.
Qed.

Lemma grant_map_unique gs g : forall m,
  NoDup (map grant_secret gs) -> g ∈ gs ->
  foldl add_grant m gs !! grant_secret g = Some (grant_id g).
Proof.
  induction gs as [|g' gs IH]; intros m; cbn [map foldl]; [by intros _ ?%elem_of_nil|].
  intros [Hnin Hnd]%NoDup_cons [->|Hin]%elem_of_cons; [|by apply IH].
  assert (Hk : forall m, foldl add_grant m gs !! grant_secret g'
                         = m !! grant_secret g').
  { clear IH Hnd. induction gs as [|h gs IH]; intros m'; cbn [foldl]; [done|].
    cbn [map] in Hnin. apply not_elem_of_cons in Hnin as [? ?]. rewrite IH by done.
    unfold add_grant. by rewrite lookup_insert_ne. }
  rewrite Hk. unfold add_grant. apply lookup_insert_eq.
Qed.

Lemma is_live_spec i s :
  i <> STATIC_TOKEN_ID -> is_live i s = true <-> exists sec, console s !! sec = Some i.
Proof.
  intros Hi. unfold is_live. rewrite (proj2 (String.eqb_neq _ _) Hi), existsb_exists. split.
  - intros ([k v] & Hin & E). apply list_elem_of_In, elem_of_map_to_list in Hin. exists k.
    apply String.eqb_eq in E. cbn in E. by subst.
  - intros [sec Hs]. exists (sec, i). split; [|apply String.eqb_refl].
    by apply list_elem_of_In, elem_of_map_to_list.
Qed.

(** A set that was received accepts what was granted. *)
Lemma check_granted gs s : NoDup (map grant_secret gs) -> console s = grant_map gs -> received_from_console s = true ->
  forall sec i, check sec s = Some i <-> sec <> EmptyString /\ exists g, g ∈ gs /\ grant_secret g = sec /\ grant_id g = i.
Proof.
  intros Hnd Hc Hr sec i. unfold check. rewrite Hc, Hr. cbn [negb andb].
  destruct (String.eqb_spec sec "") as [->|Hne]; [split; [done|by intros []]|]. split.
  - destruct (grant_map gs !! sec) as [j|] eqn:E; [|done]. intros [= <-]. split; [done|].
    apply grant_map_elem in E as [E|?]; [by rewrite lookup_empty in E|done].
  - intros [_ (g & Hin & <- & <-)]. unfold grant_map. by rewrite grant_map_unique.
Qed.

(** The set the console sends is authoritative.  After it, a non-empty secret is
    accepted exactly for an id granted with it, every granted secret is accepted
    (distinct secrets), and the static list no longer opens anything. *)
Theorem replace_authoritative v gs s :
  NoDup (map grant_secret gs) ->
  let s' := snd (replace v gs s) in
  (forall sec i, check sec s' = Some i <-> sec <> EmptyString
                 /\ exists g, g ∈ gs /\ grant_secret g = sec /\ grant_id g = i)
  /\ is_live STATIC_TOKEN_ID s' = false
  /\ (fst (replace v gs s) = false -> forall sec, check sec s' = check sec s).
Proof.
  intros Hnd s'.
  assert (Hc : console s' = grant_map gs) by done.
  assert (Hr : received_from_console s' = true) by done.
  split; [by apply check_granted|split; [done|]].
  cbn [replace fst]. intros [Hd Hrec]%orb_false_iff sec.
  apply negb_false_iff, bool_decide_eq_true in Hd. apply negb_false_iff in Hrec.
  unfold check. by rewrite Hc, Hr, Hd, Hrec.
Qed.

(** Revoking a token on the console takes it away at the edge.  After
    [set_enabled(id, false)] succeeds and the edge installs the grants, no secret is
    accepted for that id and the id is no longer live, so its clients are kicked. *)
Theorem revoke_cuts_off i now saves st st' v set_ :
  NoDup (map id (tokens (inner st))) -> i <> STATIC_TOKEN_ID ->
  set_enabled i false now saves st = (Ok true, st') ->
  let s' := snd (replace v (snd (grants st')) set_) in
  is_live i s' = false /\ forall sec, check sec s' <> Some i.
Proof.
  intros Hnd Hi Hset s'.
  assert (Hno : forall sec, grant_map (snd (grants st')) !! sec <> Some i).
  { intros sec Hg. apply grant_map_elem in Hg as [Hg|(g & Hin & _ & Hid)]; [by rewrite lookup_empty in Hg|].
    unfold grants in Hin. cbn [snd] in Hin. apply list_elem_of_fmap in Hin as (t & -> & Hin).
    cbn [grant_id] in Hid. rewrite list_elem_of_In, List.filter_In, <- list_elem_of_In in Hin.
    destruct Hin as [Hin Hen]. unfold set_enabled, mutate in Hset.
    pose proof (update_first_spec i (set_state false now) (tokens (inner st)) ltac:(done)) as Hu.
    destruct (update_first _ _ _) as [ts' b]. destruct Hu as (_ & _ & _ & H4).
    destruct b; [|done]. destruct saves; [|done]. injection Hset as <-. cbn [inner tokens] in Hin.
    destruct (H4 Hnd t Hin Hid) as (t0 & _ & _ & ->). done. }
  split.
  - apply not_true_iff_false. rewrite is_live_spec by done. intros [sec Hs]. by apply (Hno sec).
  - intros sec. unfold check. change (console s') with (grant_map (snd (grants st'))).
    change (received_from_console s') with true. cbn [negb andb].
    destruct (String.eqb sec ""); [done|]. destruct (_ !! sec) as [j|] eqn:E; [|done].
    intros [= ->]. by apply (Hno sec).
Qed.

(** The table on disk.  Every operation that reports success leaves the file equal to
    the memory with the version one higher, every one that reports no change leaves
    both alone, and a reopened store is the one that was saved. *)
Theorem mutate_persists f saves s r s' :
  (forall ts, snd (f ts) = false -> fst (f ts) = ts) ->
  mutate f saves s = (r, s') ->
  match r with
  | Ok true => disk s' = Some (inner s') /\ version (inner s') = u64_add (version (inner s)) 1
               /\ open_store (disk s') = s'
  | Ok false => s' = s
  | Err _ => disk s' = disk s /\ saves = false
  end.
Proof.
  intros Hf. unfold mutate. specialize (Hf (tokens (inner s))).
  destruct (f (tokens (inner s))) as [ts b]. cbn [fst snd] in Hf.
  destruct b; [destruct saves; intros [= <- <-]; done|].
  intros [= <- <-]. rewrite Hf by done. by destruct s as [[] ?].
Qed.

Module Sample.
Definition alice : Token :=
  {| id := "a1"; secret := "s3cret"; name := "alice"; enabled := true; created_at_ms := 1; updated_at_ms := 1 |}.
Definition bob : Token :=
  {| id := "b2"; secret := "hunter2"; name := "bob"; enabled := true; created_at_ms := 2; updated_at_ms := 2 |}.
Definition store : TokenStore := open_store (Some {| version := 4; tokens := [alice; bob] |}).
Definition edge : TokenSet := set_new ["emergency"%string].
End Sample.

Lemma replace_authoritative_witness :
  (forall sec i, check sec (snd (replace 4 (snd (grants Sample.store)) Sample.edge)) = Some i
     <-> sec <> EmptyString /\ exists g, g ∈ snd (grants Sample.store) /\ grant_secret g = sec /\ grant_id g = i)
  /\ check "emergency" Sample.edge = Some "env"%string
  /\ check "hunter2" (snd (replace 4 (snd (grants Sample.store)) Sample.edge)) = Some "b2"%string.
Proof.
  split; [|done]. refine (proj1 (replace_authoritative 4 (snd (grants Sample.store)) Sample.edge _)).
  apply (bool_decide_unpack _). vm_compute. exact I.
Defined.

Lemma revoke_cuts_off_witness :
  is_live "b2" (snd (replace 5 (snd (grants (snd (set_enabled "b2" false 9 true Sample.store)))) Sample.edge)) = false
  /\ forall sec, check sec (snd (replace 5 (snd (grants (snd (set_enabled "b2" false 9 true Sample.store))))
                                        Sample.edge)) <> Some "b2"%string.
Proof.
  refine (revoke_cuts_off "b2" 9 true Sample.store _ 5 Sample.edge _ _ _); [|done|reflexivity].
  apply (bool_decide_unpack _). vm_compute. exact I.
Defined.

Lemma mutate_persists_witness :
  disk (snd (delete_token "a1" true Sample.store)) = Some (inner (snd (delete_token "a1" true Sample.store)))
  /\ map id (tokens (inner (snd (delete_token "a1" true Sample.store)))) = ["b2"%string].
Proof.
  split; [|reflexivity].
  refine (proj1 (mutate_persists (fun ts => let ts' := List.filter (fun t => negb (String.eqb (id t) "a1")) ts in
    (ts', negb (Nat.eqb (length ts') (length ts)))) true Sample.store (Ok true) _ _ eq_refl)).
  intros ts. cbn. intros H%negb_false_iff%Nat.eqb_eq.
  induction ts as [|t ts IH]; [done|]. cbn in *. destruct (negb _); cbn in *; [f_equal; auto|].
  exfalso. pose proof (List.filter_length_le (fun t => negb (String.eqb (id t) "a1")) ts). lia.
Defined.
