(* ===== verification/EdgeServer.v ===== *)
(** * EdgeServer: the edge node ([src/edge/mod.rs], [src/edge/server.rs],
    [src/edge/heartbeat.rs])

    The node's state is its configuration, counters, hub and token set.  Handlers are
    functions of the state and the request; the JSON and HTTP framing around them are
    axum's.  [deliveries], [slow_clients_disconnected] and the fan-out gauges of
    [EdgeStats] are fields of the hub that updates them. *)
From S2P Require Import Prelude Channel Tokens EdgeHub.

Definition SUBPROTOCOL : string := "uma.pb.v1".
Definition MAX_REPLAY : Z := 4096.

Record EdgeConfig := {
  upstream_url : string;
  node_id : string;
  advertise_host : string;
  advertise_port : Z;
  advertise_tls : bool;
  max_clients : Z;
  admin_token : string;
  drain_batch : Z;
  drain_timeout_rounds : nat }.

Record EdgeStats := {
  upstream_connected : bool;
  upstream_reconnects : Z;
  last_frame_at_ms : Z;
  frames_total : Z;
  bytes_total : Z;
  bad_frames_total : Z;
  stat_last_event_sequence : Z;
  upstream_lag_last_us : Z;
  upstream_lag_max_us : Z;
  clients_accepted : Z;
  clients_rejected : Z;
  rejected_token : Z;
  rejected_draining : Z;
  rejected_full : Z;
  rejected_subprotocol : Z;
  rejected_replay : Z;
  draining : bool;
  drain_exits : bool;
  drain_active : bool }.

Definition stats_new : EdgeStats :=
  {| upstream_connected := false; upstream_reconnects := 0; last_frame_at_ms := 0; frames_total := 0;
     bytes_total := 0; bad_frames_total := 0; stat_last_event_sequence := 0; upstream_lag_last_us := 0;
     upstream_lag_max_us := 0; clients_accepted := 0; clients_rejected := 0; rejected_token := 0;
     rejected_draining := 0; rejected_full := 0; rejected_subprotocol := 0; rejected_replay := 0;
     draining := false; drain_exits := false; drain_active := false |}.

(** The counters of a rejected handshake. *)
Inductive reject_counter : Set := RToken | RDraining | RFull | RSubprotocol | RReplay.

Definition count_reject (c : reject_counter) (s : EdgeStats) : EdgeStats :=
  let bump (b : bool) v := if b then u64_add v 1 else v in
  {| upstream_connected := upstream_connected s; upstream_reconnects := upstream_reconnects s;
     last_frame_at_ms := last_frame_at_ms s; frames_total := frames_total s; bytes_total := bytes_total s;
     bad_frames_total := bad_frames_total s; stat_last_event_sequence := stat_last_event_sequence s;
     upstream_lag_last_us := upstream_lag_last_us s; upstream_lag_max_us := upstream_lag_max_us s;
     clients_accepted := clients_accepted s; clients_rejected := u64_add (clients_rejected s) 1;
     rejected_token := bump (match c with RToken => true | _ => false end) (rejected_token s);
     rejected_draining := bump (match c with RDraining => true | _ => false end) (rejected_draining s);
     rejected_full := bump (match c with RFull => true | _ => false end) (rejected_full s);
     rejected_subprotocol := bump (match c with RSubprotocol => true | _ => false end) (rejected_subprotocol s);
     rejected_replay := bump (match c with RReplay => true | _ => false end) (rejected_replay s);
     draining := draining s; drain_exits := drain_exits s; drain_active := drain_active s |}.

Definition set_drain (d e a : bool) (s : EdgeStats) : EdgeStats :=
  {| upstream_connected := upstream_connected s; upstream_reconnects := upstream_reconnects s;
     last_frame_at_ms := last_frame_at_ms s; frames_total := frames_total s; bytes_total := bytes_total s;
     bad_frames_total := bad_frames_total s; stat_last_event_sequence := stat_last_event_sequence s;
     upstream_lag_last_us := upstream_lag_last_us s; upstream_lag_max_us := upstream_lag_max_us s;
     clients_accepted := clients_accepted s; clients_rejected := clients_rejected s;
     rejected_token := rejected_token s; rejected_draining := rejected_draining s;
     rejected_full := rejected_full s; rejected_subprotocol := rejected_subprotocol s;
     rejected_replay := rejected_replay s; draining := d; drain_exits := e; drain_active := a |}.

Definition count_accept (s : EdgeStats) : EdgeStats :=
  {| upstream_connected := upstream_connected s; upstream_reconnects := upstream_reconnects s;
     last_frame_at_ms := last_frame_at_ms s; frames_total := frames_total s; bytes_total := bytes_total s;
     bad_frames_total := bad_frames_total s; stat_last_event_sequence := stat_last_event_sequence s;
     upstream_lag_last_us := upstream_lag_last_us s; upstream_lag_max_us := upstream_lag_max_us s;
     clients_accepted := u64_add (clients_accepted s) 1; clients_rejected := clients_rejected s;
     rejected_token := rejected_token s; rejected_draining := rejected_draining s;
     rejected_full := rejected_full s; rejected_subprotocol := rejected_subprotocol s;
     rejected_replay := rejected_replay s; draining := draining s; drain_exits := drain_exits s;
     drain_active := drain_active s |}.

(** The request headers a handler reads, when their value is text. *)
Record Headers := {
  authorization : option string;
  sec_websocket_protocol : option string;
  x_forwarded_for : option string }.

Definition bearer (h : Headers) : option string :=
  v ← authorization h;
  r ← strip_prefix "Bearer " v;
  let t := trim r in
  if String.eqb t "" then None else Some t.

Definition remote_ip (h : Headers) (peer_ip : string) : string :=
  default peer_ip
    (v ← x_forwarded_for h;
     first ← head (split_on "," v);
     let t := trim first in
     if String.eqb t "" then None else Some t).

Definition parse_replay (value : option string) : option Z :=
  match option_map trim value with
  | None => Some 0
  | Some s =>
      if String.eqb s "" then Some 0
      else if String.eqb s "all" then Some MAX_REPLAY
      else n ← from_str_radix 10 u64_max s;
           if n <=? MAX_REPLAY then Some n else None
  end.

(** [v.split(',').any(|p| p.trim() == SUBPROTOCOL)] *)
Definition offers_subprotocol (h : Headers) : bool :=
  match sec_websocket_protocol h with
  | Some v => existsb (fun p => String.eqb (trim p) SUBPROTOCOL) (split_on "," v)
  | None => false
  end.

Inductive Handshake :=
| Reject (status : Z) (msg : string)
| Upgrade (token_id : string) (replay : Z).

Inductive DrainResult : Set := DrainComplete | DrainTimedOut.

(** What the console answers to a heartbeat ([registry.rs]). *)
Record Directive := {
  drain : bool;
  dir_drain_batch : Z;
  drain_interval_ms : Z;
  heartbeat_seconds : Z;
  dir_release : Z;
  tokens_version : Z;
  dir_tokens : option (list TokenGrant) }.

Section Server.
Context `{Mpsc Frame}.
Variable iter : gmap Z ClientInfo -> list (Z * ClientInfo).

Record EdgeState := {
  config : EdgeConfig;
  stats : EdgeStats;
  edge_hub : Hub;
  auth : TokenSet;
  started_at_ms : Z }.

Definition with_stats (s : EdgeStats) (st : EdgeState) : EdgeState :=
  {| config := config st; stats := s; edge_hub := edge_hub st; auth := auth st; started_at_ms := started_at_ms st |}.
Definition with_hub (h : Hub) (st : EdgeState) : EdgeState :=
  {| config := config st; stats := stats st; edge_hub := h; auth := auth st; started_at_ms := started_at_ms st |}.
Definition with_auth (a : TokenSet) (st : EdgeState) : EdgeState :=
  {| config := config st; stats := stats st; edge_hub := edge_hub st; auth := a; started_at_ms := started_at_ms st |}.

Definition ready (st : EdgeState) : bool := negb (draining (stats st)) && upstream_connected (stats st).

Definition reject (status : Z) (msg : string) (c : reject_counter) (st : EdgeState) : Handshake * EdgeState :=
  (Reject status msg, with_stats (count_reject c (stats st)) st).

(** [websocket]: the checks in their order. *)
Definition websocket (token replay : option string) (h : Headers) (st : EdgeState) : Handshake * EdgeState :=
  let secret := default EmptyString (match token with Some t => Some t | None => bearer h end) in
  match check secret (auth st) with
  | None => reject 401 (if String.eqb secret "" then "missing token" else "invalid token") RToken st
  | Some token_id =>
      if draining (stats st) then reject 503 "draining" RDraining st
      else if max_clients (config st) <=? clients (edge_hub st) then reject 503 "node full" RFull st
      else if negb (offers_subprotocol h)
           then reject 400 "Sec-WebSocket-Protocol: uma.pb.v1 is required" RSubprotocol st
      else match parse_replay replay with
           | Some n => (Upgrade token_id n, st)
           | None => reject 400 "invalid _replay (0..=4096 or all)" RReplay st
           end
  end.

(** The state changes of [session]: on entry and on exit. *)
Definition session_start (ip : string) (port : Z) (token_id : string) (replay now : Z) (st : EdgeState)
  : (Z * list Frame) * EdgeState :=
  let st := with_stats (count_accept (stats st)) st in
  let '(sub, h) := subscribe replay ip port (Some token_id) now (edge_hub st) in
  (sub, with_hub h st).
Definition session_end (id : Z) (st : EdgeState) : EdgeState := with_hub (unsubscribe id (edge_hub st)) st.

(** The reader half: what [stream.next()] gives, each with the milliseconds since the one
    before; when it says why, or [None] while it waits on. *)
Definition CLIENT_DEAD : Z := 90000.
Inductive read_event := AnyMessage | ClientClose | ReadError | StreamClosed.
Fixpoint reader (at_ : Z) (es : list (Z * read_event)) : option (Z * string) :=
  match es with
  | [] => None
  | (gap, e) :: es =>
      if CLIENT_DEAD <? gap then Some (at_ + CLIENT_DEAD, "idle 90s"%string)
      else match e with
      | StreamClosed => Some (at_ + gap, "closed"%string)
      | ReadError => Some (at_ + gap, "read error"%string)
      | ClientClose => Some (at_ + gap, "client close"%string)
      | AnyMessage => reader (at_ + gap) es
      end
  end.

(** Which half ends first; after the reader the writer has two seconds to flush, or it is
    aborted. *)
Inductive session_race := ReaderFirst (why : string) (flushed : bool) | WriterFirst.
Definition session_over (id : Z) (r : session_race) (st : EdgeState) : string * bool * EdgeState :=
  let '(why, aborted) := match r with ReaderFirst why flushed => (why, negb flushed) | WriterFirst => ("writer done"%string, false) end in
  (why, aborted, session_end id st).

(** *** [write_loop] *)

Inductive Message := Binary (b : bytes) | Ping | Close (code : Z) (reason : string).

Definition close_reason (code : Z) : string :=
  if code =? 1000 then "bye" else if code =? 1008 then "slow client or token revoked"
  else if code =? 1012 then "node draining" else "".

(** What the loop waits for, with the outcome of the write it makes. *)
Inductive write_event :=
| Next (f : Frame) (sent : bool)
| Ended (code : Z)
| Tick (sent : bool).

Fixpoint write_replay (frames : list Frame) (outcomes : list bool) : list Message * bool :=
  match frames, outcomes with
  | [], _ => ([], true)
  | f :: frames, ok :: outcomes =>
      if ok then let '(m, r) := write_replay frames outcomes in (Binary (payload f) :: m, r) else ([], false)
  | _ :: _, [] => ([], false)
  end.

Fixpoint write_live (events : list write_event) : list Message :=
  match events with
  | [] => []
  | Next f true :: es => Binary (payload f) :: write_live es
  | Next _ false :: _ => []
  | Tick true :: es => Ping :: write_live es
  | Tick false :: _ => []
  | Ended code :: _ => [Close code (close_reason code)]
  end.

Definition write_loop (replay : list Frame) (outcomes : list bool) (events : list write_event) : list Message :=
  let '(m, alive) := write_replay replay outcomes in
  m ++ (if alive then write_live events else []).

(** *** Admin *)

Definition require_admin (h : Headers) (st : EdgeState) : result Z unit :=
  let expected := admin_token (config st) in
  if String.eqb expected "" || negb (bool_decide (bearer h = Some expected)) then Err 401 else Ok tt.

Definition admin_clients (h : Headers) (now : Z) (st : EdgeState) : result Z (list (ClientInfo * Z)) :=
  _ ← require_admin h st;
  Ok (map (fun c => (c, sat_sub now (connected_at_ms c) / 1000)) (client_list iter (edge_hub st))).

Definition admin_rebalance (h : Headers) (count : Z) (st : EdgeState) : result Z (Z * EdgeState) :=
  _ ← require_admin h st;
  _ ← require ((1 <=? count) && (count <=? 100)) 400;
  let '(released, hub) := release iter count CLOSE_RESTART (edge_hub st) in
  Ok (released, with_hub hub st).

(** [start_drain] up to the spawn: whether a drain loop is to be started. *)
Definition start_drain (exit_after : bool) (st : EdgeState) : bool * EdgeState :=
  let s := stats st in
  (negb (drain_active s), with_stats (set_drain true (exit_after || drain_exits s) true s) st).

Definition cancel_drain (st : EdgeState) : bool * EdgeState :=
  let s := stats st in
  if drain_exits s then (false, st)
  else (draining s, with_stats (set_drain false (drain_exits s) (drain_active s) s) st).

Definition admin_drain (h : Headers) (st : EdgeState) : result Z (Z * bool * EdgeState) :=
  _ ← require_admin h st;
  let '(spawn, st) := start_drain true st in
  Ok (clients (edge_hub st), spawn, st).

(** The drain loop's rounds while nobody cancels it: the deadline is a number of rounds
    (timeout over interval). *)
Fixpoint drain_loop (batch : Z) (rounds : nat) (h : Hub) : DrainResult * Hub :=
  if clients h =? 0 then (DrainComplete, h) else
  match rounds with
  | O => (DrainTimedOut, h)
  | S n => drain_loop batch n (snd (release iter batch CLOSE_RESTART h))
  end.

(** *** [heartbeat.rs]: applying the console's directive.  The result says whether a
    drain loop is spawned; [interval] is in seconds. *)
Definition apply (d : Directive) (interval : Z) (st : EdgeState) : bool * Z * EdgeState :=
  let interval := if 0 <? heartbeat_seconds d then heartbeat_seconds d else interval in
  let st := match dir_tokens d with
            | Some gs =>
                let '(changed, a) := replace (tokens_version d) gs (auth st) in
                let st := with_auth a st in
                if changed then with_hub (snd (kick_tokens iter (fun id => is_live id a) (edge_hub st))) st else st
            | None => st
            end in
  let st := if 0 <? dir_release d
            then with_hub (snd (release iter (dir_release d) CLOSE_RESTART (edge_hub st))) st else st in
  if drain d then
    if negb (draining (stats st)) then let '(spawn, st) := start_drain false st in (spawn, interval, st)
    else (false, interval, st)
  else (false, interval, snd (cancel_drain st)).

(** ** Properties *)

Hypothesis iter_perm : forall m, iter m ≡ₚ map_to_list m.

(** A client that sends something every ninety seconds is never given up, and one that falls
    silent is given up ninety seconds after its last message. *)
Lemma reader_liveness es : Forall (fun '(gap, e) => gap <= CLIENT_DEAD /\ e = AnyMessage) es -> forall at_ gap e rest,
  reader at_ es = None
  /\ (CLIENT_DEAD < gap -> reader at_ (es ++ (gap, e) :: rest) = Some (at_ + foldr (fun '(g, _) t => g + t) 0 es + CLIENT_DEAD, "idle 90s"%string)).
Proof.
  induction 1 as [|[g e'] es [Hg ->] _ IH]; intros at_ gap e rest; cbn [reader app foldr].
  - split; [done|]. intros Hd. rewrite (proj2 (Z.ltb_lt _ _) Hd). do 2 f_equal. lia.
  - rewrite (proj2 (Z.ltb_ge _ _) Hg). destruct (IH (at_ + g) gap e rest) as [I1 I2]. split; [done|].
    intros Hd. rewrite (I2 Hd). do 2 f_equal. lia.
Qed.

(** However a session ends, its client is not among the hub's. *)
Lemma session_over_leaves id r st : let '(_, aborted, st') := session_over id r st in
  subs (edge_hub st') !! id = None /\ (aborted = true -> exists why, r = ReaderFirst why false).
Proof.
  unfold session_over. destruct r as [why []|]; cbn; (split; [by rewrite lookup_delete_eq|]); try done. intros _. by exists why.
Qed.

Lemma parse_replay_bound v n : parse_replay v = Some n -> 0 <= n <= MAX_REPLAY.
Proof.
  unfold parse_replay, MAX_REPLAY. destruct (option_map trim v) as [s|]; [|intros [= <-]; lia].
  destruct (String.eqb s ""); [intros [= <-]; lia|]. destruct (String.eqb s "all"); [intros [= <-]; lia|].
  destruct (from_str_radix 10 u64_max s) as [m|] eqn:E; cbn; [|done].
  apply from_str_radix_nonneg in E; [|unfold u64_max; lia..]. destruct (m <=? 4096) eqn:El; [|done]. intros [= <-]. lia.
Qed.

(** C5: admission.  A handshake is upgraded exactly when the secret (query token first,
    then the bearer header) is accepted, the node is not draining, it is not full, the
    subprotocol is offered and [_replay] parses — to at most 4096 frames; a rejected
    one leaves the hub and the token set as they were and is counted once. *)
Theorem websocket_admission token replay h st :
  let secret := default EmptyString (match token with Some t => Some t | None => bearer h end) in
  let '(r, st') := websocket token replay h st in
  match r with
  | Upgrade t n =>
      check secret (auth st) = Some t /\ draining (stats st) = false
      /\ clients (edge_hub st) < max_clients (config st) /\ offers_subprotocol h = true
      /\ parse_replay replay = Some n /\ 0 <= n <= MAX_REPLAY /\ st' = st
  | Reject status _ =>
      (check secret (auth st) = None \/ draining (stats st) = true
       \/ max_clients (config st) <= clients (edge_hub st) \/ offers_subprotocol h = false
       \/ parse_replay replay = None)
      /\ (status = 401 <-> check secret (auth st) = None)
      /\ edge_hub st' = edge_hub st /\ auth st' = auth st
      /\ clients_rejected (stats st') = u64_add (clients_rejected (stats st)) 1
  end.
Proof.
  intros secret. unfold websocket. fold secret. destruct (check secret (auth st)) as [t|]; [|cbn; tauto].
  destruct (draining (stats st)) eqn:Ed; [cbn; repeat split; tauto || discriminate|].
  destruct (max_clients (config st) <=? clients (edge_hub st)) eqn:Ef;
    [cbn; repeat split; try discriminate; right; right; left; lia|].
  destruct (offers_subprotocol h); cbn [negb]; [|cbn; repeat split; tauto || discriminate].
  destruct (parse_replay replay) as [n|] eqn:Er; [|cbn; repeat split; tauto || discriminate].
  apply parse_replay_bound in Er as Hb. repeat split; try done; lia.
Qed.

Lemma drain_loop_clients batch rounds : forall h,
  1 <= batch -> clients h <= batch * Z.of_nat rounds ->
  fst (drain_loop batch rounds h) = DrainComplete /\ clients (snd (drain_loop batch rounds h)) = 0.
Proof using iter_perm.
  induction rounds as [|n IH]; intros h Hb Hc; cbn [drain_loop];
    (destruct (clients h =? 0) eqn:E; [cbn; split; [done|lia]|]).
  - unfold clients in *. lia.
  - pose proof (release_spec iter iter_perm batch CLOSE_RESTART h ltac:(lia)) as Hr.
    destruct (release iter batch CLOSE_RESTART h) as [k h'] eqn:Erel. cbn [snd].
    destruct Hr as (-> & Hcl & _). apply IH; [done|]. lia.
Qed.

Lemma dropped_trans gone1 gone2 code (h1 h2 h3 : Hub) :
  dropped gone1 code h1 h2 -> dropped gone2 code h2 h3 ->
  forall i info, subs h1 !! i = Some info -> subs h3 !! i = None ->
    links h3 !! i = store_code code <$> links h1 !! i.
Proof.
  intros (_ & _ & D1) (_ & _ & D2) i info Hi H3. specialize (D1 i). specialize (D2 i). rewrite Hi in D1.
  destruct (gone1 i).
  - destruct D1 as [E1 L1]. rewrite E1 in D2. destruct D2 as [_ ->]. done.
  - destruct D1 as [E1 L1]. rewrite E1 in D2. destruct (gone2 i); [|destruct D2; congruence].
    destruct D2 as [_ ->]. by rewrite L1.
Qed.

Lemma drain_loop_codes batch rounds : forall h, 1 <= batch ->
  exists gone, dropped gone CLOSE_RESTART h (snd (drain_loop batch rounds h)).
Proof using iter_perm.
  assert (Hid : forall h : Hub, dropped (fun _ => false) CLOSE_RESTART h h).
  { intros h. split; [done|split; [done|]]. intros i. by destruct (subs h !! i). }
  induction rounds as [|n IH]; intros h Hb; cbn [drain_loop]; destruct (clients h =? 0); try by eexists.
  pose proof (release_spec iter iter_perm batch CLOSE_RESTART h ltac:(lia)) as Hr.
  destruct (release iter batch CLOSE_RESTART h) as [k h1]. cbn [snd].
  destruct Hr as (_ & _ & ids & _ & _ & D1). destruct (IH h1 Hb) as [gone2 D2].
  exists (fun i => bool_decide (i ∈ ids) || gone2 i).
  destruct D1 as (R1 & N1 & D1), D2 as (R2 & N2 & D2).
  split; [congruence|split; [congruence|]]. intros i. specialize (D1 i). specialize (D2 i).
  destruct (subs h !! i) as [info|]; [|destruct D1 as [E1 L1]; rewrite E1, L1 in D2; done].
  destruct (bool_decide (i ∈ ids)); destruct D1 as [E1 L1]; rewrite E1, L1 in D2; cbn [orb]; done.
Qed.

(** A drain that nobody cancels ends.  With a batch of at least one client per round
    and enough rounds before the deadline, every client is released, each with close
    code 1012 and its queue untouched. *)
Theorem drain_completes batch rounds h :
  1 <= batch -> clients h <= batch * Z.of_nat rounds ->
  let '(r, h') := drain_loop batch rounds h in
  r = DrainComplete /\ clients h' = 0
  /\ forall i info, subs h !! i = Some info -> links h' !! i = store_code CLOSE_RESTART <$> links h !! i.
Proof using iter_perm.
  intros Hb Hc. pose proof (drain_loop_clients batch rounds h Hb Hc) as [H1 H2].
  destruct (drain_loop_codes batch rounds h Hb) as [gone (_ & _ & D)].
  destruct (drain_loop batch rounds h) as [r h']. cbn [fst snd] in *. split; [done|split; [done|]].
  intros i info Hi. specialize (D i). rewrite Hi in D.
  assert (Hn : subs h' !! i = None).
  { assert (Hz : size (subs h') = 0%nat) by (unfold clients in H2; lia).
    apply map_size_empty_inv in Hz. by rewrite Hz, lookup_empty. }
  rewrite Hn in D. destruct (gone i); [by destruct D|by destruct D].
Qed.

(** Every subscriber's token is live. *)
Definition clients_live (a : TokenSet) (h : Hub) : Prop :=
  forall i info t, subs h !! i = Some info -> token_id info = Some t -> is_live t a = true.

Lemma dropped_live gone code a h h' : dropped gone code h h' -> clients_live a h -> clients_live a h'.
Proof.
  intros (_ & _ & D) Hl i info t Hi Ht. specialize (D i). destruct (subs h !! i) as [info'|] eqn:E.
  - destruct (gone i); destruct D as [E' _]; [congruence|]. rewrite E' in Hi. injection Hi as ->. by eapply Hl.
  - destruct D. congruence.
Qed.

Lemma kick_live a h : clients_live a (snd (kick_tokens iter (fun i => is_live i a) h)).
Proof using iter_perm.
  pose proof (kick_tokens_spec iter iter_perm (fun i => is_live i a) h) as Hk.
  destruct (kick_tokens iter (fun i => is_live i a) h) as [k h']. destruct Hk as (_ & _ & _ & D).
  intros i info t Hi Ht. cbn [snd] in Hi. specialize (D i). destruct (subs h !! i) as [info'|] eqn:E.
  - unfold token_dead in D. rewrite E in D.
    destruct (token_id info') as [t'|] eqn:E'; [destruct (is_live t' a) eqn:El|]; cbn [negb] in D;
      destruct D as [D _]; rewrite Hi in D; try discriminate; injection D as ->; congruence.
  - destruct D. congruence.
Qed.

Lemma release_live a n code h : 0 <= n -> clients_live a h -> clients_live a (snd (release iter n code h)).
Proof using iter_perm.
  intros Hn Hl. pose proof (release_spec iter iter_perm n code h Hn) as Hr.
  destruct (release iter n code h) as [k h']. destruct Hr as (_ & _ & ids & _ & _ & D). by eapply dropped_live.
Qed.

(** A heartbeat's directive leaves only live clients.  If the node's clients all had
    live tokens, or the directive's token set differs from the installed one, then after
    [apply] every remaining client's token is live under the installed set — in
    particular no client of the static list survives the console's first answer. *)
Theorem apply_only_live d interval st :
  0 <= dir_release d ->
  clients_live (auth st) (edge_hub st)
  \/ (exists gs, dir_tokens d = Some gs /\ fst (replace (tokens_version d) gs (auth st)) = true) ->
  let st' := snd (apply d interval st) in
  clients_live (auth st') (edge_hub st').
Proof using iter_perm.
  intros Hn Hpre st'.
  set (st1 := match dir_tokens d with
              | Some gs => let '(changed, a) := replace (tokens_version d) gs (auth st) in
                           let st := with_auth a st in
                           if changed then with_hub (snd (kick_tokens iter (fun i => is_live i a) (edge_hub st))) st else st
              | None => st end).
  assert (H1 : clients_live (auth st1) (edge_hub st1)).
  { unfold st1. destruct (dir_tokens d) as [gs|] eqn:Eg.
    - destruct (replace (tokens_version d) gs (auth st)) as [changed a] eqn:Er. destruct changed; [apply kick_live|].
      destruct Hpre as [Hl|(gs' & [= <-] & Hc)]; [|rewrite Er in Hc; discriminate Hc].
      intros i info t Hi Ht. cbn [with_auth auth edge_hub] in *. specialize (Hl i info t Hi Ht).
      injection Er as Ec <-. apply orb_false_iff in Ec as [Ec1 Ec2].
      apply negb_false_iff, bool_decide_eq_true in Ec1. apply negb_false_iff in Ec2.
      unfold is_live in *. cbn [received_from_console console]. rewrite Ec2 in Hl. by rewrite Ec1.
    - destruct Hpre as [Hl|(gs' & ? & _)]; done. }
  set (st2 := if 0 <? dir_release d
              then with_hub (snd (release iter (dir_release d) CLOSE_RESTART (edge_hub st1))) st1 else st1).
  assert (H2 : clients_live (auth st2) (edge_hub st2)).
  { unfold st2. destruct (0 <? dir_release d); [|done]. cbn. by apply release_live. }
  assert (Est : auth st' = auth st2 /\ edge_hub st' = edge_hub st2).
  { unfold st', apply. cbv zeta. fold st1. fold st2. destruct (drain d).
    - destruct (negb (draining (stats st2))); done.
    - unfold cancel_drain. by destruct (drain_exits (stats st2)). }
  by destruct Est as [-> ->].
Qed.
End Server.

(** ** Drain under interleaving

    [start_drain], [cancel_drain] and the drain loop run concurrently and share three
    atomics.  A thread is the atomic access it makes next; a transition makes one. *)
Module Drain.
Inductive thread : Set :=
| StartExits                  (* exit_after: drain_exits.store(true) *)
| StartDraining               (* draining.store(true) *)
| StartSwap                   (* drain_active.swap(true) *)
| CancelCheck                 (* drain_exits.load() *)
| CancelSwap                  (* draining.swap(false) *)
| LoopTop                     (* draining.load() *)
| LoopClients                 (* hub.clients(), the deadline *)
| LoopRelease                 (* hub.release(..), sleep *)
| LoopCancelled               (* drain_active.store(false); return *)
| LoopFinished                (* drain_active.store(false) *)
| LoopExit                    (* drain_exits.load() *)
| LoopExiting.                (* sleep; process::exit(0) *)

Record flags := { f_draining : bool; f_exits : bool; f_active : bool; f_exited : bool }.
Record state := { st_flags : flags; st_threads : list thread }.

Definition set_exits (f : flags) : flags :=
  {| f_draining := f_draining f; f_exits := true; f_active := f_active f; f_exited := f_exited f |}.
Definition set_draining (b : bool) (f : flags) : flags :=
  {| f_draining := b; f_exits := f_exits f; f_active := f_active f; f_exited := f_exited f |}.
Definition set_active (b : bool) (f : flags) : flags :=
  {| f_draining := f_draining f; f_exits := f_exits f; f_active := b; f_exited := f_exited f |}.
Definition set_exited (f : flags) : flags :=
  {| f_draining := f_draining f; f_exits := f_exits f; f_active := f_active f; f_exited := true |}.

(** The outcomes of a thread's next access: the flags and the threads that continue.
    [LoopClients] may find clients (release) or none, or the deadline (finish). *)
Definition access (t : thread) (f : flags) : list (flags * list thread) :=
  match t with
  | StartExits => [(set_exits f, [StartDraining])]
  | StartDraining => [(set_draining true f, [StartSwap])]
  | StartSwap => [(set_active true f, if f_active f then [] else [LoopTop])]
  | CancelCheck => [(f, if f_exits f then [] else [CancelSwap])]
  | CancelSwap => [(set_draining false f, [])]
  | LoopTop => [(f, if f_draining f then [LoopClients] else [LoopCancelled])]
  | LoopClients => [(f, [LoopRelease]); (f, [LoopFinished])]
  | LoopRelease => [(f, [LoopTop])]
  | LoopCancelled => [(set_active false f, [])]
  | LoopFinished => [(set_active false f, [LoopExit])]
  | LoopExit => [(f, if f_exits f then [LoopExiting] else [])]
  | LoopExiting => [(set_exited f, [])]
  end.

Inductive step : state -> state -> Prop :=
| step_console_drain s : step s {| st_flags := st_flags s; st_threads := StartDraining :: st_threads s |}
| step_exit_drain s : step s {| st_flags := st_flags s; st_threads := StartExits :: st_threads s |}
| step_cancel s : step s {| st_flags := st_flags s; st_threads := CancelCheck :: st_threads s |}
| step_access f before t after f' ts :
    (f', ts) ∈ access t f ->
    step {| st_flags := f; st_threads := before ++ t :: after |}
         {| st_flags := f'; st_threads := before ++ ts ++ after |}.

Definition start : state :=
  {| st_flags := {| f_draining := false; f_exits := false; f_active := false; f_exited := false |};
     st_threads := [] |}.

Inductive reachable : state -> Prop :=
| reach_start : reachable start
| reach_step s s' : reachable s -> step s s' -> reachable s'.

Definition in_loop (t : thread) : bool :=
  match t with LoopTop | LoopClients | LoopRelease | LoopCancelled | LoopFinished => true | _ => false end.
Definition loops (ts : list thread) : nat := length (List.filter in_loop ts).

Lemma loops_app ts us : loops (ts ++ us) = (loops ts + loops us)%nat.
Proof. unfold loops. by rewrite List.filter_app, length_app. Qed.

Lemma access_loops t f f' ts : (f', ts) ∈ access t f ->
  (loops [t] = if f_active f then 1 else 0)%nat \/ loops [t] = 0%nat ->
  (loops ts + (if f_active f then 1 else 0) = loops [t] + (if f_active f' then 1 else 0))%nat.
Proof.
  destruct f as [d e a x].
  destruct t; cbn; intros Hin Hl; repeat (apply elem_of_cons in Hin as [[= -> ->]|Hin]);
    try (by apply elem_of_nil in Hin); destruct d, e, a; cbn in *; lia.
Qed.

Lemma loops_invariant s : reachable s ->
  loops (st_threads s) = (if f_active (st_flags s) then 1 else 0)%nat.
Proof.
  induction 1 as [|s s' _ IH Hs]; [done|]. destruct Hs as [s|s|s|f b t a f' ts Hin]; [exact IH..|].
  cbn [st_flags st_threads] in *. rewrite !loops_app in *.
  change (t :: a) with ([t] ++ a) in IH. rewrite loops_app in IH.
  assert (Hl : (loops [t] <= 1)%nat) by (unfold loops; cbn; destruct (in_loop t); cbn; lia).
  pose proof (access_loops t f f' ts Hin) as Ha.
  destruct (f_active f), (f_active f'); lia.
Qed.

(** C7: at most one drain loop.  In every interleaving of drain requests, cancellations
    and loops, the number of running drain loops is one exactly when [drain_active] is
    set and zero otherwise. *)
Theorem one_drain_loop s : reachable s ->
  loops (st_threads s) = (if f_active (st_flags s) then 1 else 0)%nat
  /\ (loops (st_threads s) <= 1)%nat.
Proof. intros H. pose proof (loops_invariant s H). destruct (f_active _); lia. Qed.

(** One access of the first thread, appended to the reachability proof [R]. *)
Ltac access_in R t rest :=
  let R' := fresh in
  pose proof (reach_step _ _ R (step_access _ [] t rest _ _ (list_elem_of_here _ _))) as R';
  cbn in R'; clear R; rename R' into R.

(** An exit drain can be lost.  A cancelled console drain whose loop has read
    [draining = false] but not yet cleared [drain_active] swallows an exit drain that
    starts in between: the node then drains for ever, with no loop left to release its
    clients or to exit the process. *)
Theorem exit_drain_lost : exists s, reachable s
  /\ st_threads s = [] /\ f_draining (st_flags s) = true /\ f_exits (st_flags s) = true
  /\ f_active (st_flags s) = false /\ f_exited (st_flags s) = false.
Proof.
  pose proof (reach_step _ _ reach_start (step_console_drain _)) as R. cbn in R.
  access_in R StartDraining (@nil thread). access_in R StartSwap (@nil thread).
  pose proof (reach_step _ _ R (step_cancel _)) as R2. cbn in R2.
  access_in R2 CancelCheck [LoopTop]. access_in R2 CancelSwap [LoopTop]. access_in R2 LoopTop (@nil thread).
  pose proof (reach_step _ _ R2 (step_exit_drain _)) as R3. cbn in R3.
  access_in R3 StartExits [LoopCancelled]. access_in R3 StartDraining [LoopCancelled].
  access_in R3 StartSwap [LoopCancelled]. access_in R3 LoopCancelled (@nil thread).
  eexists. split; [exact R3|done].
Qed.
End Drain.

Lemma one_drain_loop_witness :
  Drain.reachable {| Drain.st_flags := Drain.st_flags Drain.start; Drain.st_threads := [Drain.StartExits] |}
  /\ (Drain.loops [Drain.StartExits] <= 1)%nat.
Proof.
  assert (H : Drain.reachable {| Drain.st_flags := Drain.st_flags Drain.start; Drain.st_threads := [Drain.StartExits] |})
    by (eapply Drain.reach_step; [apply Drain.reach_start|apply Drain.step_exit_drain]).
  split; [exact H|]. exact (proj2 (Drain.one_drain_loop _ H)).
Defined.

(** A node with the two clients of the hub's example. *)
Module ServerSample.
#[local] Instance mpsc : Mpsc Frame := list_mpsc Frame.
Definition node : EdgeState :=
  {| config := {| upstream_url := "ws://up/uma/v1/ws"; node_id := "n1"; advertise_host := ""; advertise_port := 8012;
                  advertise_tls := false; max_clients := 3; admin_token := "adm"; drain_batch := 1;
                  drain_timeout_rounds := 5 |};
     stats := stats_new; edge_hub := hub EdgeHub.Sample.final; auth := set_new ["pw"%string]; started_at_ms := 1 |}.
Definition directive : Directive :=
  {| drain := false; dir_drain_batch := 0; drain_interval_ms := 0; heartbeat_seconds := 5; dir_release := 0;
     tokens_version := 3; dir_tokens := Some [{| grant_id := "bob"; grant_secret := "x" |}] |}.
Definition headers : Headers :=
  {| authorization := Some "Bearer pw"%string; sec_websocket_protocol := Some "foo, uma.pb.v1"%string;
     x_forwarded_for := None |}.
End ServerSample.

Example websocket_admission_example :
  fst (websocket None (Some " 16 "%string) ServerSample.headers ServerSample.node) = Upgrade "env" 16.
Proof. vm_compute. reflexivity. Qed.

Lemma drain_completes_witness :
  let '(r, h') := drain_loop (H := list_mpsc Frame) EdgeHub.Sample.iter 1 5 (edge_hub ServerSample.node) in
  r = DrainComplete /\ clients h' = 0
  /\ forall i info, subs (edge_hub ServerSample.node) !! i = Some info ->
       links h' !! i = store_code CLOSE_RESTART <$> links (edge_hub ServerSample.node) !! i.
Proof.
  exact (drain_completes EdgeHub.Sample.iter EdgeHub.Sample.iter_perm 1 5 (edge_hub ServerSample.node)
    ltac:(lia) ltac:(vm_compute; congruence)).
Defined.

Lemma apply_only_live_witness :
  clients_live (auth (snd (apply (H := list_mpsc Frame) EdgeHub.Sample.iter ServerSample.directive 7 ServerSample.node)))
    (edge_hub (snd (apply (H := list_mpsc Frame) EdgeHub.Sample.iter ServerSample.directive 7 ServerSample.node)))
  /\ clients (edge_hub (snd (apply (H := list_mpsc Frame) EdgeHub.Sample.iter ServerSample.directive 7 ServerSample.node))) = 0.
Proof.
  split; [|vm_compute; reflexivity].
  apply (apply_only_live EdgeHub.Sample.iter EdgeHub.Sample.iter_perm ServerSample.directive 7 ServerSample.node).
  - cbn. lia.
  - right. eexists. split; [reflexivity|]. vm_compute. reflexivity.
Defined.
