(* ===== verification/EdgeUpstream.v ===== *)
(** * EdgeUpstream: the edge's one upstream connection ([src/edge/upstream.rs])

    A session is driven by what the socket delivers; the loop of [run_upstream] by a
    list of sessions.  The socket, the clock and the zstd decoder are inputs; the jitter
    multiplies only the time slept, which is not part of the state. *)
From S2P Require Import Prelude Channel WireFrame Tokens EdgeHub EdgeServer.

Definition BACKOFF_MIN : Z := 1.
Definition BACKOFF_MAX : Z := 15.
Definition CURSOR_REJECTED : Z := 1013.
Definition LIVE_LAG_MAX_US : Z := 10000000.

Definition after_sequence : string := "after_sequence=".

Definition dial_url (base : string) (last_event_sequence : Z) (cursor_rejected : bool) : string :=
  let '(path, query) := match split_once "?" base with Some (p, q) => (p, q) | None => (base, EmptyString) end in
  let keep_configured := (last_event_sequence =? 0) && negb cursor_rejected in
  let params := List.filter (fun kv => negb (String.eqb kv "") && (keep_configured || negb (starts_with after_sequence kv)))
                            (split_on "&" query) in
  let params := if (0 <? last_event_sequence) && negb cursor_rejected
                then params ++ [after_sequence +:+ fmt_u64 last_event_sequence] else params in
  match params with
  | [] => path
  | _ => path +:+ "?" +:+ join "&" params
  end.

(** The parameters of a URL's query. *)
Definition nonempty (kv : string) : bool := negb (String.eqb kv "").
Definition query_params (url : string) : list string :=
  match split_once "?" url with
  | Some (_, q) => List.filter nonempty (split_on "&" q)
  | None => []
  end.

Lemma filter_nonempty_split base :
  List.filter nonempty (split_on "&" (match split_once "?" base with Some (_, q) => q | None => EmptyString end))
  = query_params base.
Proof. unfold query_params. by destruct (split_once "?" base) as [[]|]. Qed.

Lemma filter_and {A} (p q : A -> bool) l :
  List.filter (fun x => p x && q x) l = List.filter q (List.filter p l).
Proof.
  induction l as [|x l IH]; [done|]. cbn. destruct (p x); cbn; [|exact IH]. destruct (q x); by rewrite IH.
Qed.

Lemma filter_all {A} (p : A -> bool) l : Forall (fun x => p x = true) l -> List.filter p l = l.
Proof. induction 1 as [|x l Hx _ IH]; [done|]. cbn. by rewrite Hx, IH. Qed.

(** The dialled URL.  Its query parameters are those of the configured URL, without
    any [after_sequence] unless there is neither a cursor nor a rejection, followed by
    the cursor when there is one that was not rejected. *)
Theorem dial_url_params base n rejected :
  query_params (dial_url base n rejected)
  = List.filter (fun kv => ((n =? 0) && negb rejected) || negb (starts_with after_sequence kv)) (query_params base)
    ++ (if (0 <? n) && negb rejected then [after_sequence +:+ fmt_u64 n] else []).
Proof.
  unfold dial_url. rewrite <- (filter_nonempty_split base).
  set (keep := (n =? 0) && negb rejected).
  assert (Hpath : exists path q, match split_once "?" base with Some (p, q) => (p, q) | None => (base, EmptyString) end
                  = (path, q) /\ has_char "?" path = false
                  /\ match split_once "?" base with Some (_, q) => q | None => EmptyString end = q).
  { destruct (split_once "?" base) as [[p q]|] eqn:E.
    - exists p, q. apply split_once_Some in E as [_ ?]. by split_and!.
    - exists base, EmptyString. apply split_once_None in E. by split_and!. }
  destruct Hpath as (path & q & -> & Hp & ->). cbv zeta.
  change (fun kv => negb (String.eqb kv "") && (keep || negb (starts_with after_sequence kv)))
    with (fun kv => nonempty kv && (keep || negb (starts_with after_sequence kv))).
  rewrite filter_and.
  set (kept := List.filter _ (List.filter nonempty (split_on "&" q))).
  set (all := kept ++ (if (0 <? n) && negb rejected then [after_sequence +:+ fmt_u64 n] else [])).
  replace (if (0 <? n) && negb rejected then kept ++ [after_sequence +:+ fmt_u64 n] else kept) with all
    by (unfold all; destruct ((0 <? n) && negb rejected); [reflexivity|apply app_nil_r]).
  assert (Hall : Forall (fun kv => has_char "&" kv = false /\ nonempty kv = true) all).
  { unfold all, kept. apply Forall_app_2.
    - apply Forall_forall. intros kv Hkv. rewrite list_elem_of_In, !List.filter_In in Hkv.
      destruct Hkv as [[Hkv ?] _]. split; [|done].
      pose proof (split_on_no_char "&" q) as Hf. rewrite Forall_forall in Hf. apply Hf. by apply list_elem_of_In.
    - destruct ((0 <? n) && negb rejected); constructor; [|constructor]. split; [|done].
      rewrite has_char_app. unfold fmt_u64. by rewrite fmt_radix_no_char. }
  unfold query_params. destruct all as [|kv all'] eqn:E.
  - by rewrite split_once_no.
  - change (path +:+ "?" +:+ join "&" (kv :: all')) with (path +:+ String "?" (join "&" (kv :: all'))).
    rewrite split_once_app by done. rewrite split_on_join; [|by eapply Forall_impl; [exact Hall|]; intros ? []|done].
    apply filter_all. eapply Forall_impl; [exact Hall|]. by intros ? [].
Qed.

(** A message of the socket and what the loop of [session] waits for. *)
Inductive ws_message :=
| MsgBinary (b : bytes) (recv_at_us : Z) (elapsed : Z)
| MsgClose (code : option Z)
| MsgOther.
Inductive ws_event :=
| PingTick (sent : bool)
| ReadTimeout
| ReadClosed
| ReadError
| ReadMessage (m : ws_message).

Inductive SessionEnd : Set := CursorRejected | Other (reason : string).

(** What connecting yields: the subprotocol of the response, or a failure. *)
Inductive connection := BadUrl | ConnectFailed | Connected (negotiated : option string).

Section Upstream.
Context `{Mpsc Frame}.
Variable iter : gmap Z ClientInfo -> list (Z * ClientInfo).
Variable zstd_decompress : bytes -> Z -> option bytes.

(** [parse_frame(&bytes)]; it always returns ([WireFrame.parse_frame_total]). *)
Definition frame_verdict (b : bytes) : result BadFrame FrameInfo :=
  default (Err TooShort) (parse_frame zstd_decompress b).

Definition set_connected (b : bool) (s : EdgeStats) : EdgeStats :=
  {| upstream_connected := b; upstream_reconnects := upstream_reconnects s;
     last_frame_at_ms := last_frame_at_ms s; frames_total := frames_total s; bytes_total := bytes_total s;
     bad_frames_total := bad_frames_total s; stat_last_event_sequence := stat_last_event_sequence s;
     upstream_lag_last_us := upstream_lag_last_us s; upstream_lag_max_us := upstream_lag_max_us s;
     clients_accepted := clients_accepted s; clients_rejected := clients_rejected s;
     rejected_token := rejected_token s; rejected_draining := rejected_draining s;
     rejected_full := rejected_full s; rejected_subprotocol := rejected_subprotocol s;
     rejected_replay := rejected_replay s; draining := draining s; drain_exits := drain_exits s;
     drain_active := drain_active s |}.

Definition count_reconnect (s : EdgeStats) : EdgeStats :=
  {| upstream_connected := upstream_connected s; upstream_reconnects := u64_add (upstream_reconnects s) 1;
     last_frame_at_ms := last_frame_at_ms s; frames_total := frames_total s; bytes_total := bytes_total s;
     bad_frames_total := bad_frames_total s; stat_last_event_sequence := stat_last_event_sequence s;
     upstream_lag_last_us := upstream_lag_last_us s; upstream_lag_max_us := upstream_lag_max_us s;
     clients_accepted := clients_accepted s; clients_rejected := clients_rejected s;
     rejected_token := rejected_token s; rejected_draining := rejected_draining s;
     rejected_full := rejected_full s; rejected_subprotocol := rejected_subprotocol s;
     rejected_replay := rejected_replay s; draining := draining s; drain_exits := drain_exits s;
     drain_active := drain_active s |}.

(** The counters of [on_frame]: [lag] when the frame is a live sample. *)
Definition count_frame (size event_sequence recv_at_us : Z) (bad : bool) (lag : option Z) (s : EdgeStats) : EdgeStats :=
  {| upstream_connected := upstream_connected s; upstream_reconnects := upstream_reconnects s;
     last_frame_at_ms := recv_at_us / 1000; frames_total := u64_add (frames_total s) 1;
     bytes_total := u64_add (bytes_total s) size;
     bad_frames_total := if bad then u64_add (bad_frames_total s) 1 else bad_frames_total s;
     stat_last_event_sequence := event_sequence;
     upstream_lag_last_us := default (upstream_lag_last_us s) lag;
     upstream_lag_max_us := match lag with Some l => Z.max (upstream_lag_max_us s) l | None => upstream_lag_max_us s end;
     clients_accepted := clients_accepted s; clients_rejected := clients_rejected s;
     rejected_token := rejected_token s; rejected_draining := rejected_draining s;
     rejected_full := rejected_full s; rejected_subprotocol := rejected_subprotocol s;
     rejected_replay := rejected_replay s; draining := draining s; drain_exits := drain_exits s;
     drain_active := drain_active s |}.

(** The event sequence a frame gets: its own when it parses to a non-zero one, the
    previous frame's otherwise. *)
Definition frame_sequence (b : bytes) (previous : Z) : Z :=
  match frame_verdict b with
  | Ok info => if 0 <? WireFrame.last_event_sequence info then WireFrame.last_event_sequence info else previous
  | Err _ => previous
  end.

Definition on_frame (b : bytes) (recv_at_us elapsed : Z) (st : EdgeState) (last_event_sequence : Z) : EdgeState * Z :=
  let event_sequence := frame_sequence b last_event_sequence in
  let '(batch, bad, lag) :=
    match frame_verdict b with
    | Ok info =>
        (info_batch_sequence info, false,
         if 0 <? info_sent_at_us info
         then let lag := sat_sub recv_at_us (info_sent_at_us info) in
              if lag <=? LIVE_LAG_MAX_US then Some lag else None
         else None)
    | Err _ => (0, true, None)
    end in
  let st := with_stats (count_frame (zlen b) event_sequence recv_at_us bad lag (stats st)) st in
  let frame := {| offset := 0; EdgeHub.batch_sequence := batch; event_sequence := event_sequence;
                  payload := b; EdgeHub.recv_at_us := recv_at_us |} in
  (with_hub (snd (publish iter frame elapsed (edge_hub st))) st, event_sequence).

(** The loop of [session]; running out of events leaves it waiting ([None]). *)
Fixpoint session_loop (events : list ws_event) (st : EdgeState) (cursor : Z) : option SessionEnd * EdgeState * Z :=
  match events with
  | [] => (None, st, cursor)
  | PingTick true :: es => session_loop es st cursor
  | PingTick false :: _ => (Some (Other "ping"), st, cursor)
  | ReadTimeout :: _ => (Some (Other "no frame or pong for 60s"), st, cursor)
  | ReadClosed :: _ => (Some (Other "closed"), st, cursor)
  | ReadError :: _ => (Some (Other "read"), st, cursor)
  | ReadMessage (MsgBinary b at_ e) :: es =>
      let '(st, cursor) := on_frame b at_ e st cursor in session_loop es st cursor
  | ReadMessage (MsgClose code) :: _ =>
      (Some (if default 0 code =? CURSOR_REJECTED then CursorRejected else Other "close"), st, cursor)
  | ReadMessage MsgOther :: es => session_loop es st cursor
  end.

Definition session (conn : connection) (events : list ws_event) (st : EdgeState) (cursor : Z)
  : option SessionEnd * EdgeState * Z :=
  match conn with
  | BadUrl => (Some (Other "bad upstream url"), st, cursor)
  | ConnectFailed => (Some (Other "connect"), st, cursor)
  | Connected negotiated =>
      if decide (option_map trim negotiated = Some SUBPROTOCOL)
      then session_loop events (with_stats (set_connected true (stats st)) st) cursor
      else (Some (Other "upstream did not negotiate"), st, cursor)
  end.

(** The local variables of [run_upstream]; durations in seconds. *)
Record Upstream := { backoff : Z; cursor : Z; cursor_rejected : bool; first : bool }.
Definition upstream_new : Upstream :=
  {| backoff := BACKOFF_MIN; cursor := 0; cursor_rejected := false; first := true |}.

(** One round: the URL dialled, then the session it yields. *)
Definition round_url (st : EdgeState) (u : Upstream) : string :=
  dial_url (upstream_url (config st)) (cursor u) (cursor_rejected u).

Definition upstream_round (conn : connection) (events : list ws_event) (elapsed : Z) (st : EdgeState) (u : Upstream)
  : option (EdgeState * Upstream) :=
  let st := if first u then st else with_stats (count_reconnect (stats st)) st in
  let grown := if first u then backoff u else Z.min (backoff u * 2) BACKOFF_MAX in
  match session conn events st (cursor u) with
  | (None, _, _) => None
  | (Some e, st, cur) =>
      Some (with_stats (set_connected false (stats st)) st,
            {| backoff := if 30 <=? elapsed then BACKOFF_MIN else grown;
               cursor := cur;
               cursor_rejected := match e with CursorRejected => true | Other _ => cursor_rejected u end;
               first := false |})
  end.

(** ** Properties *)


Lemma on_frame_hub b at_ e st cur :
  exists st1 f, on_frame b at_ e st cur = (with_hub (snd (publish iter f e (edge_hub st))) st1, frame_sequence b cur)
    /\ payload f = b /\ event_sequence f = frame_sequence b cur /\ config st1 = config st /\ auth st1 = auth st.
Proof.
  unfold on_frame. cbv zeta.
  destruct (match frame_verdict b with Ok info => _ | Err _ => _ end) as [[batch bad] lag].
  eexists _, _. split; [reflexivity|done].
Qed.

(** The binary messages of a session up to its end. *)
Fixpoint session_frames (events : list ws_event) : list bytes :=
  match events with
  | PingTick true :: es | ReadMessage MsgOther :: es => session_frames es
  | ReadMessage (MsgBinary b _ _) :: es => b :: session_frames es
  | _ => []
  end.

(** The payloads and event sequences in a hub's ring. *)
Definition seen (h : Hub) : list (bytes * Z) := map (fun f => (payload f, event_sequence f)) (frames (ring h)).

Fixpoint sequences (bs : list bytes) (cur : Z) : list Z :=
  match bs with [] => [] | b :: bs => frame_sequence b cur :: sequences bs (frame_sequence b cur) end.

Lemma publish_seen f e h :
  1 <= ring_capacity (ring h) -> zlen (frames (ring h)) <= ring_capacity (ring h) ->
  let h' := snd (publish iter f e h) in
  seen h' = last_n (Z.to_nat (ring_capacity (ring h))) (seen h ++ [(payload f, event_sequence f)])
  /\ ring_capacity (ring h') = ring_capacity (ring h) /\ zlen (frames (ring h')) <= ring_capacity (ring h).
Proof.
  intros Hc Hl h'. unfold h'. destruct (publish_ring iter f e h) as [_ Hr]. unfold seen. rewrite Hr.
  cbn [ring_push snd frames ring_capacity set_offset payload event_sequence].
  unfold last_n, zlen in *. rewrite length_app, !length_map. cbn [length].
  destruct (_ =? _) eqn:E.
  - replace (length (frames (ring h)) + 1 - _)%nat with 1%nat by lia.
    destruct (frames (ring h)) as [|f0 fs]; [cbn in E; lia|]. cbn [tail map app drop]. rewrite map_app.
    split; [done|split; [done|]]. rewrite length_app. cbn [length] in *. lia.
  - replace (length (frames (ring h)) + 1 - _)%nat with 0%nat by lia. rewrite map_app.
    split; [done|split; [done|]]. rewrite length_app. cbn [length]. lia.
Qed.

Lemma session_loop_forwards events : forall st cur,
  1 <= ring_capacity (ring (edge_hub st)) ->
  zlen (frames (ring (edge_hub st))) <= ring_capacity (ring (edge_hub st)) ->
  let '(_, st', cur') := session_loop events st cur in
  let bs := session_frames events in
  seen (edge_hub st') = last_n (Z.to_nat (ring_capacity (ring (edge_hub st)))) (seen (edge_hub st) ++ zip bs (sequences bs cur))
  /\ cur' = foldl (fun c b => frame_sequence b c) cur bs /\ auth st' = auth st.
Proof.
  induction events as [|ev events IH]; intros st cur Hc Hl.
  { cbn. rewrite app_nil_r, last_n_all; [done|]. unfold seen. rewrite length_map. unfold zlen in Hl. lia. }
  assert (Hstop : seen (edge_hub st) = last_n (Z.to_nat (ring_capacity (ring (edge_hub st)))) (seen (edge_hub st) ++ [])).
  { rewrite app_nil_r, last_n_all; [done|]. unfold seen. rewrite length_map. unfold zlen in Hl. lia. }
  destruct ev as [[]| | | |[b at_ e|code|]]; cbn [session_loop session_frames]; try (by split); try (by apply IH).
  destruct (on_frame_hub b at_ e st cur) as (st1 & f & -> & Hp & Hs & _ & Ha).
  destruct (publish_seen f e (edge_hub st) Hc Hl) as (P1 & P2 & P3).
  specialize (IH (with_hub (snd (publish iter f e (edge_hub st))) st1) (frame_sequence b cur)).
  cbn [with_hub edge_hub auth] in IH. rewrite P2 in IH. specialize (IH Hc P3).
  destruct (session_loop _ _ _) as [[r st'] cur']. cbv zeta in *. destruct IH as (I1 & I2 & I3).
  cbn [sequences zip_with]. split; [|split; [|congruence]].
  - rewrite I1, P1, Hp, Hs. rewrite last_n_app, <- app_assoc. done.
  - by rewrite I2.
Qed.

(** C8: the edge forwards what it receives.  After a session, the ring holds the last
    frames of what it held plus the session's binary messages, in order and byte for
    byte, each under its own event sequence or, when it does not parse to one, the
    previous frame's; the cursor of the next dial is the last of these. *)
Theorem session_forwards conn events st cur :
  1 <= ring_capacity (ring (edge_hub st)) ->
  zlen (frames (ring (edge_hub st))) <= ring_capacity (ring (edge_hub st)) ->
  let '(_, st', cur') := session conn events st cur in
  let bs := match conn with
            | Connected p => if decide (option_map trim p = Some SUBPROTOCOL) then session_frames events else []
            | _ => []
            end in
  seen (edge_hub st')
  = last_n (Z.to_nat (ring_capacity (ring (edge_hub st)))) (seen (edge_hub st) ++ zip bs (sequences bs cur))
  /\ cur' = foldl (fun c b => frame_sequence b c) cur bs /\ auth st' = auth st.
Proof.
  intros Hc Hl.
  assert (Hstop : seen (edge_hub st) = last_n (Z.to_nat (ring_capacity (ring (edge_hub st)))) (seen (edge_hub st) ++ [])).
  { rewrite app_nil_r, last_n_all; [done|]. unfold seen. rewrite length_map. unfold zlen in Hl. lia. }
  unfold session. destruct conn as [| |p]; [by split|by split|].
  destruct (decide _); [|by split].
  exact (session_loop_forwards events (with_stats (set_connected true (stats st)) st) cur Hc Hl).
Qed.

(** Several rounds of [run_upstream]. *)
Fixpoint upstream_rounds (rounds : list (connection * list ws_event * Z)) (st : EdgeState) (u : Upstream)
  : option (EdgeState * Upstream) :=
  match rounds with
  | [] => Some (st, u)
  | (conn, events, elapsed) :: rounds =>
      match upstream_round conn events elapsed st u with
      | Some (st, u) => upstream_rounds rounds st u
      | None => None
      end
  end.

Lemma upstream_round_rejected conn events elapsed st u st' u' :
  upstream_round conn events elapsed st u = Some (st', u') -> cursor_rejected u = true -> cursor_rejected u' = true.
Proof.
  unfold upstream_round. destruct (session _ _ _ _) as [[[e|] st1] cur]; [|done].
  intros [= <- <-] Hu. cbn. by destruct e.
Qed.

Lemma upstream_rounds_rejected rounds : forall st u st' u',
  upstream_rounds rounds st u = Some (st', u') -> cursor_rejected u = true -> cursor_rejected u' = true.
Proof.
  induction rounds as [|[[conn events] elapsed] rounds IH]; intros st u st' u'; cbn [upstream_rounds];
    [by intros [= <- <-]|].
  destruct (upstream_round conn events elapsed st u) as [[st1 u1]|] eqn:E; [|done].
  intros Hrest Hu. eapply IH; [exact Hrest|]. by eapply upstream_round_rejected.
Qed.

(** A rejected cursor never returns.  After one session that ended with 1013, no dial
    of any later round carries an [after_sequence] — neither the edge's cursor nor a
    configured one — however many sessions succeed in between. *)
Theorem rejected_cursor_never_returns rounds st u st' u' :
  cursor_rejected u = true -> upstream_rounds rounds st u = Some (st', u') ->
  Forall (fun kv => starts_with after_sequence kv = false) (query_params (round_url st' u')).
Proof.
  intros Hu Hr. apply upstream_rounds_rejected in Hr; [|done]. unfold round_url. rewrite Hr.
  rewrite dial_url_params. cbn [negb]. rewrite !andb_false_r, app_nil_r. cbn [orb].
  apply Forall_forall. intros kv Hkv. rewrite list_elem_of_In, List.filter_In in Hkv.
  destruct Hkv as [_ Hkv]. by apply negb_true_iff in Hkv.
Qed.
End Upstream.

Module UpstreamSample.
Definition zstd : bytes -> Z -> option bytes := WireFrame.Sample.zstd_decode.
#[local] Instance mpsc : Mpsc Frame := list_mpsc Frame.
Definition wire : bytes := frame_bytes WireFrame.Sample.frame.
Definition events : list ws_event :=
  [PingTick true; ReadMessage (MsgBinary wire 2000 1); ReadMessage MsgOther; ReadMessage (MsgBinary [x00] 2100 1);
   ReadMessage (MsgClose (Some 1013))].
Definition after : option (EdgeState * Upstream) :=
  upstream_round EdgeHub.Sample.iter zstd (Connected (Some SUBPROTOCOL)) events 3 ServerSample.node upstream_new.
Definition node_after : EdgeState := match after with Some (st, _) => st | None => ServerSample.node end.
Definition loop_after : Upstream := match after with Some (_, u) => u | None => upstream_new end.
End UpstreamSample.

Lemma session_forwards_witness :
  (let '(_, st', cur') := session EdgeHub.Sample.iter UpstreamSample.zstd (H := list_mpsc Frame)
                            (Connected (Some SUBPROTOCOL)) UpstreamSample.events ServerSample.node 0 in
   seen (edge_hub st') = last_n 2 (seen (edge_hub ServerSample.node)
     ++ zip [UpstreamSample.wire; [x00]] (sequences UpstreamSample.zstd [UpstreamSample.wire; [x00]] 0))
   /\ cur' = foldl (fun c b => frame_sequence UpstreamSample.zstd b c) 0 [UpstreamSample.wire; [x00]]
   /\ auth st' = auth ServerSample.node)
  /\ cursor UpstreamSample.loop_after = 300.
Proof.
  split; [|vm_compute; reflexivity].
  apply (session_forwards EdgeHub.Sample.iter UpstreamSample.zstd (Connected (Some SUBPROTOCOL)) UpstreamSample.events
           ServerSample.node 0); vm_compute; congruence.
Defined.

Lemma rejected_cursor_never_returns_witness :
  cursor_rejected UpstreamSample.loop_after = true
  /\ Forall (fun kv => starts_with after_sequence kv = false)
       (query_params (round_url UpstreamSample.node_after UpstreamSample.loop_after)).
Proof.
  split; [vm_compute; reflexivity|].
  apply (rejected_cursor_never_returns EdgeHub.Sample.iter UpstreamSample.zstd [] UpstreamSample.node_after
           UpstreamSample.loop_after); vm_compute; reflexivity.
Defined.
