(* ===== verification/EdgeTests.v ===== *)
(** * EdgeTests: the tests of [src/edge/] on the model

    The functions of the source's test modules under their names ([ring.rs], [hub.rs],
    [auth.rs], [server.rs], [upstream.rs], [frame.rs]).  The queues are lists, the subscriber
    table is a finite map, and zstd is a stand-in that puts a byte in front of what it packs and
    does not unpack what ends in the byte the test damages a frame with. *)
From S2P Require Import Prelude Testing Channel EdgeHub Tokens EdgeServer EdgeUpstream Model WireFrame.

#[local] Instance queues : Mpsc Frame := list_mpsc Frame.
#[local] Instance RingStats_eq_dec : EqDecision RingStats.
Proof. solve_decision. Defined.

Definition test_frame (event_sequence : Z) : Frame :=
  {| offset := 0; EdgeHub.batch_sequence := event_sequence; event_sequence := event_sequence; payload := be_encode 8 event_sequence;
     recv_at_us := 0 |}.
Definition seqs (fs : list Frame) : list Z := map event_sequence fs.

(** ** [ring.rs] *)

Definition wraps_and_tails : Test Ring unit :=
  st ← peek ring_stats; assert (eqb st {| count := 0; oldest_offset := 0; latest_offset := 0 |}) ;;
  t ← peek (fun r => ring_tail r 5); assert (eqb (seqs t) []) ;;
  for_each [1; 2; 3; 4; 5] (fun q => _ ← calling (fun r => ring_push r (test_frame q)); mret tt) ;;
  st ← peek ring_stats;
  assert (count st =? 3) ;; assert (oldest_offset st =? 3) ;; assert (latest_offset st =? 5) ;;
  t ← peek (fun r => ring_tail r 2); assert (eqb (seqs t) [4; 5]) ;;
  t ← peek (fun r => ring_tail r 10); assert (zlen t =? 3) ;;
  l ← peek EdgeHub.last_event_sequence; assert (l =? 5).

(** ** [hub.rs] *)

Abbreviation H := (Test Hub).
Definition publishes (q : Z) : H unit := _ ← calling (EdgeHub.publish map_to_list (test_frame q) 0); mret tt.
Definition subscribes (replay : Z) (ip : string) (port : Z) (token : option string) : H (Z * list Frame) :=
  calling (subscribe replay ip port token 0).
Definition try_recv (id : Z) : H (option Frame) := calling (receive id).
Definition close_code (id : Z) : H Z := c ← peek (fun h => link_code <$> links h !! id); expect c.
Definition clients_are (n : Z) : H unit := c ← peek clients; assert (c =? n).
Definition is_some {A} (o : option A) : bool := match o with Some _ => true | None => false end.

Definition replay_then_live_is_gapless : H unit :=
  for_each [1; 2; 3; 4; 5; 6; 7; 8; 9; 10] publishes ;;
  '(sub, replay) ← subscribes 5 "1.1.1.1" 1 None;
  assert (eqb (seqs replay) [6; 7; 8; 9; 10]) ;;
  publishes 11 ;;
  live ← try_recv sub; live ← expect live;
  assert (event_sequence live =? 11) ;;
  newest ← expect (last replay); assert (offset live =? offset newest + 1).

Definition slow_client_is_evicted_with_1008_and_others_unaffected : H unit :=
  '(slow, _) ← subscribes 0 "1.1.1.1" 1 (Some "t"%string);
  '(fast, _) ← subscribes 0 "1.1.1.2" 2 None;
  publishes 1 ;; f ← try_recv fast; expect f ;;
  publishes 2 ;; f ← try_recv fast; expect f ;;
  clients_are 2 ;;
  publishes 3 ;; f ← try_recv fast; f ← expect f; assert (event_sequence f =? 3) ;;
  clients_are 1 ;;
  n ← peek slow_clients_disconnected; assert (n =? 1) ;;
  n ← peek deliveries; assert (n =? 5) ;;
  a ← try_recv slow; assert (is_some a) ;;
  a ← try_recv slow; assert (is_some a) ;;
  a ← try_recv slow; assert (negb (is_some a)) ;;
  c ← close_code slow; assert (c =? CLOSE_POLICY) ;;
  c ← close_code fast; assert (c =? CLOSE_NORMAL) ;;
  m ← peek (clients_by_token map_to_list); assert (bool_decide (m = ∅)).

Definition release_uses_1012_and_kick_tokens_uses_1008 : H unit :=
  '(a, _) ← subscribes 0 "1.1.1.1" 1 (Some "keep"%string);
  '(b, _) ← subscribes 0 "1.1.1.2" 2 (Some "gone"%string);
  '(c, _) ← subscribes 0 "1.1.1.3" 3 None;
  m ← peek (clients_by_token map_to_list); assert (eqb (m !! "keep"%string) (Some 1)) ;;
  n ← calling (kick_tokens map_to_list (String.eqb "keep")); assert (n =? 1) ;;
  x ← close_code b; assert (x =? CLOSE_POLICY) ;;
  clients_are 2 ;;
  n ← calling (release map_to_list 10 CLOSE_RESTART); assert (n =? 2) ;;
  x ← close_code a; assert (x =? CLOSE_RESTART) ;;
  x ← close_code c; assert (x =? CLOSE_RESTART) ;;
  clients_are 0 ;;
  l ← peek (client_list map_to_list); assert (zlen l =? 0).

(** ** [auth.rs] *)

Definition grant (id secret : string) : TokenGrant := {| grant_id := id; grant_secret := secret |}.
Definition checks (secret : string) (r : option string) : Test TokenSet unit := x ← peek (check secret); assert (eqb x r).
Definition live (id : string) : Test TokenSet bool := peek (is_live id).
Definition replaces (v : Z) (gs : list TokenGrant) : Test TokenSet bool := calling (replace v gs).

Definition empty_set_rejects_everything : Test TokenSet unit := checks "anything" None ;; checks "" None.

Definition statics_only_until_console_answers : Test TokenSet unit :=
  act (fun _ => set_new ["s1"%string]) ;;
  checks "s1" (Some "env"%string) ;;
  l ← live "env"; assert l ;;
  r ← replaces 3 [grant "a" "sa"]; assert r ;;
  v ← peek set_version; assert (v =? 3) ;;
  checks "sa" (Some "a"%string) ;; checks "s1" None ;;
  l ← live "env"; assert (negb l) ;;
  r ← replaces 3 [grant "a" "sa"]; assert (negb r) ;;
  r ← replaces 4 []; assert r ;;
  checks "sa" None ;;
  l ← live "a"; assert (negb l).

(** ** [server.rs] and [upstream.rs] *)

Definition replay_parsing : bool :=
  eqb (map parse_replay [None; Some ""; Some "5"; Some "4096"; Some "all"; Some "4097"; Some "-1"; Some "x"]%string)
      [Some 0; Some 0; Some 5; Some 4096; Some 4096; None; None; None].

Definition dial_url_cursor_rules : bool :=
  let base := "ws://h:8011/uma/v1/ws"%string in
  eqb (map (fun '(b, s, r) => dial_url b s r)
         [(base, 0, false); (base, 42, false); (base, 42, true); ("ws://h/ws?after_sequence=1&x=y", 7, false);
          ("ws://h/ws?after_sequence=1", 7, true); ("ws://h/ws?after_sequence=0", 0, false);
          ("ws://h/ws?after_sequence=0", 0, true)]%string)
      [base; "ws://h:8011/uma/v1/ws?after_sequence=42"; base; "ws://h/ws?x=y&after_sequence=7"; "ws://h/ws";
       "ws://h/ws?after_sequence=0"; "ws://h/ws"]%string.

(** ** [frame.rs] *)

Definition varint (n v : Z) : Wire.field := {| Wire.num := n; Wire.val := Wire.Varint v |}.
Definition delimited (n : Z) (b : bytes) : Wire.field := {| Wire.num := n; Wire.val := Wire.Len b |}.

(** [pb::UmaBatch { .. }.encode_to_vec()]: the fields that are not their default. *)
Definition batch (batch_sequence : Z) (seqs : list Z) : bytes :=
  Wire.encode ([varint 1 1; varint 2 batch_sequence; varint 3 1700000000000000]
               ++ map (fun s => delimited 4 (Wire.encode [varint 1 s; delimited 3 (replicate 300 xab)])) seqs).

(** [zstd::bulk::compress] and [decompress]. *)
Definition compress (b : bytes) : bytes := x28 :: b.
Definition decompress (b : bytes) (cap : Z) : option bytes :=
  match b with x :: b => if bool_decide (x = x28) && (zlen b <=? cap) && negb (bool_decide (last b = Some xff)) then Some b else None | [] => None end.

Definition frame (payload : bytes) (comp : bool) : bytes :=
  let body := if comp then compress payload else payload in
  MAGIC ++ [if comp then byte_of FLAG_ZSTD else x00; byte_of SCHEMA_VERSION; x00; x00] ++ be_encode 4 (zlen payload) ++ body.
Definition parsed (b : bytes) : option FrameInfo := match parse_frame decompress b with Some (Ok i) => Some i | _ => None end.
Definition refused (b : bytes) : option BadFrame := match parse_frame decompress b with Some (Err e) => Some e | _ => None end.

Definition extracts_sequences_plain_and_compressed : Test unit unit :=
  let payload := batch 77 [100; 101; 105] in
  info ← expect (parsed (frame payload false));
  assert (info_batch_sequence info =? 77) ;; assert (last_event_sequence info =? 105) ;;
  assert (info_sent_at_us info =? 1700000000000000) ;; assert (negb (compressed info)) ;;
  info ← expect (parsed (frame payload true));
  assert (compressed info) ;; assert (info_batch_sequence info =? 77) ;; assert (last_event_sequence info =? 105) ;;
  assert (payload_size info =? zlen payload).

Definition corrupt_zstd_is_not_an_error : Test unit unit :=
  let bytes := frame (batch 1 [1]) true in
  info ← expect (parsed (take (length bytes - 5) bytes ++ replicate 5 xff));
  assert (last_event_sequence info =? 0).

Definition rejects_garbage : Test unit unit :=
  assert (eqb (refused (bytes_of_str "UMA")) (Some TooShort)) ;;
  assert (eqb (refused (bytes_of_str "NOPE00000000")) (Some BadMagic)) ;;
  let bytes := frame (batch 5 [9]) false in
  assert (is_some (refused (take (length bytes - 1) bytes))) ;;
  assert (eqb (refused (frame [x10; xff; xff] false)) (Some TruncatedVarint)).

Example edge_tests_pass :
  forallb (fun b => b)
    [passes wraps_and_tails (ring_new 3); passes replay_then_live_is_gapless (hub_new 16 8);
     passes slow_client_is_evicted_with_1008_and_others_unaffected (hub_new 16 2);
     passes release_uses_1012_and_kick_tokens_uses_1008 (hub_new 16 4);
     passes empty_set_rejects_everything (set_new []); passes statics_only_until_console_answers (set_new []);
     replay_parsing; dial_url_cursor_rules; passes extracts_sequences_plain_and_compressed tt;
     passes corrupt_zstd_is_not_an_error tt; passes rejects_garbage tt] = true.
Proof. vm_compute. reflexivity. Qed.
