(* ===== verification/Hubs.v ===== *)
(** * Hubs: the main service's rings and its downstream sessions ([src/hub.rs],
    [src/api.rs])

    [EventHub] remembers the keys of the last events for deduplication; [FrameHub]
    keeps the last frames and the floor below which a cursor has missed one; a
    downstream session replays from its cursor and follows.  The [watch] channel is the
    value it last carried. *)
From S2P Require Import Prelude Model WireFrame.

(** ** EventHub *)

Record EventHub := {
  capacity : Z;
  events : list EventRecord;
  keys : gset EventKey;
  latest_tx : Z }.

Definition event_hub_new (cap : Z) : EventHub :=
  {| capacity := Z.max cap 1; events := []; keys := ∅; latest_tx := 0 |}.

Definition contains (key : EventKey) (h : EventHub) : bool := bool_decide (key ∈ keys h).

(** [while events.len() > capacity]: each round removes an event, so the number of
    events is fuel enough. *)
Fixpoint evict_events (fuel : nat) (cap : Z) (es : list EventRecord) (ks : gset EventKey)
  : list EventRecord * gset EventKey :=
  match fuel with
  | O => (es, ks)
  | S n =>
      if cap <? zlen es then
        match es with
        | removed :: es => evict_events n cap es (ks ∖ {[record_key removed]})
        | [] => (es, ks)
        end
      else (es, ks)
  end.

Definition insert_event (e : EventRecord) (h : EventHub) : bool * EventHub :=
  let key := record_key e in
  if contains key h then (false, h) else
  let es := events h ++ [e] in
  let '(es', ks) := evict_events (length es) (capacity h) es ({[key]} ∪ keys h) in
  (true, {| capacity := capacity h; events := es'; keys := ks; latest_tx := sequence e |}).

Definition latest_sequence (h : EventHub) : Z := latest_tx h.

Definition bounds (h : EventHub) : Z * Z :=
  (match head (events h) with Some e => sequence e | None => 0 end,
   match last (events h) with Some e => sequence e | None => 0 end).

Definition snapshot (h : EventHub) : list EventRecord := events h.

(** ** FrameHub *)

Inductive FrameReadError : Set := Lagged.

Record FrameHub := {
  frame_capacity : Z;
  frames : list WireFrame;
  replay_floor : Z;
  frame_latest : Z }.

Definition resuming_after (cap last_broadcast_sequence : Z) : FrameHub :=
  {| frame_capacity := Z.max cap 1; frames := []; replay_floor := last_broadcast_sequence; frame_latest := 0 |}.
Definition frame_hub_new (cap : Z) : FrameHub := resuming_after cap 0.

Fixpoint evict_frames (fuel : nat) (cap : Z) (fs : list WireFrame) (floor : Z) : list WireFrame * Z :=
  match fuel with
  | O => (fs, floor)
  | S n =>
      if cap <? zlen fs then
        match fs with
        | evicted :: fs => evict_frames n cap fs (Z.max floor (last_sequence evicted))
        | [] => (fs, floor)
        end
      else (fs, floor)
  end.

Definition publish_frame (f : WireFrame) (h : FrameHub) : FrameHub :=
  let fs := frames h ++ [f] in
  let '(fs', floor) := evict_frames (length fs) (frame_capacity h) fs (replay_floor h) in
  {| frame_capacity := frame_capacity h; frames := fs'; replay_floor := floor; frame_latest := last_sequence f |}.

Definition after (sequence : Z) (h : FrameHub) : result FrameReadError (list WireFrame) :=
  if (0 <? sequence) && (sequence <? replay_floor h) then Err Lagged
  else Ok (List.filter (fun f => sequence <? last_sequence f) (frames h)).

(** ** A downstream session *)

Inductive WriteError : Set := Timeout | Closed.
Inductive SendFailure : Set := CursorTooOld | Write (e : WriteError).

(** The counters a session updates, and the messages it wrote. *)
Record Session := {
  cursor : Z;
  sent : list WireFrame;
  ws_frames_sent : Z;
  ws_bytes_sent : Z }.

Definition session_sent (f : WireFrame) (s : Session) : Session :=
  {| cursor := Z.max (cursor s) (last_sequence f); sent := sent s ++ [f];
     ws_frames_sent := u64_add (ws_frames_sent s) 1;
     ws_bytes_sent := u64_add (ws_bytes_sent s) (zlen (frame_bytes f)) |}.

(** The loop of [send_available]: [writes] are the outcomes of the socket writes, a
    write past their end succeeding. *)
Fixpoint send_frames (fs : list WireFrame) (writes : list (option WriteError)) (s : Session)
  : result SendFailure unit * Session :=
  match fs with
  | [] => (Ok tt, s)
  | f :: fs =>
      match writes with
      | Some e :: _ => (Err (Write e), s)
      | None :: writes => send_frames fs writes (session_sent f s)
      | [] => send_frames fs [] (session_sent f s)
      end
  end.

Definition send_available (h : FrameHub) (writes : list (option WriteError)) (s : Session)
  : result SendFailure unit * Session :=
  match after (cursor s) h with
  | Err Lagged => (Err CursorTooOld, s)
  | Ok fs => send_frames fs writes s
  end.

(** How [websocket_session] leaves its loop. *)
Inductive SessionClose : Set := Close1013 | DroppedSlow | ClosedByPeer.

Definition close_of (f : SendFailure) : SessionClose :=
  match f with CursorTooOld => Close1013 | Write Timeout => DroppedSlow | Write Closed => ClosedByPeer end.

(** What happens around a session: a publication, a wake-up (notification, heartbeat
    or client message) that runs [send_available] again. *)
Inductive session_event :=
| Published (f : WireFrame)
| Wake (writes : list (option WriteError)).

Definition session_open (requested_after : option Z) (h : FrameHub) : Session :=
  {| cursor := default (frame_latest h) requested_after; sent := []; ws_frames_sent := 0; ws_bytes_sent := 0 |}.

Fixpoint websocket_session (evs : list session_event) (h : FrameHub) (s : Session)
  : option SessionClose * FrameHub * Session :=
  match evs with
  | [] => (None, h, s)
  | Published f :: evs => websocket_session evs (publish_frame f h) s
  | Wake writes :: evs =>
      match send_available h writes s with
      | (Ok _, s) => websocket_session evs h s
      | (Err e, s) => (Some (close_of e), h, s)
      end
  end.

(** [check_dashboard_token]: an unset or empty token closes the route. *)
Definition check_dashboard_token (expected provided : option string) : bool :=
  match expected, provided with
  | Some e, Some p => negb (String.eqb e "") && String.eqb e p
  | _, _ => false
  end.

(** ** EventHub: properties *)

Definition key_set (es : list EventRecord) : gset EventKey := list_to_set (map record_key es).

Lemma evict_events_spec cap fuel : forall es,
  0 <= cap -> (length es <= fuel)%nat -> NoDup (map record_key es) ->
  evict_events fuel cap es (key_set es) = (last_n (Z.to_nat cap) es, key_set (last_n (Z.to_nat cap) es)).
Proof.
  induction fuel as [|n IH]; intros es Hc Hl Hnd.
  { destruct es; [|simpl in Hl; lia]. done. }
  cbn [evict_events]. destruct (cap <? zlen es) eqn:E.
  - destruct es as [|e es]; [unfold zlen in E; simpl in E; lia|]. cbn [map] in Hnd.
    apply NoDup_cons in Hnd as [Hnin Hnd].
    assert (Hset : key_set (e :: es) ∖ {[record_key e]} = key_set es).
    { unfold key_set. cbn [map list_to_set]. apply leibniz_equiv. intros k.
      rewrite elem_of_difference, elem_of_union, elem_of_singleton, elem_of_list_to_set.
      split; [tauto|]. intros Hk. split; [by right|]. intros ->. done. }
    rewrite Hset, IH by (done || simpl in Hl; lia).
    assert (Hlast : last_n (Z.to_nat cap) (e :: es) = last_n (Z.to_nat cap) es).
    { unfold last_n, zlen in *. cbn [length] in *.
      replace (S (length es) - Z.to_nat cap)%nat with (S (length es - Z.to_nat cap)) by lia. done. }
    by rewrite Hlast.
  - rewrite last_n_all; [done|]. unfold zlen in E. lia.
Qed.

Record event_hub_inv (h : EventHub) : Prop := {
  eh_capacity : 1 <= capacity h;
  eh_bound : zlen (events h) <= capacity h;
  eh_nodup : NoDup (map record_key (events h));
  eh_keys : keys h = key_set (events h) }.

Lemma contains_key_set k h : event_hub_inv h -> contains k h = true <-> k ∈ map record_key (events h).
Proof.
  intros [_ _ _ Hk]. unfold contains. rewrite bool_decide_eq_true, Hk. unfold key_set. apply elem_of_list_to_set.
Qed.

Lemma insert_event_spec e h : event_hub_inv h ->
  insert_event e h =
  if contains (record_key e) h then (false, h)
  else (true, {| capacity := capacity h; events := last_n (Z.to_nat (capacity h)) (events h ++ [e]);
                 keys := key_set (last_n (Z.to_nat (capacity h)) (events h ++ [e])); latest_tx := sequence e |}).
Proof.
  intros Hinv. unfold insert_event. destruct (contains (record_key e) h) eqn:E; [done|].
  assert (Hnin : record_key e ∉ map record_key (events h)).
  { intros Hk. apply contains_key_set in Hk; [congruence|done]. }
  destruct Hinv as [Hc Hb Hnd Hk].
  assert (Hset : {[record_key e]} ∪ keys h = key_set (events h ++ [e])).
  { rewrite Hk. unfold key_set. rewrite map_app, list_to_set_app_L. apply leibniz_equiv. intros k.
    rewrite !elem_of_union, elem_of_singleton, !elem_of_list_to_set. cbn [map]. rewrite list_elem_of_singleton. tauto. }
  rewrite Hset, evict_events_spec; [done|lia|lia|].
  rewrite map_app. cbn. apply NoDup_app. split; [done|]. split; [|apply NoDup_singleton].
  intros k Hk' Hs. apply list_elem_of_singleton in Hs as ->. done.
Qed.

Lemma insert_event_inv e h : event_hub_inv h -> event_hub_inv (snd (insert_event e h)).
Proof.
  intros Hinv. rewrite insert_event_spec by done. destruct (contains (record_key e) h) eqn:E; [done|].
  assert (Hnin : record_key e ∉ map record_key (events h)).
  { intros Hk. apply contains_key_set in Hk; [congruence|done]. }
  destruct Hinv as [Hc Hb Hnd Hk]. split; cbn [snd capacity events keys]; [done| | |done].
  - unfold zlen. rewrite last_n_length. lia.
  - eapply sublist_NoDup; [|apply (fmap_sublist record_key), sublist_drop].
    rewrite map_app. cbn. apply NoDup_app. split; [done|]. split; [|apply NoDup_singleton].
    intros k Hk' Hs. apply list_elem_of_singleton in Hs as ->. done.
Qed.

(** Inserting a list of events: the hub and the events it accepted. *)
Fixpoint insert_all (es : list EventRecord) (h : EventHub) : list EventRecord * EventHub :=
  match es with
  | [] => ([], h)
  | e :: es =>
      let '(fresh, h) := insert_event e h in
      let '(acc, h) := insert_all es h in
      ((if fresh then [e] else []) ++ acc, h)
  end.

Lemma insert_all_inv es : forall h, event_hub_inv h -> event_hub_inv (snd (insert_all es h))
  /\ capacity (snd (insert_all es h)) = capacity h
  /\ events (snd (insert_all es h)) = last_n (Z.to_nat (capacity h)) (events h ++ fst (insert_all es h)).
Proof.
  induction es as [|e es IH]; intros h Hinv; cbn [insert_all].
  - cbn. split; [done|split; [done|]]. rewrite app_nil_r, last_n_all; [done|].
    destruct Hinv as [_ Hb _ _]. unfold zlen in Hb. lia.
  - pose proof (insert_event_inv e h Hinv) as Hi. pose proof (insert_event_spec e h Hinv) as Hs.
    destruct (insert_event e h) as [fresh h1] eqn:E. cbn [snd] in Hi. specialize (IH h1 Hi).
    destruct (insert_all es h1) as [acc h2]. cbn [snd fst] in *. destruct IH as (I1 & I2 & I3).
    destruct (contains (record_key e) h); injection Hs as -> ->; cbn [capacity events] in *.
    + cbn. done.
    + split; [done|split; [done|]]. rewrite I3, last_n_app, <- app_assoc. done.
Qed.

(** Deduplication.  From an empty hub, an event is accepted exactly when its key is
    not among the last [capacity] accepted ones, and the hub is those events: distinct
    keys, at most the capacity of them, the key set being exactly theirs. *)
Theorem event_hub_dedup cap es e :
  let '(accepted, h) := insert_all es (event_hub_new cap) in
  events h = last_n (Z.to_nat (Z.max cap 1)) accepted
  /\ NoDup (map record_key (events h)) /\ keys h = key_set (events h)
  /\ (fst (insert_event e h) = false <->
      record_key e ∈ map record_key (last_n (Z.to_nat (Z.max cap 1)) accepted))
  /\ (forall k, contains k (snd (insert_event e h)) = true <->
                k ∈ map record_key (events (snd (insert_event e h)))).
Proof.
  assert (H0 : event_hub_inv (event_hub_new cap)).
  { split; cbn; try done; [lia|unfold zlen; cbn; lia|constructor]. }
  pose proof (insert_all_inv es _ H0) as Hi. destruct (insert_all es (event_hub_new cap)) as [acc h].
  cbn [fst snd] in Hi. destruct Hi as (Hinv & Hc & He). cbn [capacity event_hub_new events app] in Hc, He.
  split; [done|]. pose proof Hinv as [I1 I2 I3 I4]. split; [done|split; [done|]]. split.
  - rewrite insert_event_spec by done. rewrite <- He, <- contains_key_set by done.
    destruct (contains (record_key e) h); cbn; intuition congruence.
  - intros k. apply contains_key_set. by apply insert_event_inv.
Qed.

(** ** FrameHub: properties *)

Definition publish_all (fs : list WireFrame) (h : FrameHub) : FrameHub :=
  foldl (fun h f => publish_frame f h) h fs.

Definition newer (seq : Z) (f : WireFrame) : bool := seq <? last_sequence f.
Definition max_sequence (floor : Z) (fs : list WireFrame) : Z :=
  foldl (fun m f => Z.max m (last_sequence f)) floor fs.

Lemma evict_frames_spec cap fuel : forall fs floor,
  0 <= cap -> (length fs <= fuel)%nat ->
  exists gone, evict_frames fuel cap fs floor = (last_n (Z.to_nat cap) fs, max_sequence floor gone)
               /\ fs = gone ++ last_n (Z.to_nat cap) fs.
Proof.
  induction fuel as [|n IH]; intros fs floor Hc Hl.
  { destruct fs; [|simpl in Hl; lia]. by exists []. }
  cbn [evict_frames]. destruct (cap <? zlen fs) eqn:E.
  - destruct fs as [|f fs]; [unfold zlen in E; simpl in E; lia|].
    destruct (IH fs (Z.max floor (last_sequence f)) Hc ltac:(simpl in Hl; lia)) as (gone & -> & Hg).
    assert (Hlast : last_n (Z.to_nat cap) (f :: fs) = last_n (Z.to_nat cap) fs).
    { unfold last_n, zlen in *. cbn [length] in *.
      replace (S (length fs) - Z.to_nat cap)%nat with (S (length fs - Z.to_nat cap)) by lia. done. }
    exists (f :: gone). rewrite Hlast. split; [done|]. cbn. by rewrite <- Hg.
  - exists []. rewrite last_n_all; [done|]. unfold zlen in E. lia.
Qed.

(** The hub after publishing [fs] from a floor: its ring, and what it evicted. *)
Record frame_hub_at (cap floor : Z) (fs : list WireFrame) (h : FrameHub) : Prop := {
  fh_capacity : frame_capacity h = cap /\ 1 <= cap;
  fh_ring : frames h = last_n (Z.to_nat cap) fs;
  fh_floor : exists gone, fs = gone ++ frames h /\ replay_floor h = max_sequence floor gone }.

Lemma frame_hub_publish cap floor fs f h :
  frame_hub_at cap floor fs h -> frame_hub_at cap floor (fs ++ [f]) (publish_frame f h).
Proof.
  intros [[Hc H1] Hr (gone & Hg & Hf)]. unfold publish_frame.
  destruct (evict_frames_spec (frame_capacity h) (length (frames h ++ [f])) (frames h ++ [f]) (replay_floor h)
              ltac:(lia) (Nat.le_refl _)) as (more & -> & Hm).
  split; cbn [frame_capacity frames replay_floor]; [done| |].
  - by rewrite Hc, Hr, last_n_app.
  - exists (gone ++ more). split; [rewrite Hg at 1; rewrite <- !app_assoc; f_equal; exact Hm|].
    rewrite Hf. unfold max_sequence. by rewrite foldl_app.
Qed.

Lemma frame_hub_publish_all cap floor fs : forall gs h,
  frame_hub_at cap floor gs h -> frame_hub_at cap floor (gs ++ fs) (publish_all fs h).
Proof.
  unfold publish_all. induction fs as [|f fs IH]; intros gs h Hh; cbn [foldl]; [by rewrite app_nil_r|].
  replace (gs ++ f :: fs) with ((gs ++ [f]) ++ fs) by (by rewrite <- app_assoc).
  apply IH. by apply frame_hub_publish.
Qed.

Lemma frame_hub_start cap floor : frame_hub_at (Z.max cap 1) floor [] (resuming_after cap floor).
Proof. split; cbn; [lia|done|]. by exists []. Qed.

Lemma max_sequence_ge fs : forall floor, floor <= max_sequence floor fs
  /\ forall f, f ∈ fs -> last_sequence f <= max_sequence floor fs.
Proof.
  induction fs as [|g fs IH]; intros floor; cbn; [split; [lia|by intros ? ?%elem_of_nil]|].
  destruct (IH (Z.max floor (last_sequence g))) as [H1 H2]. split; [unfold max_sequence in *; lia|].
  intros f [->|Hf]%elem_of_cons; [unfold max_sequence in *; lia|by apply H2].
Qed.

Lemma max_sequence_reached fs : forall floor, max_sequence floor fs = floor
  \/ exists f, f ∈ fs /\ max_sequence floor fs = last_sequence f.
Proof.
  induction fs as [|g fs IH]; intros floor; [by left|]. cbn.
  destruct (IH (Z.max floor (last_sequence g))) as [E|(f & Hf & E)]; unfold max_sequence in *.
  - rewrite E. destruct (Z.max_spec floor (last_sequence g)) as [[? ->]|[? ->]]; [right; exists g; split; [by left|done]|by left].
  - right. exists f. split; [by right|done].
Qed.

Lemma filter_newer_none seq fs : (forall f, f ∈ fs -> last_sequence f <= seq) -> List.filter (newer seq) fs = [].
Proof.
  induction fs as [|g fs IH]; intros Hf; [done|]. cbn. unfold newer at 1.
  pose proof (Hf g ltac:(by left)). replace (seq <? last_sequence g) with false by lia.
  apply IH. intros f Hin. apply Hf. by right.
Qed.

Lemma after_spec cap floor fs h seq : frame_hub_at cap floor fs h ->
  match after seq h with
  | Ok got => got = List.filter (newer seq) (last_n (Z.to_nat cap) fs)
              /\ (0 < seq -> got = List.filter (newer seq) fs)
  | Err Lagged => 0 < seq /\ (seq < floor \/ exists f gone, f ∈ gone /\ fs = gone ++ frames h
                                                           /\ seq < last_sequence f)
  end.
Proof.
  intros [[Hc H1] Hr (gone & Hg & Hf)]. unfold after.
  destruct ((0 <? seq) && (seq <? replay_floor h)) eqn:E.
  - split; [lia|]. destruct (max_sequence_reached gone floor) as [Em|(f & Hin & Em)]; [left; lia|right].
    exists f, gone. split; [done|split; [done|lia]].
  - fold (newer seq). split; [by rewrite Hr|]. intros Hs. rewrite Hg, List.filter_app.
    rewrite (filter_newer_none seq gone); [done|]. intros f Hin.
    destruct (max_sequence_ge gone floor) as [_ Hm]. specialize (Hm f Hin). lia.
Qed.

(** An answer is only given to cursors that are not below the floor. *)
Lemma after_floor cap floor fs h seq got : frame_hub_at cap floor fs h -> 0 < seq -> after seq h = Ok got -> floor <= seq.
Proof.
  intros [_ _ (gone & _ & Hf)] Hs. unfold after. destruct ((0 <? seq) && (seq <? replay_floor h)) eqn:E; [done|]. intros _.
  destruct (max_sequence_ge gone floor) as [Hm _]. lia.
Qed.

(** No frame is missed.  A replay from a non-zero cursor either returns every frame
    ever published with a newer event, or is refused — and it is refused only when such
    a frame was evicted from the ring or belongs to the time before the restart.
    Cursor zero returns the whole ring. *)
Theorem after_complete cap floor fs seq :
  let h := publish_all fs (resuming_after cap floor) in
  match after seq h with
  | Ok got => got = List.filter (newer seq) (last_n (Z.to_nat (Z.max cap 1)) fs)
              /\ (0 < seq -> got = List.filter (newer seq) fs)
  | Err Lagged => 0 < seq /\ (seq < floor \/ exists f gone, f ∈ gone /\ fs = gone ++ frames h
                                                           /\ seq < last_sequence f)
  end.
Proof.
  exact (after_spec (Z.max cap 1) floor fs _ seq (frame_hub_publish_all _ _ fs [] _ (frame_hub_start cap floor))).
Qed.

(** *** Sessions *)

(** Frames are published in the order of their sequences. *)
Definition increasing (fs : list WireFrame) : Prop :=
  StronglySorted (fun f g => last_sequence f < last_sequence g) fs.

Lemma increasing_filter_head c f rest fs :
  increasing fs -> List.filter (newer c) fs = f :: rest ->
  List.filter (newer (last_sequence f)) fs = rest /\ c < last_sequence f.
Proof.
  induction 1 as [|g fs Hs IH Hall]; cbn [List.filter]; [done|].
  change (newer c g) with (c <? last_sequence g).
  change (newer (last_sequence f) g) with (last_sequence f <? last_sequence g).
  destruct (c <? last_sequence g) eqn:E.
  - intros Heq. injection Heq as -> <-. rewrite Z.ltb_irrefl. split; [|lia].
    apply List.filter_ext_in. intros h Hh%list_elem_of_In.
    rewrite Forall_forall in Hall. specialize (Hall h Hh). unfold newer. lia.
  - intros Hr. destruct (IH Hr) as [<- ?]. split; [|done].
    by replace (last_sequence f <? last_sequence g) with false by lia.
Qed.

Lemma send_frames_spec P fs : forall writes s r s',
  increasing P -> List.filter (newer (cursor s)) P = fs -> send_frames fs writes s = (r, s') ->
  sent s' ++ List.filter (newer (cursor s')) P = sent s ++ fs /\ cursor s <= cursor s'
  /\ (cursor s' = cursor s \/ exists f, f ∈ P /\ cursor s' = last_sequence f)
  /\ (r = Ok tt -> List.filter (newer (cursor s')) P = []).
Proof.
  induction fs as [|f fs IH]; intros writes s r s' HP Hf; cbn [send_frames].
  { intros [= <- <-]. rewrite Hf. split; [done|split; [lia|split; [by left|done]]]. }
  destruct (increasing_filter_head _ _ _ _ HP Hf) as [Hrest Hlt].
  assert (Hin : f ∈ P).
  { rewrite list_elem_of_In. apply (List.filter_In (newer (cursor s))). rewrite Hf. by left. }
  assert (Hcur : cursor (session_sent f s) = last_sequence f) by (cbn; lia).
  assert (Hgo : forall writes, send_frames fs writes (session_sent f s) = (r, s') ->
    sent s' ++ List.filter (newer (cursor s')) P = sent s ++ f :: fs /\ cursor s <= cursor s'
    /\ (cursor s' = cursor s \/ exists g, g ∈ P /\ cursor s' = last_sequence g)
    /\ (r = Ok tt -> List.filter (newer (cursor s')) P = [])).
  { intros ws Hs. apply IH in Hs as (I1 & I2 & I3 & I4); [|done|by rewrite Hcur].
    rewrite Hcur in *. cbn [sent session_sent] in I1. rewrite <- app_assoc in I1.
    split; [done|split; [lia|split; [|done]]]. right. destruct I3 as [->|?]; [by exists f|done]. }
  destruct writes as [|[e|] writes]; [apply Hgo| |apply Hgo].
  intros [= <- <-]. rewrite Hf. split; [done|split; [lia|split; [by left|done]]].
Qed.

Definition published_frames (evs : list session_event) : list WireFrame :=
  omap (fun ev => match ev with Published f => Some f | Wake _ => None end) evs.

Definition session_at (after0 : Z) (P : list WireFrame) (s : Session) : Prop :=
  sent s ++ List.filter (newer (cursor s)) P = List.filter (newer after0) P
  /\ after0 <= cursor s /\ (cursor s = after0 \/ exists f, f ∈ P /\ cursor s = last_sequence f).

Lemma session_publish after0 P f s :
  increasing (P ++ [f]) -> session_at after0 P s -> session_at after0 (P ++ [f]) s.
Proof.
  intros Hinc (H1 & H2 & H3). split; [|split; [done|]].
  - rewrite !List.filter_app, app_assoc, H1. f_equal. cbn. unfold newer.
    destruct H3 as [Hc|(g & Hg & Hc)]; rewrite Hc in *; [done|].
    assert (last_sequence g < last_sequence f).
    { apply list_elem_of_split in Hg as (l1 & l2 & ->). unfold increasing in Hinc.
      rewrite <- app_assoc in Hinc. apply StronglySorted_app_1_r in Hinc. cbn in Hinc.
      apply StronglySorted_inv in Hinc as [_ Hf]. rewrite Forall_app in Hf. destruct Hf as [_ Hf].
      by apply Forall_inv in Hf. }
    replace (last_sequence g <? last_sequence f) with true by lia.
    by replace (after0 <? last_sequence f) with true by lia.
  - destruct H3 as [?|(g & Hg & ?)]; [by left|right; exists g; split; [apply elem_of_app; by left|done]].
Qed.

Lemma session_wake cap floor P h after0 s writes r s' :
  0 < after0 -> increasing P -> frame_hub_at cap floor P h -> session_at after0 P s ->
  send_available h writes s = (r, s') ->
  session_at after0 P s' /\ (r = Ok tt -> sent s' = List.filter (newer after0) P).
Proof.
  intros H0 HP Hh (H1 & H2 & H3). unfold send_available.
  pose proof (after_spec cap floor P h (cursor s) Hh) as Ha.
  destruct (after (cursor s) h) as [fs|[]]; [|intros [= <- <-]; split; [by split_and!|done]].
  destruct Ha as [_ Ha]. specialize (Ha ltac:(lia)). intros Hs.
  destruct (send_frames_spec P fs writes s r s' HP (eq_sym Ha) Hs) as (S1 & S2 & S3 & S4).
  rewrite Ha, H1 in S1. split; [split; [done|split; [lia|]]|].
  - destruct S3 as [->|?]; [done|by right].
  - intros Hr. rewrite <- S1, S4, app_nil_r by done. done.
Qed.

Lemma session_run evs : forall cap floor P h after0 s,
  0 < after0 -> increasing (P ++ published_frames evs) -> frame_hub_at cap floor P h -> session_at after0 P s ->
  let '(r, _, s') := websocket_session evs h s in
  sent s' `prefix_of` List.filter (newer after0) (P ++ published_frames evs)
  /\ (forall writes, last evs = Some (Wake writes) -> r = None ->
      sent s' = List.filter (newer after0) (P ++ published_frames evs)).
Proof.
  induction evs as [|ev evs IH]; intros cap floor P h after0 s H0 Hinc Hh Hs; cbn [websocket_session].
  { split; [|done]. cbn. rewrite app_nil_r. destruct Hs as [<- _]. by apply prefix_app_r. }
  destruct ev as [f|writes]; cbn [published_frames omap list_omap] in *; fold (published_frames evs) in *.
  - replace (P ++ f :: published_frames evs) with ((P ++ [f]) ++ published_frames evs) in *
      by (by rewrite <- app_assoc).
    assert (HP : increasing (P ++ [f])) by (unfold increasing in *; by apply StronglySorted_app_1_l in Hinc).
    specialize (IH cap floor (P ++ [f]) (publish_frame f h) after0 s H0 Hinc (frame_hub_publish _ _ _ _ _ Hh)
                  (session_publish _ _ _ _ HP Hs)).
    destruct (websocket_session evs (publish_frame f h) s) as [[r h'] s']. destruct IH as [I1 I2].
    split; [done|]. intros ws Hl. destruct evs as [|ev evs]; [done|]. by apply (I2 ws).
  - assert (HP : increasing P) by (unfold increasing in *; by apply StronglySorted_app_1_l in Hinc).
    destruct (send_available h writes s) as [r1 s1] eqn:Es.
    destruct (session_wake _ _ P h after0 s writes r1 s1 H0 HP Hh Hs Es) as [Hs1 Hok].
    assert (Hpre : sent s1 `prefix_of` List.filter (newer after0) (P ++ published_frames evs)).
    { destruct Hs1 as [E _]. rewrite List.filter_app, <- E, <- app_assoc. by apply prefix_app_r. }
    destruct r1 as [[]|e]; [|by split].
    specialize (IH cap floor P h after0 s1 H0 Hinc Hh Hs1).
    destruct (websocket_session evs h s1) as [[r h'] s'] eqn:Ew. destruct IH as [I1 I2].
    split; [done|]. intros ws Hl Hr. destruct evs as [|ev evs]; [|by apply (I2 ws)].
    injection Ew as <- <- <-. cbn. rewrite app_nil_r. by apply Hok.
Qed.

(** C9: ordered delivery without loss.  Over any interleaving of publications (in
    sequence order) and wake-ups with any write failures, a session opened at a
    non-zero cursor writes, each once and in order, a prefix of the frames newer than
    the cursor; if it is still open after a wake-up it has written all of them. *)
Theorem session_delivers cap floor before evs after0 :
  0 < after0 -> increasing (before ++ published_frames evs) ->
  let h := publish_all before (resuming_after cap floor) in
  let '(r, _, s) := websocket_session evs h (session_open (Some after0) h) in
  let wanted := List.filter (newer after0) (before ++ published_frames evs) in
  sent s `prefix_of` wanted
  /\ (forall writes, last evs = Some (Wake writes) -> r = None -> sent s = wanted).
Proof.
  intros H0 Hinc h.
  apply (session_run evs (Z.max cap 1) floor before h after0); [done|done| |].
  - apply (frame_hub_publish_all _ _ before []). apply frame_hub_start.
  - unfold session_at. cbn. split; [done|split; [lia|by left]].
Qed.

(** ** Examples *)

Module Sample.
Definition wf (n : Z) : WireFrame :=
  {| batch_sequence := n; first_sequence := n; last_sequence := n; frame_bytes := [byte_of n] |}.
Definition before : list WireFrame := [wf 3; wf 5].
Definition evs : list session_event := [Wake []; Published (wf 8); Published (wf 9); Wake []].
End Sample.

Lemma session_delivers_witness :
  (let h := publish_all Sample.before (resuming_after 2 0) in
   let '(r, _, s) := websocket_session Sample.evs h (session_open (Some 3) h) in
   let wanted := List.filter (newer 3) (Sample.before ++ published_frames Sample.evs) in
   sent s `prefix_of` wanted
   /\ (forall writes, last Sample.evs = Some (Wake writes) -> r = None -> sent s = wanted))
  /\ (let h := publish_all Sample.before (resuming_after 2 0) in
      map last_sequence (sent (snd (websocket_session Sample.evs h (session_open (Some 3) h)))) = [5; 8; 9]).
Proof.
  split; [|vm_compute; reflexivity].
  apply (session_delivers 2 0 Sample.before Sample.evs 3); [lia|].
  repeat constructor; cbn; lia.
Defined.

(** Without the order of publication the guarantee fails: a frame whose last sequence
    is below the cursor when it is published is never written. *)
Example late_frame_skipped :
  let h := frame_hub_new 8 in
  map last_sequence (sent (snd (websocket_session
    [Published (Sample.wf 5); Wake []; Published (Sample.wf 4); Wake []] h (session_open (Some 1) h)))) = [5].
Proof. vm_compute. reflexivity. Qed.
