(* ===== verification/Relay.v ===== *)
(** * Relay: from the service's ring to a client of an edge

    The composition of the service's downstream sessions ([src/api.rs], [src/hub.rs]), the
    edge's upstream loop ([src/edge/upstream.rs]) and the edge's hub ([src/edge/hub.rs]):
    the edge dials again after each session with the cursor of what arrived. *)
From S2P Require Import Prelude Model WireFrame Channel EdgeHub EdgeServer EdgeUpstream Hubs.

Section Relay.
Context `{Mpsc Frame}.
Variable iter : gmap Z ClientInfo -> list (Z * ClientInfo).
Hypothesis iter_perm : forall m, iter m ≡ₚ map_to_list m.
Variable zstd_decompress : bytes -> Z -> option bytes.

(** One connection: what happens around the service's session, how many of the frames it
    wrote arrive before the link breaks, whether a close frame does, and what is
    broadcast until the edge is back. *)
Record Stretch := {
  x_events : list session_event;
  x_arrived : nat;
  x_close_arrives : bool;
  x_meanwhile : list WireFrame }.

Record RelayState := {
  rl_hub : FrameHub;
  rl_published : list WireFrame;
  rl_cursor : Z;
  rl_rejected : bool;
  rl_got : list WireFrame }.

(** What of the events happens before the session ends. *)
Fixpoint session_consumed (evs : list session_event) (h : FrameHub) (s : Session) : list session_event :=
  match evs with
  | [] => []
  | Published f :: evs => Published f :: session_consumed evs (publish_frame f h) s
  | Wake writes :: evs =>
      Wake writes :: match send_available h writes s with (Ok _, s) => session_consumed evs h s | (Err _, _) => [] end
  end.

(** The cursor a dial carries ([dial_url]). *)
Definition dialled (s : RelayState) : option Z :=
  if (0 <? rl_cursor s) && negb (rl_rejected s) then Some (rl_cursor s) else None.

Definition relay_stretch (s : RelayState) (x : Stretch) : RelayState :=
  let s0 := session_open (dialled s) (rl_hub s) in
  let '(r, h, served) := websocket_session (x_events x) (rl_hub s) s0 in
  let arrived := take (x_arrived x) (sent served) in
  {| rl_hub := publish_all (x_meanwhile x) h;
     rl_published := rl_published s ++ published_frames (session_consumed (x_events x) (rl_hub s) s0) ++ x_meanwhile x;
     rl_cursor := foldl (fun c f => frame_sequence zstd_decompress (frame_bytes f) c) (rl_cursor s) arrived;
     rl_rejected := rl_rejected s || (x_close_arrives x && match r with Some Close1013 => true | _ => false end);
     rl_got := rl_got s ++ arrived |}.
Definition relay (xs : list Stretch) (s : RelayState) : RelayState := foldl relay_stretch s xs.
Definition relay_start (cap floor : Z) (before : list WireFrame) (cursor : Z) : RelayState :=
  {| rl_hub := publish_all before (resuming_after cap floor); rl_published := before; rl_cursor := cursor; rl_rejected := false;
     rl_got := [] |}.

(** ** Frames the edge can read *)

Definition readable (f : WireFrame) : Prop := forall c, frame_sequence zstd_decompress (frame_bytes f) c = last_sequence f.

Lemma max_of_sorted l : StronglySorted Z.lt l -> Forall (fun n => 0 < n) l -> forall m, Forall (fun n => m < n) l ->
  foldl Z.max m l = default m (last l).
Proof.
  induction 1 as [|n l Hs IH Hall]; intros Hp m Hm; [done|]. cbn [foldl]. apply Forall_cons in Hp as [Hn Hp]. apply Forall_cons in Hm as [Hm _].
  replace (Z.max m n) with n by lia. rewrite IH by done. destruct l as [|x l]; [done|].
  rewrite last_cons_cons. destruct (last (x :: l)) eqn:E; [done|]. by apply last_None in E.
Qed.

(** What the service encodes from events in sequence order is readable. *)
Lemma encoded_readable `{WireNumbers} event_rest encode_event encode_batch zstd_encode now seq events config frame :
  Prost event_rest encode_event encode_batch -> zstd_law zstd_encode zstd_decompress ->
  max_decompressed_bytes config <= MAX_DECOMPRESSED -> u64_ok now -> u64_ok seq -> Forall (fun e => u64_ok (sequence e)) events ->
  Forall (fun n => 0 < n) (map sequence events) -> StronglySorted Z.lt (map sequence events) ->
  encode_frame encode_batch zstd_encode now seq events config = Ok frame -> readable frame.
Proof.
  intros Hp Hz Hc Hn Hs He Hpos Hsort Hf c. pose proof (encoded_frame_parses _ _ _ _ _ _ _ _ _ _ Hp Hz Hc Hn Hs He Hf) as Hparse.
  cbv zeta in Hparse. unfold frame_sequence, frame_verdict. rewrite Hparse. cbn [default from_option id WireFrame.last_event_sequence].
  unfold encode_frame in Hf. apply result_bind_ok in Hf as (fst_ & _ & Hf). apply result_bind_ok in Hf as (lst & Hl & Hf). cbv zeta in Hf.
  apply result_bind_ok in Hf as (? & _ & Hf). apply result_bind_ok in Hf as ([fl body] & _ & Hf). injection Hf as <-. cbn [last_sequence].
  rewrite max_of_sorted by done. unfold ok_or in Hl. destruct (last events) as [e|] eqn:El; [|done]. injection Hl as ->.
  rewrite fmap_last, El. cbn. destruct (0 <? sequence lst) eqn:E; [done|].
  apply last_Some in El as (l' & ->). rewrite map_app, Forall_app in Hpos. destruct Hpos as [_ Hpos]. apply Forall_inv in Hpos. lia.
Qed.

(** ** The relay *)

(** A session started at a cursor, its frames as if read by the edge. *)
Definition at_cursor (got : list WireFrame) (c : Z) : Session := {| cursor := c; sent := got; ws_frames_sent := 0; ws_bytes_sent := 0 |}.

Lemma consumed_same evs : forall h s, websocket_session (session_consumed evs h s) h s = websocket_session evs h s.
Proof.
  induction evs as [|[f|writes] evs IH]; intros h s; cbn [session_consumed websocket_session]; [done|apply IH|].
  destruct (send_available h writes s) as [[u|e] s']; [apply IH|done].
Qed.
Lemma session_hub cap floor evs : forall P h s, frame_hub_at cap floor P h ->
  let '(_, h', _) := websocket_session evs h s in
  frame_hub_at cap floor (P ++ published_frames (session_consumed evs h s)) h'.
Proof.
  induction evs as [|[f|writes] evs IH]; intros P h s Hh; cbn [session_consumed websocket_session].
  - cbn. by rewrite app_nil_r.
  - specialize (IH (P ++ [f]) (publish_frame f h) s (frame_hub_publish _ _ _ _ _ Hh)). destruct (websocket_session evs _ s) as [[r h'] s'].
    cbn [published_frames omap list_omap]. by rewrite <- app_assoc in IH.
  - destruct (send_available h writes s) as [[u|e] s']; [apply (IH P h s' Hh)|]. cbn. by rewrite app_nil_r.
Qed.

Lemma increasing_app_l P Q : increasing (P ++ Q) -> increasing P.
Proof. unfold increasing. intros Hi. by apply StronglySorted_app_1_l in Hi. Qed.

Lemma session_at_app after0 Q : forall P s, increasing (P ++ Q) -> session_at after0 P s -> session_at after0 (P ++ Q) s.
Proof.
  induction Q as [|f Q IH]; intros P s Hi Hs; [by rewrite app_nil_r|].
  replace (P ++ f :: Q) with ((P ++ [f]) ++ Q) in * by (by rewrite <- app_assoc).
  apply IH; [done|]. apply session_publish; [by eapply increasing_app_l|done].
Qed.

(** Reading some of the frames above a cursor moves the cursor in front of the others. *)
Lemma read_some P fs : forall rest c, increasing P -> List.filter (newer c) P = fs ++ rest ->
  let c' := foldl (fun _ f => last_sequence f) c fs in
  List.filter (newer c') P = rest /\ c <= c' /\ (c' = c \/ exists f, f ∈ P /\ c' = last_sequence f).
Proof.
  induction fs as [|f fs IH]; intros rest c HP Hf; cbn [foldl]; [split; [done|split; [lia|by left]]|].
  destruct (increasing_filter_head _ _ _ _ HP Hf) as [Hrest Hlt].
  destruct (IH rest (last_sequence f) HP Hrest) as (I1 & I2 & I3). split; [done|]. split; [lia|]. right.
  destruct I3 as [->|?]; [|done]. exists f. split; [|done]. rewrite list_elem_of_In. apply (List.filter_In (newer c)). rewrite Hf. by left.
Qed.

Lemma read_cursor fs c : Forall readable fs ->
  foldl (fun c f => frame_sequence zstd_decompress (frame_bytes f) c) c fs = foldl (fun _ f => last_sequence f) c fs.
Proof. intros Hf. revert c. induction Hf as [|f fs Hr _ IH]; intros c; [done|]. cbn. by rewrite Hr, IH. Qed.

Lemma relay_stretch_at cap floor c0 s x :
  0 < c0 -> frame_hub_at cap floor (rl_published s) (rl_hub s) -> session_at c0 (rl_published s) (at_cursor (rl_got s) (rl_cursor s)) ->
  let s' := relay_stretch s x in
  increasing (rl_published s') -> Forall readable (rl_published s') -> rl_rejected s = false ->
  frame_hub_at cap floor (rl_published s') (rl_hub s') /\ session_at c0 (rl_published s') (at_cursor (rl_got s') (rl_cursor s')).
Proof.
  intros H0 Hh Hs. unfold relay_stretch. set (s0 := session_open (dialled s) (rl_hub s)).
  pose proof (session_hub cap floor (x_events x) _ _ s0 Hh) as Hh'. pose proof (consumed_same (x_events x) (rl_hub s) s0) as Hcs.
  set (evs := session_consumed (x_events x) (rl_hub s) s0) in *.
  pose proof (session_run evs cap floor (rl_published s) (rl_hub s) (rl_cursor s) s0) as Hrun. rewrite Hcs in Hrun.
  destruct (websocket_session (x_events x) (rl_hub s) s0) as [[r h] served]. cbv zeta. cbn [rl_hub rl_published rl_cursor rl_got].
  intros Hinc Hread Hrej. rewrite app_assoc in Hinc, Hread |- *.
  set (P' := rl_published s ++ published_frames evs) in *. assert (HP' : increasing P') by (by eapply increasing_app_l).
  split; [by apply frame_hub_publish_all|]. apply session_at_app; [done|].
  apply (session_at_app c0 (published_frames evs)) in Hs; [|done]. fold P' in Hs. destruct Hs as (E1 & E2 & E3). cbn [cursor sent at_cursor] in *.
  destruct Hrun as [[rest Hpre] _]; [lia|done|done| |].
  { unfold s0, session_at, dialled, session_open. rewrite Hrej. replace (0 <? rl_cursor s) with true by lia. cbn.
    split; [done|split; [lia|by left]]. }
  fold P' in Hpre. pose proof (take_drop (x_arrived x) (sent served)) as Htd.
  set (arrived := take (x_arrived x) (sent served)) in *. set (unread := drop (x_arrived x) (sent served)) in *.
  rewrite <- Htd, <- app_assoc in Hpre.
  destruct (read_some P' arrived (unread ++ rest) (rl_cursor s) HP' Hpre) as (R1 & R2 & R3).
  assert (Hr : Forall readable arrived).
  { apply Forall_app in Hread as [Hread _]. rewrite Forall_forall in Hread |- *. intros f Hf. apply Hread.
    rewrite list_elem_of_In. apply (List.filter_In (newer (rl_cursor s))). rewrite Hpre. apply in_or_app. left. by apply list_elem_of_In. }
  rewrite (read_cursor arrived _ Hr). unfold session_at. cbn [cursor sent at_cursor]. rewrite R1.
  split; [by rewrite <- app_assoc, <- Hpre|]. split; [lia|]. destruct R3 as [->|?]; [done|by right].
Qed.

(** What was broadcast and whether the cursor was refused only grow. *)
Lemma relay_stretch_grows s x :
  (exists more, rl_published (relay_stretch s x) = rl_published s ++ more) /\ (rl_rejected (relay_stretch s x) = false -> rl_rejected s = false).
Proof.
  unfold relay_stretch. destruct (websocket_session _ _ _) as [[r h] served]. cbn. split; [by eexists|]. by intros [? _]%orb_false_iff.
Qed.
Lemma relay_grows xs : forall s,
  (exists more, rl_published (relay xs s) = rl_published s ++ more) /\ (rl_rejected (relay xs s) = false -> rl_rejected s = false).
Proof.
  induction xs as [|x xs IH]; intros s; [split; [exists []; by rewrite app_nil_r|done]|]. cbn [relay foldl].
  destruct (IH (relay_stretch s x)) as [[m1 E1] R1], (relay_stretch_grows s x) as [[m2 E2] R2]. split; [|auto].
  exists (m2 ++ m1). unfold relay in E1. rewrite E1, E2. by rewrite <- app_assoc.
Qed.

Lemma relay_at cap floor c0 xs : forall s, 0 < c0 ->
  frame_hub_at cap floor (rl_published s) (rl_hub s) -> session_at c0 (rl_published s) (at_cursor (rl_got s) (rl_cursor s)) ->
  increasing (rl_published (relay xs s)) -> Forall readable (rl_published (relay xs s)) -> rl_rejected (relay xs s) = false ->
  session_at c0 (rl_published (relay xs s)) (at_cursor (rl_got (relay xs s)) (rl_cursor (relay xs s))).
Proof.
  induction xs as [|x xs IH]; intros s H0 Hh Hs Hinc Hread Hrej; [done|]. cbn [relay foldl] in *.
  change (foldl relay_stretch (relay_stretch s x) xs) with (relay xs (relay_stretch s x)) in *.
  destruct (relay_grows xs (relay_stretch s x)) as [[more E] Hr].
  pose proof Hinc as Hinc1. pose proof Hread as Hread1. rewrite E in Hinc1, Hread1.
  apply increasing_app_l in Hinc1. apply Forall_app in Hread1 as [Hread1 _].
  destruct (relay_stretch_at cap floor c0 s x H0 Hh Hs Hinc1 Hread1) as [Hh1 Hs1].
  { by apply (proj2 (relay_stretch_grows s x)), Hr. }
  by apply IH.
Qed.

(** ** The edge's hub *)

Definition forwarded (ops : list hub_op) : list bytes :=
  omap (fun op => match op with Publish f _ => Some (payload f) | _ => None end) ops.
Lemma run_forwards c q ops : map payload (published (run_ops iter c q ops)) = forwarded ops.
Proof.
  unfold run_ops, forwarded. induction ops as [|op ops IH] using rev_ind; [done|]. rewrite foldl_app, omap_app, <- IH. cbn [foldl].
  set (r := foldl (run_step iter) (run_new c q) ops). clearbody r.
  destruct op as [f e|n ip port tok now|id|n code|keep|id|id]; cbn [run_step omap list_omap]; rewrite ?app_nil_r; try done.
  - destruct (publish iter f e (hub r)) as [f' h] eqn:E. cbn. rewrite map_app. unfold publish, ring_push in E. by injection E as <- _.
  - by destruct (receive id (hub r)) as [[f|] h].
Qed.

(** From the service to the last client.  While the edge keeps dialling with the
    cursor of what arrived, and is not told that the cursor is gone, what it receives
    over any number of broken connections is, each frame once and in order, the beginning
    of what the service broadcast above its first cursor; and what any client of the edge
    was replayed, received and has queued, whatever the interleaving at the edge, is byte
    for byte one contiguous segment of it. *)
Theorem relay_end_to_end cap floor before c0 xs capacity_ queue_len ops id lg l :
  0 < c0 ->
  let s := relay xs (relay_start cap floor before c0) in
  increasing (rl_published s) -> Forall readable (rl_published s) -> rl_rejected s = false ->
  forwarded ops `prefix_of` map frame_bytes (rl_got s) -> Forall op_ok ops -> zlen ops < u64_max - 1 ->
  let r := run_ops iter capacity_ queue_len ops in
  logs r !! id = Some lg -> links (hub r) !! id = Some l ->
  rl_got s `prefix_of` List.filter (newer c0) (rl_published s)
  /\ exists a b, map frame_bytes (List.filter (newer c0) (rl_published s))
                = a ++ map payload (log_replay lg ++ log_got lg ++ queued (link_chan l)) ++ b.
Proof using iter_perm.
  intros H0 s Hinc Hread Hrej [more Hfw] Hok Hlen r Hlg Hlk.
  assert (Hs : session_at c0 (rl_published s) (at_cursor (rl_got s) (rl_cursor s))).
  { apply (relay_at (Z.max cap 1) floor c0 xs); [done| |split; [done|split; [cbn; lia|by left]]|done|done|done].
    apply (frame_hub_publish_all _ _ before []). apply frame_hub_start. }
  destruct Hs as (Hs & _ & _). cbn [cursor sent at_cursor] in Hs. split; [rewrite <- Hs; by apply prefix_app_r|].
  destruct (client_contiguous iter iter_perm capacity_ queue_len ops id lg l Hok Hlen Hlg Hlk) as (a & b & Hp & _).
  exists (map payload a), (map payload b ++ more ++ map frame_bytes (List.filter (newer (rl_cursor s)) (rl_published s))).
  rewrite <- Hs, map_app, Hfw, <- (run_forwards capacity_ queue_len ops), Hp, !map_app. by rewrite <- !app_assoc.
Qed.
End Relay.

(** ** A run *)

Module RelayRun.
#[local] Instance queue : Mpsc Frame := list_mpsc Frame.
#[local] Instance numbers : WireNumbers := sample_numbers.
Definition zstd := WireFrame.Sample.zstd_decode.
Definition iter := EdgeHub.Sample.iter.

(** The frame of one event. *)
Definition encoded (n : Z) : result WireError WireFrame :=
  encode_frame WireFrame.Sample.encode_batch WireFrame.Sample.zstd_encode 1700 n [sample_record n] WireFrame.Sample.config.
Definition frame (n : Z) : WireFrame :=
  match encoded n with Ok f => f | Err _ => WireFrame.Sample.frame end.

(** Frame 5 is written but lost with the first connection; frame 8 is broadcast while the
    edge is away; the second connection brings both. *)
Definition stretches : list Stretch :=
  [{| x_events := [Wake []; Published (frame 5); Wake []]; x_arrived := 1; x_close_arrives := false; x_meanwhile := [frame 8] |};
   {| x_events := [Wake []]; x_arrived := 9; x_close_arrives := false; x_meanwhile := [] |}].
Definition after_two : RelayState := relay zstd stretches (relay_start 4 0 [frame 1; frame 3] 1).

Definition edge_frame (n : Z) : Frame :=
  {| offset := 0; EdgeHub.batch_sequence := n; event_sequence := n; payload := frame_bytes (frame n); EdgeHub.recv_at_us := 5 |}.
Definition ops : list hub_op :=
  [Publish (edge_frame 3) 1; Subscribe 9 "10.0.0.1" 4001 (Some "alice"%string) 77; Publish (edge_frame 5) 1; Receive 1; Publish (edge_frame 8) 1].
Definition edge : Run := run_ops iter 8 4 ops.

Lemma frame_readable n : n ∈ [1; 3; 5; 8] -> readable zstd (frame n).
Proof.
  intros Hn. assert (Hr : 0 < n < 2 ^ 64) by (rewrite !elem_of_cons, elem_of_nil in Hn; lia).
  assert (E : exists f, encoded n = Ok f).
  { rewrite !elem_of_cons, elem_of_nil in Hn. destruct Hn as [->|[->|[->|[->|[]]]]]; (eexists; vm_compute; reflexivity). }
  destruct E as [f E]. unfold frame. rewrite E. unfold encoded in E.
  eapply (encoded_readable (H0 := sample_numbers) zstd WireFrame.Sample.event_rest WireFrame.Sample.encode_event); [..|exact E];
    [exact WireFrame.Sample.prost|exact WireFrame.Sample.zstd|cbn; unfold MAX_DECOMPRESSED; lia|unfold u64_ok, u64_max; lia..| | |];
    repeat constructor; cbn; unfold u64_max; lia.
Qed.

Lemma relay_end_to_end_witness :
  map last_sequence (rl_got after_two) = [3; 5; 8]
  /\ exists lg l a b, logs edge !! 1 = Some lg /\ links (hub edge) !! 1 = Some l /\ length (log_replay lg ++ log_got lg) = 2%nat
    /\ map frame_bytes (List.filter (newer 1) (rl_published after_two))
       = a ++ map payload (log_replay lg ++ log_got lg ++ queued (link_chan l)) ++ b.
Proof.
  assert (Hpub : rl_published after_two = map frame [1; 3; 5; 8]) by (vm_compute; reflexivity).
  split; [vm_compute; reflexivity|].
  destruct (logs edge !! 1) as [lg|] eqn:Elg; [|vm_compute in Elg; discriminate].
  destruct (links (hub edge) !! 1) as [l|] eqn:El; [|vm_compute in El; discriminate].
  destruct (relay_end_to_end iter EdgeHub.Sample.iter_perm zstd 4 0 [frame 1; frame 3] 1 stretches 8 4 ops 1 lg l) as [_ (a & b & E)].
  - lia.
  - fold after_two. rewrite Hpub. repeat constructor; vm_compute; reflexivity.
  - fold after_two. rewrite Hpub. apply Forall_forall. intros f Hf. apply list_elem_of_fmap in Hf as (n & -> & Hn). by apply frame_readable.
  - vm_compute. reflexivity.
  - exists []. vm_compute. reflexivity.
  - repeat constructor; cbn; lia.
  - vm_compute. reflexivity.
  - exact Elg.
  - exact El.
  - exists lg, l, a, b. split; [reflexivity|]. split; [reflexivity|]. split; [|exact E].
    vm_compute in Elg. injection Elg as <-. vm_compute. reflexivity.
Defined.
End RelayRun.
