(* ===== verification/Events.v ===== *)
(** * Events: decoding an oracle log ([src/uma/events/mod.rs], [ancillary.rs],
    [propose_price.rs], [dispute_price.rs])

    A log's hex fields are decoded, the ABI words read at their positions, and the
    market id looked up in the ancillary text.  The [hex] and [sha3] crates are an
    interface ([EthCodec]).  [usize] sums wrap as in the release build. *)
From S2P Require Import Prelude Model.

Class EthCodec := {
  hex_encode : bytes -> string;
  hex_decode : string -> option bytes;
  keccak256 : bytes -> bytes;
  hex_decode_encode b : hex_decode (hex_encode b) = Some b;
  hex_encode_no_x b : has_char "x" (hex_encode b) = false;
  keccak256_length b : length (keccak256 b) = 32%nat }.

Definition TOPIC_PROPOSE_PRICE : string := "0x6e51dd00371aabffa82cd401592f76ed51e98a9ea4b58751c70463a2c78b5ca1".
Definition TOPIC_DISPUTE_PRICE : string := "0x5165909c3d1c01c5d1e121ac6f6d01dda1ba24bc9e1f975b5a375339c15be7f3".

Record RpcLog := {
  address : string;
  topics : list string;
  data : string;
  log_block_number : string;
  block_hash : string;
  log_transaction_hash : string;
  transaction_index : option string;
  log_log_index : string;
  log_removed : bool }.

Inductive DecodeError :=
| Emitter
| Topic
| Hex (field : string)
| Number (field : string)
| ShortData
| DynamicOffset
| AncillaryUtf8
| MissingMarketId.

(** [value.strip_prefix("0x").or_else(|| value.strip_prefix("0X")).unwrap_or(value)] *)
Definition strip_0x (value : string) : string :=
  match strip_prefix "0x" value with
  | Some r => r
  | None => default value (strip_prefix "0X" value)
  end.

Definition parse_hex_u64 (value field : string) : result DecodeError Z :=
  ok_or (Number field) (from_str_radix 16 u64_max (strip_0x value)).

(** ** Ancillary text *)

Definition bytes_prefix (p s : bytes) : bool :=
  match strip_bytes p s with Some _ => true | None => false end.

(** The positions [match_indices] yields: occurrences left to right, the search going on
    behind each.  [skip] counts the bytes still inside the last occurrence. *)
Fixpoint match_indices (needle s : bytes) (i skip : nat) : list nat :=
  match s with
  | [] => []
  | _ :: s' =>
      match skip with
      | S k => match_indices needle s' (S i) k
      | O => if bytes_prefix needle s then i :: match_indices needle s' (S i) (length needle - 1)
             else match_indices needle s' (S i) O
      end
  end.

Definition key_boundary (text : bytes) (index : nat) : bool :=
  match index with
  | O => true
  | S j => match text !! j with
           | Some b => is_ascii_ws b || (byte_val b =? 44)
           | None => false
           end
  end.

Definition find_key (text key : bytes) : option nat :=
  List.find (key_boundary text) (match_indices (key ++ [x3a]) text 0 0).

(** Everything behind the key and the white space after it. *)
Definition value_text (text : bytes) (index : nat) (key : bytes) : bytes :=
  (fix skip (s : bytes) := match s with
                           | b :: s' => if is_ascii_ws b then skip s' else s
                           | [] => []
                           end) (drop (index + length key + 1) text).

Definition field_number (text key : bytes) : option Z :=
  index ← find_key text key;
  parse_u64 (str_of_bytes (take_while is_ascii_digit (value_text text index key))).

(** ** Words *)

Definition nonzero (b : Byte.byte) : bool := negb (byte_val b =? 0).

(** [data[index * 32..(index + 1) * 32]]; every use is behind a length check. *)
Definition word (d : bytes) (index : nat) : bytes := take 32 (drop (index * 32) d).

Definition word_u64 (d : bytes) (index : nat) (field : string) : result DecodeError Z :=
  let value := word d index in
  if existsb nonzero (take 24 value) then Err (Number field) else Ok (be_decode (drop 24 value)).

Definition dynamic_word (d : bytes) (index : nat) : result DecodeError bytes :=
  offset ← word_u64 d index "dynamic offset";
  length_word ← ok_or DynamicOffset (get_range d offset (u64_add offset 32));
  if existsb nonzero (take 24 length_word) then Err DynamicOffset else
  let len := be_decode (drop 24 length_word) in
  ok_or DynamicOffset (get_range d (u64_add offset 32) (u64_add (u64_add offset 32) len)).

Section Decode.
Context `{EthCodec}.

Definition decode_hex (value field : string) : result DecodeError bytes :=
  ok_or (Hex field) (hex_decode (strip_0x value)).

Definition decode_fixed (n : nat) (value field : string) : result DecodeError bytes :=
  b ← decode_hex value field;
  if decide (length b = n) then Ok b else Err (Hex field).

Definition parse_ancillary (raw : bytes) : result DecodeError PolymarketAncillary :=
  if utf8_valid raw
  then Ok {| question_id := keccak256 raw; anc_market_id := field_number raw (bytes_of_str "market_id") |}
  else Err AncillaryUtf8.

(** keccak256(requester, question_id, uint256(2)) *)
Definition derive_binary_condition_id (requester question_id : bytes) : bytes :=
  keccak256 (requester ++ question_id ++ replicate 31 x00 ++ [x02]).

Definition topic_address (value : string) : result DecodeError bytes :=
  topic ← decode_fixed 32 value "topic";
  Ok (drop 12 topic).

Definition parse_data (raw : RpcLog) (words : nat) : result DecodeError bytes :=
  d ← decode_hex (data raw) "data";
  if (words * 32 <=? length d)%nat then Ok d else Err ShortData.

Definition build_chain (raw : RpcLog) (received_at_us : Z) : result DecodeError ChainLog :=
  bn ← parse_hex_u64 (log_block_number raw) "blockNumber";
  hash ← decode_fixed 32 (log_transaction_hash raw) "transactionHash";
  li ← parse_hex_u64 (log_log_index raw) "logIndex";
  _ ← require (li <? 2 ^ 32) (Number "logIndex");
  Ok {| block_number := bn; transaction_hash := hash; log_index := li;
        upstream_received_at_us := received_at_us; removed := log_removed raw |}.

Definition parse_request (raw : RpcLog) (d : bytes) : result DecodeError PriceRequest :=
  req ← topic_address (default EmptyString (topics raw !! 1%nat));
  dyn ← dynamic_word d 2;
  anc ← parse_ancillary dyn;
  Ok {| requester := req; req_condition_id := derive_binary_condition_id req (question_id anc);
        ancillary := anc; proposed_price := word d 3 |}.

Definition parse_signal (min_topics : nat) (raw : RpcLog) (received_at_us : Z) : result DecodeError SignalLog :=
  _ ← require (min_topics <=? length (topics raw))%nat Topic;
  d ← parse_data raw 4;
  chain ← build_chain raw received_at_us;
  request ← parse_request raw d;
  Ok {| chain_log := chain; price_request := request |}.

Definition propose_price_parse (raw : RpcLog) (at_ : Z) : result DecodeError UmaEvent :=
  s ← parse_signal 3 raw at_; Ok (ProposePrice s).
Definition dispute_price_parse (raw : RpcLog) (at_ : Z) : result DecodeError UmaEvent :=
  s ← parse_signal 4 raw at_; Ok (DisputePrice s).

Definition decode_signal_log (raw : RpcLog) (received_at_us : Z) (allowed_emitters : list bytes)
    (require_market_id : bool) : result DecodeError UmaEvent :=
  emitter ← decode_fixed 20 (address raw) "address";
  if negb (match allowed_emitters with [] => true | _ => false end)
     && negb (existsb (fun a => bool_decide (a = emitter)) allowed_emitters)
  then Err Emitter else
  event ← match option_map to_ascii_lower (head (topics raw)) with
          | Some topic =>
              if String.eqb topic TOPIC_PROPOSE_PRICE then propose_price_parse raw received_at_us
              else if String.eqb topic TOPIC_DISPUTE_PRICE then dispute_price_parse raw received_at_us
              else Err Topic
          | None => Err Topic
          end;
  if require_market_id && (event_market_id event =? 0) then Err MissingMarketId else Ok event.

(** ** Lemmas *)

(** A [u64] in a 32-byte word, big endian. *)
Definition word64 (v : Z) : bytes := replicate 24 x00 ++ be_encode 8 v.

Lemma word64_length v : length (word64 v) = 32%nat.
Proof. unfold word64. by rewrite length_app, length_replicate, be_encode_length. Qed.

Lemma word64_zero v : existsb nonzero (take 24 (word64 v)) = false.
Proof. unfold word64. by rewrite take_app_length'. Qed.

Lemma word64_value v : 0 <= v < 2 ^ 64 -> be_decode (drop 24 (word64 v)) = v.
Proof.
  intros Hv. unfold word64. rewrite drop_app_length' by done. apply be_decode_encode_small.
  change (256 ^ Z.of_nat 8) with (2 ^ 64). lia.
Qed.

Lemma word_app pre w post i : length pre = (i * 32)%nat -> length w = 32%nat -> word (pre ++ w ++ post) i = w.
Proof. intros Hp Hw. unfold word. rewrite drop_app_length' by done. by rewrite take_app_length'. Qed.

Lemma get_range_at (pre x post : bytes) a n :
  a = zlen pre -> n = zlen x -> zlen pre + zlen x < 2 ^ 63 -> get_range (pre ++ x ++ post) a (u64_add a n) = Some x.
Proof.
  intros -> -> Hb. pose proof (zlen_nonneg pre). pose proof (zlen_nonneg x).
  rewrite u64_add_small by (unfold u64_max; lia). by apply get_range_app.
Qed.

(** Reading back a dynamic argument: the offset in word [i], the length and the bytes
    at the offset. *)
Lemma dynamic_word_app pre mid body pad i :
  length pre = (i * 32)%nat -> (i < 1000)%nat -> zlen mid < 2 ^ 60 -> zlen body < 2 ^ 60 ->
  dynamic_word (pre ++ word64 (zlen pre + 32 + zlen mid) ++ mid ++ word64 (zlen body) ++ body ++ pad) i = Ok body.
Proof.
  intros Hp Hi Hm Hb. unfold dynamic_word, word_u64.
  pose proof (zlen_nonneg mid). pose proof (zlen_nonneg body).
  assert (Hpre : 0 <= zlen pre < 2 ^ 20) by (unfold zlen; lia).
  rewrite word_app by (done || apply word64_length).
  rewrite word64_zero, word64_value by lia. cbn [mbind result_bind].
  replace (pre ++ word64 (zlen pre + 32 + zlen mid) ++ mid ++ word64 (zlen body) ++ body ++ pad)
    with ((pre ++ word64 (zlen pre + 32 + zlen mid) ++ mid) ++ word64 (zlen body) ++ body ++ pad)
    by (by rewrite <- !app_assoc).
  set (front := pre ++ word64 (zlen pre + 32 + zlen mid) ++ mid).
  assert (Hfront : zlen front = zlen pre + 32 + zlen mid).
  { unfold front. rewrite !zlen_app. unfold zlen at 2. rewrite word64_length. lia. }
  assert (Hw : zlen (word64 (zlen body)) = 32) by (unfold zlen at 1; by rewrite word64_length).
  rewrite <- Hfront. rewrite get_range_at by (lia || done). cbn [ok_or mbind result_bind].
  rewrite word64_zero, word64_value by lia. rewrite u64_add_small by (unfold u64_max; lia).
  replace (front ++ word64 (zlen body) ++ body ++ pad) with ((front ++ word64 (zlen body)) ++ body ++ pad)
    by (by rewrite <- app_assoc).
  rewrite get_range_at; [done|rewrite zlen_app; lia|done|rewrite zlen_app; lia].
Qed.
Definition hex0x (b : bytes) : string := "0x" +:+ hex_encode b.

Lemma decode_hex0x b field : decode_hex (hex0x b) field = Ok b.
Proof. unfold decode_hex, hex0x, strip_0x. rewrite strip_prefix_app. by rewrite hex_decode_encode. Qed.

Lemma decode_fixed_hex0x b field n : length b = n -> decode_fixed n (hex0x b) field = Ok b.
Proof. intros Hl. unfold decode_fixed. rewrite decode_hex0x. cbn. by rewrite decide_True. Qed.

(** An address left-padded to a word. *)
Definition pad_address (a : bytes) : bytes := replicate 12 x00 ++ a.

Lemma topic_address_pad a : length a = 20%nat -> topic_address (hex0x (pad_address a)) = Ok a.
Proof.
  intros Ha. unfold topic_address, pad_address.
  rewrite decode_fixed_hex0x by (by rewrite length_app, length_replicate, Ha). cbn. done.
Qed.
End Decode.

(** ** A concrete codec for the examples *)

Definition sample_hex_encode (b : bytes) : string :=
  foldr (fun x s => String (digit_char (byte_val x / 16)) (String (digit_char (byte_val x mod 16)) s)) EmptyString b.
Fixpoint sample_hex_decode (s : string) : option bytes :=
  match s with
  | EmptyString => Some []
  | String a (String b r) =>
      h ← digit_val 16 a; l ← digit_val 16 b; rest ← sample_hex_decode r; Some (byte_of (h * 16 + l) :: rest)
  | String _ EmptyString => None
  end.
Definition sample_codec : EthCodec.
Proof.
  refine {| hex_encode := sample_hex_encode; hex_decode := sample_hex_decode;
            keccak256 b := be_encode 32 (be_decode b * 7 + zlen b) |}.
  - induction b as [|x b IH]; [done|]. cbn [sample_hex_encode foldr sample_hex_decode].
    change (foldr _ EmptyString b) with (sample_hex_encode b). rewrite IH. clear IH. by destruct x.
  - induction b as [|x b IH]; [done|]. cbn [sample_hex_encode foldr has_char].
    change (foldr _ EmptyString b) with (sample_hex_encode b). rewrite IH. clear IH. by destruct x.
  - intros b. apply be_encode_length.
Defined.
