(* ===== verification/Calldata.v ===== *)
(** * Calldata: oracle calls in a pending transaction ([src/mempool/calldata.rs]) and
    reading an on-chain log back ([parse_onchain] of [src/mempool/feed.rs])

    [decode_input] recognises the four propose/dispute calls, alone or in a multicall;
    [synth_log] forges the log the chain would emit for one, so that the ordinary
    decoder processes it. *)
From S2P Require Import Prelude Model Events.

Definition SEL_PROPOSE : bytes := [xb8; xb4; xf9; x08].
Definition SEL_PROPOSE_FOR : bytes := [x7c; x82; x28; x8f].
Definition SEL_DISPUTE : bytes := [xfb; xa7; xf1; xe3].
Definition SEL_DISPUTE_FOR : bytes := [x76; xc7; x82; x3f].
Definition SEL_MULTICALL : bytes := [xac; x96; x50; xd8].

Inductive CallKind : Set := CallPropose | CallDispute.
#[global] Instance CallKind_eq_dec : EqDecision CallKind.
Proof. solve_decision. Defined.

Record OracleCall := {
  kind : CallKind;
  call_requester : bytes;
  identifier : bytes;
  timestamp : bytes;
  call_ancillary : bytes;
  price : bytes;
  actor : option bytes }.

Record RequestKey := {
  key_requester : bytes;
  key_question_id : bytes;
  key_timestamp : Z }.

#[global] Instance RequestKey_eq_dec : EqDecision RequestKey.
Proof. solve_decision. Defined.
#[global] Program Instance RequestKey_countable : Countable RequestKey :=
  inj_countable' (fun k => (key_requester k, key_question_id k, key_timestamp k))
                 (fun '(r, q, t) => {| key_requester := r; key_question_id := q; key_timestamp := t |}) _.
Next Obligation. by intros []. Qed.

Definition market (k : RequestKey) : bytes * bytes := (key_requester k, key_question_id k).

Definition u64_word (w : bytes) : Z := be_decode (drop 24 w).

(** [b.get(i * 32..(i + 1) * 32)] *)
Definition get_word (b : bytes) (i : nat) : option bytes :=
  get_range b (Z.of_nat i * 32) (Z.of_nat (S i) * 32).

Definition usize_at (b : bytes) (offset : Z) : option Z :=
  w ← get_range b offset (u64_add offset 32);
  if existsb nonzero (take 24 w) then None else Some (be_decode (drop 24 w)).

Definition dynamic_bytes (args : bytes) (head_index : nat) : option bytes :=
  off ← usize_at args (Z.of_nat head_index * 32);
  len ← usize_at args off;
  get_range args (u64_add off 32) (u64_add (u64_add off 32) len).

Definition word_address (w : bytes) : bytes := drop 12 w.

Definition selector (sel : bytes) : option (CallKind * nat) :=
  if decide (sel = SEL_PROPOSE) then Some (CallPropose, 0%nat)
  else if decide (sel = SEL_PROPOSE_FOR) then Some (CallPropose, 1%nat)
  else if decide (sel = SEL_DISPUTE) then Some (CallDispute, 0%nat)
  else if decide (sel = SEL_DISPUTE_FOR) then Some (CallDispute, 1%nat)
  else None.

Definition decode_one (call : bytes) : option OracleCall :=
  sel ← get_range call 0 4;
  args ← get_from call 4;
  '(k, o) ← selector sel;
  act ← (if (o =? 1)%nat then w ← get_word args 0; Some (Some (word_address w)) else Some None);
  req ← get_word args o;
  ident ← get_word args (o + 1);
  ts ← get_word args (o + 2);
  anc ← dynamic_bytes args (o + 3);
  pr ← (if decide (k = CallPropose) then get_word args (o + 4) else Some (replicate 32 x00));
  Some {| kind := k; call_requester := word_address req; identifier := ident; timestamp := ts;
          call_ancillary := anc; price := pr; actor := act |}.

(** The loop over the elements of a multicall: [n] of them are left, the next has
    number [i]. *)
Fixpoint multicall_loop (n i : nat) (args : bytes) (base : Z) : list OracleCall :=
  match n with
  | O => []
  | S n =>
      match usize_at args (u64_add base (32 * Z.of_nat i)) with
      | None => []
      | Some eo =>
          match usize_at args (u64_add base eo) with
          | None => []
          | Some len =>
              let start := u64_add (u64_add base eo) 32 in
              match (c ← get_range args start (u64_add start len); decode_one c) with
              | Some call => [call]
              | None => []
              end ++ multicall_loop n (S i) args base
          end
      end
  end.

Definition decode_input (input : bytes) : list OracleCall :=
  if decide (get_range input 0 4 = Some SEL_MULTICALL) then
    let args := drop 4 input in
    match usize_at args 0 with
    | None => []
    | Some off =>
        match usize_at args off with
        | None => []
        | Some n => multicall_loop (Z.to_nat (Z.min n 256)) 0 args (u64_add off 32)
        end
    end
  else match decode_one input with Some c => [c] | None => [] end.

Definition pad32 (len : nat) : nat := (Nat.div (len + 31) 32 * 32)%nat.

Section Synth.
Context `{EthCodec}.

Definition request_key (c : OracleCall) : RequestKey :=
  {| key_requester := call_requester c; key_question_id := keccak256 (call_ancillary c);
     key_timestamp := u64_word (timestamp c) |}.

Definition topic_addr (a : bytes) : string := hex0x (pad_address a).

Definition synth_data (c : OracleCall) : bytes :=
  let head_words := if decide (kind c = CallPropose) then 6 else 4 in
  identifier c ++ timestamp c ++ word64 (head_words * 32) ++ price c
  ++ (if decide (kind c = CallPropose) then replicate 64 x00 else [])
  ++ word64 (zlen (call_ancillary c)) ++ call_ancillary c
  ++ replicate (pad32 (length (call_ancillary c)) - length (call_ancillary c)) x00.

Definition synth_log (c : OracleCall) (tx_hash : string) (log_index : Z) (to : string) (from : bytes) : RpcLog :=
  let act := default from (actor c) in
  {| address := to;
     topics := (if decide (kind c = CallPropose) then TOPIC_PROPOSE_PRICE else TOPIC_DISPUTE_PRICE)
               :: topic_addr (call_requester c)
               :: (if decide (kind c = CallPropose) then [topic_addr act]
                   else [topic_addr (replicate 20 x00); topic_addr act]);
     data := hex0x (synth_data c);
     log_block_number := "0x0"; block_hash := ""; log_transaction_hash := tx_hash; transaction_index := None;
     log_log_index := "0x" +:+ fmt_hex log_index; log_removed := false |}.

Definition topic_call_kind (topic : string) : option CallKind :=
  if String.eqb topic TOPIC_PROPOSE_PRICE then Some CallPropose
  else if String.eqb topic TOPIC_DISPUTE_PRICE then Some CallDispute else None.

Definition onchain_requester (topic : string) : option bytes :=
  rq ← hex_decode (trim_start_matches "0x" topic);
  rq ← get_from rq 12;
  if decide (length rq = 20%nat) then Some rq else None.

Definition onchain_ancillary (d : bytes) (off : Z) : option bytes :=
  lw ← get_range d (u64_add off 24) (u64_add off 32);
  get_range d (u64_add off 32) (u64_add (u64_add off 32) (be_decode lw)).

(** The timestamp, the ancillary bytes and the price. *)
Definition onchain_data (d : bytes) : option (Z * bytes * bytes) :=
  ts ← get_word d 1;
  w2 ← get_word d 2;
  anc ← onchain_ancillary d (u64_word w2);
  w3 ← get_word d 3;
  Some (u64_word ts, anc, w3).

(** [parse_onchain]: the request and the price of an on-chain log. *)
Definition parse_onchain (log : RpcLog) : option (CallKind * RequestKey * bytes) :=
  topic ← option_map to_ascii_lower (head (topics log));
  k ← topic_call_kind topic;
  t1 ← topics log !! 1%nat;
  rq ← onchain_requester t1;
  d ← hex_decode (trim_start_matches "0x" (data log));
  '(ts, anc, w3) ← onchain_data d;
  Some (k, {| key_requester := rq; key_question_id := keccak256 anc; key_timestamp := ts |}, w3).

(** ** Properties *)

(** The array lengths of the Rust types. *)
Record wf_call (c : OracleCall) : Prop := {
  wf_requester : length (call_requester c) = 20%nat;
  wf_identifier : length (identifier c) = 32%nat;
  wf_timestamp : length (timestamp c) = 32%nat;
  wf_price : length (price c) = 32%nat;
  wf_actor : forall a, actor c = Some a -> length a = 20%nat;
  wf_ancillary : zlen (call_ancillary c) < 2 ^ 32 }.

(** The data of the oracle's event for a call, as the ABI lays it out: identifier, timestamp,
    offset of the ancillary data, price, for a proposal its expiration and currency, and the
    ancillary data. *)
Definition log_data (c : OracleCall) (p extra : bytes) : bytes :=
  identifier c ++ timestamp c ++ word64 ((if decide (kind c = CallPropose) then 6 else 4) * 32) ++ p ++ extra
  ++ word64 (zlen (call_ancillary c)) ++ call_ancillary c
  ++ replicate (pad32 (length (call_ancillary c)) - length (call_ancillary c)) x00.
Definition event_words (c : OracleCall) (p extra : bytes) : Prop :=
  length p = 32%nat /\ length extra = (if decide (kind c = CallPropose) then 64 else 0)%nat.

Lemma synth_is_log_data c : synth_data c = log_data c (price c) (if decide (kind c = CallPropose) then replicate 64 x00 else []).
Proof. done. Qed.
Lemma synth_event_words c : wf_call c -> event_words c (price c) (if decide (kind c = CallPropose) then replicate 64 x00 else []).
Proof. intros Hwf. split; [by apply Hwf|]. by destruct (decide _). Qed.

Lemma log_dynamic c p extra : wf_call c -> event_words c p extra -> dynamic_word (log_data c p extra) 2 = Ok (call_ancillary c).
Proof.
  intros [H1 H2 H3 _ _ H6] [H4 H5]. unfold log_data.
  set (mid := p ++ extra).
  set (padding := replicate (pad32 (length (call_ancillary c)) - length (call_ancillary c)) x00).
  assert (Hpre : zlen (identifier c ++ timestamp c) = 64) by (unfold zlen; rewrite length_app; lia).
  assert (Hmid : (if decide (kind c = CallPropose) then 6 else 4) * 32
                 = zlen (identifier c ++ timestamp c) + 32 + zlen mid).
  { rewrite Hpre. unfold mid, zlen. rewrite length_app, H4, H5. destruct (decide _); cbn; lia. }
  rewrite Hmid.
  match goal with |- dynamic_word ?t _ = _ => replace t with
    ((identifier c ++ timestamp c) ++ word64 (zlen (identifier c ++ timestamp c) + 32 + zlen mid)
     ++ mid ++ word64 (zlen (call_ancillary c)) ++ call_ancillary c ++ padding) end.
  2:{ unfold mid. rewrite <- !app_assoc. reflexivity. }
  apply dynamic_word_app; [rewrite length_app; lia|lia| |lia].
  unfold mid, zlen. rewrite length_app, H4, H5. destruct (decide (kind c = CallPropose)); cbn; lia.
Qed.

Lemma log_words c p extra : wf_call c -> event_words c p extra ->
  word (log_data c p extra) 2 = word64 ((if decide (kind c = CallPropose) then 6 else 4) * 32)
  /\ word (log_data c p extra) 3 = p /\ (128 <= length (log_data c p extra))%nat
  /\ get_word (log_data c p extra) 1 = Some (timestamp c)
  /\ get_word (log_data c p extra) 2 = Some (word64 ((if decide (kind c = CallPropose) then 6 else 4) * 32))
  /\ get_word (log_data c p extra) 3 = Some p.
Proof.
  intros [H1 H2 H3 _ _ _] [H4 _]. unfold log_data.
  set (w2 := word64 _). assert (Hw2 : length w2 = 32%nat) by apply word64_length.
  set (rest := extra ++ _).
  assert (Hget : forall i pre w post, length pre = (i * 32)%nat -> length w = 32%nat ->
                 get_word (pre ++ w ++ post) i = Some w).
  { intros i pre w post Hp Hw. unfold get_word. apply get_range_app; unfold zlen; lia. }
  split_and!.
  - rewrite app_assoc. apply word_app; [rewrite length_app; lia|done].
  - replace (identifier c ++ timestamp c ++ w2 ++ p ++ rest)
      with ((identifier c ++ timestamp c ++ w2) ++ p ++ rest) by (by rewrite <- !app_assoc).
    apply word_app; [rewrite !length_app; lia|done].
  - rewrite !length_app. lia.
  - apply (Hget 1%nat); lia.
  - rewrite app_assoc. apply (Hget 2%nat); [rewrite length_app; lia|done].
  - replace (identifier c ++ timestamp c ++ w2 ++ p ++ rest)
      with ((identifier c ++ timestamp c ++ w2) ++ p ++ rest) by (by rewrite <- !app_assoc).
    apply (Hget 3%nat); [rewrite !length_app; lia|done].
Qed.

Lemma synth_dynamic c : wf_call c -> dynamic_word (synth_data c) 2 = Ok (call_ancillary c).
Proof. intros Hwf. rewrite synth_is_log_data. by apply log_dynamic, synth_event_words. Qed.
Lemma synth_words c : wf_call c ->
  word (synth_data c) 2 = word64 ((if decide (kind c = CallPropose) then 6 else 4) * 32)
  /\ word (synth_data c) 3 = price c /\ (128 <= length (synth_data c))%nat
  /\ get_word (synth_data c) 1 = Some (timestamp c)
  /\ get_word (synth_data c) 2 = Some (word64 ((if decide (kind c = CallPropose) then 6 else 4) * 32))
  /\ get_word (synth_data c) 3 = Some (price c).
Proof. intros Hwf. rewrite synth_is_log_data. by apply log_words, synth_event_words. Qed.

Lemma parse_hex_u64_fmt n field : 0 <= n < 2 ^ 64 -> parse_hex_u64 ("0x" +:+ fmt_hex n) field = Ok n.
Proof.
  intros Hn. unfold parse_hex_u64, strip_0x. rewrite strip_prefix_app. unfold fmt_hex.
  rewrite from_str_radix_fmt; [done|lia|unfold u64_max; lia].
Qed.

(** The event of a call with a price and a place on the chain. *)
Definition event_of (c : OracleCall) (p : bytes) (chain : ChainLog) : UmaEvent :=
  let anc := {| question_id := keccak256 (call_ancillary c);
                anc_market_id := field_number (call_ancillary c) (bytes_of_str "market_id") |} in
  let s := {| chain_log := chain;
              price_request := {| requester := call_requester c;
                                  req_condition_id := derive_binary_condition_id (call_requester c) (question_id anc);
                                  ancillary := anc; proposed_price := p |} |} in
  match kind c with CallPropose => ProposePrice s | CallDispute => DisputePrice s end.
(** The event pushed for a pending call: in no block yet, its number for the log index. *)
Definition call_event (c : OracleCall) (hash : bytes) (log_index at_ : Z) : UmaEvent :=
  event_of c (price c) {| block_number := 0; transaction_hash := hash; log_index := log_index; upstream_received_at_us := at_; removed := false |}.

(** The log the oracle emits when the call's transaction is mined: what is only known then. *)
Record Mined := {
  mined_price : bytes;
  mined_extra : bytes;
  mined_parties : list string;
  mined_emitter : string;
  mined_block : Z;
  mined_index : Z }.
Definition mined_log (c : OracleCall) (tx_hash : string) (m : Mined) : RpcLog :=
  {| address := mined_emitter m;
     topics := (if decide (kind c = CallPropose) then TOPIC_PROPOSE_PRICE else TOPIC_DISPUTE_PRICE) :: topic_addr (call_requester c) :: mined_parties m;
     data := hex0x (log_data c (mined_price m) (mined_extra m));
     log_block_number := "0x" +:+ fmt_hex (mined_block m); block_hash := ""; log_transaction_hash := tx_hash; transaction_index := None;
     log_log_index := "0x" +:+ fmt_hex (mined_index m); log_removed := false |}.
(** A proposal is mined with the price proposed; a dispute's call does not name the price of
    the proposal it is about. *)
Record mined_ok (c : OracleCall) (m : Mined) : Prop := {
  mk_price : event_words c (mined_price m) (mined_extra m);
  mk_proposed : kind c = CallPropose -> mined_price m = price c;
  mk_parties : length (mined_parties m) = (if decide (kind c = CallPropose) then 1 else 2)%nat;
  mk_emitter : exists b, decode_fixed 20 (mined_emitter m) "address" = Ok b;
  mk_block : 0 <= mined_block m < 2 ^ 64;
  mk_index : 0 <= mined_index m < 2 ^ 32 }.

(** A log of this shape decodes to its call's event. *)
Lemma log_decodes c p extra log parties hash block index at_ :
  wf_call c -> event_words c p extra -> utf8_valid (call_ancillary c) = true -> 0 <= block < 2 ^ 64 -> 0 <= index < 2 ^ 32 ->
  (exists b, decode_fixed 20 (address log) "address" = Ok b) ->
  topics log = (if decide (kind c = CallPropose) then TOPIC_PROPOSE_PRICE else TOPIC_DISPUTE_PRICE) :: topic_addr (call_requester c) :: parties ->
  length parties = (if decide (kind c = CallPropose) then 1 else 2)%nat ->
  data log = hex0x (log_data c p extra) ->
  parse_hex_u64 (log_block_number log) "blockNumber" = Ok block -> decode_fixed 32 (log_transaction_hash log) "transactionHash" = Ok hash ->
  log_log_index log = "0x" +:+ fmt_hex index ->
  decode_signal_log log at_ [] false
  = Ok (event_of c p {| block_number := block; transaction_hash := hash; log_index := index; upstream_received_at_us := at_; removed := log_removed log |}).
Proof.
  intros Hwf Hp Hutf Hb Hidx [b Hto] Ht Hparties Hdata Hblock Hhash Hindex. destruct (log_words c p extra Hwf Hp) as (_ & Hw3 & Hlen & _).
  set (chain := {| block_number := block; transaction_hash := hash |}).
  unfold decode_signal_log. rewrite Hto, Ht. cbn [mbind result_bind negb andb head option_map].
  assert (Hd : parse_data log 4 = Ok (log_data c p extra)).
  { unfold parse_data. rewrite Hdata, decode_hex0x. cbn [mbind result_bind].
    by replace (4 * 32 <=? length (log_data c p extra))%nat with true by (symmetry; apply Nat.leb_le; lia). }
  assert (Hc : build_chain log at_ = Ok chain).
  { unfold build_chain. rewrite Hblock, Hhash, Hindex. cbn [mbind result_bind]. rewrite parse_hex_u64_fmt by lia. cbn [mbind result_bind].
    by replace (index <? 2 ^ 32) with true by lia. }
  assert (Hr : parse_request log (log_data c p extra) = Ok (event_request (event_of c p chain))).
  { unfold parse_request. rewrite Ht. change (default EmptyString ((_ :: ?t :: _) !! 1%nat)) with t.
    cbn [lookup list_lookup default from_option]. unfold Datatypes.id, topic_addr. rewrite topic_address_pad by apply Hwf. cbn [mbind result_bind]. rewrite log_dynamic by done.
    cbn [mbind result_bind]. unfold parse_ancillary. rewrite Hutf, Hw3. cbn [mbind result_bind].
    unfold event_of. by destruct (kind c). }
  assert (Hs : forall n, (n <= length (topics log))%nat ->
    parse_signal n log at_ = Ok {| chain_log := chain; price_request := event_request (event_of c p chain) |}).
  { intros n Hn. unfold parse_signal. replace (n <=? length (topics log))%nat with true by (symmetry; by apply Nat.leb_le).
    cbn [require mbind result_bind]. rewrite Hd. cbn [mbind result_bind]. rewrite Hc. cbn [mbind result_bind].
    by rewrite Hr. }
  assert (Hn : length (topics log) = (if decide (kind c = CallPropose) then 3 else 4)%nat).
  { rewrite Ht. cbn [length]. rewrite Hparties. by destruct (decide _). }
  unfold propose_price_parse, dispute_price_parse. destruct (decide (kind c = CallPropose)) as [Ek|Ek].
  - change (String.eqb (to_ascii_lower TOPIC_PROPOSE_PRICE) TOPIC_PROPOSE_PRICE) with true. cbn match.
    rewrite Hs by lia. cbn. unfold event_of. by rewrite Ek.
  - change (String.eqb (to_ascii_lower TOPIC_DISPUTE_PRICE) TOPIC_PROPOSE_PRICE) with false.
    change (String.eqb (to_ascii_lower TOPIC_DISPUTE_PRICE) TOPIC_DISPUTE_PRICE) with true. cbn match.
    rewrite Hs by lia. cbn. unfold event_of. by destruct (kind c).
Qed.

Lemma decoded_dispute_price call c : decode_one call = Some c -> kind c = CallDispute -> price c = replicate 32 x00.
Proof.
  unfold decode_one. intros (sel & _ & (args & _ & ([k o] & _ & (act & _ & (req & _ & (idn & _ & (ts & _ & (anc & _ & Hd)%bind_Some)%bind_Some)%bind_Some)%bind_Some)%bind_Some)%bind_Some)%bind_Some)%bind_Some.
  apply bind_Some in Hd as (pr & Hpr & [= <-]). cbn [kind price]. intros ->. rewrite decide_False in Hpr by done. by injection Hpr.
Qed.

(** C18: a pending call is decoded to the event its transaction will emit, but for what is
    only known then.  The log forged from a call and the log the oracle emits when the
    transaction is mined both decode, to events of the same kind, requester, question,
    condition id, market id and transaction hash; they differ in the block number, which is
    0 for the forged one, in the log index, which is the call's number there, in the time
    of arrival, and for a dispute in the price, which is that of the disputed proposal on
    the chain and the call's (0 for a decoded call) in the forged one.  A proposal's price is
    the same. *)
Theorem synth_log_decodes c tx_hash hash log_index to from at_ m at_chain :
  wf_call c -> utf8_valid (call_ancillary c) = true -> 0 <= log_index < 2 ^ 32 ->
  (exists b, decode_fixed 20 to "address" = Ok b) -> decode_fixed 32 tx_hash "transactionHash" = Ok hash -> mined_ok c m ->
  decode_signal_log (synth_log c tx_hash log_index to from) at_ [] false
  = Ok (event_of c (price c) {| block_number := 0; transaction_hash := hash; log_index := log_index; upstream_received_at_us := at_; removed := false |})
  /\ decode_signal_log (mined_log c tx_hash m) at_chain [] false
     = Ok (event_of c (mined_price m) {| block_number := mined_block m; transaction_hash := hash; log_index := mined_index m;
                                         upstream_received_at_us := at_chain; removed := false |})
  /\ (kind c = CallPropose -> mined_price m = price c)
  /\ (forall call, decode_one call = Some c -> kind c = CallDispute -> price c = replicate 32 x00).
Proof.
  intros Hwf Hutf Hidx Hto Hhash [M1 M2 M3 M4 M5 M6]. split; [|split; [|split; [done|intros call; apply decoded_dispute_price]]].
  - eapply (log_decodes c (price c) _ (synth_log c tx_hash log_index to from)); [done|by apply synth_event_words|done|lia|done|done|reflexivity| |reflexivity|reflexivity|done|done].
    by destruct (decide _).
  - eapply (log_decodes c (mined_price m) _ (mined_log c tx_hash m)); [done|exact M1|done|done|done|done|reflexivity|done|reflexivity| |done|done].
    by apply parse_hex_u64_fmt.
Qed.
Lemma strip_0x_char s r : strip_prefix "0x" s = Some r -> has_char "x" s = true.
Proof. intros ->%strip_prefix_Some. done. Qed.

Lemma trim_hex0x b : trim_start_matches "0x" (hex0x b) = hex_encode b.
Proof.
  unfold hex0x, trim_start_matches. change (String.length ("0x" +:+ hex_encode b)) with (S (S (String.length (hex_encode b)))).
  cbn [trim_start_matches_fuel]. rewrite strip_prefix_app.
  destruct (strip_prefix "0x" (hex_encode b)) as [r|] eqn:E; [|done].
  apply strip_0x_char in E. by rewrite hex_encode_no_x in E.
Qed.

(** What the decoder's reading of the dynamic argument says about the slices. *)
Lemma dynamic_word_inv d off anc :
  word d 2 = word64 off -> 0 <= off < 2 ^ 32 -> dynamic_word d 2 = Ok anc ->
  exists lw, get_range d off (u64_add off 32) = Some lw
    /\ get_range d (u64_add off 32) (u64_add (u64_add off 32) (be_decode (drop 24 lw))) = Some anc.
Proof.
  intros Hw Hoff. unfold dynamic_word, word_u64. rewrite Hw, word64_zero, word64_value by lia.
  cbn [mbind result_bind]. destruct (get_range d off (u64_add off 32)) as [lw|]; [|done].
  cbn [ok_or mbind result_bind]. destruct (existsb nonzero (take 24 lw)); [done|].
  destruct (get_range d _ _) as [a|] eqn:E; [|done]. intros Ha. injection Ha as ->. by exists lw.
Qed.

(** The topic tells the kind. *)
Lemma topic_kind k :
  topic_call_kind (to_ascii_lower (if decide (k = CallPropose) then TOPIC_PROPOSE_PRICE else TOPIC_DISPUTE_PRICE))
  = Some k.
Proof. destruct k; vm_compute; reflexivity. Qed.

Lemma get_range_tail (d lw : bytes) off : 0 <= off < 2 ^ 32 ->
  get_range d off (u64_add off 32) = Some lw -> get_range d (u64_add off 24) (u64_add off 32) = Some (drop 24 lw).
Proof.
  intros Hoff. rewrite !u64_add_small by (unfold u64_max; lia). unfold get_range.
  destruct ((off <=? off + 32) && (off + 32 <=? zlen d)) eqn:Er; [|done]. intros Elw. injection Elw as <-.
  replace ((off + 24 <=? off + 32) && (off + 32 <=? zlen d)) with true by lia.
  f_equal. rewrite skipn_firstn_comm, drop_drop. f_equal; [lia|f_equal; lia].
Qed.

Lemma onchain_requester_topic a : length a = 20%nat -> onchain_requester (topic_addr a) = Some a.
Proof.
  intros Ha. unfold onchain_requester, topic_addr. rewrite trim_hex0x, hex_decode_encode. cbn [mbind option_bind].
  unfold get_from, pad_address. rewrite zlen_app. pose proof (zlen_nonneg a).
  change (zlen (replicate 12 x00)) with 12. replace (12 <=? 12 + zlen a) with true by lia.
  cbn [mbind option_bind]. rewrite drop_app_length' by done. by rewrite decide_True.
Qed.

Lemma onchain_data_read d off ts anc w3 :
  0 <= off < 2 ^ 32 -> word d 2 = word64 off -> dynamic_word d 2 = Ok anc ->
  get_word d 1 = Some ts -> get_word d 2 = Some (word64 off) -> get_word d 3 = Some w3 ->
  onchain_data d = Some (u64_word ts, anc, w3).
Proof.
  intros Hoff Hword Hdyn Hw1 Hw2 Hw3.
  destruct (dynamic_word_inv _ _ _ Hword Hoff Hdyn) as (lw & Elw & Eanc).
  apply get_range_tail in Elw; [|done].
  assert (Hanc : onchain_ancillary d off = Some anc) by (unfold onchain_ancillary; by rewrite Elw).
  assert (Hval : u64_word (word64 off) = off) by (apply word64_value; lia).
  unfold onchain_data. rewrite Hw1, option_bind_Some, Hw2, option_bind_Some, Hval, Hanc, option_bind_Some, Hw3.
  reflexivity.
Qed.

Lemma onchain_data_synth c : wf_call c ->
  onchain_data (synth_data c) = Some (u64_word (timestamp c), call_ancillary c, price c).
Proof.
  intros Hwf. destruct (synth_words c Hwf) as (Hword & _ & Hlen & Hw1 & Hw2 & Hw3).
  pose proof (synth_dynamic c Hwf) as Hdyn.
  assert (Hoff : 0 <= (if decide (kind c = CallPropose) then 6 else 4) * 32 < 2 ^ 32) by (destruct (decide _); lia).
  exact (onchain_data_read _ _ _ _ _ Hoff Hword Hdyn Hw1 Hw2 Hw3).
Qed.

Lemma parse_onchain_of_synth c tx_hash log_index to from :
  wf_call c ->
  parse_onchain (synth_log c tx_hash log_index to from) = Some (kind c, request_key c, price c).
Proof.
  intros Hwf. unfold parse_onchain.
  change (option_map to_ascii_lower (head (topics (synth_log c tx_hash log_index to from)))) with
    (Some (to_ascii_lower (if decide (kind c = CallPropose) then TOPIC_PROPOSE_PRICE else TOPIC_DISPUTE_PRICE))).
  change (topics (synth_log c tx_hash log_index to from) !! 1%nat) with (Some (topic_addr (call_requester c))).
  change (data (synth_log c tx_hash log_index to from)) with (hex0x (synth_data c)).
  cbn [mbind option_bind]. rewrite topic_kind. cbn [mbind option_bind].
  rewrite onchain_requester_topic by apply Hwf. cbn [mbind option_bind].
  rewrite trim_hex0x, hex_decode_encode. cbn [mbind option_bind]. by rewrite onchain_data_synth.
Qed.

(** The confirmation feed recognises the call.  Reading the synthesised log the way
    confirmed logs are read gives back the call's kind, its request key and its price,
    so the gate's two inputs agree on what a request is. *)
Theorem parse_onchain_synth c tx_hash log_index to from :
  wf_call c ->
  parse_onchain (synth_log c tx_hash log_index to from) = Some (kind c, request_key c, price c).
Proof. apply parse_onchain_of_synth. Qed.
End Synth.

(** *** What is decoded is well formed *)

Lemma get_range_le {A} (l s : list A) a e : get_range l a e = Some s -> zlen s <= zlen l.
Proof.
  unfold get_range. destruct (_ && _); [|discriminate]. intros [= <-].
  unfold zlen. rewrite length_take, length_drop. lia.
Qed.

Lemma get_word_length b i w : get_word b i = Some w -> length w = 32%nat.
Proof. intros Hw. apply get_range_length in Hw; unfold zlen in *; lia. Qed.

Lemma word_address_length b i w : get_word b i = Some w -> length (word_address w) = 20%nat.
Proof. intros Hw. apply get_word_length in Hw. unfold word_address. rewrite length_drop. lia. Qed.

Lemma decode_one_wf call c : decode_one call = Some c -> zlen call < 2 ^ 32 -> wf_call c.
Proof.
  unfold decode_one. intros Hc Hl.
  apply bind_Some in Hc as (sel & _ & Hc). apply bind_Some in Hc as (args & Ha & Hc).
  apply bind_Some in Hc as ([k o] & _ & Hc). apply bind_Some in Hc as (act & Hact & Hc).
  apply bind_Some in Hc as (req & Hreq & Hc). apply bind_Some in Hc as (ident & Hid & Hc).
  apply bind_Some in Hc as (ts & Hts & Hc). apply bind_Some in Hc as (anc & Hanc & Hc).
  apply bind_Some in Hc as (pr & Hpr & Hc). injection Hc as <-.
  assert (Hargs : zlen args <= zlen call).
  { unfold get_from in Ha. destruct (_ <=? _); [|done]. injection Ha as <-. unfold zlen. rewrite length_drop. lia. }
  split; cbn.
  - by eapply word_address_length.
  - by eapply get_word_length.
  - by eapply get_word_length.
  - destruct (decide _); [by eapply get_word_length|]. by injection Hpr as <-.
  - intros a ->. destruct (o =? 1)%nat; [|done]. apply bind_Some in Hact as (w & Hw & [= <-]).
    by eapply word_address_length.
  - unfold dynamic_bytes in Hanc. apply bind_Some in Hanc as (off & _ & Hanc). apply bind_Some in Hanc as (len & _ & Hanc).
    apply get_range_le in Hanc. lia.
Qed.

Lemma multicall_loop_wf n args base : forall i, zlen args < 2 ^ 32 -> Forall wf_call (multicall_loop n i args base).
Proof.
  induction n as [|n IH]; intros i Hl; cbn [multicall_loop]; [constructor|].
  destruct (usize_at args _) as [eo|]; [|constructor]. destruct (usize_at args _) as [len|]; [|constructor].
  apply Forall_app. split; [|by apply IH].
  destruct (get_range args _ _ ≫= decode_one) as [c|] eqn:E; [|constructor].
  apply bind_Some in E as (s & Hs & Hd). constructor; [|constructor]. apply get_range_le in Hs.
  eapply decode_one_wf; [done|lia].
Qed.

Lemma decode_input_wf input : zlen input < 2 ^ 32 -> Forall wf_call (decode_input input).
Proof.
  intros Hl. unfold decode_input. destruct (decide _).
  - cbv zeta. assert (zlen (drop 4 input) < 2 ^ 32) by (unfold zlen in *; rewrite length_drop; lia).
    destruct (usize_at _ 0); [|constructor]. destruct (usize_at _ _); [|constructor]. by apply multicall_loop_wf.
  - destruct (decode_one input) eqn:E; constructor; [by eapply decode_one_wf|constructor].
Qed.

(** ** The ABI encoding of the calls *)

(** Solidity's encoding: static arguments in the head, [bytes] behind it. *)
Definition abi_head (c : OracleCall) : list bytes :=
  match actor c with Some a => [pad_address a] | None => [] end
  ++ [pad_address (call_requester c); identifier c; timestamp c].
Definition abi_price (c : OracleCall) : bytes := if decide (kind c = CallPropose) then price c else [].
Definition abi_bytes (b : bytes) : bytes :=
  word64 (zlen b) ++ b ++ replicate (pad32 (length b) - length b) x00.
Definition abi_args (c : OracleCall) : bytes :=
  let front := concat (abi_head c) in
  front ++ word64 (zlen front + 32 + zlen (abi_price c)) ++ abi_price c ++ abi_bytes (call_ancillary c).
Definition abi_selector (c : OracleCall) : bytes :=
  match kind c, actor c with
  | CallPropose, None => SEL_PROPOSE
  | CallPropose, Some _ => SEL_PROPOSE_FOR
  | CallDispute, None => SEL_DISPUTE
  | CallDispute, Some _ => SEL_DISPUTE_FOR
  end.
Definition abi_call (c : OracleCall) : bytes := abi_selector c ++ abi_args c.

Lemma get_word_at pre w post i :
  length pre = (i * 32)%nat -> length w = 32%nat -> get_word (pre ++ w ++ post) i = Some w.
Proof. intros Hp Hw. unfold get_word. apply get_range_app; unfold zlen; lia. Qed.

Lemma usize_at_app pre v post offset :
  offset = zlen pre -> zlen pre < 2 ^ 62 -> 0 <= v < 2 ^ 64 -> usize_at (pre ++ word64 v ++ post) offset = Some v.
Proof.
  intros -> Hp Hv. unfold usize_at.
  assert (Hw : zlen (word64 v) = 32) by (unfold zlen; by rewrite word64_length).
  rewrite get_range_at by (rewrite ?Hw; lia || done). cbn [mbind option_bind].
  by rewrite word64_zero, word64_value.
Qed.

Lemma dynamic_bytes_app pre mid body pad i :
  length pre = (i * 32)%nat -> (i < 1000)%nat -> zlen mid < 2 ^ 60 -> zlen body < 2 ^ 60 ->
  dynamic_bytes (pre ++ word64 (zlen pre + 32 + zlen mid) ++ mid ++ word64 (zlen body) ++ body ++ pad) i = Some body.
Proof.
  intros Hp Hi Hm Hb. unfold dynamic_bytes. pose proof (zlen_nonneg mid). pose proof (zlen_nonneg body).
  assert (Hpre : zlen pre = Z.of_nat i * 32) by (unfold zlen; lia).
  rewrite usize_at_app by lia. cbn [mbind option_bind].
  set (front := pre ++ word64 (zlen pre + 32 + zlen mid) ++ mid).
  replace (pre ++ word64 (zlen pre + 32 + zlen mid) ++ mid ++ word64 (zlen body) ++ body ++ pad)
    with (front ++ word64 (zlen body) ++ body ++ pad) by (unfold front; by rewrite <- !app_assoc).
  assert (Hfront : zlen front = zlen pre + 32 + zlen mid).
  { unfold front. rewrite !zlen_app. unfold zlen at 2. rewrite word64_length. lia. }
  assert (Hw : zlen (word64 (zlen body)) = 32) by (unfold zlen at 1; by rewrite word64_length).
  rewrite <- Hfront, usize_at_app by lia. cbn [mbind option_bind]. rewrite u64_add_small by (unfold u64_max; lia).
  rewrite app_assoc. apply get_range_at; [rewrite zlen_app; lia|done|rewrite zlen_app; lia].
Qed.

Definition encodable (c : OracleCall) : Prop :=
  wf_call c /\ (kind c = CallDispute -> price c = replicate 32 x00).

Lemma get_word_concat ws : forall tl i w,
  Forall (fun w => length w = 32%nat) ws -> ws !! i = Some w -> get_word (concat ws ++ tl) i = Some w.
Proof.
  intros tl i w Hf Hi. apply list_elem_of_split_length in Hi as (l1 & l2 & -> & ->).
  rewrite Forall_app, Forall_cons in Hf. destruct Hf as (Hf1 & Hw & _).
  rewrite concat_app. cbn [concat]. rewrite <- !app_assoc. apply get_word_at; [|done].
  clear Hw. induction Hf1 as [|x l Hx _ IH]; [done|]. cbn [concat length]. rewrite length_app, Hx, IH. lia.
Qed.

Lemma concat_words_length ws : Forall (fun w : bytes => length w = 32%nat) ws -> length (concat ws) = (length ws * 32)%nat.
Proof. induction 1 as [|x l Hx _ IH]; [done|]. cbn [concat length]. rewrite length_app, Hx, IH. lia. Qed.

(** The number of arguments before the requester. *)
Definition actor_words (c : OracleCall) : nat := match actor c with Some _ => 1 | None => 0 end.

Lemma abi_selector_kind c :
  length (abi_selector c) = 4%nat /\ selector (abi_selector c) = Some (kind c, actor_words c).
Proof. unfold abi_selector, actor_words. by destruct (kind c), (actor c). Qed.

Lemma abi_head_words c : wf_call c -> Forall (fun w => length w = 32%nat) (abi_head c)
  /\ length (abi_head c) = (actor_words c + 3)%nat.
Proof.
  intros [H1 H2 H3 H4 H5 _]. unfold abi_head, actor_words, pad_address.
  destruct (actor c) as [a|]; cbn [app]; (split; [|done]);
    repeat (constructor; [try done; rewrite length_app, length_replicate; rewrite ?H1, ?(H5 _ eq_refl); done|]); constructor.
Qed.

Lemma decode_one_abi c : encodable c -> decode_one (abi_call c) = Some c.
Proof.
  intros [Hwf Hp]. destruct (abi_selector_kind c) as [Hsel Hs]. destruct (abi_head_words c Hwf) as [Hw Hlen].
  destruct Hwf as [H1 H2 H3 H4 H5 H6].
  unfold decode_one, abi_call. rewrite <- (app_nil_l (abi_selector c ++ abi_args c)).
  rewrite get_range_app by (unfold zlen; cbn; lia). cbn [mbind option_bind app].
  unfold get_from. rewrite zlen_app. pose proof (zlen_nonneg (abi_args c)).
  replace (4 <=? zlen (abi_selector c) + zlen (abi_args c)) with true by (unfold zlen at 1; lia).
  cbn [mbind option_bind]. rewrite drop_app_length' by lia. rewrite Hs. cbn [mbind option_bind].
  set (front := concat (abi_head c)).
  assert (Hfront : length front = ((actor_words c + 3) * 32)%nat) by (unfold front; by rewrite concat_words_length, Hlen).
  set (tl := word64 (zlen front + 32 + zlen (abi_price c)) ++ abi_price c ++ abi_bytes (call_ancillary c)).
  change (abi_args c) with (front ++ tl).
  assert (Hget : forall i w, abi_head c !! i = Some w -> get_word (front ++ tl) i = Some w)
    by (intros i w; by apply get_word_concat).
  assert (Hact : (if (actor_words c =? 1)%nat then w ← get_word (front ++ tl) 0; Some (Some (word_address w))
                  else Some None) = Some (actor c)).
  { specialize (Hget 0%nat). unfold actor_words, abi_head in *. destruct (actor c) as [a|]; [|done].
    by rewrite (Hget _ eq_refl). }
  rewrite Hact. cbn [mbind option_bind].
  rewrite (Hget (actor_words c) (pad_address (call_requester c))) by (unfold actor_words, abi_head; by destruct (actor c)).
  rewrite (Hget (actor_words c + 1)%nat (identifier c)) by (unfold actor_words, abi_head; by destruct (actor c)).
  rewrite (Hget (actor_words c + 2)%nat (timestamp c)) by (unfold actor_words, abi_head; by destruct (actor c)).
  cbn [mbind option_bind].
  assert (Hpr : zlen (abi_price c) < 2 ^ 60)
    by (unfold abi_price; destruct (decide _); unfold zlen; rewrite ?H4; cbn; lia).
  assert (Hdyn : dynamic_bytes (front ++ tl) (actor_words c + 3) = Some (call_ancillary c)).
  { unfold tl, abi_bytes. apply dynamic_bytes_app; [done| |done|lia]. unfold actor_words. destruct (actor c); lia. }
  rewrite Hdyn. cbn [mbind option_bind].
  assert (Epr : (if decide (kind c = CallPropose) then get_word (front ++ tl) (actor_words c + 4)
                 else Some (replicate 32 x00)) = Some (price c)).
  { unfold tl, abi_price. destruct (decide (kind c = CallPropose)) as [Ek|Ek].
    - rewrite app_assoc. apply get_word_at; [rewrite length_app, word64_length; lia|done].
    - rewrite Hp; [done|by destruct (kind c)]. }
  rewrite Epr. cbn [mbind option_bind].
  change (word_address (pad_address (call_requester c))) with (call_requester c). by destruct c.
Qed.

(** *** Multicall *)

Fixpoint abi_offsets (start : Z) (es : list bytes) : list Z :=
  match es with [] => [] | e :: es => start :: abi_offsets (start + zlen (abi_bytes e)) es end.

Definition abi_multicall (cs : list OracleCall) : bytes :=
  let es := map abi_call cs in
  SEL_MULTICALL ++ word64 32 ++ word64 (zlen es)
  ++ concat (map word64 (abi_offsets (32 * zlen es) es)) ++ concat (map abi_bytes es).

Lemma abi_offsets_length es : forall start, length (concat (map word64 (abi_offsets start es))) = (length es * 32)%nat.
Proof. induction es as [|e es IH]; intros start; [done|]. cbn [abi_offsets map concat length]. by rewrite length_app, word64_length, IH. Qed.

Lemma multicall_loop_encoded es : forall i P M start tail_ args,
  args = P ++ concat (map word64 (abi_offsets start es)) ++ M ++ concat (map abi_bytes es) ++ tail_ ->
  zlen P = 64 + 32 * Z.of_nat i -> 64 + start = zlen P + 32 * zlen es + zlen M -> zlen args < 2 ^ 60 ->
  multicall_loop (length es) i args 64 = omap decode_one es.
Proof.
  induction es as [|e es IH]; intros i P M start tl args Hargs HP Hstart Hb; [done|].
  cbn [length multicall_loop].
  pose proof (zlen_nonneg P). pose proof (zlen_nonneg M). pose proof (zlen_nonneg es). pose proof (zlen_nonneg e).
  cbn [abi_offsets map concat] in Hargs. rewrite zlen_cons in Hstart.
  set (offs := concat (map word64 (abi_offsets (start + zlen (abi_bytes e)) es))) in *.
  set (rest := concat (map abi_bytes es) ++ tl) in *.
  assert (Hoffs : zlen offs = 32 * zlen es) by (unfold zlen, offs; rewrite abi_offsets_length; lia).
  assert (Hw : forall v, zlen (word64 v) = 32) by (intros; unfold zlen; by rewrite word64_length).
  assert (Hargs1 : args = P ++ word64 start ++ offs ++ M ++ abi_bytes e ++ rest)
    by (rewrite Hargs; unfold rest; by rewrite <- !app_assoc).
  set (padding := replicate (pad32 (length e) - length e) x00).
  assert (Hargs2 : args = (P ++ word64 start ++ offs ++ M) ++ word64 (zlen e) ++ e ++ padding ++ rest)
    by (rewrite Hargs1; unfold abi_bytes, padding; by rewrite <- !app_assoc).
  assert (Hlen : zlen (P ++ word64 start ++ offs ++ M) = 64 + start) by (rewrite !zlen_app, Hw; lia).
  assert (Htot : 64 + start + 32 + zlen e <= zlen args).
  { rewrite Hargs2, !(zlen_app (_ ++ _)), Hlen, !zlen_app, Hw. pose proof (zlen_nonneg padding).
    pose proof (zlen_nonneg rest). lia. }
  rewrite (u64_add_small 64) by (unfold u64_max; lia).
  rewrite Hargs1 at 1. rewrite usize_at_app by lia.
  rewrite !(u64_add_small 64) by (unfold u64_max; lia).
  rewrite Hargs2 at 1. rewrite usize_at_app by (rewrite ?Hlen; lia).
  rewrite (u64_add_small (64 + start)), u64_add_small by (unfold u64_max; lia).
  assert (Hr : get_range args (64 + start + 32) (64 + start + 32 + zlen e) = Some e).
  { rewrite Hargs2, app_assoc. apply get_range_app; rewrite zlen_app, Hlen, Hw; lia. }
  rewrite Hr, option_bind_Some.
  rewrite (IH (S i) (P ++ word64 start) (M ++ abi_bytes e) (start + zlen (abi_bytes e)) tl args).
  - cbn. by destruct (decode_one e).
  - rewrite Hargs1. unfold offs, rest. by rewrite <- !app_assoc.
  - rewrite zlen_app, Hw. lia.
  - rewrite !zlen_app, Hw. lia.
  - done.
Qed.

Lemma pad32_bound n : (pad32 n <= n + 31)%nat.
Proof. unfold pad32. pose proof (Nat.div_mod_eq (n + 31) 32). pose proof (Nat.mod_upper_bound (n + 31) 32). lia. Qed.

Lemma zlen_word64 v : zlen (word64 v) = 32.
Proof. unfold zlen. by rewrite word64_length. Qed.

Lemma zlen_abi_bytes e : zlen (abi_bytes e) <= 32 + 2 * zlen e + 31.
Proof.
  unfold abi_bytes. rewrite !zlen_app, zlen_word64. unfold zlen. rewrite length_replicate.
  pose proof (pad32_bound (length e)). lia.
Qed.

Lemma abi_call_size c : wf_call c -> zlen (abi_bytes (abi_call c)) < 2 ^ 35.
Proof.
  intros Hwf. destruct (abi_head_words c Hwf) as [Hw Hlen]. destruct (abi_selector_kind c) as [Hs _].
  destruct Hwf as [_ _ _ H4 _ H6].
  assert (Hp : zlen (abi_price c) <= 32) by (unfold abi_price, zlen; destruct (decide _); rewrite ?H4; cbn; lia).
  assert (Ha : (actor_words c <= 1)%nat) by (unfold actor_words; destruct (actor c); lia).
  pose proof (zlen_abi_bytes (abi_call c)) as H1. pose proof (zlen_abi_bytes (call_ancillary c)) as H2.
  assert (Hsel : zlen (abi_selector c) = 4) by (unfold zlen; lia).
  assert (Hhead : zlen (concat (abi_head c)) <= 128) by (unfold zlen; rewrite concat_words_length, Hlen by done; lia).
  assert (H3 : zlen (abi_call c) = zlen (abi_selector c) + zlen (abi_args c)) by apply zlen_app.
  unfold abi_args in H3. cbv zeta in H3. rewrite !zlen_app, zlen_word64 in H3. lia.
Qed.

(** C19: what a transaction's input carries is what is read from it.  The ABI encoding of
    a supported call decodes to that call, and the encoding of a multicall of at most
    256 of them to the list of them. *)
Theorem decode_input_abi c cs :
  encodable c -> Forall encodable cs -> (length cs <= 256)%nat ->
  decode_input (abi_call c) = [c] /\ decode_input (abi_multicall cs) = cs.
Proof.
  intros Hc Hcs Hlen. split.
  - unfold decode_input. rewrite decide_False; [by rewrite decode_one_abi|].
    destruct (abi_selector_kind c) as [Hs _]. unfold abi_call. rewrite <- (app_nil_l (abi_selector c ++ _)).
    rewrite get_range_app by (unfold zlen; cbn; lia). unfold abi_selector. by destruct (kind c), (actor c).
  - unfold decode_input, abi_multicall. cbv zeta. rewrite decide_True.
    2:{ rewrite <- (app_nil_l (SEL_MULTICALL ++ _)). by rewrite get_range_app. }
    rewrite drop_app_length' by done. set (es := map abi_call cs).
    assert (Hes : zlen es = zlen cs) by (unfold zlen, es; by rewrite length_map).
    assert (Hn : 0 <= zlen es <= 256) by (rewrite Hes; unfold zlen; lia).
    assert (Hw : forall v, zlen (word64 v) = 32) by (intros; unfold zlen; by rewrite word64_length).
    rewrite <- (app_nil_l (word64 32 ++ _)). rewrite usize_at_app by (unfold zlen; simpl length; lia). cbn [app].
    rewrite usize_at_app by (rewrite ?Hw; lia). rewrite Z.min_l by lia.
    replace (Z.to_nat (zlen es)) with (length es) by (unfold zlen; lia).
    rewrite u64_add_small by (unfold u64_max; lia).
    rewrite (multicall_loop_encoded es 0 (word64 32 ++ word64 (zlen es)) [] (32 * zlen es) []).
    + unfold es. clear -Hcs. induction Hcs as [|c cs Hc _ IH]; [done|]. cbn. rewrite decode_one_abi by done. by rewrite IH.
    + by rewrite app_nil_r, <- !app_assoc.
    + rewrite zlen_app, !Hw. lia.
    + rewrite zlen_app, !Hw, zlen_nil. lia.
    + assert (Ho : zlen (concat (map word64 (abi_offsets (32 * zlen es) es))) = 32 * zlen es)
        by (unfold zlen at 1; rewrite abi_offsets_length; unfold zlen; lia).
      rewrite !zlen_app, !Hw, Ho.
      assert (Hb : zlen (concat (map abi_bytes es)) <= 2 ^ 35 * zlen es).
      { unfold es. clear -Hcs. induction Hcs as [|c cs [Hc _] _ IH]; [done|]. cbn [map concat].
        rewrite zlen_app, zlen_cons. pose proof (abi_call_size c Hc). lia. }
      unfold zlen in *. lia.
Qed.

(** ** Examples *)

Module Sample.
#[local] Instance codec : EthCodec := sample_codec.
Definition call : OracleCall :=
  {| kind := CallPropose; call_requester := replicate 20 x0a; identifier := replicate 32 x0b;
     timestamp := word64 1750000000; call_ancillary := bytes_of_str "q: title: x, market_id: 907474 res_data: p1";
     price := replicate 31 x00 ++ [x01]; actor := Some (replicate 20 x0c) |}.
Definition dispute : OracleCall :=
  {| kind := CallDispute; call_requester := replicate 20 x0a; identifier := replicate 32 x0b;
     timestamp := word64 1750000000; call_ancillary := bytes_of_str "market_id:12";
     price := replicate 32 x00; actor := None |}.
Definition tx : string := hex0x (replicate 32 xdd).
Definition to : string := hex0x (replicate 20 xee).

Definition mined : Mined :=
  {| mined_price := replicate 32 x01; mined_extra := []; mined_parties := [topic_addr (replicate 20 x0d); topic_addr (replicate 20 x0e)];
     mined_emitter := to; mined_block := 5000; mined_index := 12 |}.

Lemma call_wf : wf_call call.
Proof. split; try reflexivity. intros a Ha. injection Ha as <-. reflexivity. Qed.
Lemma dispute_wf : wf_call dispute.
Proof. split; try reflexivity. discriminate. Qed.
End Sample.

Lemma synth_log_decodes_witness :
  decode_signal_log (H := sample_codec) (synth_log (H := sample_codec) Sample.dispute Sample.tx 2 Sample.to (replicate 20 x01))
    77 [] false = Ok (call_event (H := sample_codec) Sample.dispute (replicate 32 xdd) 2 77)
  /\ decode_signal_log (H := sample_codec) (mined_log (H := sample_codec) Sample.dispute Sample.tx Sample.mined) 99 [] false
     = Ok (event_of (H := sample_codec) Sample.dispute (replicate 32 x01)
             {| block_number := 5000; transaction_hash := replicate 32 xdd; log_index := 12; upstream_received_at_us := 99; removed := false |})
  /\ event_market_id (call_event (H := sample_codec) Sample.dispute (replicate 32 xdd) 2 77) = 12.
Proof.
  destruct (synth_log_decodes (H := sample_codec) Sample.dispute Sample.tx (replicate 32 xdd) 2 Sample.to (replicate 20 x01) 77 Sample.mined 99)
    as (H1 & H2 & _).
  - exact Sample.dispute_wf.
  - vm_compute. reflexivity.
  - lia.
  - exists (replicate 20 xee). vm_compute. reflexivity.
  - vm_compute. reflexivity.
  - split; [by vm_compute|done|done|exists (replicate 20 xee); by vm_compute|cbn; lia|cbn; lia].
  - split; [exact H1|]. split; [exact H2|vm_compute; reflexivity].
Defined.

Lemma parse_onchain_synth_witness :
  parse_onchain (H := sample_codec) (synth_log (H := sample_codec) Sample.dispute Sample.tx 2 Sample.to (replicate 20 x01))
  = Some (CallDispute, request_key (H := sample_codec) Sample.dispute, replicate 32 x00).
Proof.
  exact (parse_onchain_synth (H := sample_codec) Sample.dispute Sample.tx 2 Sample.to (replicate 20 x01) Sample.dispute_wf).
Defined.

Lemma decode_input_abi_witness :
  decode_input (abi_call Sample.call) = [Sample.call]
  /\ decode_input (abi_multicall [Sample.dispute; Sample.call]) = [Sample.dispute; Sample.call].
Proof.
  assert (H1 : encodable Sample.call) by (split; [exact Sample.call_wf|discriminate]).
  assert (H2 : encodable Sample.dispute) by (split; [exact Sample.dispute_wf|reflexivity]).
  apply (decode_input_abi Sample.call [Sample.dispute; Sample.call] H1); [|simpl; lia].
  constructor; [exact H2|]. constructor; [exact H1|constructor].
Defined.
