(* ===== verification/Keccak.v ===== *)
(** * Keccak: the codec of the chain ([hex] and [sha3::Keccak256])

    The interface [EthCodec] of [Events] with what it stands for: hexadecimal text and
    Keccak-256, the sponge over Keccak-f[1600] with a rate of 136 bytes and the original
    padding.  With it the tests and the constants of the source can be run on real data. *)
From S2P Require Import Prelude Model Events Calldata.

(** ** Keccak-f[1600] on five rows of five lanes *)

Definition mask64 : Z := 0xFFFFFFFFFFFFFFFF.
Definition rotl64 (n v : Z) : Z := Z.lor (Z.land (Z.shiftl v n) mask64) (Z.shiftr v (64 - n)).
(** Row [r] seen [i] lanes further on. *)
Definition turn (i : nat) (r : list Z) : list Z := drop i r ++ take i r.

Definition theta (a : list (list Z)) : list (list Z) :=
  let c := foldl (zip_with Z.lxor) (replicate 5 0) a in
  map (zip_with Z.lxor (zip_with Z.lxor (turn 4 c) (map (rotl64 1) (turn 1 c)))) a.
Definition rotations : list (list Z) :=
  [[0; 1; 62; 28; 27]; [36; 44; 6; 55; 20]; [3; 10; 43; 25; 39]; [41; 45; 15; 21; 8]; [18; 2; 61; 56; 14]].
Definition rho (a : list (list Z)) : list (list Z) := zip_with (zip_with rotl64) rotations a.
(** Lane [x] of row [y] comes from lane [x + 3 y] of row [x]. *)
Definition pi (a : list (list Z)) : list (list Z) :=
  map (fun s => zip_with (fun r i => nth i r 0) a s)
    [[0; 1; 2; 3; 4]; [3; 4; 0; 1; 2]; [1; 2; 3; 4; 0]; [4; 0; 1; 2; 3]; [2; 3; 4; 0; 1]]%nat.
Definition chi (a : list (list Z)) : list (list Z) :=
  map (fun r => zip_with Z.lxor r (zip_with Z.land (map (Z.lxor mask64) (turn 1 r)) (turn 2 r))) a.
Definition iota (rc : Z) (a : list (list Z)) : list (list Z) :=
  match a with (x :: r) :: a => (Z.lxor x rc :: r) :: a | _ => a end.

Definition round_constants : list Z :=
  [0x0000000000000001; 0x0000000000008082; 0x800000000000808A; 0x8000000080008000; 0x000000000000808B; 0x0000000080000001;
   0x8000000080008081; 0x8000000000008009; 0x000000000000008A; 0x0000000000000088; 0x0000000080008009; 0x000000008000000A;
   0x000000008000808B; 0x800000000000008B; 0x8000000000008089; 0x8000000000008003; 0x8000000000008002; 0x8000000000000080;
   0x000000000000800A; 0x800000008000000A; 0x8000000080008081; 0x8000000000008080; 0x0000000080000001; 0x8000000080008008].
Definition keccak_f (a : list (list Z)) : list (list Z) := foldl (fun a rc => iota rc (chi (pi (rho (theta a))))) a round_constants.

(** ** The sponge *)

Definition rate : nat := 136.
Definition keccak_pad (b : bytes) : bytes :=
  let n := (rate - length b mod rate)%nat in
  b ++ match n with 1%nat => [x81] | _ => x01 :: replicate (n - 2) x00 ++ [x80] end.
Definition le_lane (b : bytes) : Z := be_decode (rev b).

(** The 17 lanes of a block, over five rows. *)
Fixpoint block_rows (rows : nat) (b : bytes) : list (list Z) :=
  match rows with
  | O => []
  | S n => map (fun i => le_lane (take 8 (drop (8 * i) b))) (seq 0 5) :: block_rows n (drop 40 b)
  end.
(** The blocks of a padded message, with as many rounds as it has blocks. *)
Fixpoint absorb (blocks : nat) (b : bytes) (st : list (list Z)) : list (list Z) :=
  match blocks with
  | O => st
  | S n => absorb n (drop rate b) (keccak_f (zip_with (zip_with Z.lxor) st (block_rows 5 (take rate b))))
  end.
Definition keccak (b : bytes) : bytes :=
  let p := keccak_pad b in
  let st := absorb (length p / rate) p (replicate 5 (replicate 5 0)) in
  flat_map (fun i => rev (be_encode 8 (nth i (concat st) 0))) (seq 0 4).

Lemma keccak_length b : length (keccak b) = 32%nat.
Proof.
  unfold keccak. generalize (absorb (length (keccak_pad b) / rate) (keccak_pad b) (replicate 5 (replicate 5 0))) as st. intros st.
  cbn [seq flat_map]. by rewrite !length_app, !length_rev, !be_encode_length.
Qed.

Definition ethereum : EthCodec :=
  {| hex_encode := hex_encode (EthCodec := sample_codec); hex_decode := hex_decode (EthCodec := sample_codec); keccak256 := keccak;
     hex_decode_encode := hex_decode_encode (EthCodec := sample_codec);
     hex_encode_no_x := hex_encode_no_x (EthCodec := sample_codec); keccak256_length := keccak_length |}.

(** ** The constants of the source are the hashes they are said to be *)

Definition hash_of (s : string) : string := sample_hex_encode (keccak (bytes_of_str s)).
Example topics_are_event_hashes :
  ("0x" +:+ hash_of "ProposePrice(address,address,bytes32,uint256,bytes,int256,uint256,address)" = TOPIC_PROPOSE_PRICE)%string
  /\ ("0x" +:+ hash_of "DisputePrice(address,address,address,bytes32,uint256,bytes,int256)" = TOPIC_DISPUTE_PRICE)%string.
Proof. vm_compute. auto. Qed.

Example selectors_are_function_hashes :
  map (fun s => take 4 (keccak (bytes_of_str s)))
    ["proposePrice(address,bytes32,uint256,bytes,int256)"; "proposePriceFor(address,address,bytes32,uint256,bytes,int256)";
     "disputePrice(address,bytes32,uint256,bytes)"; "disputePriceFor(address,address,bytes32,uint256,bytes)"; "multicall(bytes[])"]%string
  = [SEL_PROPOSE; SEL_PROPOSE_FOR; SEL_DISPUTE; SEL_DISPUTE_FOR; SEL_MULTICALL].
Proof. vm_compute. reflexivity. Qed.

(** [keccak256("")] and a message of exactly one block less a byte. *)
Example keccak_vectors :
  hash_of "" = "c5d2460186f7233c927e7db2dcc703c0e500b653ca82273b7bfad8045d85a470"%string
  /\ hash_of "abc" = "4e03657aea45a94fc7d47ba826c8d667c0d1e6e33a64a036ec44f58fa12d6c45"%string.
Proof. vm_compute. auto. Qed.
