(* ===== verification/ChainTests.v ===== *)
(** * ChainTests: the tests of the chain's data on the model

    The functions of the source's test modules under their names ([uma/events/mod.rs],
    [uma/events/ancillary.rs], [mempool/calldata.rs], [mempool/feed.rs]), with the real hash of
    [Keccak] and the mainnet transactions of [src/testdata/mempool/] as the files give them. *)
From S2P Require Import Prelude Testing Model Events Calldata Keccak.

#[local] Existing Instance ethereum.
#[local] Instance DecodeError_eq_dec : EqDecision DecodeError.
Proof. solve_decision. Defined.
#[local] Instance PolymarketAncillary_eq_dec : EqDecision PolymarketAncillary.
Proof. solve_decision. Defined.
#[local] Instance PriceRequest_eq_dec : EqDecision PriceRequest.
Proof. solve_decision. Defined.
Abbreviation T := (Test unit unit).

(** ** [uma/events/ancillary.rs] *)

Definition parses_polymarket_business_fields : T :=
  value ← unwrap (parse_ancillary (bytes_of_str "q: Will it happen? res_data: p1: 0, p2: 1, p3: 0.5, p4: -1, market_id: 42, initializer: 1111111111111111111111111111111111111111"));
  assert (eqb (anc_market_id value) (Some 42)).
Definition parses_market_id_when_not_comma_terminated : T :=
  value ← unwrap (parse_ancillary (bytes_of_str "q: Will it happen? market_id: 907474 res_data: p1: 0, p2: 1, p3: 0.5."));
  assert (eqb (anc_market_id value) (Some 907474)).

(** ** [uma/events/mod.rs] *)

Definition abi_word (value : Z) : bytes := word64 value.
Definition address_word (byte : Byte.byte) : bytes := replicate 12 x00 ++ replicate 20 byte.
Definition test_topic_address (byte : Byte.byte) : string := hex0x (address_word byte).

Definition log (topic : string) (dispute : bool) : RpcLog :=
  let ancillary := bytes_of_str "q: Will it happen? res_data: p1: 0, p2: 1, p3: 0.5, market_id: 42, initializer: 1111111111111111111111111111111111111111" in
  let offset := (if dispute then 4 else 6) * 32 in
  let data := replicate 32 x44 ++ abi_word 100 ++ abi_word offset ++ replicate 32 x55
              ++ (if dispute then [] else abi_word 200 ++ address_word x66) ++ abi_word (zlen ancillary) ++ ancillary in
  {| address := hex0x (replicate 20 xaa);
     topics := [topic; test_topic_address x01; test_topic_address x02] ++ (if dispute then [test_topic_address x03] else []);
     data := hex0x data; log_block_number := "0xa"; block_hash := hex0x (replicate 32 xbb); log_transaction_hash := hex0x (replicate 32 xcc);
     transaction_index := Some "0x2"%string; log_log_index := "0x4"; log_removed := false |}.
Definition signal (k : EventKind) (e : UmaEvent) : T := assert (bool_decide (event_kind e = k)).

Definition propose_parser_returns_all_business_fields : T :=
  event ← unwrap (decode_signal_log (log TOPIC_PROPOSE_PRICE false) 999 [replicate 20 xaa] true);
  signal Model.Propose event ;;
  assert (eqb (transaction_hash (event_chain event)) (replicate 32 xcc)) ;;
  let request := event_request event in
  assert (eqb (anc_market_id (ancillary request)) (Some 42)) ;;
  assert (eqb (req_condition_id request) (derive_binary_condition_id (replicate 20 x01) (question_id (ancillary request)))) ;;
  assert (eqb (proposed_price request) (replicate 32 x55)).

Definition dispute_parser_returns_all_business_fields : T :=
  event ← unwrap (decode_signal_log (log TOPIC_DISPUTE_PRICE true) 999 [replicate 20 xaa] true);
  signal Model.Dispute event ;;
  assert (eqb (requester (event_request event)) (replicate 20 x01)) ;;
  assert (eqb (anc_market_id (ancillary (event_request event))) (Some 42)).

Definition empty_allowlist_accepts_any_emitter : T :=
  unwrap (decode_signal_log (log TOPIC_PROPOSE_PRICE false) 999 [] true) ;; mret tt.

Definition non_empty_allowlist_still_rejects_unknown_emitter : T :=
  match decode_signal_log (log TOPIC_PROPOSE_PRICE false) 999 [replicate 20 xbb] true with
  | Err error => assert (eqb error Emitter)
  | Ok _ => assert false
  end.

Definition derives_verified_polygon_condition_id : T :=
  requester ← unwrap (decode_fixed 20 "0x157ce2d672854c848c9b79c49a8cc6cc89176a49" "requester");
  question_id ← unwrap (decode_fixed 32 "0xd8953cc3529be11caeaf510a70b3065c681463c0b56b4b117479f35d3a6bc80a" "question_id");
  expected ← unwrap (decode_fixed 32 "0xab6a43129f0cd1ae5fee650d64da2f849f2e572cb613e295ca1f6f83fe2d0774" "condition_id");
  assert (eqb (derive_binary_condition_id requester question_id) expected).

Definition neg_risk_log : RpcLog :=
  {| address := "0xee3afe347d5c74317041e2618c49534daf887c24";
     topics := [TOPIC_PROPOSE_PRICE; "0x0000000000000000000000002f5e3684cb1f318ec51b00edba38d79ac2c0aa9d";
                "0x000000000000000000000000ca323ed4e6dd651368c754d7c5a9d345e5c81829"]%string;
     data := "0x5945535f4f525f4e4f5f51554552590000000000000000000000000000000000000000000000000000000000000000000000000000000000000000006939e7e600000000000000000000000000000000000000000000000000000000000000c00000000000000000000000000000000000000000000000000000000000000000000000000000000000000000000000000000000000000000000000006a978df20000000000000000000000002791bca1f2de4661ed88a30c99a7a9449aa8417400000000000000000000000000000000000000000000000000000000000003fa713a207469746c653a2057696c6c2043616e646964617465205a2077696e207468652032303236204d61737361636875736574747320476f7665726e6f722052657075626c6963616e207072696d61727920656c656374696f6e3f2c206465736372697074696f6e3a2054686973206d61726b65742077696c6c207265736f6c7665206163636f7264696e6720746f207468652077696e6e6572206f66207468652052657075626c6963616e205072696d61727920666f7220476f7665726e6f72206f66204d6173736163687573657474732c207363686564756c656420746f2074616b6520706c616365206f6e2053657074656d62657220312c20323032362e205265736f6c7574696f6e2077696c6c206265206261736564206f6e20746865206f766572616c6c2077696e6e6572206f6620746865207072696d6172792c20696e636c7564696e6720616e7920706f74656e7469616c207365636f6e6420726f756e64206f722072756e2d6f66662e0a0a4966206e6f2032303236204d6173736163687573657474732047756265726e61746f7269616c2052657075626c6963616e205072696d6172792074616b657320706c6163652c2074686973206d61726b65742077696c6c207265736f6c766520746f20e2809c4f746865722ee2809d0a0a546865207265736f6c7574696f6e20736f7572636520666f722074686973206d61726b65742077696c6c20626520746865206669727374206f6666696369616c20616e6e6f756e63656d656e74206f662074686520726573756c74732066726f6d20746865204d6173736163687573657474732052657075626c6963616e2050617274793b20686f77657665722c20616e206f7665727768656c6d696e6720636f6e73656e737573206f66206372656469626c65207265706f7274696e67206d617920737566666963652e206d61726b65745f69643a20393037343734207265735f646174613a2070313a20302c2070323a20312c2070333a20302e352e20576865726520703120636f72726573706f6e647320746f204e6f2c20703220746f205965732c20703320746f20756e6b6e6f776e2e20546869732072657175657374204d555354206f6e6c79207265736f6c766520746f207031206f722070322e202055706461746573206d61646520627920746865207175657374696f6e2063726561746f7220766961207468652062756c6c6574696e20626f617264206174203078324635653336383463623146333138656335316230304564626133386437394163326330614139642073686f756c6420626520636f6e736964657265642e2c696e697469616c697a65723a39313433306361643264333937353736363439393731376661306436366137386438313465356335000000000000";
     log_block_number := "0x58c2286"; block_hash := "0xf50109a4c9ab6bbf0360e5909c78fadce725a2374fe01b31994bae2680a99932";
     log_transaction_hash := "0x96bdaafcd0f9f498f4b76e0f7169c8e28aee2d851b39197f3cee16825a43db6d"; transaction_index := Some "0x6f"%string;
     log_log_index := "0x816"; log_removed := false |}.

Definition neg_risk_event_binary_formula_yields_wrong_condition_id : T :=
  emitter ← unwrap (decode_fixed 20 (address neg_risk_log) "address");
  event ← unwrap (decode_signal_log neg_risk_log 1 [emitter] true);
  let request := event_request event in
  assert (eqb (anc_market_id (ancillary request)) (Some 907474)) ;;
  gamma_condition_id ← unwrap (decode_fixed 32 "0xa50547851bf565603ad7e866d9d2aa2c6c2ee77b2d390e581bf2e8a53b466902" "condition_id");
  assert (negb (eqb (req_condition_id request) gamma_condition_id)).

(** ** Mainnet transactions *)

Record Fixture := { fx_hash : string; fx_from : string; fx_to : string; fx_input : string; fx_logs : list RpcLog }.

Definition propose_direct : Fixture :=
  {| fx_hash := "0x51f9e6c4a4fa256f5605133444d35fd81a2f9520f496fd484203aaedec240c6f"; fx_from := "0xa0b6210f5b522b97bbce9b8e617627105c0e3891"; fx_to := "0x2c0367a9db231ddebd88a94b4f6461a6e47c58b1";
     fx_input := "0xb8b4f90800000000000000000000000065070be91477460d8a7aeeb94ef92fe056c2f2a75945535f4f525f4e4f5f51554552590000000000000000000000000000000000000000000000000000000000000000000000000000000000000000006abbfe4d00000000000000000000000000000000000000000000000000000000000000a000000000000000000000000000000000000000000000000000000000000000000000000000000000000000000000000000000000000000000000000000000866713a207469746c653a2047616d652048616e64696361703a20566173796c65747320416e6472696920282d312e3529207673204b7572796c656e6b6f204f6c656820282b312e35292c206465736372697074696f6e3a2054686973206d61726b65742072656665727320746f20746865207461626c652074656e6e6973206d61746368206265747765656e20566173796c65747320416e6472696920616e64204b7572796c656e6b6f204f6c656820696e205365746b612043757020556b7261696e65204d656e2c206f726967696e616c6c79207363686564756c656420666f722053657074656d6265722033302c203230323620617420313a3330414d2045542e0a54686973206d61726b65742077696c6c207265736f6c766520746f2022566173796c65747320416e647269692220696620566173796c65747320416e647269692077696e732062792032206f72206d6f72652067616d6573207468616e204b7572796c656e6b6f204f6c65682c206261736564206f6e207468652066696e616c20636f6d706c65746564206d617463682073636f72652e204f74686572776973652c2069742077696c6c207265736f6c766520746f20224b7572796c656e6b6f204f6c65682e220a466f722074686520707572706f736573206f662074686973206d61726b65742c2067616d65206d617267696e2069732063616c63756c61746564207573696e6720746f74616c2067616d657320776f6e206163726f7373207468652066756c6c206d617463682e20416e7920666f7266656974656420706f696e7473206f722067616d65732077696c6c20636f756e7420746f776172642066696e616c20736574746c656d656e742e0a496620746865206d6174636820697320636f6d706c657465642c2074686973206d61726b65742077696c6c207265736f6c7665206261736564206f6e207468652066696e616c20636f6d706c65746564206d617463682073636f72652e204966206120706c6179657220726574697265732c207769746864726177732c2069732064656661756c7465642c206973206469737175616c69666965642c206f7220746865206d61746368206f746865727769736520626567696e7320627574206973206e6f7420636f6d706c657465642c2074686973206d61726b65742077696c6c207265736f6c7665206261736564206f6e20616e79206f7574636f6d6520746861742077617320616c726561647920756e65717569766f63616c6c792064657465726d696e6564206174207468652074696d6520706c61792073746f707065642e0a466f722067616d6520737072656164206d61726b6574732c20616e206f7574636f6d6520697320636f6e736964657265642064657465726d696e656420696620697420776f756c642068617665206265656e2067756172616e746565642068616420746865206d61746368206265656e20706c6179656420746f20636f6d706c6574696f6e207573696e6720746865206d696e696d756d206e756d626572206f66206164646974696f6e616c2067616d65732072657175697265642e20466f72206578616d706c652c20696620706c61792073746f70732077697468206f6e6520706c61796572206c656164696e6720322d3020696e2067616d657320696e206120626573742d6f662d35206d617463682c20746865206d696e696d756d20636f6d706c6574696f6e20776f756c6420626520332d3020696e2067616d65733b20616e792067616d6520737072656164206f7574636f6d6520616c72656164792067756172616e7465656420756e6465722074686174206d696e696d756d20636f6d706c6574696f6e2077696c6c207265736f6c7665206163636f7264696e676c792c207768696c6520756e64657465726d696e656420737072656164732077696c6c207265736f6c76652035302d35302e0a4966206e656974686572206f7574636f6d652077617320616c72656164792064657465726d696e6564206174207468652074696d6520706c61792073746f707065642c2074686973206d61726b65742077696c6c207265736f6c76652035302d35302e20496620746865206d617463682069732063616e63656c6564206265666f726520706c617920626567696e73206f722064656c61796564206265796f6e64203720646179732066726f6d20746865207363686564756c6564206461746520776974686f757420706c617920626567696e6e696e672c2074686973206d61726b65742077696c6c207265736f6c76652035302d35302e0a5265736f6c7574696f6e2077696c6c206265206261736564206f6e206f6666696369616c205365746b612043757020726573756c74732e206d61726b65745f69643a2035313335373934207265735f646174613a2070313a20302c2070323a20312c2070333a20302e352e20576865726520703120636f72726573706f6e647320746f204b7572796c656e6b6f204f6c65682c20703220746f20566173796c65747320416e647269692c20703320746f20756e6b6e6f776e2f35302d35302e2055706461746573206d61646520627920746865207175657374696f6e2063726561746f7220766961207468652062756c6c6574696e20626f61726420617420307836353037304245393134373734363044384137416545623934656639326665303536433266324137206173206465736372696265642062792068747470733a2f2f706f6c79676f6e7363616e2e636f6d2f74782f3078613134663031623131356334393133363234666333663530386639363066346465613235323735386537336332386635663037663865313964376263613036362073686f756c6420626520636f6e736964657265642e2c696e697469616c697a65723a616339393330623261653435356136373162363264653836383736613765383538373832353239340000000000000000000000000000000000000000000000000000";
     fx_logs :=
       [{| address := "0x2c0367a9db231ddebd88a94b4f6461a6e47c58b1"; topics := ["0x6e51dd00371aabffa82cd401592f76ed51e98a9ea4b58751c70463a2c78b5ca1"; "0x00000000000000000000000065070be91477460d8a7aeeb94ef92fe056c2f2a7"; "0x000000000000000000000000a0b6210f5b522b97bbce9b8e617627105c0e3891"]; data := "0x5945535f4f525f4e4f5f51554552590000000000000000000000000000000000000000000000000000000000000000000000000000000000000000006abbfe4d00000000000000000000000000000000000000000000000000000000000000c00000000000000000000000000000000000000000000000000000000000000000000000000000000000000000000000000000000000000000000000006abca7450000000000000000000000002791bca1f2de4661ed88a30c99a7a9449aa841740000000000000000000000000000000000000000000000000000000000000866713a207469746c653a2047616d652048616e64696361703a20566173796c65747320416e6472696920282d312e3529207673204b7572796c656e6b6f204f6c656820282b312e35292c206465736372697074696f6e3a2054686973206d61726b65742072656665727320746f20746865207461626c652074656e6e6973206d61746368206265747765656e20566173796c65747320416e6472696920616e64204b7572796c656e6b6f204f6c656820696e205365746b612043757020556b7261696e65204d656e2c206f726967696e616c6c79207363686564756c656420666f722053657074656d6265722033302c203230323620617420313a3330414d2045542e0a54686973206d61726b65742077696c6c207265736f6c766520746f2022566173796c65747320416e647269692220696620566173796c65747320416e647269692077696e732062792032206f72206d6f72652067616d6573207468616e204b7572796c656e6b6f204f6c65682c206261736564206f6e207468652066696e616c20636f6d706c65746564206d617463682073636f72652e204f74686572776973652c2069742077696c6c207265736f6c766520746f20224b7572796c656e6b6f204f6c65682e220a466f722074686520707572706f736573206f662074686973206d61726b65742c2067616d65206d617267696e2069732063616c63756c61746564207573696e6720746f74616c2067616d657320776f6e206163726f7373207468652066756c6c206d617463682e20416e7920666f7266656974656420706f696e7473206f722067616d65732077696c6c20636f756e7420746f776172642066696e616c20736574746c656d656e742e0a496620746865206d6174636820697320636f6d706c657465642c2074686973206d61726b65742077696c6c207265736f6c7665206261736564206f6e207468652066696e616c20636f6d706c65746564206d617463682073636f72652e204966206120706c6179657220726574697265732c207769746864726177732c2069732064656661756c7465642c206973206469737175616c69666965642c206f7220746865206d61746368206f746865727769736520626567696e7320627574206973206e6f7420636f6d706c657465642c2074686973206d61726b65742077696c6c207265736f6c7665206261736564206f6e20616e79206f7574636f6d6520746861742077617320616c726561647920756e65717569766f63616c6c792064657465726d696e6564206174207468652074696d6520706c61792073746f707065642e0a466f722067616d6520737072656164206d61726b6574732c20616e206f7574636f6d6520697320636f6e736964657265642064657465726d696e656420696620697420776f756c642068617665206265656e2067756172616e746565642068616420746865206d61746368206265656e20706c6179656420746f20636f6d706c6574696f6e207573696e6720746865206d696e696d756d206e756d626572206f66206164646974696f6e616c2067616d65732072657175697265642e20466f72206578616d706c652c20696620706c61792073746f70732077697468206f6e6520706c61796572206c656164696e6720322d3020696e2067616d657320696e206120626573742d6f662d35206d617463682c20746865206d696e696d756d20636f6d706c6574696f6e20776f756c6420626520332d3020696e2067616d65733b20616e792067616d6520737072656164206f7574636f6d6520616c72656164792067756172616e7465656420756e6465722074686174206d696e696d756d20636f6d706c6574696f6e2077696c6c207265736f6c7665206163636f7264696e676c792c207768696c6520756e64657465726d696e656420737072656164732077696c6c207265736f6c76652035302d35302e0a4966206e656974686572206f7574636f6d652077617320616c72656164792064657465726d696e6564206174207468652074696d6520706c61792073746f707065642c2074686973206d61726b65742077696c6c207265736f6c76652035302d35302e20496620746865206d617463682069732063616e63656c6564206265666f726520706c617920626567696e73206f722064656c61796564206265796f6e64203720646179732066726f6d20746865207363686564756c6564206461746520776974686f757420706c617920626567696e6e696e672c2074686973206d61726b65742077696c6c207265736f6c76652035302d35302e0a5265736f6c7574696f6e2077696c6c206265206261736564206f6e206f6666696369616c205365746b612043757020726573756c74732e206d61726b65745f69643a2035313335373934207265735f646174613a2070313a20302c2070323a20312c2070333a20302e352e20576865726520703120636f72726573706f6e647320746f204b7572796c656e6b6f204f6c65682c20703220746f20566173796c65747320416e647269692c20703320746f20756e6b6e6f776e2f35302d35302e2055706461746573206d61646520627920746865207175657374696f6e2063726561746f7220766961207468652062756c6c6574696e20626f61726420617420307836353037304245393134373734363044384137416545623934656639326665303536433266324137206173206465736372696265642062792068747470733a2f2f706f6c79676f6e7363616e2e636f6d2f74782f3078613134663031623131356334393133363234666333663530386639363066346465613235323735386537336332386635663037663865313964376263613036362073686f756c6420626520636f6e736964657265642e2c696e697469616c697a65723a616339393330623261653435356136373162363264653836383736613765383538373832353239340000000000000000000000000000000000000000000000000000"; log_block_number := "0x5a4ebdb"; block_hash := "0xc755f3160b94ff3c516f6587d9ef0f3fb96a9791e7cdf24a48f0a3e760ab0445"; log_transaction_hash := "0x51f9e6c4a4fa256f5605133444d35fd81a2f9520f496fd484203aaedec240c6f";
        transaction_index := Some "0x6"%string; log_log_index := "0x10"; log_removed := false |}]%string |}.
Definition propose_multicall : Fixture :=
  {| fx_hash := "0x51899e19889e0279c2d306a96d5152e443f9276e1d7d9626b05620b1c1373491"; fx_from := "0x0db5aea9f41ce8398104e9d4694cfb18f146c493"; fx_to := "0x2c0367a9db231ddebd88a94b4f6461a6e47c58b1";
     fx_input := "0xac9650d800000000000000000000000000000000000000000000000000000000000000200000000000000000000000000000000000000000000000000000000000000002000000000000000000000000000000000000000000000000000000000000004000000000000000000000000000000000000000000000000000000000000005800000000000000000000000000000000000000000000000000000000000000504b8b4f90800000000000000000000000065070be91477460d8a7aeeb94ef92fe056c2f2a75945535f4f525f4e4f5f51554552590000000000000000000000000000000000000000000000000000000000000000000000000000000000000000006a6cb26f00000000000000000000000000000000000000000000000000000000000000a00000000000000000000000000000000000000000000000000de0b6b3a7640000000000000000000000000000000000000000000000000000000000000000043c713a207469746c653a2057696c6c2053706163655820537461727368697020466c696768742054657374203134206c61756e63682062792053657074656d6265722033303f2c206465736372697074696f6e3a20496620746865203134746820537061636558205374617273686970207375636365737366756c6c79206c61756e636865732066726f6d20697473206c61756e6368207061642062792053657074656d6265722033302c20323032362c2031313a353920504d2045542c2074686973206d61726b65742077696c6c207265736f6c766520746f20e2809c596573e2809d2e204f74686572776973652c2074686973206d61726b65742077696c6c207265736f6c766520746f20e2809c4e6f2ee2809d0a0a546865206f7574636f6d65206f6620616e79206c61756e63682077696c6c20626520636f72726f626f7261746564206279206578616d696e696e67206f6666696369616c20766964656f2070726f766964656420627920537061636558202868747470733a2f2f7777772e796f75747562652e636f6d2f632f537061636558292c2061732077656c6c206173207365636f6e6461727920766964656f20666565647320616e642f6f72207772697474656e207265706f727473206966206e65636573736172792e0a0a416e792073756273657175656e7420616e6f6d616c792028652e672e2c20616e206578706c6f73696f6e2920616674657220746865206c61756e63682077696c6c2068617665206e6f2062656172696e67206f6e20746865206f7574636f6d652e20416e79206e616d65206368616e6765206f6620746865205374617273686970207769746820616e6f746865722076656869636c652077696c6c2068617665206e6f2062656172696e67206f6e20746865206f7574636f6d65206f6620746865206d61726b65742e206d61726b65745f69643a2033323430373431207265735f646174613a2070313a20302c2070323a20312c2070333a20302e352e20576865726520703120636f72726573706f6e647320746f204e6f2c20703220746f205965732c20703320746f20756e6b6e6f776e2f35302d35302e2055706461746573206d61646520627920746865207175657374696f6e2063726561746f7220766961207468652062756c6c6574696e20626f61726420617420307836353037304245393134373734363044384137416545623934656639326665303536433266324137206173206465736372696265642062792068747470733a2f2f706f6c79676f6e7363616e2e636f6d2f74782f3078613134663031623131356334393133363234666333663530386639363066346465613235323735386537336332386635663037663865313964376263613036362073686f756c6420626520636f6e736964657265642e2c696e697469616c697a65723a6634336435356633613862373438346564346236393331663933636236663965663564643336396400000000000000000000000000000000000000000000000000000000000000000000000000000000000000000000000000000000000000000000000000000504b8b4f90800000000000000000000000065070be91477460d8a7aeeb94ef92fe056c2f2a75945535f4f525f4e4f5f51554552590000000000000000000000000000000000000000000000000000000000000000000000000000000000000000006ab8858400000000000000000000000000000000000000000000000000000000000000a00000000000000000000000000000000000000000000000000de0b6b3a7640000000000000000000000000000000000000000000000000000000000000000043c713a207469746c653a2057696c6c2053706163655820537461727368697020466c696768742054657374203134206c61756e63682062792053657074656d6265722032383f2c206465736372697074696f6e3a20496620746865203134746820537061636558205374617273686970207375636365737366756c6c79206c61756e636865732066726f6d20697473206c61756e6368207061642062792053657074656d6265722032382c20323032362c2031313a353920504d2045542c2074686973206d61726b65742077696c6c207265736f6c766520746f20e2809c596573e2809d2e204f74686572776973652c2074686973206d61726b65742077696c6c207265736f6c766520746f20e2809c4e6f2ee2809d0a0a546865206f7574636f6d65206f6620616e79206c61756e63682077696c6c20626520636f72726f626f7261746564206279206578616d696e696e67206f6666696369616c20766964656f2070726f766964656420627920537061636558202868747470733a2f2f7777772e796f75747562652e636f6d2f632f537061636558292c2061732077656c6c206173207365636f6e6461727920766964656f20666565647320616e642f6f72207772697474656e207265706f727473206966206e65636573736172792e0a0a416e792073756273657175656e7420616e6f6d616c792028652e672e2c20616e206578706c6f73696f6e2920616674657220746865206c61756e63682077696c6c2068617665206e6f2062656172696e67206f6e20746865206f7574636f6d652e20416e79206e616d65206368616e6765206f6620746865205374617273686970207769746820616e6f746865722076656869636c652077696c6c2068617665206e6f2062656172696e67206f6e20746865206f7574636f6d65206f6620746865206d61726b65742e206d61726b65745f69643a2035303037393539207265735f646174613a2070313a20302c2070323a20312c2070333a20302e352e20576865726520703120636f72726573706f6e647320746f204e6f2c20703220746f205965732c20703320746f20756e6b6e6f776e2f35302d35302e2055706461746573206d61646520627920746865207175657374696f6e2063726561746f7220766961207468652062756c6c6574696e20626f61726420617420307836353037304245393134373734363044384137416545623934656639326665303536433266324137206173206465736372696265642062792068747470733a2f2f706f6c79676f6e7363616e2e636f6d2f74782f3078613134663031623131356334393133363234666333663530386639363066346465613235323735386537336332386635663037663865313964376263613036362073686f756c6420626520636f6e736964657265642e2c696e697469616c697a65723a616339393330623261653435356136373162363264653836383736613765383538373832353239340000000000000000000000000000000000000000000000000000000000000000";
     fx_logs :=
       [{| address := "0x2c0367a9db231ddebd88a94b4f6461a6e47c58b1"; topics := ["0x6e51dd00371aabffa82cd401592f76ed51e98a9ea4b58751c70463a2c78b5ca1"; "0x00000000000000000000000065070be91477460d8a7aeeb94ef92fe056c2f2a7"; "0x0000000000000000000000000db5aea9f41ce8398104e9d4694cfb18f146c493"]; data := "0x5945535f4f525f4e4f5f51554552590000000000000000000000000000000000000000000000000000000000000000000000000000000000000000006a6cb26f00000000000000000000000000000000000000000000000000000000000000c00000000000000000000000000000000000000000000000000de0b6b3a7640000000000000000000000000000000000000000000000000000000000006aba81130000000000000000000000002791bca1f2de4661ed88a30c99a7a9449aa84174000000000000000000000000000000000000000000000000000000000000043c713a207469746c653a2057696c6c2053706163655820537461727368697020466c696768742054657374203134206c61756e63682062792053657074656d6265722033303f2c206465736372697074696f6e3a20496620746865203134746820537061636558205374617273686970207375636365737366756c6c79206c61756e636865732066726f6d20697473206c61756e6368207061642062792053657074656d6265722033302c20323032362c2031313a353920504d2045542c2074686973206d61726b65742077696c6c207265736f6c766520746f20e2809c596573e2809d2e204f74686572776973652c2074686973206d61726b65742077696c6c207265736f6c766520746f20e2809c4e6f2ee2809d0a0a546865206f7574636f6d65206f6620616e79206c61756e63682077696c6c20626520636f72726f626f7261746564206279206578616d696e696e67206f6666696369616c20766964656f2070726f766964656420627920537061636558202868747470733a2f2f7777772e796f75747562652e636f6d2f632f537061636558292c2061732077656c6c206173207365636f6e6461727920766964656f20666565647320616e642f6f72207772697474656e207265706f727473206966206e65636573736172792e0a0a416e792073756273657175656e7420616e6f6d616c792028652e672e2c20616e206578706c6f73696f6e2920616674657220746865206c61756e63682077696c6c2068617665206e6f2062656172696e67206f6e20746865206f7574636f6d652e20416e79206e616d65206368616e6765206f6620746865205374617273686970207769746820616e6f746865722076656869636c652077696c6c2068617665206e6f2062656172696e67206f6e20746865206f7574636f6d65206f6620746865206d61726b65742e206d61726b65745f69643a2033323430373431207265735f646174613a2070313a20302c2070323a20312c2070333a20302e352e20576865726520703120636f72726573706f6e647320746f204e6f2c20703220746f205965732c20703320746f20756e6b6e6f776e2f35302d35302e2055706461746573206d61646520627920746865207175657374696f6e2063726561746f7220766961207468652062756c6c6574696e20626f61726420617420307836353037304245393134373734363044384137416545623934656639326665303536433266324137206173206465736372696265642062792068747470733a2f2f706f6c79676f6e7363616e2e636f6d2f74782f3078613134663031623131356334393133363234666333663530386639363066346465613235323735386537336332386635663037663865313964376263613036362073686f756c6420626520636f6e736964657265642e2c696e697469616c697a65723a6634336435356633613862373438346564346236393331663933636236663965663564643336396400000000"; log_block_number := "0x5a36eff"; block_hash := "0x68d9e4563d2e60d4fc677259759353f92384c5cbb2bb412180b7c777c07cedb5"; log_transaction_hash := "0x51899e19889e0279c2d306a96d5152e443f9276e1d7d9626b05620b1c1373491";
        transaction_index := Some "0x44"%string; log_log_index := "0x28b"; log_removed := false |};
        {| address := "0x2c0367a9db231ddebd88a94b4f6461a6e47c58b1"; topics := ["0x6e51dd00371aabffa82cd401592f76ed51e98a9ea4b58751c70463a2c78b5ca1"; "0x00000000000000000000000065070be91477460d8a7aeeb94ef92fe056c2f2a7"; "0x0000000000000000000000000db5aea9f41ce8398104e9d4694cfb18f146c493"]; data := "0x5945535f4f525f4e4f5f51554552590000000000000000000000000000000000000000000000000000000000000000000000000000000000000000006ab8858400000000000000000000000000000000000000000000000000000000000000c00000000000000000000000000000000000000000000000000de0b6b3a7640000000000000000000000000000000000000000000000000000000000006aba81130000000000000000000000002791bca1f2de4661ed88a30c99a7a9449aa84174000000000000000000000000000000000000000000000000000000000000043c713a207469746c653a2057696c6c2053706163655820537461727368697020466c696768742054657374203134206c61756e63682062792053657074656d6265722032383f2c206465736372697074696f6e3a20496620746865203134746820537061636558205374617273686970207375636365737366756c6c79206c61756e636865732066726f6d20697473206c61756e6368207061642062792053657074656d6265722032382c20323032362c2031313a353920504d2045542c2074686973206d61726b65742077696c6c207265736f6c766520746f20e2809c596573e2809d2e204f74686572776973652c2074686973206d61726b65742077696c6c207265736f6c766520746f20e2809c4e6f2ee2809d0a0a546865206f7574636f6d65206f6620616e79206c61756e63682077696c6c20626520636f72726f626f7261746564206279206578616d696e696e67206f6666696369616c20766964656f2070726f766964656420627920537061636558202868747470733a2f2f7777772e796f75747562652e636f6d2f632f537061636558292c2061732077656c6c206173207365636f6e6461727920766964656f20666565647320616e642f6f72207772697474656e207265706f727473206966206e65636573736172792e0a0a416e792073756273657175656e7420616e6f6d616c792028652e672e2c20616e206578706c6f73696f6e2920616674657220746865206c61756e63682077696c6c2068617665206e6f2062656172696e67206f6e20746865206f7574636f6d652e20416e79206e616d65206368616e6765206f6620746865205374617273686970207769746820616e6f746865722076656869636c652077696c6c2068617665206e6f2062656172696e67206f6e20746865206f7574636f6d65206f6620746865206d61726b65742e206d61726b65745f69643a2035303037393539207265735f646174613a2070313a20302c2070323a20312c2070333a20302e352e20576865726520703120636f72726573706f6e647320746f204e6f2c20703220746f205965732c20703320746f20756e6b6e6f776e2f35302d35302e2055706461746573206d61646520627920746865207175657374696f6e2063726561746f7220766961207468652062756c6c6574696e20626f61726420617420307836353037304245393134373734363044384137416545623934656639326665303536433266324137206173206465736372696265642062792068747470733a2f2f706f6c79676f6e7363616e2e636f6d2f74782f3078613134663031623131356334393133363234666333663530386639363066346465613235323735386537336332386635663037663865313964376263613036362073686f756c6420626520636f6e736964657265642e2c696e697469616c697a65723a6163393933306232616534353561363731623632646538363837366137653835383738323532393400000000"; log_block_number := "0x5a36eff"; block_hash := "0x68d9e4563d2e60d4fc677259759353f92384c5cbb2bb412180b7c777c07cedb5"; log_transaction_hash := "0x51899e19889e0279c2d306a96d5152e443f9276e1d7d9626b05620b1c1373491";
        transaction_index := Some "0x44"%string; log_log_index := "0x28e"; log_removed := false |}]%string |}.
Definition dispute_direct : Fixture :=
  {| fx_hash := "0xc073c2ef2bdff4acd6d0869101b1f643a2e794fe55f37c5f446f111fa619ad83"; fx_from := "0x3ca4d8f59091e1b813c295d601e24c580b5b71c5"; fx_to := "0x2c0367a9db231ddebd88a94b4f6461a6e47c58b1";
     fx_input := "0xfba7f1e300000000000000000000000065070be91477460d8a7aeeb94ef92fe056c2f2a75945535f4f525f4e4f5f51554552590000000000000000000000000000000000000000000000000000000000000000000000000000000000000000006abbfe4d00000000000000000000000000000000000000000000000000000000000000800000000000000000000000000000000000000000000000000000000000000866713a207469746c653a2047616d652048616e64696361703a20566173796c65747320416e6472696920282d312e3529207673204b7572796c656e6b6f204f6c656820282b312e35292c206465736372697074696f6e3a2054686973206d61726b65742072656665727320746f20746865207461626c652074656e6e6973206d61746368206265747765656e20566173796c65747320416e6472696920616e64204b7572796c656e6b6f204f6c656820696e205365746b612043757020556b7261696e65204d656e2c206f726967696e616c6c79207363686564756c656420666f722053657074656d6265722033302c203230323620617420313a3330414d2045542e0a54686973206d61726b65742077696c6c207265736f6c766520746f2022566173796c65747320416e647269692220696620566173796c65747320416e647269692077696e732062792032206f72206d6f72652067616d6573207468616e204b7572796c656e6b6f204f6c65682c206261736564206f6e207468652066696e616c20636f6d706c65746564206d617463682073636f72652e204f74686572776973652c2069742077696c6c207265736f6c766520746f20224b7572796c656e6b6f204f6c65682e220a466f722074686520707572706f736573206f662074686973206d61726b65742c2067616d65206d617267696e2069732063616c63756c61746564207573696e6720746f74616c2067616d657320776f6e206163726f7373207468652066756c6c206d617463682e20416e7920666f7266656974656420706f696e7473206f722067616d65732077696c6c20636f756e7420746f776172642066696e616c20736574746c656d656e742e0a496620746865206d6174636820697320636f6d706c657465642c2074686973206d61726b65742077696c6c207265736f6c7665206261736564206f6e207468652066696e616c20636f6d706c65746564206d617463682073636f72652e204966206120706c6179657220726574697265732c207769746864726177732c2069732064656661756c7465642c206973206469737175616c69666965642c206f7220746865206d61746368206f746865727769736520626567696e7320627574206973206e6f7420636f6d706c657465642c2074686973206d61726b65742077696c6c207265736f6c7665206261736564206f6e20616e79206f7574636f6d6520746861742077617320616c726561647920756e65717569766f63616c6c792064657465726d696e6564206174207468652074696d6520706c61792073746f707065642e0a466f722067616d6520737072656164206d61726b6574732c20616e206f7574636f6d6520697320636f6e736964657265642064657465726d696e656420696620697420776f756c642068617665206265656e2067756172616e746565642068616420746865206d61746368206265656e20706c6179656420746f20636f6d706c6574696f6e207573696e6720746865206d696e696d756d206e756d626572206f66206164646974696f6e616c2067616d65732072657175697265642e20466f72206578616d706c652c20696620706c61792073746f70732077697468206f6e6520706c61796572206c656164696e6720322d3020696e2067616d657320696e206120626573742d6f662d35206d617463682c20746865206d696e696d756d20636f6d706c6574696f6e20776f756c6420626520332d3020696e2067616d65733b20616e792067616d6520737072656164206f7574636f6d6520616c72656164792067756172616e7465656420756e6465722074686174206d696e696d756d20636f6d706c6574696f6e2077696c6c207265736f6c7665206163636f7264696e676c792c207768696c6520756e64657465726d696e656420737072656164732077696c6c207265736f6c76652035302d35302e0a4966206e656974686572206f7574636f6d652077617320616c72656164792064657465726d696e6564206174207468652074696d6520706c61792073746f707065642c2074686973206d61726b65742077696c6c207265736f6c76652035302d35302e20496620746865206d617463682069732063616e63656c6564206265666f726520706c617920626567696e73206f722064656c61796564206265796f6e64203720646179732066726f6d20746865207363686564756c6564206461746520776974686f757420706c617920626567696e6e696e672c2074686973206d61726b65742077696c6c207265736f6c76652035302d35302e0a5265736f6c7574696f6e2077696c6c206265206261736564206f6e206f6666696369616c205365746b612043757020726573756c74732e206d61726b65745f69643a2035313335373934207265735f646174613a2070313a20302c2070323a20312c2070333a20302e352e20576865726520703120636f72726573706f6e647320746f204b7572796c656e6b6f204f6c65682c20703220746f20566173796c65747320416e647269692c20703320746f20756e6b6e6f776e2f35302d35302e2055706461746573206d61646520627920746865207175657374696f6e2063726561746f7220766961207468652062756c6c6574696e20626f61726420617420307836353037304245393134373734363044384137416545623934656639326665303536433266324137206173206465736372696265642062792068747470733a2f2f706f6c79676f6e7363616e2e636f6d2f74782f3078613134663031623131356334393133363234666333663530386639363066346465613235323735386537336332386635663037663865313964376263613036362073686f756c6420626520636f6e736964657265642e2c696e697469616c697a65723a616339393330623261653435356136373162363264653836383736613765383538373832353239340000000000000000000000000000000000000000000000000000";
     fx_logs :=
       [{| address := "0x2c0367a9db231ddebd88a94b4f6461a6e47c58b1"; topics := ["0x5165909c3d1c01c5d1e121ac6f6d01dda1ba24bc9e1f975b5a375339c15be7f3"; "0x00000000000000000000000065070be91477460d8a7aeeb94ef92fe056c2f2a7"; "0x000000000000000000000000a0b6210f5b522b97bbce9b8e617627105c0e3891"; "0x0000000000000000000000003ca4d8f59091e1b813c295d601e24c580b5b71c5"]; data := "0x5945535f4f525f4e4f5f51554552590000000000000000000000000000000000000000000000000000000000000000000000000000000000000000006abbfe4d000000000000000000000000000000000000000000000000000000000000008000000000000000000000000000000000000000000000000000000000000000000000000000000000000000000000000000000000000000000000000000000866713a207469746c653a2047616d652048616e64696361703a20566173796c65747320416e6472696920282d312e3529207673204b7572796c656e6b6f204f6c656820282b312e35292c206465736372697074696f6e3a2054686973206d61726b65742072656665727320746f20746865207461626c652074656e6e6973206d61746368206265747765656e20566173796c65747320416e6472696920616e64204b7572796c656e6b6f204f6c656820696e205365746b612043757020556b7261696e65204d656e2c206f726967696e616c6c79207363686564756c656420666f722053657074656d6265722033302c203230323620617420313a3330414d2045542e0a54686973206d61726b65742077696c6c207265736f6c766520746f2022566173796c65747320416e647269692220696620566173796c65747320416e647269692077696e732062792032206f72206d6f72652067616d6573207468616e204b7572796c656e6b6f204f6c65682c206261736564206f6e207468652066696e616c20636f6d706c65746564206d617463682073636f72652e204f74686572776973652c2069742077696c6c207265736f6c766520746f20224b7572796c656e6b6f204f6c65682e220a466f722074686520707572706f736573206f662074686973206d61726b65742c2067616d65206d617267696e2069732063616c63756c61746564207573696e6720746f74616c2067616d657320776f6e206163726f7373207468652066756c6c206d617463682e20416e7920666f7266656974656420706f696e7473206f722067616d65732077696c6c20636f756e7420746f776172642066696e616c20736574746c656d656e742e0a496620746865206d6174636820697320636f6d706c657465642c2074686973206d61726b65742077696c6c207265736f6c7665206261736564206f6e207468652066696e616c20636f6d706c65746564206d617463682073636f72652e204966206120706c6179657220726574697265732c207769746864726177732c2069732064656661756c7465642c206973206469737175616c69666965642c206f7220746865206d61746368206f746865727769736520626567696e7320627574206973206e6f7420636f6d706c657465642c2074686973206d61726b65742077696c6c207265736f6c7665206261736564206f6e20616e79206f7574636f6d6520746861742077617320616c726561647920756e65717569766f63616c6c792064657465726d696e6564206174207468652074696d6520706c61792073746f707065642e0a466f722067616d6520737072656164206d61726b6574732c20616e206f7574636f6d6520697320636f6e736964657265642064657465726d696e656420696620697420776f756c642068617665206265656e2067756172616e746565642068616420746865206d61746368206265656e20706c6179656420746f20636f6d706c6574696f6e207573696e6720746865206d696e696d756d206e756d626572206f66206164646974696f6e616c2067616d65732072657175697265642e20466f72206578616d706c652c20696620706c61792073746f70732077697468206f6e6520706c61796572206c656164696e6720322d3020696e2067616d657320696e206120626573742d6f662d35206d617463682c20746865206d696e696d756d20636f6d706c6574696f6e20776f756c6420626520332d3020696e2067616d65733b20616e792067616d6520737072656164206f7574636f6d6520616c72656164792067756172616e7465656420756e6465722074686174206d696e696d756d20636f6d706c6574696f6e2077696c6c207265736f6c7665206163636f7264696e676c792c207768696c6520756e64657465726d696e656420737072656164732077696c6c207265736f6c76652035302d35302e0a4966206e656974686572206f7574636f6d652077617320616c72656164792064657465726d696e6564206174207468652074696d6520706c61792073746f707065642c2074686973206d61726b65742077696c6c207265736f6c76652035302d35302e20496620746865206d617463682069732063616e63656c6564206265666f726520706c617920626567696e73206f722064656c61796564206265796f6e64203720646179732066726f6d20746865207363686564756c6564206461746520776974686f757420706c617920626567696e6e696e672c2074686973206d61726b65742077696c6c207265736f6c76652035302d35302e0a5265736f6c7574696f6e2077696c6c206265206261736564206f6e206f6666696369616c205365746b612043757020726573756c74732e206d61726b65745f69643a2035313335373934207265735f646174613a2070313a20302c2070323a20312c2070333a20302e352e20576865726520703120636f72726573706f6e647320746f204b7572796c656e6b6f204f6c65682c20703220746f20566173796c65747320416e647269692c20703320746f20756e6b6e6f776e2f35302d35302e2055706461746573206d61646520627920746865207175657374696f6e2063726561746f7220766961207468652062756c6c6574696e20626f61726420617420307836353037304245393134373734363044384137416545623934656639326665303536433266324137206173206465736372696265642062792068747470733a2f2f706f6c79676f6e7363616e2e636f6d2f74782f3078613134663031623131356334393133363234666333663530386639363066346465613235323735386537336332386635663037663865313964376263613036362073686f756c6420626520636f6e736964657265642e2c696e697469616c697a65723a616339393330623261653435356136373162363264653836383736613765383538373832353239340000000000000000000000000000000000000000000000000000"; log_block_number := "0x5a4ef78"; block_hash := "0x5698196bd10f0c6d581690169a5cac5f6c9dcc897b493b5052d1cf7ac1ff7218"; log_transaction_hash := "0xc073c2ef2bdff4acd6d0869101b1f643a2e794fe55f37c5f446f111fa619ad83";
        transaction_index := Some "0x32"%string; log_log_index := "0x95"; log_removed := false |}]%string |}.

(** [hex::decode(text.trim_start_matches("0x")).unwrap()] *)
Definition unhex (text : string) : Test unit bytes := expect (hex_decode (trim_start_matches "0x" text)).

(** ** [mempool/calldata.rs] *)

(** The log forged from the [i]-th call next to the real one. *)
Definition both (fx : Fixture) (i : nat) (call : OracleCall) (real : RpcLog) : Test unit (UmaEvent * UmaEvent) :=
  from ← unhex (fx_from fx);
  a ← unwrap (decode_signal_log (synth_log call (fx_hash fx) (Z.of_nat i) (fx_to fx) from) 1 [] true);
  b ← unwrap (decode_signal_log real 1 [] true);
  assert (bool_decide (event_kind a = event_kind b)) ;; assert (event_market_id a =? event_market_id b) ;; mret (a, b).

Definition check_fixture (fx : Fixture) (expect_calls : nat) : T :=
  input ← unhex (fx_input fx);
  let calls := decode_input input in
  assert (length calls =? expect_calls)%nat ;; assert (length (fx_logs fx) =? expect_calls)%nat ;;
  for_each (combine (seq 0 expect_calls) (combine calls (fx_logs fx))) (fun '(i, (call, real)) =>
    '(a, b) ← both fx i call real;
    assert (eqb (event_request a) (event_request b)) ;;
    assert (eqb (transaction_hash (event_chain a)) (transaction_hash (event_chain b)))).

Definition direct_propose_matches_onchain_log : T := check_fixture propose_direct 1.
Definition multicall_proposes_match_onchain_logs : T := check_fixture propose_multicall 2.

Definition direct_dispute_matches_onchain_log_request : T :=
  input ← unhex (fx_input dispute_direct);
  let calls := decode_input input in
  assert (length calls =? 1)%nat ;;
  call ← expect (head calls); real ← expect (head (fx_logs dispute_direct));
  assert (bool_decide (kind call = CallDispute)) ;;
  '(a, b) ← both dispute_direct 0 call real;
  assert (eqb (req_condition_id (event_request a)) (req_condition_id (event_request b))) ;;
  assert (eqb (requester (event_request a)) (requester (event_request b))).

Definition unknown_selector_is_ignored : T :=
  assert (length (decode_input [xde; xad; xbe; xef; x00; x00]) =? 0)%nat ;; assert (length (decode_input []) =? 0)%nat.

(** ** [mempool/feed.rs] *)

Definition onchain_key_matches_calldata_key : T :=
  for_each [propose_direct; propose_multicall; dispute_direct] (fun fx =>
    input ← unhex (fx_input fx);
    for_each (combine (decode_input input) (fx_logs fx)) (fun '(call, log) =>
      '(k, key, p) ← expect (parse_onchain log);
      assert (bool_decide (k = kind call)) ;; assert (eqb key (request_key call)) ;;
      assert (negb (bool_decide (k = CallPropose)) || eqb p (price call)))).

Example chain_tests_pass :
  map (fun t => passes t tt)
    [parses_polymarket_business_fields; parses_market_id_when_not_comma_terminated; propose_parser_returns_all_business_fields;
     dispute_parser_returns_all_business_fields; empty_allowlist_accepts_any_emitter; non_empty_allowlist_still_rejects_unknown_emitter;
     derives_verified_polygon_condition_id; neg_risk_event_binary_formula_yields_wrong_condition_id; direct_propose_matches_onchain_log;
     multicall_proposes_match_onchain_logs; direct_dispute_matches_onchain_log_request; unknown_selector_is_ignored;
     onchain_key_matches_calldata_key] = replicate 13 true.
Proof. vm_compute. reflexivity. Qed.
