(* ===== verification/Float64.v ===== *)
(** * Float64: the [f64] arithmetic the program uses

    IEEE 754 binary64 with the Standard Library's executable specification
    ([SpecFloat], precision 53, exponent bound 1024), round to nearest even. *)
From Stdlib Require Import Floats.SpecFloat.
From S2P Require Import Prelude.

Abbreviation f64 := spec_float.

(** [f64::from(u32)], [n as f64] *)
Definition f64_of_Z (z : Z) : f64 := binary_normalize 53 1024 z 0 false.
Definition f64_add (x y : f64) : f64 := SFadd 53 1024 x y.
Definition f64_sub (x y : f64) : f64 := SFsub 53 1024 x y.
Definition f64_mul (x y : f64) : f64 := SFmul 53 1024 x y.
Definition f64_div (x y : f64) : f64 := SFdiv 53 1024 x y.
Definition f64_sqrt (x : f64) : f64 := SFsqrt 53 1024 x.
Definition f64_ltb (x y : f64) : bool := SFltb x y.
(** [x >= y]: false when either is a NaN. *)
Definition f64_geb (x y : f64) : bool := SFleb y x.

(** A decimal literal [num / den]: the quotient of two integers below 2^53 is rounded
    once, as the literal is. *)
Definition f64_lit (num den : Z) : f64 := f64_div (f64_of_Z num) (f64_of_Z den).

(** [x.round() as usize]: half away from zero; negative and NaN to 0, saturating above. *)
Definition f64_round_usize (x : f64) : Z :=
  match x with
  | S754_finite false m e =>
      Z.min (2 ^ 64 - 1)
        (if 0 <=? e then Z.pos m * 2 ^ e else (Z.pos m + 2 ^ (- e - 1)) / 2 ^ (- e))
  | S754_infinity false => 2 ^ 64 - 1
  | _ => 0
  end.

(** [x.floor() as i64]: NaN to 0, saturating. *)
Definition f64_floor_i64 (x : f64) : Z :=
  match x with
  | S754_finite s m e =>
      let v := if s then Z.neg m else Z.pos m in
      Z.max (- 2 ^ 63) (Z.min (2 ^ 63 - 1) (if 0 <=? e then v * 2 ^ e else v / 2 ^ (- e)))
  | S754_infinity s => if s then - 2 ^ 63 else 2 ^ 63 - 1
  | _ => 0
  end.

Lemma f64_floor_i64_range x : - 2 ^ 63 <= f64_floor_i64 x < 2 ^ 63.
Proof. destruct x as [| [] | |s m e]; cbn -[Z.pow]; lia. Qed.

Example f64_lit_1645 : f64_mul (f64_lit 1645 1000) (f64_of_Z 2) = f64_lit 329 100.
Proof. vm_compute. reflexivity. Qed.
Example f64_round_half : f64_round_usize (f64_lit 25 10) = 3 /\ f64_round_usize (f64_lit 249 100) = 2.
Proof. vm_compute. done. Qed.
Example f64_floor_neg : f64_floor_i64 (f64_sub (f64_of_Z 1) (f64_lit 25 10)) = -2 /\ f64_floor_i64 (f64_lit 29 10) = 2.
Proof. vm_compute. done. Qed.
