(* ===== verification/Gate.v ===== *)
(** * Gate: what of the pending calls is pushed ([src/mempool/gate.rs])

    One state per request (requester, question, timestamp): a pending call is pushed at
    most once per request and kind, never after the chain has settled it, only from a
    trusted sender and above the tip floor. *)
From S2P Require Import Prelude Events Calldata Float64.

Record GateConfig := {
  trust_min_n : Z;
  trust_min_rate : f64;
  tip_quantile : f64;
  tip_window_us : Z;
  tip_min_samples : Z;
  state_ttl_us : Z }.

Definition GateConfig_default : GateConfig :=
  {| trust_min_n := 50; trust_min_rate := f64_lit 98 100; tip_quantile := f64_lit 5 100;
     tip_window_us := 3600000000; tip_min_samples := 20; state_ttl_us := 7 * 86400000000 |}.

Inductive Drop : Set :=
| AlreadyProposed | AlreadyDisputed | Duplicate | Conflict | StaleRound | Untrusted | LowTip.

#[global] Instance Drop_eq_dec : EqDecision Drop.
Proof. solve_decision. Defined.
Definition Drop_code (d : Drop) : Z :=
  match d with AlreadyProposed => 0 | AlreadyDisputed => 1 | Duplicate => 2 | Conflict => 3
          | StaleRound => 4 | Untrusted => 5 | LowTip => 6 end.
#[global] Program Instance Drop_countable : Countable Drop :=
  inj_countable Drop_code
    (fun z => head (List.filter (fun d => Drop_code d =? z)
       [AlreadyProposed; AlreadyDisputed; Duplicate; Conflict; StaleRound; Untrusted; LowTip])) _.
Next Obligation. by intros []. Qed.

Inductive Verdict : Set := Emit | Dropped (d : Drop).

#[global] Instance Verdict_eq_dec : EqDecision Verdict.
Proof. solve_decision. Defined.

Record ReqState := {
  emitted_price : option bytes;
  emitted_dispute : bool;
  proposed : option bytes;
  disputed : bool;
  pendings : list (bytes * bytes);
  touched_us : Z }.

Definition ReqState_default : ReqState :=
  {| emitted_price := None; emitted_dispute := false; proposed := None; disputed := false;
     pendings := []; touched_us := 0 |}.

Record SenderStat := { agree : Z; disagree : Z }.
Definition SenderStat_default : SenderStat := {| agree := 0; disagree := 0 |}.

Record Gate := {
  cfg : GateConfig;
  reqs : gmap RequestKey ReqState;
  latest_round : gmap (bytes * bytes) Z;
  senders : gmap bytes SenderStat;
  tips : list (Z * Z);
  tx_tip : gmap string (Z * Z);
  emitted : Z;
  dropped : gmap Drop Z }.

Definition gate_new (c : GateConfig) : Gate :=
  {| cfg := c; reqs := ∅; latest_round := ∅; senders := ∅; tips := []; tx_tip := ∅; emitted := 0; dropped := ∅ |}.

(** The lower bound of the sender's agreement rate, in the code's order of operations. *)
Definition trust_bound (s : SenderStat) : f64 :=
  let n := f64_of_Z (u32_add (agree s) (disagree s)) in
  let p := f64_div (f64_add (f64_of_Z (agree s)) (f64_of_Z 1)) (f64_add n (f64_of_Z 2)) in
  f64_sub p (f64_mul (f64_lit 1645 1000)
    (f64_sqrt (f64_div (f64_mul p (f64_sub (f64_of_Z 1) p)) (f64_add n (f64_of_Z 3))))).

Definition trusted (sender : bytes) (g : Gate) : bool :=
  let s := default SenderStat_default (senders g !! sender) in
  if u32_add (agree s) (disagree s) <? trust_min_n (cfg g) then false
  else f64_geb (trust_bound s) (trust_min_rate (cfg g)).

Fixpoint expire_tips (window now : Z) (l : list (Z * Z)) : list (Z * Z) :=
  match l with
  | (t, g) :: l' => if window <? sat_sub now t then expire_tips window now l' else l
  | [] => []
  end.

(** [tip_floor]: the remaining tips and the floor.  The index is in range for a quantile
    in [0, 1] (the code panics beyond). *)
Definition tip_floor (now : Z) (g : Gate) : option Z * list (Z * Z) :=
  let rest := expire_tips (tip_window_us (cfg g)) now (tips g) in
  if zlen rest <? tip_min_samples (cfg g) then (None, rest) else
  let v := merge_sort Z.le (map snd rest) in
  (Some (nth (Z.to_nat (f64_round_usize (f64_mul (f64_of_Z (zlen v - 1)) (tip_quantile (cfg g))))) v 0), rest).

Definition count_drop (why : Drop) (g : Gate) : Gate :=
  {| cfg := cfg g; reqs := reqs g; latest_round := latest_round g; senders := senders g; tips := tips g;
     tx_tip := tx_tip g; emitted := emitted g;
     dropped := <[why := u64_add (default 0 (dropped g !! why)) 1]> (dropped g) |}.

Definition drop_call (why : Drop) (g : Gate) : Verdict * Gate := (Dropped why, count_drop why g).

(** The decision on a request's state: the verdict and the new state. *)
Definition decide_call (call : OracleCall) (sender : bytes) (tip_gwei : Z) (floor : option Z) (trust : bool)
    (st : ReqState) : Verdict * ReqState :=
  let low := match floor with Some f => tip_gwei <? f | None => false end in
  match kind call with
  | CallPropose =>
      let st := {| emitted_price := emitted_price st; emitted_dispute := emitted_dispute st; proposed := proposed st;
                   disputed := disputed st;
                   pendings := if (length (pendings st) <? 32)%nat then pendings st ++ [(sender, price call)] else pendings st;
                   touched_us := touched_us st |} in
      if disputed st then (Dropped AlreadyDisputed, st)
      else match proposed st with
      | Some _ => (Dropped AlreadyProposed, st)
      | None =>
          match emitted_price st with
          | Some p => (Dropped (if decide (p = price call) then Duplicate else Conflict), st)
          | None =>
              if negb trust then (Dropped Untrusted, st)
              else if low then (Dropped LowTip, st)
              else (Emit, {| emitted_price := Some (price call); emitted_dispute := emitted_dispute st;
                             proposed := proposed st; disputed := disputed st; pendings := pendings st;
                             touched_us := touched_us st |})
          end
      end
  | CallDispute =>
      if disputed st then (Dropped AlreadyDisputed, st)
      else if emitted_dispute st then (Dropped Duplicate, st)
      else if low then (Dropped LowTip, st)
      else (Emit, {| emitted_price := emitted_price st; emitted_dispute := true; proposed := proposed st;
                     disputed := disputed st; pendings := pendings st; touched_us := touched_us st |})
  end.

Definition touch (now : Z) (st : ReqState) : ReqState :=
  {| emitted_price := emitted_price st; emitted_dispute := emitted_dispute st; proposed := proposed st;
     disputed := disputed st; pendings := pendings st; touched_us := now |}.

Section Gate.
Context `{EthCodec}.

Definition check (call : OracleCall) (sender : bytes) (tip_gwei : Z) (tx_hash : string) (now : Z) (g : Gate)
  : Verdict * Gate :=
  let g := {| cfg := cfg g; reqs := reqs g; latest_round := latest_round g; senders := senders g; tips := tips g;
              tx_tip := <[tx_hash := (now, tip_gwei)]> (tx_tip g); emitted := emitted g; dropped := dropped g |} in
  let key := request_key call in
  let round := default (key_timestamp key) (latest_round g !! market key) in
  let g := {| cfg := cfg g; reqs := reqs g; latest_round := <[market key := round]> (latest_round g);
              senders := senders g; tips := tips g; tx_tip := tx_tip g; emitted := emitted g; dropped := dropped g |} in
  if key_timestamp key <? round then drop_call StaleRound g else
  let '(floor, rest) := tip_floor now g in
  let trust := trusted sender g in
  let st := touch now (default ReqState_default (reqs g !! key)) in
  let '(v, st) := decide_call call sender tip_gwei floor trust st in
  let g := {| cfg := cfg g; reqs := <[key := st]> (reqs g);
              latest_round := <[market key := key_timestamp key]> (latest_round g);
              senders := senders g; tips := rest; tx_tip := tx_tip g;
              emitted := match v with Emit => u64_add (emitted g) 1 | _ => emitted g end; dropped := dropped g |} in
  match v with
  | Emit => (Emit, g)
  | Dropped why => drop_call why g
  end.

(** One pending of the confirmed request scores its sender. *)
Definition score (price : bytes) (m : gmap bytes SenderStat) (p : bytes * bytes) : gmap bytes SenderStat :=
  let s := default SenderStat_default (m !! fst p) in
  <[fst p := if decide (snd p = price) then {| agree := u32_add (agree s) 1; disagree := disagree s |}
             else {| agree := agree s; disagree := u32_add (disagree s) 1 |}]> m.

Definition on_confirmed (k : CallKind) (key : RequestKey) (price : bytes) (tx_hash : string) (now : Z) (g : Gate) : Gate :=
  let round := Z.max (default (key_timestamp key) (latest_round g !! market key)) (key_timestamp key) in
  let tips' := match k, tx_tip g !! tx_hash with
               | CallPropose, Some (_, tip) => tips g ++ [(now, tip)]
               | _, _ => tips g
               end in
  let st := touch now (default ReqState_default (reqs g !! key)) in
  let '(st, senders') :=
    match k with
    | CallPropose =>
        match proposed st with
        | None => ({| emitted_price := emitted_price st; emitted_dispute := emitted_dispute st; proposed := Some price;
                      disputed := disputed st; pendings := []; touched_us := touched_us st |},
                   foldl (score price) (senders g) (pendings st))
        | Some _ => (st, senders g)
        end
    | CallDispute => ({| emitted_price := emitted_price st; emitted_dispute := emitted_dispute st; proposed := proposed st;
                         disputed := true; pendings := pendings st; touched_us := touched_us st |}, senders g)
    end in
  {| cfg := cfg g; reqs := <[key := st]> (reqs g); latest_round := <[market key := round]> (latest_round g);
     senders := senders'; tips := tips'; tx_tip := tx_tip g; emitted := emitted g; dropped := dropped g |}.

Definition prune (now : Z) (g : Gate) : Gate :=
  {| cfg := cfg g;
     reqs := filter (fun p => sat_sub now (touched_us (snd p)) < state_ttl_us (cfg g)) (reqs g);
     latest_round := latest_round g; senders := senders g; tips := tips g;
     tx_tip := filter (fun p => sat_sub now (fst (snd p)) < tip_window_us (cfg g)) (tx_tip g);
     emitted := emitted g; dropped := dropped g |}.

Definition trusted_count (g : Gate) : Z := zlen (List.filter (fun s => trusted s g) (map fst (map_to_list (senders g)))).
Definition requests (g : Gate) : Z := Z.of_nat (size (reqs g)).

(** [load_senders] on the decoded file; the keys that are not addresses are skipped. *)
Definition load_sender (m : gmap bytes SenderStat) (e : string * (Z * Z)) : gmap bytes SenderStat :=
  match hex_decode (trim_start_matches "0x" (fst e)) with
  | Some addr =>
      if decide (length addr = 20%nat) then
        let s := default SenderStat_default (m !! addr) in
        <[addr := {| agree := Z.max (agree s) (fst (snd e)); disagree := Z.max (disagree s) (snd (snd e)) |}]> m
      else m
  | None => m
  end.
Definition load_senders (file : list (string * (Z * Z))) (g : Gate) : Gate :=
  {| cfg := cfg g; reqs := reqs g; latest_round := latest_round g; senders := foldl load_sender (senders g) file;
     tips := tips g; tx_tip := tx_tip g; emitted := emitted g; dropped := dropped g |}.
Definition save_senders (g : Gate) : list (string * (Z * Z)) :=
  map (fun e => (hex0x (fst e), (agree (snd e), disagree (snd e)))) (map_to_list (senders g)).

(** What the process does every minute ([bin/mempool-uma.rs]): prune, save the senders, take
    the floor, which drops old tips, and log. *)
Record MinuteLog := { log_emitted : Z; log_dropped : gmap Drop Z; log_requests : Z; log_trusted : Z; log_floor : option Z }.
Definition minute (now : Z) (g : Gate) : list (string * (Z * Z)) * MinuteLog * Gate :=
  let g := prune now g in
  let '(floor, rest) := tip_floor now g in
  (save_senders g,
   {| log_emitted := emitted g; log_dropped := dropped g; log_requests := requests g; log_trusted := trusted_count g; log_floor := floor |},
   {| cfg := cfg g; reqs := reqs g; latest_round := latest_round g; senders := senders g; tips := rest; tx_tip := tx_tip g;
      emitted := emitted g; dropped := dropped g |}).

(** ** Properties *)

(** The request's state forbids pushing a call of this kind. *)
Definition blocked (k : CallKind) (st : ReqState) : bool :=
  match k with
  | CallPropose => disputed st || bool_decide (is_Some (proposed st)) || bool_decide (is_Some (emitted_price st))
  | CallDispute => disputed st || emitted_dispute st
  end.
Definition blocked_at (g : Gate) (key : RequestKey) (k : CallKind) : bool :=
  match reqs g !! key with Some st => blocked k st | None => false end.

Lemma expire_tips_again window now now' l : now <= now' -> 0 <= window ->
  expire_tips window now' (expire_tips window now l) = expire_tips window now' l.
Proof.
  intros Hn Hw. induction l as [|[t tip] l IH]; [done|]. cbn. destruct (window <? sat_sub now t) eqn:E; [|done].
  rewrite IH. rewrite (proj2 (Z.ltb_lt _ _)); [done|]. unfold sat_sub in *. lia.
Qed.

(** The minute's work changes no verdict to come: what trust and floor say is as before, and
    a request is forgotten only when nothing touched it for the retention time. *)
Lemma minute_keeps_verdicts now now' key k g : now <= now' -> 0 <= tip_window_us (cfg g) ->
  let '(_, log, g') := minute now g in
  fst (tip_floor now' g') = fst (tip_floor now' g) /\ (forall s, trusted s g' = trusted s g) /\ latest_round g' = latest_round g
  /\ blocked_at g' key k = blocked_at g key k && match reqs g !! key with
                                                  | Some st => sat_sub now (touched_us st) <? state_ttl_us (cfg g) | None => false end
  /\ log_floor log = fst (tip_floor now g).
Proof.
  intros Hn Hw. unfold minute. destruct (tip_floor now (prune now g)) as [floor rest] eqn:E.
  assert (Er : rest = expire_tips (tip_window_us (cfg g)) now (tips g)).
  { revert E. unfold tip_floor. cbn. by destruct (_ <? _); intros [= _ <-]. }
  split_and!; try done.
  - unfold tip_floor. cbn [cfg tips]. by rewrite Er, expire_tips_again.
  - unfold blocked_at. cbn [reqs prune]. destruct (reqs g !! key) as [st|] eqn:Es.
    + destruct (Z.ltb_spec (sat_sub now (touched_us st)) (state_ttl_us (cfg g))) as [Hl|Hl].
      * rewrite (proj2 (map_lookup_filter_Some _ _ _ _)) by done. by rewrite andb_true_r.
      * rewrite (proj2 (map_lookup_filter_None _ _ _)); [by rewrite andb_false_r|]. right. intros st'. rewrite Es. intros [= <-]. cbn. lia.
    + by rewrite (proj2 (map_lookup_filter_None _ _ _)) by (by left).
  - cbn. change (floor = fst (tip_floor now (prune now g))). by rewrite E.
Qed.

Lemma blocked_default k now : blocked k (touch now ReqState_default) = false.
Proof. by destruct k. Qed.

Lemma blocked_touch k now st : blocked k (touch now st) = blocked k st.
Proof. by destruct k. Qed.

Lemma decide_call_blocked call sender tip floor trust st :
  let '(v, st') := decide_call call sender tip floor trust st in
  (v = Emit <-> blocked (kind call) st = false /\ (kind call = CallPropose -> trust = true)
                /\ match floor with Some f => f <= tip | None => True end)
  /\ (v = Emit -> blocked (kind call) st' = true)
  /\ (forall k, blocked k st = true -> blocked k st' = true).
Proof.
  unfold decide_call, blocked, bool_decide.
  destruct st as [ep ed pr di pe tu]. destruct (kind call), di; simpl.
  all: try (destruct pr as [pp|]; simpl). all: try (destruct ep as [pp|]; simpl). all: try (destruct ed; simpl).
  all: try (destruct trust; simpl). all: try (destruct floor as [f|]; simpl; [destruct (tip <? f) eqn:El; simpl|]).
  all: split_and!; try done. all: try (split; intros Hx; destruct_and?; try done; split_and?; first [done|lia|naive_solver]).
  all: try (intros []; simpl; done).
Qed.

(** The round the market is in when a call arrives. *)
Definition current_round (call : OracleCall) (g : Gate) : Z :=
  default (key_timestamp (request_key call)) (latest_round g !! market (request_key call)).

Lemma check_spec call sender tip tx now g :
  let '(v, g') := check call sender tip tx now g in
  (v = Emit <->
     current_round call g <= key_timestamp (request_key call)
     /\ blocked_at g (request_key call) (kind call) = false
     /\ (kind call = CallPropose -> trusted sender g = true)
     /\ match fst (tip_floor now g) with Some f => f <= tip | None => True end)
  /\ (v = Emit -> blocked_at g' (request_key call) (kind call) = true /\ emitted g' = u64_add (emitted g) 1)
  /\ (forall key k, blocked_at g key k = true -> blocked_at g' key k = true).
Proof.
  unfold check. cbv zeta. cbn [latest_round reqs senders tips tx_tip emitted dropped cfg]. fold (current_round call g).
  destruct (key_timestamp (request_key call) <? current_round call g) eqn:Er.
  { apply Z.ltb_lt in Er. unfold drop_call. split; [|split]; [split; [done|intros [Hle _]; exfalso; revert Er Hle; apply Z.lt_nge]|done|done]. }
  change (tip_floor now _) with (tip_floor now g). destruct (tip_floor now g) as [floor rest].
  change (trusted sender _) with (trusted sender g). cbn [reqs fst].
  set (st0 := touch now (default ReqState_default (reqs g !! request_key call))).
  assert (Hst0 : forall k, blocked k st0 = blocked_at g (request_key call) k).
  { intros k. unfold st0, blocked_at. destruct (reqs g !! request_key call); [apply blocked_touch|apply blocked_default]. }
  pose proof (decide_call_blocked call sender tip floor (trusted sender g) st0) as Hd.
  destruct (decide_call call sender tip floor (trusted sender g) st0) as [v st1].
  destruct Hd as (D1 & D2 & D3). rewrite Hst0 in D1.
  assert (Hat : forall g' key k, reqs g' = <[request_key call := st1]> (reqs g) ->
            blocked_at g' key k = if decide (key = request_key call) then blocked k st1 else blocked_at g key k).
  { intros g' key k E. unfold blocked_at. rewrite E. destruct (decide (key = request_key call)) as [->|Hne].
    - by rewrite lookup_insert_eq.
    - by rewrite lookup_insert_ne. }
  assert (Hmono : forall g', reqs g' = <[request_key call := st1]> (reqs g) ->
            forall key k, blocked_at g key k = true -> blocked_at g' key k = true).
  { intros g' E key k Hb. rewrite (Hat g' key k E). destruct (decide _) as [->|]; [|done]. apply D3. by rewrite Hst0. }
  apply Z.ltb_ge in Er. destruct v as [|why]; unfold drop_call.
  - split; [|split]; [split; [intros _; split; [done|by apply D1]|done]| |by apply Hmono].
    intros _. rewrite Hat by done. rewrite decide_True by done. split; [by apply D2|done].
  - split; [|split]; [|done|by apply Hmono]. split; [done|]. intros (_ & Hc). by apply D1 in Hc.
Qed.

(** The decision.  A pending call is pushed exactly when its round is not older than
    the market's latest, its request's state does not forbid it (nothing of its kind was
    pushed or settled), its sender is trusted (for a proposal), and its tip reaches the
    floor; the request is then marked. *)
Theorem check_emits call sender tip tx now g :
  let '(v, g') := check call sender tip tx now g in
  (v = Emit <->
     current_round call g <= key_timestamp (request_key call)
     /\ blocked_at g (request_key call) (kind call) = false
     /\ (kind call = CallPropose -> trusted sender g = true)
     /\ match fst (tip_floor now g) with Some f => f <= tip | None => True end)
  /\ (v = Emit -> blocked_at g' (request_key call) (kind call) = true /\ emitted g' = u64_add (emitted g) 1)
  /\ (forall key k, blocked_at g key k = true -> blocked_at g' key k = true).
Proof. apply check_spec. Qed.

(** *** Histories *)

Inductive gate_op :=
| Pending (call : OracleCall) (sender : bytes) (tip : Z) (tx : string) (now : Z)
| Confirmed (k : CallKind) (key : RequestKey) (price : bytes) (tx : string) (now : Z)
| Minutely (now : Z).

Definition gate_step (g : Gate) (op : gate_op) : list (RequestKey * CallKind) * Gate :=
  match op with
  | Pending call sender tip tx now =>
      let '(v, g) := check call sender tip tx now g in
      (if decide (v = Emit) then [(request_key call, kind call)] else [], g)
  | Confirmed k key price tx now => ([], on_confirmed k key price tx now g)
  | Minutely now => ([], snd (minute now g))
  end.

(** What a history pushes, in order. *)
Fixpoint gate_run (ops : list gate_op) (g : Gate) : list (RequestKey * CallKind) * Gate :=
  match ops with
  | [] => ([], g)
  | op :: ops => let '(out, g) := gate_step g op in let '(outs, g) := gate_run ops g in (out ++ outs, g)
  end.

Lemma on_confirmed_blocked k key price tx now g :
  blocked_at (on_confirmed k key price tx now g) key k = true
  /\ (k = CallDispute -> blocked_at (on_confirmed k key price tx now g) key CallPropose = true)
  /\ (forall key' k', blocked_at g key' k' = true -> blocked_at (on_confirmed k key price tx now g) key' k' = true).
Proof.
  pose (st1 := touch now (default ReqState_default (reqs g !! key))).
  pose (st2 := match reqs (on_confirmed k key price tx now g) !! key with Some st => st | None => st1 end).
  assert (E : reqs (on_confirmed k key price tx now g) = <[key := st2]> (reqs g)).
  { unfold st2, on_confirmed. fold st1. destruct k; [destruct (proposed st1)|]; cbn [reqs]; by rewrite lookup_insert_eq. }
  assert (Hb : blocked k st2 = true /\ (k = CallDispute -> blocked CallPropose st2 = true)
            /\ (forall k', blocked k' st1 = true -> blocked k' st2 = true)).
  { unfold st2, on_confirmed. fold st1. clearbody st1. destruct k; [destruct (proposed st1) eqn:Ep|]; cbn [reqs];
      rewrite lookup_insert_eq; (split; [|split]); try done.
    - simpl. rewrite Ep. by rewrite orb_true_r.
    - simpl. by rewrite orb_true_r.
    - intros []; simpl; [by rewrite orb_true_r|done].
    - by intros []. }
  assert (Hat : forall key' k', blocked_at (on_confirmed k key price tx now g) key' k'
            = if decide (key' = key) then blocked k' st2 else blocked_at g key' k').
  { intros key' k'. unfold blocked_at. rewrite E. destruct (decide (key' = key)) as [->|Hne].
    - by rewrite lookup_insert_eq.
    - by rewrite lookup_insert_ne. }
  destruct Hb as (B1 & B2 & B3). rewrite !Hat, !decide_True by done. split; [done|]. split; [done|].
  intros key' k' Hg. rewrite Hat. destruct (decide (key' = key)) as [->|]; [|done]. apply B3.
  unfold st1. rewrite blocked_touch. unfold blocked_at in Hg. by destruct (reqs g !! key).
Qed.

(** A step remembers a request unless it is the minute's work and nothing has touched the
    request for the retention time; a history remembers it if all its steps do. *)
Definition keeps (g : Gate) (key : RequestKey) (op : gate_op) : Prop :=
  match op with
  | Minutely now => forall st, reqs g !! key = Some st -> sat_sub now (touched_us st) < state_ttl_us (cfg g)
  | _ => True
  end.
Fixpoint remembers (key : RequestKey) (ops : list gate_op) (g : Gate) : Prop :=
  match ops with [] => True | op :: ops => keeps g key op /\ remembers key ops (snd (gate_step g op)) end.

(** All of a history happens within the retention time from [t0]. *)
Definition op_time (op : gate_op) : Z := match op with Pending _ _ _ _ now | Confirmed _ _ _ _ now | Minutely now => now end.
Definition within (t0 : Z) (ops : list gate_op) (g : Gate) : Prop :=
  Forall (fun op => t0 <= op_time op < t0 + state_ttl_us (cfg g)) ops.

Lemma minute_reqs now g key : reqs (snd (minute now g)) !! key =
  match reqs g !! key with Some st => if sat_sub now (touched_us st) <? state_ttl_us (cfg g) then Some st else None | None => None end.
Proof.
  assert (E : reqs (snd (minute now g)) = reqs (prune now g)) by (unfold minute; by destruct (tip_floor _ _)). rewrite E. cbn [reqs prune].
  destruct (reqs g !! key) as [st|] eqn:Es; [|apply map_lookup_filter_None; by left]. destruct (Z.ltb_spec (sat_sub now (touched_us st)) (state_ttl_us (cfg g))).
  - by apply map_lookup_filter_Some.
  - apply map_lookup_filter_None. right. intros st'. rewrite Es. intros [= <-]. cbn. lia.
Qed.

Lemma minute_keeps_blocked now g key k : keeps g key (Minutely now) -> blocked_at g key k = true -> blocked_at (snd (minute now g)) key k = true.
Proof.
  unfold keeps, blocked_at. rewrite minute_reqs. destruct (reqs g !! key) as [st|]; [|done]. intros Hk Hb. specialize (Hk st eq_refl).
  by replace (_ <? _) with true by lia.
Qed.

Lemma gate_step_spec op g :
  let '(out, g') := gate_step g op in
  (forall key k, (key, k) ∈ out -> blocked_at g key k = false /\ blocked_at g' key k = true)
  /\ NoDup out /\ (forall key k, keeps g key op -> blocked_at g key k = true -> blocked_at g' key k = true).
Proof.
  destruct op as [call sender tip tx now|k key price tx now|now]; cbn [gate_step].
  - pose proof (check_spec call sender tip tx now g) as Hc.
    destruct (check call sender tip tx now g) as [v g']. destruct Hc as (C1 & C2 & C3).
    destruct (decide (v = Emit)) as [Hv|Hv]; split_and!; try done.
    + intros key k Hin. apply list_elem_of_singleton in Hin. injection Hin as -> ->.
      split; [by apply C1 in Hv as (_ & ? & _)|by apply C2].
    + apply NoDup_singleton.
    + intros key k _. apply C3.
    + intros key k Hin. by apply elem_of_nil in Hin.
    + constructor.
    + intros key k _. apply C3.
  - split_and!; [intros ? ? Hin; by apply elem_of_nil in Hin|constructor|intros ? ? _; apply on_confirmed_blocked].
  - split_and!; [intros ? ? Hin; by apply elem_of_nil in Hin|constructor|intros ? ?; apply minute_keeps_blocked].
Qed.

(** A request is not pushed again, in a history that remembers it. *)
Definition once {A} (r : A) (out : list A) : Prop := forall pre post, out = pre ++ r :: post -> r ∉ post.

Lemma once_NoDup {A} (out : list A) : (forall r, once r out) -> NoDup out.
Proof.
  induction out as [|r out IH]; intros Ho; [constructor|]. apply NoDup_cons. split; [by apply (Ho r [] out)|].
  apply IH. intros r' pre post ->. by apply (Ho r' (r :: pre) post).
Qed.

Lemma once_app {A} (r : A) (o1 o2 : list A) : NoDup o1 -> (r ∈ o1 -> r ∉ o2) -> once r o2 -> once r (o1 ++ o2).
Proof.
  intros Hn Hd Ho pre post E. apply app_eq_inv in E as [(l & -> & E)|(l & -> & E)].
  - destruct l as [|x l].
    + by apply (Ho [] post).
    + injection E as <- ->. apply NoDup_app in Hn as (_ & _ & Hn). apply NoDup_cons in Hn as [Hn _].
      rewrite not_elem_of_app. split; [done|]. apply Hd. apply elem_of_app. right. by left.
  - by apply (Ho l post).
Qed.

Lemma gate_run_spec key k ops : forall g, remembers key ops g ->
  let '(out, g') := gate_run ops g in
  ((key, k) ∈ out -> blocked_at g key k = false) /\ once (key, k) out /\ (blocked_at g key k = true -> blocked_at g' key k = true).
Proof.
  induction ops as [|op ops IH]; intros g Hm; cbn [gate_run].
  { split; [intros Hin; by apply elem_of_nil in Hin|]. split; [|done]. by intros [] ? ?. }
  destruct Hm as [Hk Hm]. pose proof (gate_step_spec op g) as Hs. destruct (gate_step g op) as [out g1]. destruct Hs as (S1 & S2 & S3).
  specialize (IH g1 Hm). destruct (gate_run ops g1) as [outs g2]. destruct IH as (I1 & I2 & I3). split; [|split; [|auto]].
  - intros [Hin|Hin]%elem_of_app; [by apply S1|]. apply I1 in Hin.
    apply not_true_iff_false. intros Hb. apply S3 in Hb; [congruence|done].
  - apply once_app; [done| |done]. intros Hin Hin2. apply I1 in Hin2. apply S1 in Hin as [_ Hb]. congruence.
Qed.

(** At most one push.  Over any history of pending calls, confirmations and minutes that
    remembers a request, it is pushed at most once as a proposal and at most once as a
    dispute. *)
Theorem pushes_at_most_once ops g key k : remembers key ops g -> once (key, k) (fst (gate_run ops g)).
Proof. intros Hm. pose proof (gate_run_spec key k ops g Hm) as Hr. destruct (gate_run ops g). by destruct Hr as (_ & ? & _). Qed.

(** *** Short histories *)

(** The request is there and was touched since [t0]. *)
Definition recent (t0 : Z) (g : Gate) (key : RequestKey) : Prop := exists st, reqs g !! key = Some st /\ t0 <= touched_us st.

Lemma decide_call_touched call sender tip floor trust st : touched_us (snd (decide_call call sender tip floor trust st)) = touched_us st.
Proof.
  unfold decide_call. destruct (kind call), (disputed st); cbn; try done.
  - destruct (proposed st); [done|]. destruct (emitted_price st); [done|]. destruct trust; [|done]. cbn. by destruct (match floor with Some _ => _ | None => _ end).
  - destruct (emitted_dispute st); [done|]. by destruct (match floor with Some _ => _ | None => _ end).
Qed.

Lemma check_reqs call sender tip tx now g : let '(v, g') := check call sender tip tx now g in
  cfg g' = cfg g /\ ((v <> Emit /\ reqs g' = reqs g) \/ exists st, reqs g' = <[request_key call := st]> (reqs g) /\ touched_us st = now).
Proof.
  unfold check. cbv zeta. cbn [latest_round reqs senders tips tx_tip emitted dropped cfg].
  destruct (_ <? _); [split; [done|by left]|]. destruct (tip_floor _ _) as [floor rest]. cbn [reqs].
  pose proof (decide_call_touched call sender tip floor
    (trusted sender {| cfg := cfg g; reqs := reqs g; latest_round := <[market (request_key call):=default (key_timestamp (request_key call)) (latest_round g !! market (request_key call))]> (latest_round g);
                       senders := senders g; tips := tips g; tx_tip := <[tx:=(now, tip)]> (tx_tip g); emitted := emitted g; dropped := dropped g |})
    (touch now (default ReqState_default (reqs g !! request_key call)))) as Ht.
  destruct (decide_call _ _ _ _ _ _) as [v st]. cbn [snd] in Ht. destruct v; (split; [done|]); right; by exists st.
Qed.

Lemma recent_insert t0 (m : gmap RequestKey ReqState) g key key' st : reqs g = <[key' := st]> m -> t0 <= touched_us st ->
  (exists st, m !! key = Some st /\ t0 <= touched_us st) \/ key = key' -> recent t0 g key.
Proof.
  intros E Ht Hr. unfold recent. rewrite E. destruct (decide (key = key')) as [->|Hne]; [exists st; by rewrite lookup_insert_eq|].
  rewrite lookup_insert_ne by done. by destruct Hr.
Qed.

Lemma on_confirmed_reqs k key price tx now g : cfg (on_confirmed k key price tx now g) = cfg g
  /\ exists st, reqs (on_confirmed k key price tx now g) = <[key := st]> (reqs g) /\ touched_us st = now.
Proof. unfold on_confirmed. split; [by destruct k; [destruct (proposed _)|]|]. destruct k; [destruct (proposed _)|]; eexists; (split; [reflexivity|done]). Qed.

Lemma gate_step_recent t0 op g key : t0 <= op_time op < t0 + state_ttl_us (cfg g) ->
  let '(out, g') := gate_step g op in
  cfg g' = cfg g /\ (recent t0 g key -> keeps g key op /\ recent t0 g' key) /\ (forall k, (key, k) ∈ out -> recent t0 g' key).
Proof.
  destruct op as [call sender tip tx now|k key' price tx now|now]; cbn [gate_step op_time]; intros Hw.
  - pose proof (check_reqs call sender tip tx now g) as Hc. destruct (check call sender tip tx now g) as [v g']. destruct Hc as [Hc Hr].
    split; [done|]. split.
    + intros Hg. split; [done|]. destruct Hr as [[_ E]|(st & E & Ht)]; [unfold recent; by rewrite E|].
      eapply recent_insert; [exact E|lia|by left].
    + intros k Hin. destruct (decide (v = Emit)) as [Hv|Hv]; [|by apply elem_of_nil in Hin]. apply list_elem_of_singleton in Hin. injection Hin as -> ->.
      destruct Hr as [[? _]|(st & E & Ht)]; [done|]. eapply recent_insert; [exact E|lia|by right].
  - destruct (on_confirmed_reqs k key' price tx now g) as (Hc & st & E & Ht). split; [done|]. split.
    + intros Hg. split; [done|]. eapply recent_insert; [exact E|lia|by left].
    + intros ? Hin. by apply elem_of_nil in Hin.
  - split; [unfold minute; by destruct (tip_floor _ _)|]. split; [|intros ? Hin; by apply elem_of_nil in Hin].
    intros (st & Hst & Ht). assert (Hlt : sat_sub now (touched_us st) < state_ttl_us (cfg g)) by (unfold sat_sub; lia). split.
    + intros st'. rewrite Hst. by intros [= <-].
    + exists st. rewrite minute_reqs, Hst. by replace (_ <? _) with true by lia.
Qed.

Lemma within_remembers t0 key ops : forall g, within t0 ops g -> recent t0 g key -> remembers key ops g.
Proof.
  induction ops as [|op ops IH]; intros g Hw Hr; [done|]. apply Forall_cons in Hw as [Ho Hw]. pose proof (gate_step_recent t0 op g key Ho) as Hs.
  cbn [remembers]. destruct (gate_step g op) as [out g']. destruct Hs as (Hc & Hs & _). destruct (Hs Hr) as [Hk Hr']. split; [done|].
  apply IH; [|done]. unfold within. cbn [snd]. by rewrite Hc.
Qed.

Lemma within_once t0 ops : forall g, within t0 ops g -> NoDup (fst (gate_run ops g)).
Proof.
  induction ops as [|op ops IH]; intros g Hw; [constructor|]. apply Forall_cons in Hw as [Ho Hw].
  assert (Hsr := fun key => gate_step_recent t0 op g key Ho). pose proof (gate_step_spec op g) as Hs. cbn [gate_run].
  destruct (gate_step g op) as [out g']. destruct Hs as (S1 & S2 & _). assert (Hc : cfg g' = cfg g) by apply (Hsr {| key_requester := []; key_question_id := []; key_timestamp := 0 |}).
  assert (Hw' : within t0 ops g') by (unfold within; by rewrite Hc). specialize (IH g' Hw').
  assert (Hx : forall key k, (key, k) ∈ out -> (key, k) ∉ fst (gate_run ops g')).
  { intros key k Hin Hin2. destruct (Hsr key) as (_ & _ & Hr). specialize (Hr k Hin).
    pose proof (gate_run_spec key k ops g' (within_remembers t0 key ops g' Hw' Hr)) as Hg. destruct (gate_run ops g') as [outs g2].
    destruct Hg as [Hg _]. apply Hg in Hin2. apply S1 in Hin as [_ Hb]. congruence. }
  destruct (gate_run ops g') as [outs g2]. cbn [fst] in *. apply NoDup_app. split; [done|]. split; [|done]. intros [key k]. apply Hx.
Qed.

(** Nothing late.  After the chain confirmed a request's proposal no proposal of it
    is pushed, and after it confirmed a dispute neither kind is, whatever follows, while the
    gate remembers the request. *)
Theorem nothing_after_confirmation k key price tx now g ops :
  remembers key ops (on_confirmed k key price tx now g) ->
  let out := fst (gate_run ops (on_confirmed k key price tx now g)) in
  ((key, k) ∉ out) /\ (k = CallDispute -> (key, CallPropose) ∉ out).
Proof.
  intros Hm. destruct (on_confirmed_blocked k key price tx now g) as (B1 & B2 & _).
  assert (Hr := fun k' => gate_run_spec key k' ops (on_confirmed k key price tx now g) Hm).
  destruct (gate_run ops (on_confirmed k key price tx now g)) as [out g']. cbn [fst]. split.
  - intros Hin. apply Hr in Hin. congruence.
  - intros Hk Hin. apply Hr in Hin. rewrite B2 in Hin by done. congruence.
Qed.

(** Counting the pendings of a sender that agree with a price, and that do not. *)
Definition votes (b : bool) (price sender : bytes) (l : list (bytes * bytes)) : Z :=
  zlen (List.filter (fun p => bool_decide (fst p = sender) && eqb b (bool_decide (snd p = price))) l).

Definition stat (m : gmap bytes SenderStat) (sender : bytes) : SenderStat := default SenderStat_default (m !! sender).

Lemma score_all price sender l : forall m,
  0 <= agree (stat m sender) < 2 ^ 32 -> 0 <= disagree (stat m sender) < 2 ^ 32 ->
  agree (stat (foldl (score price) m l) sender) = (agree (stat m sender) + votes true price sender l) mod 2 ^ 32
  /\ disagree (stat (foldl (score price) m l) sender) = (disagree (stat m sender) + votes false price sender l) mod 2 ^ 32.
Proof.
  induction l as [|[s p] l IH]; intros m Ha Hd; cbn [foldl].
  { unfold votes. cbn. rewrite !Z.add_0_r, !Z.mod_small by done. done. }
  assert (Hs : stat (score price m (s, p)) sender =
    if decide (s = sender) then
      if decide (p = price) then {| agree := u32_add (agree (stat m sender)) 1; disagree := disagree (stat m sender) |}
      else {| agree := agree (stat m sender); disagree := u32_add (disagree (stat m sender)) 1 |}
    else stat m sender).
  { unfold stat, score. cbn [fst snd]. destruct (decide (s = sender)) as [->|Hne].
    - by rewrite lookup_insert_eq.
    - by rewrite lookup_insert_ne. }
  assert (Hv : forall b, votes b price sender ((s, p) :: l)
    = (if decide (s = sender) then if decide (eqb b (bool_decide (p = price)) = true) then 1 else 0 else 0) + votes b price sender l).
  { intros b. unfold votes. cbn [List.filter fst snd].
    destruct (decide (s = sender)) as [Hs1|Hs1]; [rewrite bool_decide_true by done|rewrite bool_decide_false by done]; cbn [andb]; [|done].
    destruct (eqb b (bool_decide (p = price))); [rewrite decide_True by done; by rewrite zlen_cons|by rewrite decide_False by done]. }
  assert (Hw : forall x, 0 <= u32_add x 1 < 2 ^ 32) by (intros; apply Z.mod_pos_bound; lia).
  destruct (IH (score price m (s, p))) as [I1 I2]; [rewrite Hs; destruct (decide (s = sender)), (decide (p = price)); cbn [agree disagree]; auto ..|].
  rewrite !Hv, I1, I2, Hs. destruct (decide (s = sender)); [|done].
  destruct (decide (p = price)); [rewrite bool_decide_true by done|rewrite bool_decide_false by done]; cbn [eqb agree disagree];
    unfold u32_add; rewrite ?Zplus_mod_idemp_l; split; f_equal; simpl; lia.
Qed.

(** Scoring.  The first confirmed proposal of a request settles its pendings once:
    every sender gains one agreement per pending with the confirmed price and one
    disagreement per other pending, and the request keeps no pendings. *)
Theorem confirmation_scores key price tx now g sender :
  let st := default ReqState_default (reqs g !! key) in
  proposed st = None ->
  0 <= agree (stat (senders g) sender) < 2 ^ 32 -> 0 <= disagree (stat (senders g) sender) < 2 ^ 32 ->
  let g' := on_confirmed CallPropose key price tx now g in
  agree (stat (senders g') sender) = (agree (stat (senders g) sender) + votes true price sender (pendings st)) mod 2 ^ 32
  /\ disagree (stat (senders g') sender)
     = (disagree (stat (senders g) sender) + votes false price sender (pendings st)) mod 2 ^ 32
  /\ option_map pendings (reqs g' !! key) = Some [].
Proof.
  intros st Hp Ha Hd g'. unfold g', on_confirmed. fold st. change (proposed (touch now st)) with (proposed st).
  rewrite Hp. cbn [senders reqs]. change (pendings (touch now st)) with (pendings st).
  rewrite lookup_insert_eq. split_and!; [by apply score_all|by apply score_all|done].
Qed.
End Gate.

(** ** Instances *)

Module GateSample.
#[local] Instance codec : EthCodec := sample_codec.
Definition alice : bytes := replicate 20 xaa.
Definition mallory : bytes := replicate 20 xbb.
Definition price_yes : bytes := replicate 32 x01.
Definition call (ts : Z) : OracleCall :=
  {| kind := CallPropose; call_requester := replicate 20 x10; identifier := replicate 32 x00;
     timestamp := word64 ts; call_ancillary := [x71]; price := price_yes; actor := None |}.
Definition key : RequestKey := request_key (call 1000).
(** Nobody has a record, and no proposal needs one. *)
Definition open_gate : Gate :=
  gate_new {| trust_min_n := 0; trust_min_rate := f64_of_Z 0; tip_quantile := f64_lit 5 100;
              tip_window_us := 10; tip_min_samples := 20; state_ttl_us := 100 |}.
Definition pended : Gate :=
  snd (check (call 1000) alice 30 "0x01" 1 (snd (check (call 1000) mallory 30 "0x02" 1 open_gate))).
End GateSample.

Lemma confirmation_scores_witness :
  let st := default ReqState_default (reqs GateSample.pended !! GateSample.key) in
  let g' := on_confirmed CallPropose GateSample.key GateSample.price_yes "0x01" 2 GateSample.pended in
  proposed st = None /\ length (pendings st) = 2%nat
  /\ agree (stat (senders g') GateSample.alice) = 1 /\ disagree (stat (senders g') GateSample.alice) = 0
  /\ option_map pendings (reqs g' !! GateSample.key) = Some [].
Proof.
  intros st g'. split; [by vm_compute|]. split; [by vm_compute|].
  destruct (confirmation_scores GateSample.key GateSample.price_yes "0x01" 2 GateSample.pended GateSample.alice)
    as (H1 & H2 & H3).
  - by vm_compute.
  - vm_compute. split; congruence.
  - vm_compute. split; congruence.
  - fold g' in H1, H2, H3. split; [rewrite H1; by vm_compute|]. split; [rewrite H2; by vm_compute|]. exact H3.
Defined.

(** A pending call raises the market's round before the sender is judged: an untrusted
    call with a far timestamp is not pushed, yet every genuine request of the market is
    dropped as stale from then on. *)
Example untrusted_round_blocks :
  let cfg := {| trust_min_n := 50; trust_min_rate := f64_lit 98 100; tip_quantile := f64_lit 5 100;
                tip_window_us := 10; tip_min_samples := 20; state_ttl_us := 100 |} in
  let '(v1, g1) := check (H := sample_codec) (GateSample.call 999999) GateSample.mallory 30 "0x02" 1 (gate_new cfg) in
  let '(v2, _) := check (H := sample_codec) (GateSample.call 1000) GateSample.alice 30 "0x01" 2 (prune 1000 g1) in
  v1 = Dropped Untrusted /\ v2 = Dropped StaleRound.
Proof. by vm_compute. Qed.
