(* ===== verification/GateTests.v ===== *)
(** * GateTests: the tests of [src/mempool/gate.rs] on the model

    The functions of the source's test module under their names, the gate as the state. *)
From S2P Require Import Prelude Testing Float64 Events Calldata Keccak Gate.

#[local] Existing Instance ethereum.
Abbreviation T := (Test Gate).

(** [.. GateConfig::default()]. *)
Definition gate_config (trust_min_n : Z) (trust_min_rate : f64) (tip_min_samples : Z) : GateConfig :=
  let d := GateConfig_default in
  {| trust_min_n := trust_min_n; trust_min_rate := trust_min_rate; tip_quantile := tip_quantile d; tip_window_us := tip_window_us d;
     tip_min_samples := tip_min_samples; state_ttl_us := state_ttl_us d |}.
Definition default_samples : Z := tip_min_samples GateConfig_default.

Definition call (kind : CallKind) (ts price : Z) : OracleCall :=
  {| kind := kind; call_requester := replicate 20 x01; identifier := replicate 32 x02; timestamp := replicate 24 x00 ++ be_encode 8 ts;
     call_ancillary := bytes_of_str "q: test"; price := replicate 31 x00 ++ [byte_of price]; actor := None |}.

(** [senders.insert([9; 20], ..)]; [g.cfg.tip_min_samples] as given. *)
Definition trusted_with (tip_min_samples : Z) : Gate :=
  let g := gate_new (gate_config 1 (f64_lit 5 10) tip_min_samples) in
  {| cfg := cfg g; reqs := reqs g; latest_round := latest_round g;
     senders := <[replicate 20 x09 := {| agree := 100; disagree := 0 |}]> (senders g); tips := tips g; tx_tip := tx_tip g;
     emitted := emitted g; dropped := dropped g |}.
Definition trusted_gate : Gate := trusted_with default_samples.

Definition checks (c : OracleCall) (sender : Byte.byte) (tip : Z) (tx : string) (now : Z) (v : Verdict) : T unit :=
  r ← calling (check c (replicate 20 sender) tip tx now); assert (bool_decide (r = v)).
Definition confirms (k : CallKind) (c : OracleCall) (p : bytes) (tx : string) (now : Z) : T unit :=
  act (on_confirmed k (request_key c) p tx now).

Definition first_pending_emits_then_duplicates_and_conflicts_drop : T unit :=
  act (fun _ => trusted_gate) ;;
  checks (call CallPropose 10 1) x09 100 "0xa" 1 Emit ;;
  checks (call CallPropose 10 1) x09 100 "0xb" 2 (Dropped Duplicate) ;;
  checks (call CallPropose 10 0) x09 100 "0xc" 3 (Dropped Conflict).

Definition pending_after_onchain_proposal_is_late : T unit :=
  act (fun _ => trusted_gate) ;;
  let c := call CallPropose 10 1 in
  confirms CallPropose c (price c) "0xw" 1 ;;
  checks c x09 100 "0xa" 2 (Dropped AlreadyProposed).

Definition new_round_after_dispute_emits_and_old_round_is_stale : T unit :=
  act (fun _ => trusted_gate) ;;
  let old := call CallPropose 10 0 in
  confirms CallPropose old (price old) "0xw" 1 ;;
  confirms CallDispute old (replicate 32 x00) "0xd" 2 ;;
  checks (call CallPropose 20 1) x09 100 "0xa" 3 Emit ;;
  checks (call CallPropose 10 1) x09 100 "0xb" 4 (Dropped StaleRound).

Definition untrusted_and_low_tip_are_dropped : T unit :=
  act (fun _ => gate_new (gate_config 50 (f64_lit 98 100) 3)) ;;
  checks (call CallPropose 10 1) x07 100 "0xa" 1 (Dropped Untrusted) ;;
  act (fun _ => trusted_with 3) ;;
  for_each [(0, 100); (1, 110); (2, 120)] (fun '(i, tip) =>
    let tx := "0x" +:+ fmt_u64 i in
    let c := call CallPropose (100 + i) 1 in
    _ ← calling (check c (replicate 20 x09) tip tx 10);
    confirms CallPropose c (price c) tx 11) ;;
  checks (call CallPropose 500 1) x09 5 "0xz" 12 (Dropped LowTip).

Definition confirmations_score_senders : T unit :=
  act (fun _ => gate_new (gate_config 2 (f64_of_Z 0) default_samples)) ;;
  for_each [1; 2] (fun ts =>
    let c := call CallPropose ts 1 in
    _ ← calling (check c (replicate 20 x05) 100 "0xa" 1);
    confirms CallPropose c (price c) "0xb" 2) ;;
  t ← peek (trusted (replicate 20 x05)); assert t.

Example gate_tests_pass :
  map (fun t => passes t (gate_new GateConfig_default))
    [first_pending_emits_then_duplicates_and_conflicts_drop; pending_after_onchain_proposal_is_late;
     new_round_after_dispute_emits_and_old_round_is_stale; untrusted_and_low_tip_are_dropped; confirmations_score_senders]
  = replicate 5 true.
Proof. vm_compute. reflexivity. Qed.
