(* ===== verification/Feed.v ===== *)
(** * Feed: the two inputs of mempool-uma ([src/mempool/feed.rs])

    A pending line of the P2P node is decoded, filtered by the gate and turned into
    forged logs; the confirmed logs (back-filled over HTTP in chunks of blocks, then
    subscribed to) only update the gate.  The node's JSON lines arrive already parsed
    ([None] where [serde_json] fails), and the clock and the HTTP answers are arguments. *)
From S2P Require Import Prelude Events Calldata Float64 Gate.

Record PendingLine := {
  line_kind : string;
  line_hash : string;
  line_from : string;
  line_to : string;
  line_input : string;
  first_us : Z;
  announce_us : Z;
  line_tip_gwei : Z }.

Section Feed.
Context `{EthCodec}.

Definition addr20 (s : string) : option bytes :=
  b ← hex_decode (trim_start_matches "0x" s);
  if decide (length b = 20%nat) then Some b else None.

(** The calls of one line through the gate, which each asks the clock once: the forged
    logs of those to push.  [i] is the number of the next call. *)
Fixpoint filter_calls (p : PendingLine) (from : bytes) (clock : nat -> Z) (i : nat) (calls : list OracleCall) (g : Gate)
  : list RpcLog * Gate :=
  match calls with
  | [] => ([], g)
  | c :: calls =>
      let '(v, g) := check c from (line_tip_gwei p) (line_hash p) (clock i) g in
      let '(logs, g) := filter_calls p from clock (S i) calls g in
      ((if decide (v = Emit) then [synth_log c (line_hash p) (Z.of_nat i) (line_to p) from] else []) ++ logs, g)
  end.

(** What of a line reaches the gate: the sender and the calls. *)
Definition line_calls (line : option PendingLine) : option (PendingLine * bytes * list OracleCall) :=
  p ← line;
  if negb (String.eqb (line_kind p) "p2p_match") || String.eqb (line_input p) "" then None else
  input ← hex_decode (trim_start_matches "0x" (line_input p));
  from ← addr20 (line_from p);
  match decode_input input with
  | [] => None
  | calls => Some (p, from, calls)
  end.

(** The body of the reading loop: what [process] receives, in order, with its
    timestamp. *)
Definition pending_line (line : option PendingLine) (clock : nat -> Z) (g : Gate) : list (RpcLog * Z) * Gate :=
  match line_calls line with
  | None => ([], g)
  | Some (p, from, calls) =>
      let first := if 0 <? first_us p then first_us p else announce_us p in
      let '(logs, g) := filter_calls p from clock 0 calls g in
      (map (fun log => (log, first)) logs, g)
  end.

(** [apply]: the logs that are not withdrawn and parse. *)
Definition confirm_one (now : Z) (ng : Z * Gate) (log : RpcLog) : Z * Gate :=
  if log_removed log then ng else
  match parse_onchain log with
  | Some (k, key, price) =>
      (fst ng + 1, on_confirmed k key price (to_ascii_lower (log_transaction_hash log)) now (snd ng))
  | None => ng
  end.
Definition apply (logs : list RpcLog) (now : Z) (g : Gate) : Z * Gate := foldl (confirm_one now) (0, g) logs.

(** ** The back-fill *)

Record Backfill := {
  bf_requests : list (Z * Z);
  bf_applied : Z;
  bf_failed : Z;
  bf_gate : Gate }.

Definition backfill_from (head backfill_hours : Z) : Z := sat_sub head (u64_mul backfill_hours 2400).

(** The [while lo <= head] loop.  [fetch] answers [eth_getLogs], [stop] is the shutdown
    flag after a chunk; the result is [None] when the fuel runs out. *)
Fixpoint backfill (fuel : nat) (lo head chunk : Z) (fetch : Z -> Z -> option (list RpcLog)) (clock : Z -> Z)
    (stop : Z -> bool) (b : Backfill) : option Backfill :=
  match fuel with
  | O => None
  | S n =>
      if head <? lo then Some b else
      let hi := Z.min (u64_sub (u64_add lo chunk) 1) head in
      let b :=
        match fetch lo hi with
        | Some logs =>
            let '(k, g) := apply logs (clock lo) (bf_gate b) in
            {| bf_requests := bf_requests b ++ [(lo, hi)]; bf_applied := bf_applied b + k; bf_failed := bf_failed b;
               bf_gate := g |}
        | None =>
            {| bf_requests := bf_requests b ++ [(lo, hi)]; bf_applied := bf_applied b; bf_failed := bf_failed b + 1;
               bf_gate := bf_gate b |}
        end in
      if stop lo then Some b else backfill n (u64_add hi 1) head chunk fetch clock stop b
  end.

(** ** The feeds are a history of the gate *)

(** What reaches the gate, each under its lock: a line, a batch of confirmed logs, or the
    minute's work of the process, which forgets what nothing has touched for long. *)
Inductive feed_event :=
| Line (line : option PendingLine) (clock : nat -> Z)
| Logs (logs : list RpcLog) (now : Z)
| Minute (now : Z).

(** One event: the requests pushed and the gate after it. *)
Definition feed_step (g : Gate) (e : feed_event) : list (RpcLog * Z) * Gate :=
  match e with
  | Line line clock => pending_line line clock g
  | Logs logs now => ([], snd (apply logs now g))
  | Minute now => ([], snd (minute now g))
  end.
Fixpoint feed_run (es : list feed_event) (g : Gate) : list (RpcLog * Z) * Gate :=
  match es with
  | [] => ([], g)
  | e :: es => let '(out, g) := feed_step g e in let '(outs, g) := feed_run es g in (out ++ outs, g)
  end.

Definition line_ops (line : option PendingLine) (clock : nat -> Z) : list gate_op :=
  match line_calls line with
  | None => []
  | Some (p, from, calls) =>
      imap (fun i c => Pending c from (line_tip_gwei p) (line_hash p) (clock i)) calls
  end.
Definition log_op (now : Z) (log : RpcLog) : list gate_op :=
  if log_removed log then [] else
  match parse_onchain log with
  | Some (k, key, price) => [Confirmed k key price (to_ascii_lower (log_transaction_hash log)) now]
  | None => []
  end.
Definition event_ops (e : feed_event) : list gate_op :=
  match e with
  | Line line clock => line_ops line clock
  | Logs logs now => concat (map (log_op now) logs)
  | Minute now => [Minutely now]
  end.

(** The forged log's own reading gives back the request it was forged for. *)
Definition log_request (l : RpcLog) : option (RequestKey * CallKind) :=
  option_map (fun r => (snd (fst r), fst (fst r))) (parse_onchain l).

Lemma gate_run_app ops1 : forall ops2 g,
  gate_run (ops1 ++ ops2) g =
  let '(o1, g1) := gate_run ops1 g in let '(o2, g2) := gate_run ops2 g1 in (o1 ++ o2, g2).
Proof.
  induction ops1 as [|op ops1 IH]; intros ops2 g; cbn [gate_run app].
  - by destruct (gate_run ops2 g).
  - destruct (gate_step g op) as [o g1]. rewrite IH. destruct (gate_run ops1 g1) as [o1 g2].
    destruct (gate_run ops2 g2) as [o2 g3]. by rewrite app_assoc.
Qed.

Lemma apply_ops now logs : forall n g,
  gate_run (concat (map (log_op now) logs)) g = ([], snd (foldl (confirm_one now) (n, g) logs)).
Proof.
  induction logs as [|l logs IH]; intros n g; [done|]. cbn [map concat foldl]. rewrite gate_run_app.
  unfold log_op, confirm_one at 2. destruct (log_removed l); [cbn [gate_run]; rewrite (IH n); done|].
  destruct (parse_onchain l) as [[[k key] price]|]; cbn [gate_run gate_step fst snd]; [|by rewrite (IH n)].
  by rewrite (IH (n + 1)).
Qed.

Lemma filter_calls_ops p from clock calls : forall i g,
  Forall wf_call calls ->
  let '(out, g') := gate_run (imap (fun j c => Pending c from (line_tip_gwei p) (line_hash p) (clock (i + j)%nat)) calls) g in
  let '(logs, g2) := filter_calls p from clock i calls g in
  g2 = g' /\ map log_request logs = map Some out.
Proof.
  induction calls as [|c calls IH]; intros i g Hwf; [done|].
  apply Forall_cons in Hwf as [Hc Hwf]. cbn [imap gate_run gate_step filter_calls]. rewrite Nat.add_0_r.
  destruct (check c from (line_tip_gwei p) (line_hash p) (clock i) g) as [v g1].
  specialize (IH (S i) g1 Hwf).
  rewrite (imap_ext _ (fun j c => Pending c from (line_tip_gwei p) (line_hash p) (clock (S i + j)%nat)))
    by (intros j x _; cbn; by rewrite Nat.add_succ_r).
  destruct (gate_run _ g1) as [out g2]. destruct (filter_calls p from clock (S i) calls g1) as [logs g3].
  destruct IH as [-> IH]. destruct (decide (v = Emit)); cbn [app map]; [|done].
  split; [done|]. f_equal; [|done]. unfold log_request. by rewrite parse_onchain_of_synth.
Qed.

(** A transaction's input is below 4 GiB. *)
Definition line_bounded (e : feed_event) : Prop :=
  match e with
  | Line line _ => forall p, line = Some p -> forall input,
      hex_decode (trim_start_matches "0x" (line_input p)) = Some input -> zlen input < 2 ^ 32
  | Logs _ _ | Minute _ => True
  end.

Lemma line_calls_wf line clock p from calls :
  line_bounded (Line line clock) -> line_calls line = Some (p, from, calls) -> Forall wf_call calls.
Proof.
  intros Hb Hl. apply bind_Some in Hl as (q & -> & Hl). destruct (_ || _); [done|].
  apply bind_Some in Hl as (input & Hi & Hl). apply bind_Some in Hl as (f & _ & Hl).
  pose proof (decode_input_wf input (Hb q eq_refl input Hi)) as Hwf.
  destruct (decode_input input); [done|]. by injection Hl as <- <- <-.
Qed.

Lemma feed_step_ops e g : line_bounded e ->
  let '(out, g') := gate_run (event_ops e) g in
  let '(logs, g2) := feed_step g e in
  g2 = g' /\ map (fun l => log_request (fst l)) logs = map Some out.
Proof.
  intros Hb. destruct e as [line clock|logs now|now]; cbn [event_ops feed_step].
  - unfold line_ops, pending_line. destruct (line_calls line) as [[[p from] calls]|] eqn:E; [|done].
    pose proof (filter_calls_ops p from clock calls 0 g (line_calls_wf _ _ _ _ _ Hb E)) as Hf.
    cbn [Nat.add] in Hf. destruct (gate_run _ g) as [out g'].
    destruct (filter_calls p from clock 0 calls g) as [ls g2]. destruct Hf as [-> Hf]. split; [done|].
    by rewrite map_map.
  - by rewrite (apply_ops now logs 0).
  - done.
Qed.

Lemma feed_run_ops es : forall g, Forall line_bounded es ->
  let '(out, g') := gate_run (concat (map event_ops es)) g in
  let '(logs, g2) := feed_run es g in
  g2 = g' /\ map (fun l => log_request (fst l)) logs = map Some out.
Proof.
  induction es as [|e es IH]; intros g Hb; [done|].
  apply Forall_cons in Hb as [He Hb]. cbn [map concat feed_run]. rewrite gate_run_app.
  pose proof (feed_step_ops e g He) as Hs. destruct (gate_run (event_ops e) g) as [o1 g1].
  destruct (feed_step g e) as [l1 g1']. destruct Hs as [-> Hs]. specialize (IH g1 Hb).
  destruct (gate_run _ g1) as [o2 g2]. destruct (feed_run es g1) as [l2 g2']. destruct IH as [-> IH].
  split; [done|]. by rewrite !map_app, Hs, IH.
Qed.

(** C20: the feeds drive the gate.  Over any sequence of pending lines, batches of confirmed
    logs and minutes, the gate goes through exactly the checks, confirmations and prunings
    they carry, and the logs handed to the processor are those of the calls it pushes, in
    order.  No request is handed over twice for the same kind as long as no minute finds it
    untouched for the retention time ([state_ttl_us]), so none is among all that happens
    within that time; a request forgotten after it may be handed over again. *)
Theorem feed_pushes_once es g :
  Forall line_bounded es ->
  let ops := concat (map event_ops es) in
  let '(pushes, g') := gate_run ops g in
  let requests := map (fun l => log_request (fst l)) (fst (feed_run es g)) in
  snd (feed_run es g) = g' /\ requests = map Some pushes
  /\ (forall key k, remembers key ops g -> once (Some (key, k)) requests)
  /\ (forall t0, within t0 ops g -> NoDup requests).
Proof.
  intros Hb ops. pose proof (feed_run_ops es g Hb) as Hr. fold ops in Hr.
  assert (Hg := fun key k => gate_run_spec key k ops g). assert (Hw := fun t0 => within_once t0 ops g).
  destruct (gate_run _ g) as [out g']. destruct (feed_run es g) as [logs g2]. destruct Hr as [-> Hr].
  cbn [fst snd] in *. split; [done|]. split; [done|]. rewrite Hr. split.
  - intros key k Hm. destruct (Hg key k Hm) as (_ & Ho & _). intros pre post E. apply map_eq_app in E as (o1 & o2 & -> & <- & E).
    destruct o2 as [|x o2]; [done|]. injection E as -> <-. intros (y & [= <-] & Hy)%list_elem_of_fmap. by apply (Ho o1 o2).
  - intros t0 Ht. apply NoDup_fmap; [intros ? ? [=]; congruence|by apply (Hw t0)].
Qed.

Lemma gate_run_blocked ops : forall g key k, remembers key ops g -> blocked_at g key k = true -> blocked_at (snd (gate_run ops g)) key k = true.
Proof. intros g key k Hm Hb. pose proof (gate_run_spec key k ops g Hm) as Hs. destruct (gate_run ops g). by apply Hs. Qed.

Lemma log_ops_remembers key now logs : forall g, remembers key (concat (map (log_op now) logs)) g.
Proof.
  induction logs as [|l logs IH]; intros g; [done|]. cbn [map concat]. unfold log_op at 1. destruct (log_removed l); [apply IH|].
  destruct (parse_onchain l) as [[[k ?] price]|]; [|apply IH]. split; [done|apply IH].
Qed.

Lemma apply_blocked logs now g l k key price :
  l ∈ logs -> log_removed l = false -> parse_onchain l = Some (k, key, price) ->
  blocked_at (snd (apply logs now g)) key k = true
  /\ (k = CallDispute -> blocked_at (snd (apply logs now g)) key CallPropose = true).
Proof.
  intros (pre & post & ->)%list_elem_of_split Hrem Hp. unfold apply. rewrite foldl_app. cbn [foldl].
  destruct (foldl (confirm_one now) (0, g) pre) as [n g1]. unfold confirm_one at 2 4. rewrite Hrem, Hp. cbn [fst snd].
  destruct (on_confirmed_blocked k key price (to_ascii_lower (log_transaction_hash l)) now g1) as (B1 & B2 & _).
  set (g2 := on_confirmed k key price _ now g1) in *. pose proof (apply_ops now post (n + 1) g2) as Ha.
  pose proof (fun k => gate_run_blocked (concat (map (log_op now) post)) g2 key k (log_ops_remembers key now post g2)) as Hm. rewrite Ha in Hm. cbn [snd] in Hm.
  split; [by apply Hm|]. intros Hk. apply Hm, B2, Hk.
Qed.

(** A confirmation silences the pending feed.  Once a batch holds a log of a request
    that was not withdrawn, no later line gets a call of that request and kind pushed while
    the gate remembers it, and a confirmed dispute silences its proposals too. *)
Theorem confirmed_log_silences logs now g l k key price es :
  l ∈ logs -> log_removed l = false -> parse_onchain l = Some (k, key, price) -> Forall line_bounded es ->
  remembers key (concat (map event_ops es)) (snd (apply logs now g)) ->
  let requests := map (fun x => log_request (fst x)) (fst (feed_run es (snd (apply logs now g)))) in
  (Some (key, k) ∉ requests) /\ (k = CallDispute -> Some (key, CallPropose) ∉ requests).
Proof.
  intros Hl Hrem Hp Hb Hm. destruct (apply_blocked logs now g l k key price Hl Hrem Hp) as [B1 B2].
  set (g1 := snd (apply logs now g)) in *. pose proof (feed_run_ops es g1 Hb) as Hr.
  assert (Hg := fun k => gate_run_spec key k (concat (map event_ops es)) g1 Hm). destruct (gate_run _ g1) as [out g'].
  destruct (feed_run es g1) as [ls g2]. destruct Hr as [_ Hr]. cbn [fst]. rewrite Hr.
  assert (Hno : forall k', blocked_at g1 key k' = true -> Some (key, k') ∉ map Some out).
  { intros k' Hk' (x & [= <-] & Hx)%list_elem_of_fmap. apply Hg in Hx. congruence. }
  split; [by apply Hno|]. intros Hk. by apply Hno, B2.
Qed.

(** *** The back-fill's requests *)

(** The requests cover the blocks [lo..head]: each begins where the last ended. *)
Fixpoint covers (chunk lo head : Z) (rs : list (Z * Z)) : Prop :=
  match rs with
  | [] => lo = head + 1
  | (a, b) :: rs => a = lo /\ lo <= b <= head /\ b = Z.min (lo + chunk - 1) head /\ covers chunk (b + 1) head rs
  end.

Lemma backfill_spec head chunk fetch clock fuel : forall lo b,
  1 <= chunk -> 0 <= lo <= head + 1 -> head + chunk <= u64_max -> (Z.to_nat (head + 1 - lo) < fuel)%nat ->
  exists b' rs, backfill fuel lo head chunk fetch clock (fun _ => false) b = Some b'
    /\ bf_requests b' = bf_requests b ++ rs /\ covers chunk lo head rs
    /\ bf_failed b' = bf_failed b + zlen (List.filter (fun r => bool_decide (fetch (fst r) (snd r) = None)) rs).
Proof.
  induction fuel as [|n IH]; intros lo b Hc Hlo Hmax Hfuel; [lia|]. cbn [backfill].
  destruct (head <? lo) eqn:E.
  { exists b, []. rewrite app_nil_r. split_and!; [done|done|simpl; lia|unfold zlen; simpl; lia]. }
  set (hi := Z.min (u64_sub (u64_add lo chunk) 1) head).
  assert (Hhi : hi = Z.min (lo + chunk - 1) head).
  { unfold hi. rewrite u64_add_small by (unfold u64_max in *; lia). unfold u64_sub. unfold u64_max in *. rewrite Z.mod_small; lia. }
  rewrite u64_add_small by (unfold u64_max in *; lia).
  set (b1 := match fetch lo hi with Some _ => _ | None => _ end).
  destruct (IH (hi + 1) b1) as (b' & rs & -> & Hreq & Hcov & Hf); [lia..|].
  exists b', ((lo, hi) :: rs). split; [done|].
  assert (Hb1 : bf_requests b1 = bf_requests b ++ [(lo, hi)]
                /\ bf_failed b1 = bf_failed b + (if decide (fetch lo hi = None) then 1 else 0)).
  { unfold b1. destruct (fetch lo hi) as [ls|]; [destruct (apply ls (clock lo) (bf_gate b))|]; cbn; (split; [done|]);
      destruct (decide _); (done || lia). }
  destruct Hb1 as [Hr1 Hf1]. split; [by rewrite Hreq, Hr1, <- app_assoc|]. split; [simpl; split_and!; (done || lia)|].
  rewrite Hf, Hf1. cbn [List.filter fst snd]. destruct (decide (fetch lo hi = None)) as [En|En];
    [rewrite bool_decide_true by done; rewrite zlen_cons|rewrite bool_decide_false by done]; lia.
Qed.

(** The back-fill covers its range.  With a positive chunk and no shutdown the loop
    ends; its requests follow each other without a gap or an overlap from the first
    block to the head, at most a chunk each; the failed ones are counted. *)
Theorem backfill_covers head hours chunk fetch clock g :
  1 <= chunk -> 0 <= head -> head + chunk <= u64_max ->
  let from := backfill_from head hours in
  exists b, backfill (S (Z.to_nat (head + 1 - from))) from head chunk fetch clock (fun _ => false)
              {| bf_requests := []; bf_applied := 0; bf_failed := 0; bf_gate := g |} = Some b
    /\ covers chunk from head (bf_requests b)
    /\ bf_failed b = zlen (List.filter (fun r => bool_decide (fetch (fst r) (snd r) = None)) (bf_requests b)).
Proof.
  intros Hc Hh Hmax from.
  assert (Hw : 0 <= u64_mul hours 2400) by (apply Z.mod_pos_bound; lia).
  assert (Hfrom : 0 <= from <= head) by (unfold from, backfill_from, sat_sub; lia).
  destruct (backfill_spec head chunk fetch clock (S (Z.to_nat (head + 1 - from))) from
              {| bf_requests := []; bf_applied := 0; bf_failed := 0; bf_gate := g |}) as (b & rs & Hb & Hr & Hcov & Hf); [lia..|].
  exists b. cbn in Hr, Hf. by rewrite Hr, Hf.
Qed.

(** A zero chunk never ends.  From any block but the first, the loop asks for an
    empty range again and again without moving: no fuel brings it to its end. *)
Theorem backfill_zero_chunk fuel lo head fetch clock b :
  0 < lo <= head -> head <= u64_max -> backfill fuel lo head 0 fetch clock (fun _ => false) b = None.
Proof.
  intros Hlo Hmax. revert b. induction fuel as [|n IH]; intros b; [done|]. cbn [backfill].
  destruct (head <? lo) eqn:E; [lia|].
  assert (Hhi : Z.min (u64_sub (u64_add lo 0) 1) head = lo - 1).
  { rewrite u64_add_small by (unfold u64_max in *; lia). unfold u64_sub. unfold u64_max in *. rewrite Z.mod_small; lia. }
  rewrite Hhi. rewrite (u64_add_small (lo - 1) 1) by (unfold u64_max in *; lia).
  replace (lo - 1 + 1) with lo by lia. apply IH.
Qed.
End Feed.

(** ** Instances *)

Module FeedSample.
#[local] Instance codec : EthCodec := sample_codec.
Definition line (hash : string) : option PendingLine :=
  Some {| line_kind := "p2p_match"; line_hash := hash; line_from := hex0x GateSample.alice; line_to := "";
          line_input := hex0x (abi_call (GateSample.call 1000)); first_us := 7; announce_us := 5; line_tip_gwei := 30 |}.
Definition events : list feed_event := [Line (line "0x01") (fun _ => 1); Line (line "0x02") (fun _ => 2); Minute 50; Line (line "0x02") (fun _ => 60)].
(** The same with a minute after the retention time, which is 100 here. *)
Definition late : list feed_event := events ++ [Minute 200; Line (line "0x03") (fun _ => 201)].
Definition chain_log : RpcLog := synth_log (GateSample.call 1000) "0x01" 0 "" GateSample.alice.

Lemma bounded : Forall line_bounded events.
Proof.
  assert (Hl : forall h, line_bounded (Line (line h) (fun _ => 0))).
  { intros h p [= <-] input Hi. vm_compute in Hi. injection Hi as <-. by vm_compute. }
  repeat constructor; try done; intros p Hp; by eapply Hl.
Qed.
End FeedSample.

Lemma feed_pushes_once_witness :
  map snd (fst (feed_run (H := sample_codec) FeedSample.events GateSample.open_gate)) = [7]
  /\ NoDup (map (fun l => log_request (H := sample_codec) (fst l))
                (fst (feed_run (H := sample_codec) FeedSample.events GateSample.open_gate))).
Proof.
  split; [by vm_compute|].
  pose proof (feed_pushes_once (H := sample_codec) FeedSample.events GateSample.open_gate FeedSample.bounded) as Hf.
  cbv zeta in Hf. destruct (gate_run _ _) as [out g']. destruct Hf as (_ & _ & _ & Hw). apply (Hw 0).
  vm_compute. repeat (apply Forall_cons; split; [split; [discriminate|reflexivity]|]). constructor.
Defined.

(** After the retention time the request is forgotten, and pushed again. *)
Example forgotten_request_pushed_again :
  map snd (fst (feed_run (H := sample_codec) FeedSample.late GateSample.open_gate)) = [7; 7].
Proof. by vm_compute. Qed.

Lemma confirmed_log_silences_witness :
  let g := snd (apply (H := sample_codec) [FeedSample.chain_log] 1 GateSample.open_gate) in
  Some (GateSample.key, CallPropose) ∉
    map (fun l => log_request (H := sample_codec) (fst l)) (fst (feed_run (H := sample_codec) FeedSample.events g)).
Proof.
  refine (proj1 (confirmed_log_silences (H := sample_codec) [FeedSample.chain_log] 1 GateSample.open_gate FeedSample.chain_log
           CallPropose GateSample.key GateSample.price_yes FeedSample.events _ _ _ _ _)).
  - constructor.
  - reflexivity.
  - by vm_compute.
  - exact FeedSample.bounded.
  - apply (within_remembers 0); [vm_compute; repeat (apply Forall_cons; split; [split; [discriminate|reflexivity]|]); constructor|].
    eexists. split; [vm_compute; reflexivity|vm_compute; discriminate].
Defined.

Lemma backfill_covers_witness :
  let from := backfill_from 12000 1 in
  from = 9600 /\
  exists b, backfill (H := sample_codec) (S (Z.to_nat (12000 + 1 - from))) from 12000 1000 (fun lo _ => if lo =? 10600 then None else Some [])
              (fun _ => 0) (fun _ => false)
              {| bf_requests := []; bf_applied := 0; bf_failed := 0; bf_gate := GateSample.open_gate |} = Some b
    /\ covers 1000 from 12000 (bf_requests b).
Proof.
  split; [by vm_compute|].
  destruct (backfill_covers (H := sample_codec) 12000 1 1000 (fun lo _ => if lo =? 10600 then None else Some [])
              (fun _ => 0) GateSample.open_gate) as (b & Hb & Hc & _); [lia|lia|by vm_compute|].
  exists b. split; [exact Hb|exact Hc].
Defined.

Lemma backfill_zero_chunk_witness :
  backfill (H := sample_codec) 5 100 200 0 (fun _ _ => Some []) (fun _ => 0) (fun _ => false)
    {| bf_requests := []; bf_applied := 0; bf_failed := 0; bf_gate := GateSample.open_gate |} = None.
Proof. apply backfill_zero_chunk; [lia|by vm_compute]. Defined.
