(* ===== verification/FeedLoops.v ===== *)
(** * FeedLoops: the connections of the two feeds of mempool-uma ([src/mempool/feed.rs])

    [run_pending_feed] and [run_confirm_feed] with their reconnections.  A connection is
    the list of what it delivers; whatever they deliver, the two loops together are a
    history of the gate in the sense of [Feed]. *)
From S2P Require Import Prelude Events Calldata Float64 Gate Feed.

Section Loops.
Context `{EthCodec}.

(** ** Pending transactions *)

Inductive pending_item :=
| PendingText (line : option PendingLine) (clock : nat -> Z)
| PendingEnd          (* end of the stream, or a read error *)
| PendingShutdown.
(** A dial fails or gives a stream; the shutdown can also come first. *)
Inductive pending_dial := DialFailed | DialShutdown | Dialled (items : list pending_item).

Record PendingFeed := {
  pf_gate : Gate;
  pf_processed : list (RpcLog * Z);
  pf_connected : bool;
  pf_sources : Z }.

Definition set_connected (on : bool) (f : PendingFeed) : PendingFeed :=
  {| pf_gate := pf_gate f; pf_processed := pf_processed f; pf_connected := on; pf_sources := if on then 1 else 0 |}.
Definition on_line (line : option PendingLine) (clock : nat -> Z) (f : PendingFeed) : PendingFeed :=
  let '(out, g) := pending_line line clock (pf_gate f) in
  {| pf_gate := g; pf_processed := pf_processed f ++ out; pf_connected := pf_connected f; pf_sources := pf_sources f |}.

(** How reading stops: the task returns, it dials again, or it waits for more. *)
Inductive loop_end := Returned | Redials | Waits.
Fixpoint read_lines (items : list pending_item) (f : PendingFeed) : loop_end * PendingFeed :=
  match items with
  | [] => (Waits, f)
  | PendingShutdown :: _ => (Returned, f)
  | PendingEnd :: _ => (Redials, set_connected false f)
  | PendingText line clock :: items => read_lines items (on_line line clock f)
  end.
Fixpoint run_pending_feed (dials : list pending_dial) (f : PendingFeed) : loop_end * PendingFeed :=
  match dials with
  | [] => (Waits, f)
  | DialShutdown :: _ => (Returned, f)
  | DialFailed :: dials => run_pending_feed dials f
  | Dialled items :: dials =>
      match read_lines items (set_connected true f) with
      | (Redials, f) => run_pending_feed dials f
      | r => r
      end
  end.

(** ** Confirmed logs *)

Inductive ws_item :=
| WsText (log : option RpcLog) (now : Z)     (* the log under [/params/result], if one parses *)
| WsOther                                     (* pings, pongs, binary *)
| WsEnd
| WsShutdown.
Inductive ws_dial := WsFailed | SubscribeFailed | Subscribed (items : list ws_item).

Fixpoint read_logs (items : list ws_item) (g : Gate) : loop_end * Gate :=
  match items with
  | [] => (Waits, g)
  | WsShutdown :: _ => (Returned, g)
  | WsEnd :: _ => (Redials, g)
  | WsOther :: items => read_logs items g
  | WsText (Some log) now :: items => read_logs items (snd (apply [log] now g))
  | WsText None _ :: items => read_logs items g
  end.
Fixpoint subscriptions (dials : list ws_dial) (g : Gate) : loop_end * Gate :=
  match dials with
  | [] => (Waits, g)
  | WsFailed :: dials | SubscribeFailed :: dials => subscriptions dials g
  | Subscribed items :: dials =>
      match read_logs items g with
      | (Redials, g) => subscriptions dials g
      | r => r
      end
  end.

(** The start-up back-fill, when the head could be asked for, then the subscriptions.
    [stop] is the shutdown flag after each chunk: when it is set the task returns. *)
Definition run_confirm_feed (fuel : nat) (head : option Z) (hours chunk : Z) (fetch : Z -> Z -> option (list RpcLog))
    (clock : Z -> Z) (stop : Z -> bool) (dials : list ws_dial) (g : Gate) : option (loop_end * Gate) :=
  match head with
  | None => Some (subscriptions dials g)
  | Some head =>
      b ← backfill fuel (backfill_from head hours) head chunk fetch clock stop
            {| bf_requests := []; bf_applied := 0; bf_failed := 0; bf_gate := g |};
      Some (if existsb (fun r => stop (fst r)) (bf_requests b) then (Returned, bf_gate b) else subscriptions dials (bf_gate b))
  end.

(** ** Both loops are histories of the gate *)

(** What of a stream is read: up to its end or the shutdown. *)
Fixpoint lines_of (items : list pending_item) : list feed_event :=
  match items with
  | PendingText line clock :: items => Line line clock :: lines_of items
  | _ => []
  end.
Fixpoint ends (items : list pending_item) : bool :=
  match items with PendingText _ _ :: items => ends items | PendingEnd :: _ => true | _ => false end.
Fixpoint pending_events (dials : list pending_dial) : list feed_event :=
  match dials with
  | Dialled items :: dials => lines_of items ++ (if ends items then pending_events dials else [])
  | DialFailed :: dials => pending_events dials
  | _ => []
  end.

Fixpoint logs_of (items : list ws_item) : list feed_event :=
  match items with
  | WsText (Some log) now :: items => Logs [log] now :: logs_of items
  | WsText None _ :: items | WsOther :: items => logs_of items
  | _ => []
  end.
Fixpoint ws_ends (items : list ws_item) : bool :=
  match items with WsText _ _ :: items | WsOther :: items => ws_ends items | WsEnd :: _ => true | _ => false end.
Fixpoint log_events (dials : list ws_dial) : list feed_event :=
  match dials with
  | Subscribed items :: dials => logs_of items ++ (if ws_ends items then log_events dials else [])
  | _ :: dials => log_events dials
  | [] => []
  end.

Lemma feed_run_app es1 : forall es2 g,
  feed_run (es1 ++ es2) g
  = (fst (feed_run es1 g) ++ fst (feed_run es2 (snd (feed_run es1 g))), snd (feed_run es2 (snd (feed_run es1 g)))).
Proof.
  induction es1 as [|e es1 IH]; intros es2 g; [by cbn; destruct (feed_run es2 g)|]; cbn [app feed_run].
  destruct (feed_step g e) as [o g']. rewrite IH. destruct (feed_run es1 g') as [os g'']. cbn [fst snd].
  by rewrite app_assoc.
Qed.

Lemma read_lines_spec items : forall f,
  let '(r, f') := read_lines items f in
  pf_gate f' = snd (feed_run (lines_of items) (pf_gate f))
  /\ pf_processed f' = pf_processed f ++ fst (feed_run (lines_of items) (pf_gate f))
  /\ pf_connected f' = (if ends items then false else pf_connected f)
  /\ (r = Redials <-> ends items = true).
Proof.
  induction items as [|[line clock| |] items IH]; intros f; cbn [read_lines lines_of ends feed_run].
  - cbn. rewrite app_nil_r. done.
  - specialize (IH (on_line line clock f)). destruct (read_lines items _) as [r f']. unfold on_line in IH. cbn [feed_step].
    destruct (pending_line line clock (pf_gate f)) as [o g]. cbn [pf_gate pf_processed pf_connected] in IH.
    destruct IH as (-> & -> & -> & Hr). destruct (feed_run _ g) as [os g']. cbn [fst snd]. by rewrite app_assoc.
  - cbn. rewrite app_nil_r. done.
  - cbn. rewrite app_nil_r. done.
Qed.

(** The pending feed across its reconnections.  The requests it hands on and the gate
    it leaves are those of one run over all lines it read, in order; and outside a stream
    it never reports a connection. *)
Theorem pending_feed_history dials f : pf_connected f = false ->
  let '(r, f') := run_pending_feed dials f in
  pf_gate f' = snd (feed_run (pending_events dials) (pf_gate f))
  /\ pf_processed f' = pf_processed f ++ fst (feed_run (pending_events dials) (pf_gate f))
  /\ (pf_connected f' = true -> exists items, Dialled items ∈ dials /\ ends items = false).
Proof.
  revert f. induction dials as [|[| |items] dials IH]; intros f Hf; cbn [run_pending_feed pending_events].
  - cbn. rewrite app_nil_r. split; [done|]. split; [done|]. congruence.
  - specialize (IH f Hf). destruct (run_pending_feed dials f) as [r f']. destruct IH as (? & ? & Hc).
    split; [done|]. split; [done|]. intros Ht. destruct (Hc Ht) as (i & ? & ?). exists i. split; [by right|done].
  - cbn. rewrite app_nil_r. split; [done|]. split; [done|]. congruence.
  - pose proof (read_lines_spec items (set_connected true f)) as Hs. destruct (read_lines items _) as [r f1].
    cbn [pf_gate pf_processed pf_connected set_connected] in Hs. destruct Hs as (Hg & Hp & Hc & Hr). rewrite feed_run_app.
    destruct (ends items) eqn:Ee.
    + destruct Hr as [_ Hr]. rewrite (Hr eq_refl). specialize (IH f1 Hc). destruct (run_pending_feed dials f1) as [r2 f2].
      destruct IH as (Hg2 & Hp2 & Hc2). rewrite Hg in Hg2, Hp2. rewrite Hp in Hp2. cbn [fst snd].
      split; [done|]. split; [by rewrite app_assoc|]. intros Ht. destruct (Hc2 Ht) as (i & ? & ?). exists i. split; [by right|done].
    + assert (Hr' : r <> Redials) by (intros Hx; apply Hr in Hx; discriminate).
      cbn [feed_run fst snd]. rewrite app_nil_r.
      destruct r; [| done |]; (split; [done|]; split; [done|]; intros _; exists items; split; [by left|done]).
Qed.

Lemma read_logs_spec items : forall g,
  let '(r, g') := read_logs items g in
  g' = snd (feed_run (logs_of items) g) /\ fst (feed_run (logs_of items) g) = [] /\ (r = Redials <-> ws_ends items = true).
Proof.
  induction items as [|[[log|] now| | |] items IH]; intros g; cbn [read_logs logs_of ws_ends feed_run]; try done; try apply IH.
  specialize (IH (snd (apply [log] now g))). destruct (read_logs items _) as [r g']. destruct IH as (-> & Ho & Hr).
  cbn [feed_step]. destruct (feed_run (logs_of items) _) as [o g'']. cbn [fst snd] in *. by subst o.
Qed.

(** The subscriptions: one run over all logs they delivered, which pushes nothing. *)
Lemma subscriptions_history dials : forall g,
  snd (subscriptions dials g) = snd (feed_run (log_events dials) g) /\ fst (feed_run (log_events dials) g) = [].
Proof.
  induction dials as [|[| |items] dials IH]; intros g; cbn [subscriptions log_events]; [done|apply IH..|].
  pose proof (read_logs_spec items g) as Hs. destruct (read_logs items g) as [r g1]. destruct Hs as (-> & Ho & Hr).
  rewrite feed_run_app. cbn [fst snd]. rewrite Ho. destruct (ws_ends items).
  - destruct Hr as [_ Hr]. rewrite (Hr eq_refl). destruct (IH (snd (feed_run (logs_of items) g))) as [Hi ->]. by rewrite Hi.
  - cbn [feed_run fst snd]. destruct r; [done| |done]. destruct Hr as [Hr _]. discriminate (Hr eq_refl).
Qed.
End Loops.
