(* ===== verification/Category.v ===== *)
(** * Category: classifying a market ([src/category.rs], [config/category_rules.json])

    The rules compiled into the binary, their parsing (which panics on an unknown name
    or an invalid regular expression) and the classification.  The [regex] crate and
    Unicode lowercasing are an interface: the results hold for any of them. *)
From S2P Require Import Prelude Model.

(** [regex_valid] says whether [Regex::new] accepts the pattern, [is_match] matches a
    text, [to_lowercase] is [str::to_lowercase]. *)
Class TextEngine := {
  regex_valid : string -> bool;
  is_match : string -> string -> bool;
  to_lowercase : string -> string }.

(** [haystack.contains(needle)] *)
Fixpoint str_contains (needle s : string) : bool :=
  starts_with needle s || match s with EmptyString => false | String _ s' => str_contains needle s' end.

(** ** The rules as written *)

Record RawCategoryTextRule := {
  raw_text_regex : string;
  raw_exclude_regex : option string;
  raw_text_category : string }.

Record RawBetTypeGroup := {
  raw_categories : list string;
  raw_tag_bet_type_rules : list (Z * string);
  raw_sports_market_type_rules : list (string * string);
  raw_question_text_rules : list (string * string);
  raw_fallback_bet_type : string }.

Record RawRules := {
  raw_category_text_rules : list RawCategoryTextRule;
  raw_tag_rules : list (Z * string);
  raw_bet_type_groups : list RawBetTypeGroup }.

Definition quote : string := String (ascii_of_nat 34) EmptyString.

Definition RULES_JSON : RawRules :=
  {| raw_category_text_rules :=
       [{| raw_text_regex := ("(\b(says?|said|mentions?|posts?|tweets?)\b[^?]*[" +:+ quote +:+ "“‘])|(\b(says?|said|mentions?)\b[^?]*\b(\d+\s*(\+|or more)|times)\b)");
           raw_exclude_regex := Some "\bindex says\b"; raw_text_category := "MENTIONS" |}];
     raw_tag_rules :=
       [(100343, "MENTIONS");
        (64, "ESPORTS");
        (1, "SPORTS");
        (84, "WEATHER");
        (2, "POLITICS");
        (21, "CRYPTO");
        (596, "CULTURE")];
     raw_bet_type_groups :=
       [{| raw_categories := ["SPORTS"; "ESPORTS"];
           raw_tag_bet_type_rules := [];
           raw_sports_market_type_rules := [("child_moneyline", "GAME_WINNER");
             ("moneyline", "MONEYLINE");
             ("handicap", "SPREAD");
             ("spread", "SPREAD");
             ("total", "OVER_UNDER");
             ("corners", "OVER_UNDER");
             ("completed_match", "SPORTS_PROP");
             ("to_score", "SPORTS_PROP");
             ("exact_score", "SPORTS_PROP");
             ("to_advance", "SPORTS_PROP");
             ("result", "MONEYLINE");
             ("winner", "MONEYLINE")];
           raw_question_text_rules := [("\bSpread:|\bHandicap\b", "SPREAD");
             ("\bO/U\b|Over/Under", "OVER_UNDER");
             ("\b(Game|Map|Set|Leg)\s*\d+\s*Winner\b", "GAME_WINNER");
             ("^[^:]+\svs\.?\s[^:]+$", "MONEYLINE");
             ("^Will\s.+\swin\s(the\s)?.+\?$", "OUTRIGHT")];
           raw_fallback_bet_type := "SPORTS_PROP" |};
        {| raw_categories := ["WEATHER"];
           raw_tag_bet_type_rules := [(104596, "TEMP_HIGH");
             (104597, "TEMP_LOW");
             (103041, "PRECIPITATION");
             (103545, "PRECIPITATION");
             (103235, "PRECIPITATION");
             (106182, "PRECIPITATION");
             (1313, "PRECIPITATION");
             (102023, "STORM");
             (85, "STORM");
             (102186, "STORM")];
           raw_sports_market_type_rules := [];
           raw_question_text_rules := [("highest temperature", "TEMP_HIGH");
             ("lowest temperature", "TEMP_LOW");
             ("\bsnow\b|precipitation|rainfall", "PRECIPITATION");
             ("hurricane|tropical storm", "STORM")];
           raw_fallback_bet_type := "WEATHER_OTHER" |};
        {| raw_categories := ["CRYPTO"];
           raw_tag_bet_type_rules := [(102134, "PRICE_TARGET");
             (102516, "PRICE_THRESHOLD");
             (102127, "UP_DOWN")];
           raw_sports_market_type_rules := [];
           raw_question_text_rules := [("\breach(es|ed)?\s*\$|\bdip(s|ped)?\s*to\s*\$", "PRICE_TARGET");
             ("price of .+ be (above|below|over|under)\s*\$", "PRICE_THRESHOLD");
             ("\bUp or Down\b", "UP_DOWN")];
           raw_fallback_bet_type := "CRYPTO_PROP" |};
        {| raw_categories := ["POLITICS"];
           raw_tag_bet_type_rules := [(144, "ELECTION_WINNER");
             (100196, "FED_RATE_DECISION");
             (159, "FED_RATE_DECISION");
             (972, "TWEET_COUNT")];
           raw_sports_market_type_rules := [];
           raw_question_text_rules := [("^Will\s.+\swin\s(the\s)?.+(election|nomination|primary)\b", "ELECTION_WINNER");
             ("\bFed\b.*\binterest rates?\b", "FED_RATE_DECISION");
             ("\bpost\s+[<\d].*\b(tweets|posts)\b", "TWEET_COUNT")];
           raw_fallback_bet_type := "POLITICS_PROP" |};
        {| raw_categories := ["CULTURE"];
           raw_tag_bet_type_rules := [];
           raw_sports_market_type_rules := [];
           raw_question_text_rules := [("^Will\s.+\sbe\sthe\s.+\?$", "AWARD_WINNER");
             ("\bbetween\s*[\d,.]+\S*\s+and\s+[\d,.]+|\b(less than|more than)\s*[\d,.]+\s*(million|m|k)?\s*(views|gross)\b", "MEDIA_METRIC_RANGE")];
           raw_fallback_bet_type := "CULTURE_PROP" |};
        {| raw_categories := ["MENTIONS"];
           raw_tag_bet_type_rules := [];
           raw_sports_market_type_rules := [];
           raw_question_text_rules := [("\btimes\b|\b\d+\s*(\+|or more|or fewer|or less)", "MENTION_COUNT");
             ("\b(says?|said|posts?|tweets?|mentions?)\b|\bbe in the (headlines|manifesto)\b", "MENTION_TERM")];
           raw_fallback_bet_type := "MENTION_PROP" |}] |}.

(** ** The compiled rules *)

(** A name that is not listed panics. *)
Definition parse_category (name : string) : option Category :=
  match name with
  | "SPORTS" => Some Category_Sports
  | "ESPORTS" => Some Category_Esports
  | "POLITICS" => Some Category_Politics
  | "CRYPTO" => Some Category_Crypto
  | "CULTURE" => Some Category_Culture
  | "WEATHER" => Some Category_Weather
  | "MENTIONS" => Some Category_Mentions
  | "OTHER" => Some Category_Other
  | "UNSPECIFIED" => Some Category_Unspecified
  | _ => None
  end%string.

Definition parse_bet_type (name : string) : option BetType :=
  match name with
  | "MONEYLINE" => Some Bet_Moneyline
  | "SPREAD" => Some Bet_Spread
  | "OVER_UNDER" => Some Bet_OverUnder
  | "GAME_WINNER" => Some Bet_GameWinner
  | "OUTRIGHT" => Some Bet_Outright
  | "SPORTS_PROP" => Some Bet_SportsProp
  | "TEMP_HIGH" => Some Bet_TempHigh
  | "TEMP_LOW" => Some Bet_TempLow
  | "PRECIPITATION" => Some Bet_Precipitation
  | "STORM" => Some Bet_Storm
  | "WEATHER_OTHER" => Some Bet_WeatherOther
  | "PRICE_TARGET" => Some Bet_PriceTarget
  | "PRICE_THRESHOLD" => Some Bet_PriceThreshold
  | "UP_DOWN" => Some Bet_UpDown
  | "CRYPTO_PROP" => Some Bet_CryptoProp
  | "ELECTION_WINNER" => Some Bet_ElectionWinner
  | "FED_RATE_DECISION" => Some Bet_FedRateDecision
  | "TWEET_COUNT" => Some Bet_TweetCount
  | "POLITICS_PROP" => Some Bet_PoliticsProp
  | "AWARD_WINNER" => Some Bet_AwardWinner
  | "MEDIA_METRIC_RANGE" => Some Bet_MediaMetricRange
  | "CULTURE_PROP" => Some Bet_CultureProp
  | "MENTION_TERM" => Some Bet_MentionTerm
  | "MENTION_COUNT" => Some Bet_MentionCount
  | "MENTION_PROP" => Some Bet_MentionProp
  | "UNSPECIFIED" => Some Bet_Unspecified
  | _ => None
  end%string.

(** A compiled regular expression is its pattern. *)
Record CategoryTextRule := {
  text_regex : string;
  exclude_regex : option string;
  text_category : Category }.

Record BetTypeGroup := {
  categories : list Category;
  tag_bet_type_rules : list (Z * BetType);
  sports_market_type_rules : list (string * BetType);
  question_text_rules : list (string * BetType);
  fallback_bet_type : BetType }.

Record CompiledRules := {
  category_text_rules : list CategoryTextRule;
  tag_rules : list (Z * Category);
  bet_type_groups : list BetTypeGroup }.

Section Classify.
Context `{TextEngine}.

Definition compile_question_regex (regex : string) : option string :=
  let r := "(?i)" +:+ regex in if regex_valid r then Some r else None.

(** [.map(f).collect()] where [f] may panic. *)
Fixpoint map_option {A B} (f : A -> option B) (l : list A) : option (list B) :=
  match l with
  | [] => Some []
  | x :: l => y ← f x; ys ← map_option f l; Some (y :: ys)
  end.

Definition CategoryTextRule_parse (rule : RawCategoryTextRule) : option CategoryTextRule :=
  r ← compile_question_regex (raw_text_regex rule);
  ex ← match raw_exclude_regex rule with
       | Some e => option_map Some (compile_question_regex e)
       | None => Some None
       end;
  c ← parse_category (raw_text_category rule);
  Some {| text_regex := r; exclude_regex := ex; text_category := c |}.

Definition BetTypeGroup_parse (raw : RawBetTypeGroup) : option BetTypeGroup :=
  cs ← map_option parse_category (raw_categories raw);
  tags ← map_option (fun r => b ← parse_bet_type (snd r); Some (fst r, b)) (raw_tag_bet_type_rules raw);
  sports ← map_option (fun r => b ← parse_bet_type (snd r); Some (to_lowercase (fst r), b)) (raw_sports_market_type_rules raw);
  questions ← map_option (fun r => e ← compile_question_regex (fst r); b ← parse_bet_type (snd r); Some (e, b))
                (raw_question_text_rules raw);
  fb ← parse_bet_type (raw_fallback_bet_type raw);
  Some {| categories := cs; tag_bet_type_rules := tags; sports_market_type_rules := sports;
          question_text_rules := questions; fallback_bet_type := fb |}.

Definition CompiledRules_parse (raw : RawRules) : option CompiledRules :=
  texts ← map_option CategoryTextRule_parse (raw_category_text_rules raw);
  tags ← map_option (fun r => c ← parse_category (snd r); Some (fst r, c)) (raw_tag_rules raw);
  groups ← map_option BetTypeGroup_parse (raw_bet_type_groups raw);
  Some {| category_text_rules := texts; tag_rules := tags; bet_type_groups := groups |}.

Definition has_tag (tag_ids : list Z) (t : Z) : bool := existsb (Z.eqb t) tag_ids.

Definition text_rule_matches (question : string) (rule : CategoryTextRule) : bool :=
  is_match (text_regex rule) question
  && negb (match exclude_regex rule with Some e => is_match e question | None => false end).

Definition category_for (tags : list Z) (question : option string) (rules : CompiledRules) : Category :=
  let by_text := q ← question; List.find (text_rule_matches q) (category_text_rules rules) in
  match by_text with
  | Some rule => text_category rule
  | None =>
      match List.find (fun r => has_tag tags (fst r)) (tag_rules rules) with
      | Some r => snd r
      | None => match tags with [] => Category_Unspecified | _ => Category_Other end
      end
  end.

Definition bet_type_for (tags : list Z) (sports_market_type question : option string) (g : BetTypeGroup) : BetType :=
  match List.find (fun r => has_tag tags (fst r)) (tag_bet_type_rules g) with
  | Some r => snd r
  | None =>
      match (match sports_market_type with
             | Some s => match sports_market_type_rules g with [] => None | _ => Some s end
             | None => None end) with
      | Some s =>
          let lower := to_lowercase s in
          match List.find (fun r => str_contains (fst r) lower) (sports_market_type_rules g) with
          | Some r => snd r
          | None => fallback_bet_type g
          end
      | None =>
          match question with
          | Some q =>
              match List.find (fun r => is_match (fst r) q) (question_text_rules g) with
              | Some r => snd r
              | None => fallback_bet_type g
              end
          | None => Bet_Unspecified
          end
      end
  end.

Definition classify_with (rules : CompiledRules) (tags : list Z) (sports_market_type question : option string)
  : Category * BetType :=
  let category := category_for tags question rules in
  (category,
   match List.find (fun g => existsb (fun c => bool_decide (c = category)) (categories g)) (bet_type_groups rules) with
   | Some g => bet_type_for tags sports_market_type question g
   | None => Bet_Unspecified
   end).

(** [classify]: the first use compiles the rules, and panics if they are bad. *)
Definition classify (tags : list Z) (sports_market_type question : option string) : option (Category * BetType) :=
  rules ← CompiledRules_parse RULES_JSON;
  Some (classify_with rules tags sports_market_type question).

(** ** Properties *)

(** The bet types a category's block holds. *)
Definition bet_block (c : Category) : list BetType :=
  match c with
  | Category_Sports | Category_Esports =>
      [Bet_Moneyline; Bet_Spread; Bet_OverUnder; Bet_GameWinner; Bet_Outright; Bet_SportsProp]
  | Category_Weather => [Bet_TempHigh; Bet_TempLow; Bet_Precipitation; Bet_Storm; Bet_WeatherOther]
  | Category_Crypto => [Bet_PriceTarget; Bet_PriceThreshold; Bet_UpDown; Bet_CryptoProp]
  | Category_Politics => [Bet_ElectionWinner; Bet_FedRateDecision; Bet_TweetCount; Bet_PoliticsProp]
  | Category_Culture => [Bet_AwardWinner; Bet_MediaMetricRange; Bet_CultureProp]
  | Category_Mentions => [Bet_MentionTerm; Bet_MentionCount; Bet_MentionProp]
  | Category_Other | Category_Unspecified => []
  end.

Definition in_block (c : Category) (b : BetType) : bool := existsb (fun x => bool_decide (x = b)) (bet_block c).

(** Every type a group can answer with belongs to the block of each of its categories. *)
Definition group_in_block (g : BetTypeGroup) : bool :=
  forallb (fun c => in_block c (fallback_bet_type g)
                    && forallb (fun r => in_block c (snd r)) (tag_bet_type_rules g)
                    && forallb (fun r => in_block c (snd r)) (sports_market_type_rules g)
                    && forallb (fun r => in_block c (snd r)) (question_text_rules g)) (categories g).
Definition rules_in_block (rules : CompiledRules) : bool := forallb group_in_block (bet_type_groups rules).

(** The same on the rules as written, where the names must also be known. *)
Definition raw_in_block (cn bn : string) : bool :=
  match parse_category cn, parse_bet_type bn with Some c, Some b => in_block c b | _, _ => false end.
Definition raw_group_in_block (g : RawBetTypeGroup) : bool :=
  forallb (fun cn => raw_in_block cn (raw_fallback_bet_type g)
                     && forallb (fun r => raw_in_block cn (snd r)) (raw_tag_bet_type_rules g)
                     && forallb (fun r => raw_in_block cn (snd r)) (raw_sports_market_type_rules g)
                     && forallb (fun r => raw_in_block cn (snd r)) (raw_question_text_rules g)) (raw_categories g).

Lemma map_option_in {A B} (f : A -> option B) l : forall ys y,
  map_option f l = Some ys -> y ∈ ys -> exists x, x ∈ l /\ f x = Some y.
Proof.
  induction l as [|x l IH]; cbn [map_option]; intros ys y Hm Hy.
  { injection Hm as <-. by apply elem_of_nil in Hy. }
  apply bind_Some in Hm as (z & Hz & Hm). apply bind_Some in Hm as (zs & Hzs & [= <-]).
  apply elem_of_cons in Hy as [->|Hy]; [exists x; split; [by left|done]|].
  destruct (IH zs y Hzs Hy) as (w & Hw & Hf). exists w. split; [by right|done].
Qed.

Lemma map_option_total {A B} (f : A -> option B) l :
  (forall x, x ∈ l -> is_Some (f x)) -> is_Some (map_option f l).
Proof.
  induction l as [|x l IH]; intros Hf; cbn [map_option]; [by eexists|].
  destruct (Hf x ltac:(by left)) as [y Hy].
  destruct IH as [ys Hys]; [intros z Hz; apply Hf; by right|]. rewrite Hy, Hys. by eexists.
Qed.

Lemma in_block_transfer {A B} (f : A -> option (B * BetType)) (name : A -> string) cn c (l : list A) (ys : list (B * BetType)) :
  (forall x y, f x = Some y -> parse_bet_type (name x) = Some (snd y)) -> parse_category cn = Some c ->
  map_option f l = Some ys -> forallb (fun r => raw_in_block cn (name r)) l = true ->
  forallb (fun r => in_block c (snd r)) ys = true.
Proof.
  intros Hn Hc Hm Hall. apply forallb_forall. intros y Hy. apply list_elem_of_In in Hy.
  destruct (map_option_in f l ys y Hm Hy) as (x & Hx & Hf). apply list_elem_of_In in Hx.
  rewrite forallb_forall in Hall. specialize (Hall x Hx). unfold raw_in_block in Hall.
  by rewrite Hc, (Hn x y Hf) in Hall.
Qed.

Lemma BetTypeGroup_parse_in_block raw g :
  BetTypeGroup_parse raw = Some g -> raw_group_in_block raw = true -> group_in_block g = true.
Proof.
  intros Hp Hraw. apply bind_Some in Hp as (cs & Hcs & Hp). apply bind_Some in Hp as (tags & Htags & Hp).
  apply bind_Some in Hp as (sports & Hsports & Hp). apply bind_Some in Hp as (qs & Hqs & Hp).
  apply bind_Some in Hp as (fb & Hfb & [= <-]). apply forallb_forall. cbn. intros c Hc. apply list_elem_of_In in Hc.
  destruct (map_option_in _ _ _ _ Hcs Hc) as (cn & Hcn & Ec). apply list_elem_of_In in Hcn.
  unfold raw_group_in_block in Hraw. rewrite forallb_forall in Hraw. specialize (Hraw cn Hcn).
  rewrite !andb_true_iff in Hraw. destruct Hraw as [[[H1 H2] H3] H4]. rewrite !andb_true_iff. split_and!.
  - unfold raw_in_block in H1. by rewrite Ec, Hfb in H1.
  - eapply (in_block_transfer _ snd); [|done..]. intros x y (b & Hb & [= <-])%bind_Some. done.
  - eapply (in_block_transfer _ snd); [|done..]. intros x y (b & Hb & [= <-])%bind_Some. done.
  - eapply (in_block_transfer _ snd); [|done..].
    intros x y (e & _ & (b & Hb & [= <-])%bind_Some)%bind_Some. done.
Qed.

Lemma bet_type_for_in_block tags smt q g c :
  group_in_block g = true -> c ∈ categories g ->
  (bet_type_for tags smt q g = Bet_Unspecified \/ in_block c (bet_type_for tags smt q g) = true)
  /\ (is_Some q -> in_block c (bet_type_for tags smt q g) = true).
Proof.
  intros Hg Hc. apply list_elem_of_In in Hc. unfold group_in_block in Hg. rewrite forallb_forall in Hg.
  specialize (Hg c Hc). rewrite !andb_true_iff in Hg. destruct Hg as [[[H1 H2] H3] H4].
  assert (Hfind : forall {A} (p : A * BetType -> bool) l, forallb (fun r => in_block c (snd r)) l = true ->
            match List.find p l with Some r => in_block c (snd r) = true | None => True end).
  { intros A p l Hl. destruct (List.find p l) as [r|] eqn:E; [|done]. apply List.find_some in E as [E _].
    rewrite forallb_forall in Hl. by apply Hl. }
  unfold bet_type_for. pose proof (Hfind _ (fun r => has_tag tags (fst r)) _ H2) as F2.
  destruct (List.find _ (tag_bet_type_rules g)) as [r|]; [by split; [right|]|].
  destruct (match smt with Some _ => _ | None => None end) as [s|].
  { pose proof (Hfind _ (fun r => str_contains (fst r) (to_lowercase s)) _ H3) as F3.
    destruct (List.find _ (sports_market_type_rules g)); split; (by right) || done. }
  destruct q as [q|]; [|split; [by left|by intros []]].
  pose proof (Hfind _ (fun r => is_match (fst r) q) _ H4) as F4.
  destruct (List.find _ (question_text_rules g)); split; (by right) || done.
Qed.

Lemma RULES_in_block : forallb raw_group_in_block (raw_bet_type_groups RULES_JSON) = true.
Proof. by vm_compute. Qed.

Lemma RULES_groups_in_block groups :
  map_option BetTypeGroup_parse (raw_bet_type_groups RULES_JSON) = Some groups ->
  forallb group_in_block groups = true.
Proof.
  intros Hm. apply forallb_forall. intros g Hg. apply list_elem_of_In in Hg.
  destruct (map_option_in _ _ _ _ Hm Hg) as (raw & Hraw & Hp). eapply BetTypeGroup_parse_in_block; [done|].
  pose proof RULES_in_block as Hall. rewrite forallb_forall in Hall. apply Hall. by apply list_elem_of_In.
Qed.

(** The categories the compiled groups cover, whatever the engine. *)
Lemma RULES_groups_categories groups :
  map_option BetTypeGroup_parse (raw_bet_type_groups RULES_JSON) = Some groups ->
  map categories groups =
    [[Category_Sports; Category_Esports]; [Category_Weather]; [Category_Crypto]; [Category_Politics];
     [Category_Culture]; [Category_Mentions]].
Proof.
  assert (Hg : forall l cs, map_option (fun g => map_option parse_category (raw_categories g)) l = Some cs ->
            forall gs, map_option BetTypeGroup_parse l = Some gs -> map categories gs = cs).
  { induction l as [|raw l IH]; cbn [map_option]; intros cs Hcs gs Hgs; [by injection Hcs as <-; injection Hgs as <-|].
    apply bind_Some in Hcs as (c & Hc & Hcs). apply bind_Some in Hcs as (cs' & Hcs' & [= <-]).
    apply bind_Some in Hgs as (g & Hgp & Hgs). apply bind_Some in Hgs as (gs' & Hgs' & [= <-]).
    cbn. f_equal; [|by apply IH]. apply bind_Some in Hgp as (c' & Hc' & Hgp).
    apply bind_Some in Hgp as (? & _ & Hgp). apply bind_Some in Hgp as (? & _ & Hgp).
    apply bind_Some in Hgp as (? & _ & Hgp). apply bind_Some in Hgp as (? & _ & [= <-]). cbn. congruence. }
  apply Hg. by vm_compute.
Qed.

(** No leak between groups.  For every market and any regular-expression engine,
    the bet type is one of the category's own block or unspecified; it is unspecified
    for the categories without a block, and never so for the others when the market
    has a question. *)
Theorem classify_in_block tags smt question c b :
  classify tags smt question = Some (c, b) ->
  (b = Bet_Unspecified \/ in_block c b = true)
  /\ (is_Some question -> bet_block c <> [] -> in_block c b = true).
Proof.
  intros Hc. apply bind_Some in Hc as (rules & Hr & [= Ec Eb]).
  apply bind_Some in Hr as (texts & _ & Hr). apply bind_Some in Hr as (tagr & _ & Hr).
  apply bind_Some in Hr as (groups & Hg & [= <-]). cbn [bet_type_groups] in Eb. rewrite Ec in Eb.
  pose proof (RULES_groups_in_block groups Hg) as Hin. pose proof (RULES_groups_categories groups Hg) as Hcat.
  destruct (List.find _ groups) as [g|] eqn:Ef.
  - apply List.find_some in Ef as [Hgin Hex]. rewrite forallb_forall in Hin. specialize (Hin g Hgin).
    apply existsb_exists in Hex as (x & Hx & ->%bool_decide_eq_true). apply list_elem_of_In in Hx.
    destruct (bet_type_for_in_block tags smt question g c Hin Hx) as [B1 B2]. rewrite Eb in B1, B2.
    split; [done|]. intros Hq _. by apply B2.
  - subst b. split; [by left|]. intros _ Hblock. exfalso.
    assert (Hno : forall cs, cs ∈ map categories groups -> existsb (fun x => bool_decide (x = c)) cs = false).
    { intros cs (g & -> & Hgin)%list_elem_of_fmap. apply list_elem_of_In in Hgin. by apply (List.find_none _ _ Ef g). }
    rewrite Hcat in Hno. rewrite <- Forall_forall in Hno. rewrite !Forall_cons in Hno.
    destruct Hno as (N1 & N2 & N3 & N4 & N5 & N6 & _).
    destruct c; first [by apply Hblock|by vm_compute in N1|by vm_compute in N2|by vm_compute in N3|by vm_compute in N4
                      |by vm_compute in N5|by vm_compute in N6].
Qed.

(** The question reads like a Mentions market. *)
Definition mentions_question (question : option string) : bool :=
  match question, raw_category_text_rules RULES_JSON with
  | Some q, r :: _ =>
      is_match ("(?i)" +:+ raw_text_regex r) q
      && negb (match raw_exclude_regex r with Some e => is_match ("(?i)" +:+ e) q | None => false end)
  | _, _ => false
  end.

(** The category.  The wording of a Mentions question decides before any tag; then
    the first listed tag the market carries; a market without tags is unspecified and
    any other is Other. *)
Theorem classify_category tags smt question c b :
  classify tags smt question = Some (c, b) ->
  c = if mentions_question question then Category_Mentions
      else if has_tag tags 100343 then Category_Mentions
      else if has_tag tags 64 then Category_Esports
      else if has_tag tags 1 then Category_Sports
      else if has_tag tags 84 then Category_Weather
      else if has_tag tags 2 then Category_Politics
      else if has_tag tags 21 then Category_Crypto
      else if has_tag tags 596 then Category_Culture
      else match tags with [] => Category_Unspecified | _ => Category_Other end.
Proof.
  intros Hc. apply bind_Some in Hc as (rules & Hr & [= Ec _]).
  apply bind_Some in Hr as (texts & Ht & Hr). apply bind_Some in Hr as (tagr & Htag & Hr).
  apply bind_Some in Hr as (groups & _ & [= <-]). cbn in Htag. injection Htag as <-. subst c.
  cbn [raw_category_text_rules RULES_JSON map_option] in Ht. apply bind_Some in Ht as (rule & Hrule & [= <-]).
  apply bind_Some in Hrule as (r & Hre & Hrule). apply bind_Some in Hrule as (ex & Hex & [= <-]).
  unfold compile_question_regex in Hre, Hex. destruct (regex_valid _); [injection Hre as <-|done].
  cbn [raw_exclude_regex option_map] in Hex. destruct (regex_valid _); [injection Hex as <-|done].
  unfold category_for, mentions_question. cbn [category_text_rules tag_rules List.find fst snd].
  destruct question as [q|]; cbn [mbind option_bind raw_category_text_rules RULES_JSON].
  - unfold text_rule_matches. cbn [text_regex exclude_regex raw_text_regex raw_exclude_regex].
    destruct (is_match _ q && _); [done|]. by repeat (destruct (has_tag tags _); [done|]).
  - by repeat (destruct (has_tag tags _); [done|]).
Qed.

(** The patterns of the rules. *)
Definition rule_patterns (raw : RawRules) : list string :=
  flat_map (fun r => raw_text_regex r :: match raw_exclude_regex r with Some e => [e] | None => [] end)
    (raw_category_text_rules raw)
  ++ flat_map (fun g => map fst (raw_question_text_rules g)) (raw_bet_type_groups raw).

Definition names_known (raw : RawRules) : bool :=
  forallb (fun r => bool_decide (is_Some (parse_category (raw_text_category r)))) (raw_category_text_rules raw)
  && forallb (fun r => bool_decide (is_Some (parse_category (snd r)))) (raw_tag_rules raw)
  && forallb (fun g =>
       forallb (fun c => bool_decide (is_Some (parse_category c))) (raw_categories g)
       && forallb (fun r => bool_decide (is_Some (parse_bet_type (snd r)))) (raw_tag_bet_type_rules g)
       && forallb (fun r => bool_decide (is_Some (parse_bet_type (snd r)))) (raw_sports_market_type_rules g)
       && forallb (fun r => bool_decide (is_Some (parse_bet_type (snd r)))) (raw_question_text_rules g)
       && bool_decide (is_Some (parse_bet_type (raw_fallback_bet_type g)))) (raw_bet_type_groups raw).

Lemma forallb_elem {A} (p : A -> bool) l x : forallb p l = true -> x ∈ l -> p x = true.
Proof. rewrite forallb_forall. intros Hl Hx. apply Hl. by apply list_elem_of_In. Qed.

Lemma compile_valid r : regex_valid ("(?i)" +:+ r) = true -> is_Some (compile_question_regex r).
Proof. intros Hr. unfold compile_question_regex. cbv zeta. rewrite Hr. by eexists. Qed.

Lemma parse_total raw :
  names_known raw = true -> (forall r, r ∈ rule_patterns raw -> regex_valid ("(?i)" +:+ r) = true) ->
  is_Some (CompiledRules_parse raw).
Proof.
  unfold names_known. rewrite !andb_true_iff. intros [[N1 N2] N3] Hv. unfold CompiledRules_parse.
  destruct (map_option_total CategoryTextRule_parse (raw_category_text_rules raw)) as [t ->].
  { intros x Hx. pose proof (proj1 (bool_decide_eq_true _) (forallb_elem _ _ _ N1 Hx)) as Hc.
    assert (Hp : forall p, p ∈ raw_text_regex x :: match raw_exclude_regex x with Some e => [e] | None => [] end ->
              is_Some (compile_question_regex p)).
    { intros p Hp. apply compile_valid, Hv, elem_of_app. left. apply list_elem_of_In, in_flat_map.
      exists x. split; by apply list_elem_of_In. }
    unfold CategoryTextRule_parse. destruct (Hp (raw_text_regex x) ltac:(by left)) as [r ->]. destruct Hc as [c ->].
    destruct (raw_exclude_regex x) as [e|]; [|by eexists].
    destruct (Hp e ltac:(right; by left)) as [e' ->]. by eexists. }
  destruct (map_option_total (fun r : Z * string => c ← parse_category (snd r); Some (fst r, c)) (raw_tag_rules raw)) as [tg ->].
  { intros x Hx. destruct (proj1 (bool_decide_eq_true _) (forallb_elem _ _ _ N2 Hx)) as [c Hc]. rewrite Hc. by eexists. }
  destruct (map_option_total BetTypeGroup_parse (raw_bet_type_groups raw)) as [gs ->]; [|by eexists].
  intros g Hg. pose proof (forallb_elem _ _ _ N3 Hg) as Hn. cbn beta in Hn. rewrite !andb_true_iff in Hn.
  destruct Hn as [[[[M1 M2] M3] M4] M5]. unfold BetTypeGroup_parse.
  destruct (map_option_total parse_category (raw_categories g)) as [cs ->].
  { intros x Hx. exact (proj1 (bool_decide_eq_true _) (forallb_elem _ _ _ M1 Hx)). }
  edestruct (map_option_total (fun r : Z * string => b ← parse_bet_type (snd r); Some (fst r, b))) as [a ->].
  { intros x Hx. destruct (proj1 (bool_decide_eq_true _) (forallb_elem _ _ _ M2 Hx)) as [c Hc]. rewrite Hc. by eexists. }
  edestruct (map_option_total (fun r : string * string => b ← parse_bet_type (snd r); Some (to_lowercase (fst r), b))) as [a' ->].
  { intros x Hx. destruct (proj1 (bool_decide_eq_true _) (forallb_elem _ _ _ M3 Hx)) as [c Hc]. rewrite Hc. by eexists. }
  edestruct (map_option_total (fun r : string * string => e ← compile_question_regex (fst r); b ← parse_bet_type (snd r); Some (e, b)))
    as [q ->].
  { intros x Hx. destruct (proj1 (bool_decide_eq_true _) (forallb_elem _ _ _ M4 Hx)) as [c Hc]. rewrite Hc.
    destruct (compile_valid (fst x)) as [e ->]; [|by eexists]. apply Hv, elem_of_app. right.
    apply list_elem_of_In, in_flat_map. exists g. split; [by apply list_elem_of_In|]. apply in_map. by apply list_elem_of_In. }
  apply bool_decide_eq_true in M5 as [fb Hfb]. rewrite Hfb. by eexists.
Qed.

(** The rules compile.  Every name in the shipped rules is known, so with an engine
    that accepts their patterns no market makes the classification panic. *)
Theorem classify_total tags smt question :
  (forall r, r ∈ rule_patterns RULES_JSON -> regex_valid ("(?i)" +:+ r) = true) ->
  is_Some (classify tags smt question).
Proof.
  intros Hv. destruct (parse_total RULES_JSON) as [r Hr]; [by vm_compute|done|].
  unfold classify. rewrite Hr. by eexists.
Qed.
End Classify.

(** ** Instances *)

(** An engine whose only notion of a match is the text itself. *)
Definition sample_engine : TextEngine :=
  {| regex_valid := fun _ => true; is_match := fun r q => String.eqb r ("(?i)" +:+ q); to_lowercase := to_ascii_lower |}.

Lemma classify_in_block_witness :
  classify (H := sample_engine) [64; 12] (Some "Child_Moneyline") (Some "q") = Some (Category_Esports, Bet_GameWinner)
  /\ in_block Category_Esports Bet_GameWinner = true.
Proof.
  split; [by vm_compute|].
  apply (classify_in_block (H := sample_engine) [64; 12] (Some "Child_Moneyline") (Some "q") Category_Esports Bet_GameWinner);
    [by vm_compute|by eexists|discriminate].
Defined.

Lemma classify_category_witness :
  classify (H := sample_engine) [85; 84] None None = Some (Category_Weather, Bet_Storm)
  /\ Category_Weather = if mentions_question (H := sample_engine) None then Category_Mentions else Category_Weather.
Proof.
  split; [by vm_compute|].
  exact (classify_category (H := sample_engine) [85; 84] None None Category_Weather Bet_Storm ltac:(by vm_compute)).
Defined.

Lemma classify_total_witness : is_Some (classify (H := sample_engine) [] None (Some "hurricane")).
Proof. apply classify_total. intros r _. reflexivity. Defined.
