(* ===== verification/Regex.v ===== *)
(** * Regex: the regular expressions of the category rules

    [src/category.rs] hands the patterns of [config/category_rules.json] to the regex crate.
    This file states what that crate documents for the syntax those patterns use: a parser
    of the patterns, what an expression matches, as a relation between positions of a text,
    and a matcher that computes it ([search_exact]).  The Unicode tables are an interface. *)
From S2P Require Import Prelude.

(** What the tables say of a character that is not ASCII, and simple case folding. *)
Class UnicodeTables := {
  uni_word : Z -> bool;
  uni_space : Z -> bool;
  uni_digit : Z -> bool;
  uni_fold : Z -> Z }.

(** ** Texts: the characters of a UTF-8 string *)

Definition cont_bits (b : Byte.byte) : Z := Z.land (byte_val b) 63.
Fixpoint utf8_chars (bs : bytes) : list Z :=
  match bs with
  | [] => []
  | b0 :: r0 =>
      let v0 := byte_val b0 in
      if v0 <? 128 then v0 :: utf8_chars r0 else
      match r0 with
      | [] => []
      | b1 :: r1 =>
          if v0 <? 224 then (Z.land v0 31 * 64 + cont_bits b1) :: utf8_chars r1 else
          match r1 with
          | [] => []
          | b2 :: r2 =>
              if v0 <? 240 then (Z.land v0 15 * 4096 + cont_bits b1 * 64 + cont_bits b2) :: utf8_chars r2 else
              match r2 with
              | [] => []
              | b3 :: r3 => (Z.land v0 7 * 262144 + cont_bits b1 * 4096 + cont_bits b2 * 64 + cont_bits b3) :: utf8_chars r3
              end
          end
      end
  end.
Definition chars (s : string) : list Z := utf8_chars (bytes_of_str s).

Example chars_decoded : chars "a°“" = [97; 176; 8220].
Proof. reflexivity. Qed.

(** ** Expressions *)

Inductive Assertion := TextStart | TextEnd | WordBoundary.
Inductive ClassItem := OneChar (c : Z) | Digit | Space | Word.
Inductive Re :=
| Empty
| AnyChar
| CharClass (negated : bool) (items : list ClassItem)
| Seq (a b : Re)
| Alt (a b : Re)
| Star (a : Re)
| Assert (a : Assertion).

Section Meaning.
Context `{UnicodeTables}.

Definition is_word (c : Z) : bool :=
  if c <? 128 then between 48 c 57 || between 65 c 90 || between 97 c 122 || (c =? 95) else uni_word c.
Definition is_space (c : Z) : bool := if c <? 128 then between 9 c 13 || (c =? 32) else uni_space c.
Definition is_digit_char (c : Z) : bool := if c <? 128 then between 48 c 57 else uni_digit c.
(** Under [(?i)] characters are compared folded. *)
Definition fold_char (c : Z) : Z := if c <? 128 then if between 65 c 90 then c + 32 else c else uni_fold c.

Definition in_item (c : Z) (i : ClassItem) : bool :=
  match i with
  | OneChar x => fold_char c =? fold_char x
  | Digit => is_digit_char c
  | Space => is_space c
  | Word => is_word c
  end.
Definition in_class (negated : bool) (items : list ClassItem) (c : Z) : bool := xorb negated (existsb (in_item c) items).
(** What one character an expression of one character takes; [.] takes no line feed. *)
Definition any_char (c : Z) : bool := negb (c =? 10).

Section Text.
Variable t : list Z.

Definition word_at (i : nat) : bool := from_option is_word false (t !! i).
Definition holds (a : Assertion) (i : nat) : bool :=
  match a with
  | TextStart => (i =? 0)%nat
  | TextEnd => (i =? length t)%nat
  | WordBoundary => xorb (match i with O => false | S i => word_at i end) (word_at i)
  end.

(** [matches r i j]: the characters from position [i] to [j] match. *)
Definition takes (p : Z -> bool) (i j : nat) : Prop := exists c, t !! i = Some c /\ p c = true /\ j = S i.
Fixpoint matches (r : Re) : nat -> nat -> Prop :=
  match r with
  | Empty => eq
  | AnyChar => takes any_char
  | CharClass negated items => takes (in_class negated items)
  | Seq a b => fun i j => exists k, matches a i k /\ matches b k j
  | Alt a b => fun i j => matches a i j \/ matches b i j
  | Star a => rtc (matches a)
  | Assert a => fun i j => i = j /\ holds a i = true
  end.
(** The expression matches somewhere: [Regex::is_match]. *)
Definition found (r : Re) : Prop := exists i j, (i <= length t)%nat /\ matches r i j.

(** ** The matcher: from a set of positions to those where a match from one of them ends.
    A set is a list of one Boolean per position. *)

Definition step (p : Z -> bool) (s : list bool) : list bool := false :: zip_with (fun c b => b && p c) t s.
Definition union (s s' : list bool) : list bool := zip_with orb s s'.
Fixpoint close (f : list bool -> list bool) (n : nat) (s : list bool) : list bool :=
  match n with O => s | S n => close f n (union s (f s)) end.
Fixpoint ends (r : Re) (s : list bool) : list bool :=
  match r with
  | Empty => s
  | AnyChar => step any_char s
  | CharClass negated items => step (in_class negated items) s
  | Seq a b => ends b (ends a s)
  | Alt a b => union (ends a s) (ends b s)
  | Star a => close (ends a) (length t) s
  | Assert a => imap (fun i b => b && holds a i) s
  end.
Definition search (r : Re) : bool := existsb id (ends r (replicate (S (length t)) true)).

(** *** It computes the relation *)

Definition sized (s : list bool) : Prop := length s = S (length t).
Notation "i ∈@ s" := (s !! i = Some true) (at level 70).

Lemma step_spec p s j : sized s -> sized (step p s) /\ (j ∈@ step p s <-> exists i, i ∈@ s /\ takes p i j).
Proof.
  unfold sized, step, takes. intros Hs. split; [cbn; rewrite length_zip_with; lia|]. destruct j as [|j]; cbn.
  - split; [done|]. intros (i & _ & c & _ & _ & Hj). done.
  - rewrite lookup_zip_with_Some. split.
    + intros (c & b & Hb & Hc & Hp). symmetry in Hb. apply andb_true_iff in Hb as [-> Hb]. eauto 10.
    + intros (i & Hi & c & Hc & Hp & [= ->]). exists c, true. by rewrite Hp.
Qed.

Lemma union_spec s s' j : sized s -> sized s' -> sized (union s s') /\ (j ∈@ union s s' <-> j ∈@ s \/ j ∈@ s').
Proof.
  unfold sized, union. intros Hs Hs'. split; [rewrite length_zip_with; lia|]. rewrite lookup_zip_with_Some. split.
  - intros (b & b' & Hb & H1 & H2). symmetry in Hb. apply orb_true_iff in Hb as [->| ->]; auto.
  - assert (Hboth : is_Some (s !! j) <-> is_Some (s' !! j)) by (rewrite !lookup_lt_is_Some; lia).
    intros [Hj|Hj].
    + destruct (proj1 Hboth ltac:(eauto)) as [b' Hb']. exists true, b'. by rewrite Hj.
    + destruct (proj2 Hboth ltac:(eauto)) as [b Hb]. exists b, true. by rewrite orb_true_r.
Qed.

Lemma close_spec (f : list bool -> list bool) (R : nat -> nat -> Prop) :
  (forall s j, sized s -> sized (f s) /\ (j ∈@ f s <-> exists i, i ∈@ s /\ R i j)) ->
  forall n s j, sized s -> sized (close f n s) /\ (j ∈@ close f n s <-> exists i m, i ∈@ s /\ (m <= n)%nat /\ nsteps R m i j).
Proof.
  intros Hf n. induction n as [|n IH]; intros s j Hs; cbn [close].
  - split; [done|]. split.
    + intros Hj. exists j, 0%nat. split_and!; [done|lia|constructor].
    + intros (i & m & Hi & Hm & Hn). assert (m = 0%nat) as -> by lia. inversion Hn; by subst.
  - pose proof (fun k => union_spec s (f s) k Hs (proj1 (Hf s k Hs))) as Hu. destruct (IH (union s (f s)) j (proj1 (Hu j))) as [IH1 IH2].
    split; [done|]. rewrite IH2. split.
    + intros (i & m & Hi & Hm & Hn). apply (proj2 (Hu i)) in Hi as [Hi|Hi]; [exists i, m; split_and!; [done|lia|done]|].
      apply (proj2 (Hf s i Hs)) in Hi as (i' & Hi' & Hr). exists i', (S m). split_and!; [done|lia|by econstructor].
    + intros (i & m & Hi & Hm & Hn). destruct (decide (m = S n)) as [->|].
      * inversion Hn as [|? ? k ? Hr Hrest]; subst. exists k, n. split_and!; [|lia|done]. apply Hu. right. apply Hf; [done|]. by exists i.
      * exists i, m. split_and!; [|lia|done]. apply Hu. by left.
Qed.

Lemma matches_range r : forall i j, matches r i j -> (i <= length t)%nat -> (i <= j <= length t)%nat.
Proof.
  assert (Htakes : forall p i j, takes p i j -> (i <= length t)%nat -> (i <= j <= length t)%nat).
  { intros p i j (c & Hc & _ & ->) _. apply lookup_lt_Some in Hc. lia. }
  induction r as [| |neg items|a IHa b IHb|a IHa b IHb|a IHa|a]; cbn; intros i j.
  - intros ->. lia.
  - apply Htakes.
  - apply Htakes.
  - intros (k & Ha & Hb) Hi. specialize (IHa i k Ha Hi). specialize (IHb k j Hb). lia.
  - intros [Ha|Hb] Hi; [by apply IHa|by apply IHb].
  - induction 1 as [i|i k j Ha _ IH]; intros Hi; [lia|]. specialize (IHa i k Ha Hi). lia.
  - intros [-> _]. lia.
Qed.

(** A repetition needs no more rounds than it takes characters. *)
Lemma rtc_rounds r i j : rtc (matches r) i j -> (i <= length t)%nat -> exists m, (m <= j - i)%nat /\ nsteps (matches r) m i j.
Proof.
  induction 1 as [i|i k j Ha Hs IH]; intros Hi; [exists 0%nat; split; [lia|constructor]|].
  pose proof (matches_range r i k Ha Hi) as Hk. destruct (IH ltac:(lia)) as (m & Hm & Hn).
  pose proof (matches_range (Star r) k j Hs ltac:(lia)) as Hj.
  destruct (decide (i = k)) as [<-|]; [by exists m|]. exists (S m). split; [lia|by econstructor].
Qed.

Lemma ends_spec r : forall s j, sized s -> sized (ends r s) /\ (j ∈@ ends r s <-> exists i, i ∈@ s /\ matches r i j).
Proof.
  induction r as [| |neg items|a IHa b IHb|a IHa b IHb|a IHa|a]; intros s j Hs; cbn [ends matches].
  - split; [done|]. split; [by exists j|by intros (i & Hi & ->)].
  - by apply step_spec.
  - by apply step_spec.
  - pose proof (fun k => IHa s k Hs) as Ha. destruct (IHb (ends a s) j (proj1 (Ha j))) as [Hl Hb]. split; [done|]. rewrite Hb. split.
    + intros (k & Hk & Hm). apply Ha in Hk as (i & Hi & Hm'). eauto.
    + intros (i & Hi & k & Hm' & Hm). exists k. split; [|done]. apply Ha. eauto.
  - destruct (IHa s j Hs) as [La Ha], (IHb s j Hs) as [Lb Hb]. destruct (union_spec _ _ j La Lb) as [Lu Hu]. split; [done|].
    rewrite Hu, Ha, Hb. split; [intros [(i & ? & ?)|(i & ? & ?)]; eauto|intros (i & ? & [?|?]); eauto].
  - destruct (close_spec (ends a) (matches a) IHa (length t) s j Hs) as [Lc Hc]. split; [done|]. rewrite Hc. split.
    + intros (i & m & Hi & _ & Hn). exists i. split; [done|]. apply rtc_nsteps. eauto.
    + intros (i & Hi & Hr). pose proof (lookup_lt_Some _ _ _ Hi) as Hlt. unfold sized in Hs.
      pose proof (matches_range (Star a) i j Hr ltac:(lia)). destruct (rtc_rounds a i j Hr ltac:(lia)) as (m & Hm & Hn).
      exists i, m. split_and!; [done|lia|done].
  - unfold sized. rewrite length_imap, list_lookup_imap. split; [done|]. split.
    + intros Hj. apply fmap_Some in Hj as (b & Hb & E). symmetry in E. apply andb_true_iff in E as [-> E]. eauto.
    + intros (i & Hi & -> & Hh). by rewrite Hi; cbn; rewrite Hh.
Qed.

(** The matcher says yes exactly when the expression matches somewhere in the text, for
    every expression and text. *)
Theorem search_exact r : search r = true <-> found r.
Proof.
  unfold search, found. rewrite existsb_exists. set (all := replicate _ true).
  assert (Hall : sized all) by (unfold sized, all; by rewrite length_replicate). split.
  - intros (b & Hb & E). cbv in E. subst b. apply list_elem_of_In, list_elem_of_lookup in Hb as [j Hj].
    apply (ends_spec r all j Hall) in Hj as (i & Hi & Hm). apply lookup_replicate in Hi as [_ Hi]. exists i, j. split; [lia|done].
  - intros (i & j & Hi & Hm). exists true. split; [|done]. apply list_elem_of_In, list_elem_of_lookup. exists j.
    apply ends_spec; [done|]. exists i. split; [|done]. apply lookup_replicate. lia.
Qed.
End Text.
End Meaning.

(** ** Patterns *)

Definition plus (a : Re) : Re := Seq a (Star a).
Definition optional (a : Re) : Re := Alt a Empty.
Definition literal (c : Z) : Re := CharClass false [OneChar c].

Definition code (c : ascii) : Z := ascii_code c.
Definition is_code (c : ascii) (z : Z) : bool := z =? code c.
Definition one_of (cs : string) (z : Z) : bool := existsb (fun b => byte_val b =? z) (bytes_of_str cs).

(** A class of one escape, negated for the capital letter. *)
Definition class_escape (z : Z) : option (bool * ClassItem) :=
  if is_code "d" z then Some (false, Digit) else if is_code "D" z then Some (true, Digit)
  else if is_code "s" z then Some (false, Space) else if is_code "S" z then Some (true, Space)
  else if is_code "w" z then Some (false, Word) else if is_code "W" z then Some (true, Word) else None.
Definition is_punctuation : Z -> bool := one_of "\.+*?()|[]{}^$/".

(** What stands between brackets, up to the closing one; ranges, nested classes and set
    operations are not of the patterns' syntax. *)
Fixpoint class_items (s : list Z) (acc : list ClassItem) : option (list ClassItem * list Z) :=
  match s with
  | [] => None
  | c :: s =>
      if is_code "]" c then match acc with [] => None | _ => Some (rev acc, s) end
      else if is_code "\" c then
        match s with
        | [] => None
        | e :: s => match class_escape e with
                    | Some (false, i) => class_items s (i :: acc)
                    | Some (true, _) => None
                    | None => if is_punctuation e then class_items s (OneChar e :: acc) else None
                    end
        end
      else if one_of "[-&~^" c then None else class_items s (OneChar c :: acc)
  end.

Definition quantified (a : Re) (s : list Z) : option (Re * list Z) :=
  let stop s := match s with c :: _ => if one_of "*+?{" c then None else Some s | [] => Some s end in
  match s with
  | c :: s' =>
      if is_code "*" c then r ← stop s'; Some (Star a, r)
      else if is_code "+" c then r ← stop s'; Some (plus a, r)
      else if is_code "?" c then r ← stop s'; Some (optional a, r)
      else if is_code "{" c then None else Some (a, s)
  | [] => Some (a, s)
  end.

Fixpoint parse_alt (fuel : nat) (s : list Z) : option (Re * list Z) :=
  match fuel with
  | O => None
  | S fuel =>
      '(a, s) ← parse_seq fuel s;
      match s with
      | c :: s' => if is_code "|" c then '(b, s) ← parse_alt fuel s'; Some (Alt a b, s) else Some (a, s)
      | [] => Some (a, s)
      end
  end
with parse_seq (fuel : nat) (s : list Z) : option (Re * list Z) :=
  match fuel with
  | O => None
  | S fuel =>
      match s with
      | [] => Some (Empty, s)
      | c :: _ =>
          if one_of "|)" c then Some (Empty, s)
          else '(a, s) ← parse_atom fuel s; '(a, s) ← quantified a s; '(b, s) ← parse_seq fuel s; Some (Seq a b, s)
      end
  end
with parse_atom (fuel : nat) (s : list Z) : option (Re * list Z) :=
  match fuel with
  | O => None
  | S fuel =>
      match s with
      | [] => None
      | c :: s =>
          if is_code "(" c then
            '(a, s) ← parse_alt fuel s;
            match s with d :: s => if is_code ")" d then Some (a, s) else None | [] => None end
          else if is_code "[" c then
            match s with
            | d :: s' => if is_code "^" d then '(items, s) ← class_items s' []; Some (CharClass true items, s)
                         else '(items, s) ← class_items s []; Some (CharClass false items, s)
            | [] => None
            end
          else if is_code "\" c then
            match s with
            | [] => None
            | e :: s =>
                if is_code "b" e then Some (Assert WordBoundary, s) else
                match class_escape e with
                | Some (n, i) => Some (CharClass n [i], s)
                | None => if is_punctuation e then Some (literal e, s) else None
                end
            end
          else if is_code "." c then Some (AnyChar, s)
          else if is_code "^" c then Some (Assert TextStart, s)
          else if is_code "$" c then Some (Assert TextEnd, s)
          else if one_of "*+?{}]" c then None else Some (literal c, s)
      end
  end.

(** A case-insensitive pattern.  Every step of the parser's three levels takes a character
    or goes a level down, so three times the length is fuel enough. *)
Definition parse_pattern (p : string) : option Re :=
  body ← strip_prefix "(?i)" p;
  let s := chars body in
  match parse_alt (3 * length s + 3) s with Some (r, []) => Some r | _ => None end.
