(* ===== verification/CategoryRegex.v ===== *)
(** * CategoryRegex: the shipped rules on their regular expressions ([src/category.rs])

    [Category] holds for any engine.  Here the engine is one that does what the regex crate
    documents ([DocumentedRegex], over [Regex]): then the shipped patterns are accepted and the
    classification is the one the verified matcher computes, which is run on questions. *)
From S2P Require Import Prelude Model Regex Category.

(** [is_match] is as documented on the patterns of the syntax; a [&str] is valid UTF-8. *)
Class DocumentedRegex (E : TextEngine) (U : UnicodeTables) : Prop :=
  regex_documented p r : parse_pattern p = Some r ->
    regex_valid p = true
    /\ forall s, utf8_valid (bytes_of_str s) = true -> is_match p s = true <-> found (chars s) r.

(** The engine that runs the matcher. *)
Definition reference_engine (U : UnicodeTables) (lower : string -> string) : TextEngine :=
  {| regex_valid p := bool_decide (is_Some (parse_pattern p));
     is_match p s := match parse_pattern p with Some r => search (chars s) r | None => false end;
     to_lowercase := lower |}.

#[export] Instance reference_documented U lower : DocumentedRegex (reference_engine U lower) U.
Proof.
  intros p r Hp. unfold reference_engine. cbn [regex_valid is_match]. rewrite Hp. split; [by apply bool_decide_eq_true_2|]. intros s _. apply search_exact.
Qed.

(** The patterns a compiled rule set holds. *)
Definition compiled_patterns (rules : CompiledRules) : list string :=
  flat_map (fun r => text_regex r :: option_list (exclude_regex r)) (category_text_rules rules)
  ++ flat_map (fun g => map fst (question_text_rules g)) (bet_type_groups rules).
Definition parses (p : string) : bool := match parse_pattern p with Some _ => true | None => false end.

Lemma map_option_ext {A B} (f g : A -> option B) l : (forall x, x ∈ l -> f x = g x) -> map_option f l = map_option g l.
Proof.
  induction l as [|x l IH]; intros Hf; [done|]. cbn. rewrite (Hf x) by (by left). rewrite IH; [done|]. intros y Hy. apply Hf. by right.
Qed.

Lemma find_ext {A} (f g : A -> bool) l : (forall x, x ∈ l -> f x = g x) -> List.find f l = List.find g l.
Proof.
  induction l as [|x l IH]; intros Hf; [done|]. cbn. rewrite (Hf x) by (by left). destruct (g x); [done|]. apply IH. intros y Hy. apply Hf. by right.
Qed.

Section Engines.
Variables E E' : TextEngine.
Hypothesis same_lower : forall s, to_lowercase (TextEngine := E) s = to_lowercase (TextEngine := E') s.

(** Engines that accept the same patterns of a rule file compile it to the same. *)
Lemma compile_same raw :
  (forall p, p ∈ rule_patterns raw -> regex_valid (TextEngine := E) ("(?i)" +:+ p) = regex_valid (TextEngine := E') ("(?i)" +:+ p)) ->
  CompiledRules_parse (H := E) raw = CompiledRules_parse (H := E') raw.
Proof.
  intros Hv. assert (Hc : forall p, p ∈ rule_patterns raw -> compile_question_regex (H := E) p = compile_question_regex (H := E') p).
  { intros p Hp. unfold compile_question_regex. by rewrite Hv. }
  unfold CompiledRules_parse. rewrite (map_option_ext (CategoryTextRule_parse (H := E)) (CategoryTextRule_parse (H := E'))),
    (map_option_ext (BetTypeGroup_parse (H := E)) (BetTypeGroup_parse (H := E'))); [done| |].
  - intros g Hg. unfold BetTypeGroup_parse. destruct (map_option parse_category _); [cbn|done]. destruct (map_option _ (raw_tag_bet_type_rules g)); [cbn|done].
    rewrite (map_option_ext (fun r : string * string => b ← parse_bet_type (snd r); Some (to_lowercase (TextEngine := E) (fst r), b))
      (fun r => b ← parse_bet_type (snd r); Some (to_lowercase (TextEngine := E') (fst r), b))); [|intros; by rewrite same_lower].
    destruct (map_option _ (raw_sports_market_type_rules g)); [cbn|done].
    rewrite (map_option_ext (fun r : string * string => e ← compile_question_regex (H := E) (fst r); b ← parse_bet_type (snd r); Some (e, b))
      (fun r => e ← compile_question_regex (H := E') (fst r); b ← parse_bet_type (snd r); Some (e, b))); [done|].
    intros x Hx. rewrite Hc; [done|]. apply elem_of_app. right. apply list_elem_of_In, in_flat_map. exists g. split; [by apply list_elem_of_In|].
    apply in_map. by apply list_elem_of_In.
  - intros x Hx. unfold CategoryTextRule_parse.
    assert (Hp : forall p, p ∈ raw_text_regex x :: match raw_exclude_regex x with Some e => [e] | None => [] end ->
              compile_question_regex (H := E) p = compile_question_regex (H := E') p).
    { intros p Hp. apply Hc, elem_of_app. left. apply list_elem_of_In, in_flat_map. exists x. split; by apply list_elem_of_In. }
    rewrite Hp by (by left). destruct (raw_exclude_regex x) as [e|]; [|done]. by rewrite (Hp e) by (by right; left).
Qed.

(** Engines that match the same classify the same. *)
Lemma classify_same rules tags smt question :
  (forall p q, p ∈ compiled_patterns rules -> question = Some q -> is_match (TextEngine := E) p q = is_match (TextEngine := E') p q) ->
  classify_with (H := E) rules tags smt question = classify_with (H := E') rules tags smt question.
Proof.
  intros Hm. assert (Hc : category_for (H := E) tags question rules = category_for (H := E') tags question rules).
  { unfold category_for. destruct question as [q|]; [cbn|done]. erewrite find_ext; [done|]. intros r Hr. unfold text_rule_matches.
    assert (Hp : forall p, p ∈ text_regex r :: option_list (exclude_regex r) -> is_match (TextEngine := E) p q = is_match (TextEngine := E') p q).
    { intros p Hp. apply Hm; [|done]. apply elem_of_app. left. apply list_elem_of_In, in_flat_map. exists r. split; by apply list_elem_of_In. }
    rewrite Hp by (by left). destruct (exclude_regex r) as [e|]; [|done]. by rewrite (Hp e) by (by right; left). }
  unfold classify_with. rewrite Hc. f_equal. destruct (List.find _ (bet_type_groups rules)) as [g|] eqn:Eg; [|done].
  apply List.find_some in Eg as [Hg _]. unfold bet_type_for. destruct (List.find _ (tag_bet_type_rules g)); [done|].
  destruct (match smt with Some s => _ | None => None end) as [s|]; [by rewrite same_lower|]. destruct question as [q|]; [|done].
  erewrite find_ext; [done|]. intros r Hr. apply Hm; [|done]. apply elem_of_app. right. apply list_elem_of_In, in_flat_map. exists g. split; [done|].
  apply in_map. by apply list_elem_of_In.
Qed.
End Engines.

Lemma shipped_patterns_parse : forallb (fun p => parses ("(?i)" +:+ p)) (rule_patterns RULES_JSON) = true.
Proof. vm_compute. reflexivity. Qed.

Lemma compiled_patterns_parse U lower rules :
  CompiledRules_parse (H := reference_engine U lower) RULES_JSON = Some rules -> forallb parses (compiled_patterns rules) = true.
Proof.
  assert (Hall : match CompiledRules_parse (H := reference_engine U lower) RULES_JSON with
                 | Some rules => forallb parses (compiled_patterns rules) | None => true end = true) by (vm_compute; reflexivity).
  intros E. by rewrite E in Hall.
Qed.

(** ** The rule file, read *)

(** The first element of a list that has a property. *)
Inductive first {A} (P : A -> Prop) : list A -> option A -> Prop :=
| first_none : first P [] None
| first_here x l : P x -> first P (x :: l) (Some x)
| first_later x l o : ~ P x -> first P l o -> first P (x :: l) o.

Lemma first_unique {A} (P : A -> Prop) l o o' : first P l o -> first P l o' -> o = o'.
Proof. intros H. revert o'. induction H; inversion 1; subst; try done; auto. Qed.

(** What [find] answers on a list that was mapped. *)
Lemma find_first {A B} (f : A -> option B) (p : B -> bool) (P : A -> Prop) l : forall ys, map_option f l = Some ys ->
  (forall x y, x ∈ l -> f x = Some y -> p y = true <-> P x) ->
  match List.find p ys with Some y => exists x, first P l (Some x) /\ f x = Some y | None => first P l None end.
Proof.
  induction l as [|x l IH]; intros ys Hm Hp; cbn [map_option] in Hm; [injection Hm as <-; constructor|].
  apply bind_Some in Hm as (y & Hy & Hm). apply bind_Some in Hm as (ys' & Hm & [= <-]). cbn [List.find].
  assert (Hx : p y = true <-> P x) by (apply Hp; [by left|done]). destruct (p y).
  - exists x. split; [constructor; by apply Hx|done].
  - assert (Hn : ~ P x) by (intros Px; by apply Hx in Px). specialize (IH ys' Hm (fun x' y' Hin => Hp x' y' (list_elem_of_further _ _ _ Hin))).
    destruct (List.find p ys') as [y'|]; [destruct IH as (x' & Hf & Hfx); exists x'; split; [by apply first_later|done]|by apply first_later].
Qed.

Section Reading.
Context `{UnicodeTables}.
(** [str::to_lowercase] *)
Variable lower : string -> string.

(** A pattern of the file is found in a text, letter case aside. *)
Definition pattern_found (p q : string) : Prop := exists r, parse_pattern ("(?i)" +:+ p) = Some r /\ found (chars q) r.
Definition contains (needle s : string) : Prop := exists before after, s = before +:+ needle +:+ after.

(** A text rule applies when its pattern is found and the one that excludes is not. *)
Definition text_applies (q : string) (rule : RawCategoryTextRule) : Prop :=
  pattern_found (raw_text_regex rule) q /\ forall e, raw_exclude_regex rule = Some e -> ~ pattern_found e q.

Variables (tags : list Z) (sports_type question : option string).

(** The question's wording decides first, then the first rule for a tag of the market; without
    either it is unspecified if it has no tags and else other. *)
Definition no_text_rule : Prop := forall q, question = Some q -> first (text_applies q) (raw_category_text_rules RULES_JSON) None.
Inductive category_is : Category -> Prop :=
| category_by_text q rule c : question = Some q -> first (text_applies q) (raw_category_text_rules RULES_JSON) (Some rule) ->
    parse_category (raw_text_category rule) = Some c -> category_is c
| category_by_tag rule c : no_text_rule -> first (fun r => fst r ∈ tags) (raw_tag_rules RULES_JSON) (Some rule) ->
    parse_category (snd rule) = Some c -> category_is c
| category_untagged : no_text_rule -> tags = [] -> category_is Category_Unspecified
| category_other : no_text_rule -> first (fun r => fst r ∈ tags) (raw_tag_rules RULES_JSON) None -> tags <> [] ->
    category_is Category_Other.

(** In a group of categories: the first rule for a tag; else, where the group has rules for
    sports market types and the market has a type, the first whose text the type contains, or
    the fallback; else the first rule whose pattern the question has, or the fallback. *)
Definition no_sports_rule (g : RawBetTypeGroup) : Prop := sports_type = None \/ raw_sports_market_type_rules g = [].
Inductive bet_in_group (g : RawBetTypeGroup) : BetType -> Prop :=
| bet_by_tag rule b : first (fun r => fst r ∈ tags) (raw_tag_bet_type_rules g) (Some rule) -> parse_bet_type (snd rule) = Some b ->
    bet_in_group g b
| bet_by_type s o b : first (fun r => fst r ∈ tags) (raw_tag_bet_type_rules g) None ->
    sports_type = Some s -> raw_sports_market_type_rules g <> [] ->
    first (fun r => contains (lower (fst r)) (lower s)) (raw_sports_market_type_rules g) o ->
    parse_bet_type (match o with Some r => snd r | None => raw_fallback_bet_type g end) = Some b -> bet_in_group g b
| bet_by_question q o b : first (fun r => fst r ∈ tags) (raw_tag_bet_type_rules g) None -> no_sports_rule g ->
    question = Some q -> first (fun r => pattern_found (fst r) q) (raw_question_text_rules g) o ->
    parse_bet_type (match o with Some r => snd r | None => raw_fallback_bet_type g end) = Some b -> bet_in_group g b
| bet_unknown : first (fun r => fst r ∈ tags) (raw_tag_bet_type_rules g) None -> no_sports_rule g -> question = None ->
    bet_in_group g Bet_Unspecified.

(** The group is the first that lists the category. *)
Definition lists_category (c : Category) (g : RawBetTypeGroup) : Prop := exists name, name ∈ raw_categories g /\ parse_category name = Some c.
Inductive bet_is (c : Category) : BetType -> Prop :=
| bet_grouped g b : first (lists_category c) (raw_bet_type_groups RULES_JSON) (Some g) -> bet_in_group g b -> bet_is c b
| bet_ungrouped : first (lists_category c) (raw_bet_type_groups RULES_JSON) None -> bet_is c Bet_Unspecified.

Lemma category_is_unique c c' : category_is c -> category_is c' -> c = c'.
Proof.
  assert (Hu : forall {A} (P : A -> Prop) l o o', first P l o -> first P l o' -> o = o') by (intros; by eapply first_unique).
  assert (Hnil : forall l o, tags = [] -> first (fun r : Z * string => fst r ∈ tags) l o -> o = None).
  { intros l o -> Hf. induction Hf as [|x l Hx|]; [done|by apply elem_of_nil in Hx|done]. }
  destruct 1 as [q rule c Hq Ht Hc|rule c Hn Ht Hc|Hn He|Hn Ht He]; destruct 1 as [q' rule' c' Hq' Ht' Hc'|rule' c' Hn' Ht' Hc'|Hn' He'|Hn' Ht' He']; try done.
  all: try (rewrite Hq in Hq'; injection Hq' as <-; pose proof (Hu _ _ _ _ _ Ht Ht') as E; injection E as <-; congruence).
  all: try (specialize (Hn' _ Hq); pose proof (Hu _ _ _ _ _ Ht Hn'); done). all: try (specialize (Hn _ Hq'); pose proof (Hu _ _ _ _ _ Ht' Hn); done).
  all: try (pose proof (Hu _ _ _ _ _ Ht Ht') as E; first [discriminate E|injection E as <-; congruence]).
  - by pose proof (Hnil _ _ He' Ht).
  - by pose proof (Hnil _ _ He Ht').
Qed.

Lemma bet_in_group_unique g b b' : bet_in_group g b -> bet_in_group g b' -> b = b'.
Proof.
  assert (Hu : forall {A} (P : A -> Prop) l o o', first P l o -> first P l o' -> o = o') by (intros; by eapply first_unique).
  destruct 1 as [r b H1 H2|s o b H1 H2 H3 H4 H5|q o b H1 H2 H3 H4 H5|H1 H2 H3];
    destruct 1 as [r' b' G1 G2|s' o' b' G1 G2 G3 G4 G5|q' o' b' G1 G2 G3 G4 G5|G1 G2 G3]; try done.
  all: pose proof (Hu _ _ _ _ _ H1 G1) as E; try discriminate E.
  - injection E as <-. congruence.
  - rewrite H2 in G2. injection G2 as <-. pose proof (Hu _ _ _ _ _ H4 G4) as <-. congruence.
  - by destruct G2 as [?|?]; [congruence|].
  - by destruct G2 as [?|?]; [congruence|].
  - by destruct H2 as [?|?]; [congruence|].
  - rewrite H3 in G3. injection G3 as <-. pose proof (Hu _ _ _ _ _ H4 G4) as <-. congruence.
  - congruence.
  - by destruct H2 as [?|?]; [congruence|].
  - congruence.
Qed.

Lemma bet_is_unique c b b' : bet_is c b -> bet_is c b' -> b = b'.
Proof.
  destruct 1 as [g b Hg Hb|Hg]; destruct 1 as [g' b' Hg' Hb'|Hg']; pose proof (first_unique _ _ _ _ Hg Hg') as E; try done.
  injection E as <-. by eapply bet_in_group_unique.
Qed.
End Reading.

(** The classification is the computed one.  With a regex engine that does what the
    crate documents, the shipped rules compile, and whatever the market's tags, its type and
    its question, its category and bet type are those the verified matcher gives. *)
Theorem classify_computed (E : TextEngine) (U : UnicodeTables) tags smt question : DocumentedRegex E U ->
  (forall q, question = Some q -> utf8_valid (bytes_of_str q) = true) ->
  classify (H := E) tags smt question
  = classify (H := reference_engine U (to_lowercase (TextEngine := E))) tags smt question
  /\ is_Some (classify (H := E) tags smt question).
Proof.
  intros HE Hq. set (R := reference_engine U _). assert (HR : DocumentedRegex R U) by apply reference_documented.
  assert (Hv : forall F : TextEngine, DocumentedRegex F U -> forall p, p ∈ rule_patterns RULES_JSON -> regex_valid (TextEngine := F) ("(?i)" +:+ p) = true).
  { intros F HF p Hp. pose proof (forallb_elem _ _ _ shipped_patterns_parse Hp) as Hpp. cbv beta in Hpp. unfold parses in Hpp.
    destruct (parse_pattern _) as [r|] eqn:Er; [|done]. by destruct (HF _ r Er). }
  split; [|apply classify_total; by apply Hv].
  unfold classify. rewrite (compile_same E R (fun _ => eq_refl)) by (intros p Hp; by rewrite !Hv).
  destruct (CompiledRules_parse (H := R) RULES_JSON) as [rules|] eqn:Er; [cbn|done]. f_equal.
  apply classify_same; [done|]. intros p q Hp ->. pose proof (forallb_elem _ _ _ (compiled_patterns_parse _ _ _ Er) Hp) as Hpp. unfold parses in Hpp.
  destruct (parse_pattern p) as [r|] eqn:Epr; [|done]. apply eq_iff_eq_true. destruct (HE p r Epr) as [_ H1]. destruct (HR p r Epr) as [_ H2].
  by rewrite H1, H2 by auto.
Qed.

(** ** The classification is the rule file's *)

Lemma str_contains_iff needle s : str_contains needle s = true <-> contains needle s.
Proof.
  assert (Hs : forall t, starts_with needle t = true <-> exists after, t = needle +:+ after).
  { intros t. unfold starts_with. destruct (strip_prefix needle t) as [r|] eqn:E; [apply strip_prefix_Some in E as ->; split; [by exists r|done]|].
    split; [done|]. intros [r ->]. by rewrite strip_prefix_app in E. }
  induction s as [|ch s IH]; cbn [str_contains]; rewrite orb_true_iff, Hs.
  - split; [intros [[r E]|?]; [by exists "", r|done]|]. intros ([|? before] & after & E); [left; by exists after|discriminate E].
  - rewrite IH. split.
    + intros [[r E]|(before & after & ->)]; [by exists "", r|by exists (String ch before), after].
    + intros ([|? before] & after & E); [left; by exists after|]. injection E as <- ->. right. by exists before, after.
Qed.

Lemma has_tag_iff tags t : has_tag tags t = true <-> t ∈ tags.
Proof. unfold has_tag. rewrite existsb_exists. setoid_rewrite Z.eqb_eq. rewrite list_elem_of_In. split; [by intros (x & Hx & ->)|by exists t]. Qed.

Section Documented.
Variables (E : TextEngine) (U : UnicodeTables).
Context `{HE : !DocumentedRegex E U}.
#[local] Existing Instance E.
#[local] Existing Instance U.

Lemma pattern_compiled p e q : p ∈ rule_patterns RULES_JSON -> compile_question_regex p = Some e -> utf8_valid (bytes_of_str q) = true ->
  is_match e q = true <-> pattern_found p q.
Proof using HE.
  intros Hp Hc Hq. unfold compile_question_regex in Hc. cbv zeta in Hc. destruct (regex_valid _); [|done]. injection Hc as <-.
  pose proof (forallb_elem _ _ _ shipped_patterns_parse Hp) as Hpp. cbv beta in Hpp. unfold parses in Hpp.
  unfold pattern_found. destruct (parse_pattern _) as [r|] eqn:Er; [|done]. destruct (HE _ r Er) as [_ Hm]. rewrite (Hm q Hq).
  split; [by exists r|]. by intros (r' & [= <-] & Hf).
Qed.

Lemma text_pattern rule p : rule ∈ raw_category_text_rules RULES_JSON -> p = raw_text_regex rule \/ raw_exclude_regex rule = Some p ->
  p ∈ rule_patterns RULES_JSON.
Proof.
  intros Hr Hp. apply elem_of_app. left. apply list_elem_of_In, in_flat_map. exists rule. split; [by apply list_elem_of_In|].
  destruct Hp as [Hp|Hp]; rewrite Hp; [by left|right; by left].
Qed.
Lemma question_pattern g r : g ∈ raw_bet_type_groups RULES_JSON -> r ∈ raw_question_text_rules g -> fst r ∈ rule_patterns RULES_JSON.
Proof.
  intros Hg Hr. apply elem_of_app. right. apply list_elem_of_In, in_flat_map. exists g. split; [by apply list_elem_of_In|].
  apply in_map. by apply list_elem_of_In.
Qed.

Lemma text_rule_iff q rule r : rule ∈ raw_category_text_rules RULES_JSON -> CategoryTextRule_parse rule = Some r ->
  utf8_valid (bytes_of_str q) = true -> text_rule_matches q r = true <-> text_applies q rule.
Proof using HE.
  intros Hin Hp Hq. unfold CategoryTextRule_parse in Hp. apply bind_Some in Hp as (t & Ht & Hp). apply bind_Some in Hp as (ex & Hex & Hp).
  apply bind_Some in Hp as (c & Hc & [= <-]). unfold text_rule_matches, text_applies. cbn [text_regex exclude_regex].
  rewrite andb_true_iff, (pattern_compiled _ _ q (text_pattern rule _ Hin (or_introl eq_refl)) Ht Hq).
  assert (Hx : negb match ex with Some e => is_match e q | None => false end = true <-> forall e, raw_exclude_regex rule = Some e -> ~ pattern_found e q).
  { destruct (raw_exclude_regex rule) as [e|] eqn:Ee; cbn in Hex; [|by injection Hex as <-].
    destruct (compile_question_regex e) as [e'|] eqn:Ec; [injection Hex as <-|done].
    rewrite negb_true_iff, <- not_true_iff_false, (pattern_compiled e e' q (text_pattern rule _ Hin (or_intror Ee)) Ec Hq).
    split; [by intros Hn ? [= <-]|]. intros Hn. by apply Hn. }
  by rewrite Hx.
Qed.

Lemma category_for_is rules tags question : CompiledRules_parse RULES_JSON = Some rules ->
  (forall q, question = Some q -> utf8_valid (bytes_of_str q) = true) -> category_is tags question (category_for tags question rules).
Proof using HE.
  intros Hr Hq. apply bind_Some in Hr as (texts & Ht & Hr). apply bind_Some in Hr as (trs & Htag & Hr). apply bind_Some in Hr as (gs & _ & [= <-]).
  assert (Htags : match List.find (fun r => has_tag tags (fst r)) trs with
                  | Some r => exists x, first (fun r => fst r ∈ tags) (raw_tag_rules RULES_JSON) (Some x) /\ parse_category (snd x) = Some (snd r)
                  | None => first (fun r => fst r ∈ tags) (raw_tag_rules RULES_JSON) None end).
  { pose proof (find_first _ (fun r : Z * Category => has_tag tags (fst r)) (fun r : Z * string => fst r ∈ tags) _ _ Htag) as Hf.
    destruct (List.find _ trs) as [r|].
    - destruct Hf as (x & Hf & Hx); [intros x y _ (c & _ & [= <-])%bind_Some; apply has_tag_iff|]. exists x. split; [done|].
      by apply bind_Some in Hx as (c & Hc & [= <-]).
    - apply Hf. intros x y _ (c & _ & [= <-])%bind_Some. apply has_tag_iff. }
  assert (Hnone : no_text_rule question -> category_is tags question
     match List.find (fun r => has_tag tags (fst r)) trs with Some r => snd r | None => match tags with [] => Category_Unspecified | _ => Category_Other end end).
  { intros Hn. destruct (List.find _ trs) as [r|]; [destruct Htags as (x & Hf & Hx); by eapply category_by_tag|].
    destruct tags; [by apply category_untagged|by apply category_other]. }
  unfold category_for. cbn [category_text_rules tag_rules]. destruct question as [q|]; cbn [mbind option_bind]; [|by apply Hnone].
  specialize (Hq q eq_refl). pose proof (find_first _ (text_rule_matches q) (text_applies q) _ _ Ht) as Hf.
  destruct (List.find (text_rule_matches q) texts) as [r|].
  - destruct Hf as (x & Hf & Hx); [intros x y Hx Hy; by apply text_rule_iff|]. eapply category_by_text; [done|exact Hf|].
    unfold CategoryTextRule_parse in Hx. apply bind_Some in Hx as (t & _ & Hx). apply bind_Some in Hx as (ex & _ & Hx).
    by apply bind_Some in Hx as (c & Hc & [= <-]).
  - apply Hnone. intros ? [= <-]. apply Hf. intros x y Hx Hy. by apply text_rule_iff.
Qed.

Lemma bet_type_for_is raw g tags smt question : raw ∈ raw_bet_type_groups RULES_JSON -> BetTypeGroup_parse raw = Some g ->
  (forall q, question = Some q -> utf8_valid (bytes_of_str q) = true) ->
  bet_in_group to_lowercase tags smt question raw (bet_type_for tags smt question g).
Proof using HE.
  intros Hin Hp Hq. unfold BetTypeGroup_parse in Hp. apply bind_Some in Hp as (cs & _ & Hp). apply bind_Some in Hp as (trs & Ht & Hp).
  apply bind_Some in Hp as (srs & Hs & Hp). apply bind_Some in Hp as (qrs & Hqr & Hp). apply bind_Some in Hp as (fb & Hfb & [= <-]).
  unfold bet_type_for. cbn [tag_bet_type_rules sports_market_type_rules question_text_rules fallback_bet_type].
  pose proof (find_first _ (fun r : Z * BetType => has_tag tags (fst r)) (fun r : Z * string => fst r ∈ tags) _ _ Ht) as Ft.
  destruct (List.find _ trs) as [r|].
  { destruct Ft as (x & Hf & Hx); [intros x y _ (c & _ & [= <-])%bind_Some; apply has_tag_iff|]. apply bind_Some in Hx as (b & Hb & [= <-]).
    by eapply bet_by_tag. }
  specialize (Ft ltac:(intros x y _ (c & _ & [= <-])%bind_Some; apply has_tag_iff)).
  assert (Hnil : srs = [] <-> raw_sports_market_type_rules raw = []).
  { destruct (raw_sports_market_type_rules raw) as [|x l]; cbn [map_option] in Hs; [by injection Hs as <-|].
    apply bind_Some in Hs as (y & _ & Hs). by apply bind_Some in Hs as (ys & _ & [= <-]). }
  destruct (match smt with Some s => match srs with [] => None | _ => Some s end | None => None end) as [s|] eqn:Es.
  - assert (smt = Some s /\ raw_sports_market_type_rules raw <> []) as [Hsm Hne].
    { destruct smt as [s'|]; [|done]. destruct srs; [done|]. injection Es as <-. split; [done|]. intros E0. by apply Hnil in E0. }
    pose proof (find_first _ (fun r : string * BetType => str_contains (fst r) (to_lowercase s))
      (fun r : string * string => contains (to_lowercase (fst r)) (to_lowercase s)) _ _ Hs) as Fs.
    destruct (List.find _ srs) as [r|].
    + destruct Fs as (x & Hf & Hx); [intros x y _ (c & _ & [= <-])%bind_Some; apply str_contains_iff|]. apply bind_Some in Hx as (b & Hb & [= <-]).
      by eapply (bet_by_type _ _ _ _ _ s (Some x)).
    + eapply (bet_by_type _ _ _ _ _ s None); [done|done|done| |done]. apply Fs. intros x y _ (c & _ & [= <-])%bind_Some. apply str_contains_iff.
  - assert (Hno : no_sports_rule smt raw).
    { destruct smt as [s'|]; [right|by left]. destruct srs; [by apply Hnil|done]. }
    destruct question as [q|]; [|by apply bet_unknown]. specialize (Hq q eq_refl).
    assert (Hiff : forall (x : string * string) (y : string * BetType), x ∈ raw_question_text_rules raw ->
              (e ← compile_question_regex (fst x); b ← parse_bet_type (snd x); Some (e, b)) = Some y -> is_match (fst y) q = true <-> pattern_found (fst x) q).
    { intros x y Hx (e & He & Hy)%bind_Some. apply bind_Some in Hy as (b & _ & [= <-]). apply pattern_compiled; [by eapply question_pattern|done|done]. }
    pose proof (find_first _ (fun r : string * BetType => is_match (fst r) q) (fun r : string * string => pattern_found (fst r) q) _ _ Hqr Hiff) as Fq.
    destruct (List.find _ qrs) as [r|].
    + destruct Fq as (x & Hf & Hx). apply bind_Some in Hx as (e & _ & Hx). apply bind_Some in Hx as (b & Hb & [= <-]).
      by eapply (bet_by_question _ _ _ _ _ q (Some x)).
    + by eapply (bet_by_question _ _ _ _ _ q None).
Qed.

Lemma classify_is tags smt question c b : (forall q, question = Some q -> utf8_valid (bytes_of_str q) = true) ->
  classify tags smt question = Some (c, b) -> category_is tags question c /\ bet_is to_lowercase tags smt question c b.
Proof using HE.
  intros Hq Hc. apply bind_Some in Hc as (rules & Hr & [= Ec Eb]). pose proof (category_for_is rules tags question Hr Hq) as Hcat. rewrite Ec in Hcat.
  split; [done|]. rewrite Ec in Eb. apply bind_Some in Hr as (texts & _ & Hr). apply bind_Some in Hr as (trs & _ & Hr).
  apply bind_Some in Hr as (gs & Hg & [= <-]). cbn [bet_type_groups] in Eb.
  assert (Hiff : forall x y, x ∈ raw_bet_type_groups RULES_JSON -> BetTypeGroup_parse x = Some y ->
            existsb (fun x => bool_decide (x = c)) (categories y) = true <-> lists_category c x).
  { intros x y _ Hy. unfold BetTypeGroup_parse in Hy. apply bind_Some in Hy as (cs & Hcs & Hy). do 4 (apply bind_Some in Hy as (? & _ & Hy)).
    injection Hy as <-. cbn [categories]. rewrite existsb_exists. unfold lists_category. split.
    - intros (c' & Hin & ->%bool_decide_eq_true). apply list_elem_of_In in Hin. destruct (map_option_in _ _ _ _ Hcs Hin) as (n & Hn & Hp). by exists n.
    - intros (n & Hn & Hp). exists c. split; [|by apply bool_decide_eq_true]. apply list_elem_of_In. clear -Hcs Hn Hp. revert cs Hcs.
      induction (raw_categories x) as [|m l IH]; [by apply elem_of_nil in Hn|]. intros cs Hcs. cbn [map_option] in Hcs.
      apply bind_Some in Hcs as (y & Hy & Hcs). apply bind_Some in Hcs as (ys & Hys & [= <-]). apply elem_of_cons in Hn as [<-|Hn].
      + rewrite Hp in Hy. injection Hy as <-. by left.
      + right. by apply IH. }
  pose proof (find_first _ (fun g => existsb (fun x => bool_decide (x = c)) (categories g)) (lists_category c) _ _ Hg Hiff) as Hf.
  destruct (List.find _ gs) as [g|].
  - destruct Hf as (raw & Hf & Hp). eapply bet_grouped; [exact Hf|]. rewrite <- Eb. apply bet_type_for_is; [|done|done].
    clear -Hf. remember (Some raw) as o. induction Hf; [done|injection Heqo as ->; by left|right; auto].
  - subst b. by apply bet_ungrouped.
Qed.
End Documented.

(** C14: a market's classification is what the rule file says.  With any regex engine that
    does what the crate documents, whatever a market's tags, type and question: the category
    is that of the first text rule whose pattern the question has and whose exclusion it has
    not, else of the first tag rule for one of its tags, else unspecified without tags and
    other with some; the bet type is that of the first group that lists the category, by its
    first tag rule for a tag, else (only where the group has such rules and the market a type)
    by its first sports rule whose text the type contains, else by its first question rule
    whose pattern the question has, each with the group's fallback; without a group, or
    without question and type, it is unspecified.  Every market gets exactly one. *)
Theorem classify_by_rules (E : TextEngine) (U : UnicodeTables) tags smt question c b : DocumentedRegex E U ->
  (forall q, question = Some q -> utf8_valid (bytes_of_str q) = true) ->
  classify (H := E) tags smt question = Some (c, b)
  <-> category_is (H := U) tags question c /\ bet_is (H := U) (to_lowercase (TextEngine := E)) tags smt question c b.
Proof.
  intros HE Hq. split; [by apply classify_is|]. intros [Hc Hb].
  destruct (classify_total (H := E) tags smt question) as [[c' b'] Ecb].
  { intros p Hp. pose proof (forallb_elem _ _ _ shipped_patterns_parse Hp) as Hpp. cbv beta in Hpp. unfold parses in Hpp.
    destruct (parse_pattern _) as [r|] eqn:Er; [|done]. by destruct (HE _ r Er). }
  destruct (classify_is E U tags smt question c' b' Hq Ecb) as [Hc' Hb'].
  rewrite (category_is_unique _ _ _ _ Hc Hc') in *. by rewrite Ecb, (bet_is_unique _ _ _ _ _ _ _ Hb Hb').
Qed.

(** ** Running it *)

(** Tables for texts whose characters beyond ASCII are signs: no letters, digits or blanks
    among them, none the other case of a letter. *)
Definition sign_tables : UnicodeTables := {| uni_word _ := false; uni_space _ := false; uni_digit _ := false; uni_fold c := c |}.
Definition engine : TextEngine := reference_engine sign_tables to_ascii_lower.

Lemma classify_by_rules_witness :
  let question := Some "Will Shakhtar Donetsk win the 2026-27 UEFA Champions League Championship?" in
  category_is (H := sign_tables) [1] question Category_Sports
  /\ bet_is (H := sign_tables) to_ascii_lower [1] None question Category_Sports Bet_Outright.
Proof.
  intros question. apply (classify_by_rules engine sign_tables [1] None question Category_Sports Bet_Outright _).
  - intros q [= <-]. vm_compute. reflexivity.
  - vm_compute. reflexivity.
Defined.

(** The meaning of two of the patterns' particulars: a boundary, and a class's folding. *)
Example pattern_particulars :
  map (fun '(p, s) => is_match (TextEngine := engine) ("(?i)" +:+ p) s)
    [("\bO/U\b", "Total o/u 4.5"); ("\bO/U\b", "No/Use"); ("^[^:]+\svs\.?\s[^:]+$", "A vs. B"); ("^[^:]+\svs\.?\s[^:]+$", "Game: A vs. B");
     ("[“‘]", "he said “no"); ("\d+\s*Winner", "Game 12winner")]%string
  = [true; false; true; false; true; true].
Proof. vm_compute. reflexivity. Qed.
