(* ===== verification/CategoryTests.v ===== *)
(** * CategoryTests: the tests of [src/category.rs] on the model

    Each test of the source is a definition of its name that runs its assertions on
    [Category.classify] with the verified matcher; [category_tests_pass] evaluates them all. *)
From S2P Require Import Prelude Model Regex Category CategoryRegex.

(** A text with its double quotes written as backquotes. *)
Fixpoint quoted (s : string) : string :=
  match s with
  | EmptyString => EmptyString
  | String c s => (if Ascii.eqb c "`" then quote else String c EmptyString) +:+ quoted s
  end.

Abbreviation classify := (Category.classify (H := engine)).
Definition gives (tags : list Z) (smt question : option string) (c : Category) (b : BetType) : bool :=
  bool_decide (classify tags smt question = Some (c, b)).

Definition built_in_rules_file_parses : bool :=
  match classify [] None None with Some _ => true | None => false end.
Definition no_enrichment_is_fully_unspecified : bool :=
  gives [] None None Category_Unspecified Bet_Unspecified.
Definition category_with_no_bet_type_group_stays_unspecified_despite_matching_text : bool :=
  gives [999999] None (Some "Team A vs. Team B") Category_Other Bet_Unspecified.
Definition politics_election_text_never_resolves_to_the_sports_groups_outright : bool :=
  match classify [2] None (Some "Will Sarah Huckabee Sanders win the 2028 Republican presidential nomination?") with Some r => bool_decide (fst r = Category_Politics) && negb (bool_decide (snd r = Bet_Outright)) && bool_decide (snd r = Bet_ElectionWinner) | None => false end.
Definition unknown_tag_is_other : bool :=
  gives [999999] None None Category_Other Bet_Unspecified.
Definition plain_matchup_is_moneyline : bool :=
  gives [1] (Some "moneyline") (Some "New York Yankees vs. Los Angeles Angels") Category_Sports Bet_Moneyline.
Definition spreads_sports_market_type_is_spread : bool :=
  gives [1] (Some "spreads") (Some "Spread: Los Angeles Angels (-2.5)") Category_Sports Bet_Spread.
Definition sport_specific_handicap_variant_is_spread : bool :=
  gives [1] (Some "table_tennis_game_handicap") None Category_Sports Bet_Spread.
Definition sport_specific_totals_variant_is_over_under : bool :=
  gives [1] (Some "table_tennis_match_totals") None Category_Sports Bet_OverUnder.
Definition period_scoped_totals_variant_is_over_under : bool :=
  gives [1] (Some "soccer_first_half_team_totals") None Category_Sports Bet_OverUnder.
Definition period_scoped_winner_variant_is_moneyline : bool :=
  gives [1] (Some "baseball_team_inning1_winner") None Category_Sports Bet_Moneyline.
Definition esports_child_moneyline_is_game_winner_under_esports_category : bool :=
  gives [1; 64] (Some "child_moneyline") None Category_Esports Bet_GameWinner.
Definition outright_championship_futures_falls_back_to_question_text : bool :=
  gives [1] None (Some "Will Shakhtar Donetsk win the 2026-27 UEFA Champions League Championship?") Category_Sports Bet_Outright.
Definition unrecognized_sports_market_type_is_sports_prop_not_a_text_fallback : bool :=
  gives [1] (Some "some_future_bet_shape") (Some "Team A vs. Team B") Category_Sports Bet_SportsProp.
Definition highest_temperature_tag_is_temp_high_under_weather_category : bool :=
  gives [84; 104596] None None Category_Weather Bet_TempHigh.
Definition lowest_temperature_tag_is_temp_low_under_weather_category : bool :=
  gives [84; 104597] None None Category_Weather Bet_TempLow.
Definition hurricane_tag_is_storm_even_alongside_an_unmapped_science_tag : bool :=
  gives [74; 84; 102023] None None Category_Weather Bet_Storm.
Definition precipitation_tag_is_precipitation_under_weather_category : bool :=
  gives [84; 103041] None None Category_Weather Bet_Precipitation.
Definition weather_question_text_fallback_when_no_specific_tag_matched : bool :=
  gives [84] None (Some "Will it snow in New York's Central Park on Christmas Eve?") Category_Weather Bet_Precipitation.
Definition weather_market_with_no_matching_signal_falls_back_to_weather_other_not_sports_prop : bool :=
  gives [84] None (Some "Will fewer than 950 tornadoes occur in the United States in 2026?") Category_Weather Bet_WeatherOther.
Definition dip_to_price_tag_is_price_target_under_crypto_category : bool :=
  gives [21; 102134] None None Category_Crypto Bet_PriceTarget.
Definition reach_price_tag_is_also_price_target_regardless_of_direction : bool :=
  gives [21; 102134] None None Category_Crypto Bet_PriceTarget.
Definition multi_strikes_tag_is_price_threshold_under_crypto_category : bool :=
  gives [21; 102516] None None Category_Crypto Bet_PriceThreshold.
Definition up_or_down_tag_is_up_down_under_crypto_category : bool :=
  gives [21; 102127] None None Category_Crypto Bet_UpDown.
Definition crypto_market_with_no_matching_signal_falls_back_to_crypto_prop : bool :=
  gives [21; 102368; 102802; 139] None (Some "Variational FDV above $800M one day after launch?") Category_Crypto Bet_CryptoProp.
Definition elections_tag_is_election_winner_under_politics_category : bool :=
  gives [2; 144] None None Category_Politics Bet_ElectionWinner.
Definition fed_rates_tag_is_fed_rate_decision_under_politics_category : bool :=
  gives [2; 100196] None None Category_Politics Bet_FedRateDecision.
Definition tweet_markets_tag_is_tweet_count_under_politics_category : bool :=
  gives [2; 596; 972] None None Category_Politics Bet_TweetCount.
Definition politics_market_with_no_matching_signal_falls_back_to_politics_prop : bool :=
  gives [2; 78; 126; 154; 180] None (Some "Will the U.S. invade Iran before 2027?") Category_Politics Bet_PoliticsProp.
Definition be_the_pattern_is_award_winner_under_culture_category : bool :=
  gives [596] None (Some "Will Avengers: Doomsday be the top grossing movie of 2026?") Category_Culture Bet_AwardWinner
  && gives [596] None (Some "Will Morgan Wallen be the Billboard #1 top artist in 2026?") Category_Culture Bet_AwardWinner.
Definition metric_range_text_is_media_metric_range_under_culture_category : bool :=
  gives [596] None (Some "Will the total domestic gross for Spider-Man: Brand New Day be between 940m and 950m by September 30?") Category_Culture Bet_MediaMetricRange.
Definition culture_market_with_no_matching_signal_falls_back_to_culture_prop : bool :=
  gives [596] None (Some "Will Jesus Christ return before 2027?") Category_Culture Bet_CultureProp.
Definition tagged_mention_with_a_count_is_mention_count : bool :=
  gives [2; 126; 596; 100343; 105481] None (Some (quoted "Will JD Vance say `America` or `American` 20+ times during RNC Convention?")) Category_Mentions Bet_MentionCount.
Definition spelled_out_count_is_still_mention_count : bool :=
  gives [2; 126; 246; 100265; 100343; 101669] None (Some (quoted "Will Donald Trump say `Venezuela` at least ten times during his Mar-a-Lago press conference on Venezuela on Saturday?")) Category_Mentions Bet_MentionCount.
Definition weekly_mention_date_range_is_not_a_count : bool :=
  gives [2; 126; 100343] None (Some (quoted "Will Trump say `MAGA` or `Make America Great Again` this week? (November 17 – 23)")) Category_Mentions Bet_MentionTerm.
Definition tagged_mention_without_a_count_is_mention_term : bool :=
  gives [1401; 100343; 101999; 102451] None (Some (quoted "Will Macy's say `Tax` during earnings call?")) Category_Mentions Bet_MentionTerm.
Definition passive_headline_mention_is_mention_term : bool :=
  gives [2; 596; 100343; 103236] None (Some (quoted "Will `Trump` be in the headlines this week?")) Category_Mentions Bet_MentionTerm.
Definition mentions_no_show_leg_is_mention_prop : bool :=
  gives [2; 126; 596; 100343; 105481] None (Some "Will JD Vance’s remarks not air?") Category_Mentions Bet_MentionProp.
Definition bogus_sports_market_type_still_reaches_the_mentions_question_rules : bool :=
  gives [1; 10; 450; 100343] (Some "moneyline") (Some (quoted "Will the announcers say `Tush push` during 49ers vs Rams game? (October 2)")) Category_Mentions Bet_MentionTerm.
Definition untagged_single_market_mention_is_caught_by_the_text_rule : bool :=
  gives [2; 126; 596; 101191; 102438; 102439; 102440] None (Some (quoted "Will Trump mention `South Park` by Sunday?")) Category_Mentions Bet_MentionTerm.
Definition untagged_earnings_call_mention_is_caught_by_the_text_rule : bool :=
  gives [120] None (Some (quoted "Will EA say `Mobile` during earnings call?")) Category_Mentions Bet_MentionTerm.
Definition index_reading_is_excluded_from_the_mentions_text_rule : bool :=
  gives [2; 100328; 101757] None (Some (quoted "Fear & Greed Index says `Extreme Fear` on Friday?")) Category_Politics Bet_PoliticsProp.
Definition tweet_count_is_not_swallowed_by_the_mentions_text_rule : bool :=
  match classify [282; 596; 972] None (Some "Will Elon tweet 100–124 times April 25–May 2?") with Some r => negb (bool_decide (fst r = Category_Mentions)) | None => false end.
Definition quoted_tweet_term_is_a_mention_but_a_tweet_count_is_not : bool :=
  gives [21; 972; 1329; 105289] None (Some (quoted "Will Elon Musk tweet `Hyperliquid` by June 30, 2026?")) Category_Mentions Bet_MentionTerm.

Definition category_tests : list bool :=
  [built_in_rules_file_parses;
   no_enrichment_is_fully_unspecified;
   category_with_no_bet_type_group_stays_unspecified_despite_matching_text;
   politics_election_text_never_resolves_to_the_sports_groups_outright;
   unknown_tag_is_other;
   plain_matchup_is_moneyline;
   spreads_sports_market_type_is_spread;
   sport_specific_handicap_variant_is_spread;
   sport_specific_totals_variant_is_over_under;
   period_scoped_totals_variant_is_over_under;
   period_scoped_winner_variant_is_moneyline;
   esports_child_moneyline_is_game_winner_under_esports_category;
   outright_championship_futures_falls_back_to_question_text;
   unrecognized_sports_market_type_is_sports_prop_not_a_text_fallback;
   highest_temperature_tag_is_temp_high_under_weather_category;
   lowest_temperature_tag_is_temp_low_under_weather_category;
   hurricane_tag_is_storm_even_alongside_an_unmapped_science_tag;
   precipitation_tag_is_precipitation_under_weather_category;
   weather_question_text_fallback_when_no_specific_tag_matched;
   weather_market_with_no_matching_signal_falls_back_to_weather_other_not_sports_prop;
   dip_to_price_tag_is_price_target_under_crypto_category;
   reach_price_tag_is_also_price_target_regardless_of_direction;
   multi_strikes_tag_is_price_threshold_under_crypto_category;
   up_or_down_tag_is_up_down_under_crypto_category;
   crypto_market_with_no_matching_signal_falls_back_to_crypto_prop;
   elections_tag_is_election_winner_under_politics_category;
   fed_rates_tag_is_fed_rate_decision_under_politics_category;
   tweet_markets_tag_is_tweet_count_under_politics_category;
   politics_market_with_no_matching_signal_falls_back_to_politics_prop;
   be_the_pattern_is_award_winner_under_culture_category;
   metric_range_text_is_media_metric_range_under_culture_category;
   culture_market_with_no_matching_signal_falls_back_to_culture_prop;
   tagged_mention_with_a_count_is_mention_count;
   spelled_out_count_is_still_mention_count;
   weekly_mention_date_range_is_not_a_count;
   tagged_mention_without_a_count_is_mention_term;
   passive_headline_mention_is_mention_term;
   mentions_no_show_leg_is_mention_prop;
   bogus_sports_market_type_still_reaches_the_mentions_question_rules;
   untagged_single_market_mention_is_caught_by_the_text_rule;
   untagged_earnings_call_mention_is_caught_by_the_text_rule;
   index_reading_is_excluded_from_the_mentions_text_rule;
   tweet_count_is_not_swallowed_by_the_mentions_text_rule;
   quoted_tweet_term_is_a_mention_but_a_tweet_count_is_not].

Example category_tests_pass : forallb id category_tests = true.
Proof. vm_compute. reflexivity. Qed.
