(* ===== verification/Probe.v ===== *)
(** * Probe: the mempool probe ([examples/mempool_probe.rs])

    A process beside the service that watches pending transactions and the oracle's logs on
    one endpoint and writes, a line of JSON each, which logs it had seen pending and how much
    earlier.  Its two reader tasks and its main loop share [State] under a lock which
    [on_pending] and [sweep] give up before they write, so the model cuts each task at its
    accesses: [exec] runs any interleaving.  A JSON value is what the probe reads of it. *)
From S2P Require Import Prelude Events Float64 Category.

(** ** Data *)

Definition SIGNATURES : list (string * string) :=
  [("proposePrice", "proposePrice(address,bytes32,uint256,bytes,int256)");
   ("proposePriceFor", "proposePriceFor(address,address,bytes32,uint256,bytes,int256)");
   ("disputePrice", "disputePrice(address,bytes32,uint256,bytes)");
   ("disputePriceFor", "disputePriceFor(address,address,bytes32,uint256,bytes)")]%string.
Definition PENDING_TTL_US : Z := 600000000.
Definition NO_LOG_AFTER_US : Z := 120000000.

Record Seen := { at_us : Z; func : option string; embedded : bool; to : option string }.

Record State := {
  pending : gmap string Seen; logged_tx : gset string; mode : string;
  pending_msgs : Z; selector_direct : Z; selector_embedded : Z; selector_no_log : Z; late_pending : Z;
  log_txs : Z; hits : Z; leads_us : list Z; window_pending_msgs : Z; started_us : Z }.

(** A member of an object: not there, not a string, or a string ([Value::as_str]). *)
Inductive Field := Absent | NotText | Text (s : string).
Definition as_str (f : Field) : option string := match f with Text s => Some s | _ => None end.
Definition field_or (a b : Field) : Field := match a with Absent => b | _ => a end.

Inductive PendingTx := JustHash (hash : string) | TxObject (hash input data to_ from : Field) | OtherValue.
Record LogValue := {
  removed : option bool; transaction_hash : Field; topic0 : Field; block_number : Field; emitter_address : Field }.

Record Summary := {
  sm_at_us : Z; sm_mode : string; sm_pending_msgs : Z; pending_per_sec : f64; pending_per_sec_overall : f64;
  pending_tracked : Z; sm_direct : Z; sm_embedded : Z; sm_no_log : Z; sm_late : Z; sm_log_txs : Z; sm_hits : Z;
  hit_rate : f64; lead_ms : list (option f64) }.

Inductive Line :=
| PendingMatch (hash func_ : string) (embedded_ : bool) (to_ from : option string) (seen_us : Z)
| LogLine (hash event : string) (block : option Z) (emitter : option string) (log_us : Z) (seen : option (Seen * f64))
| PendingNoLog (hash : string) (func_ : option string) (to_ : option string) (seen_us : Z)
| SummaryLine (s : Summary).

(** ** [f64] as the summary uses it *)

Definition f64_max (x y : f64) : f64 := if f64_ltb x y then y else x.
(** [f64::round]: half away from zero. *)
Definition f64_round (x : f64) : f64 :=
  match x with
  | SpecFloat.S754_finite s m e =>
      if 0 <=? e then x
      else let n := (Z.pos m + 2 ^ (- e - 1)) / 2 ^ (- e) in
           if n =? 0 then SpecFloat.S754_zero s else f64_of_Z (if s then - n else n)
  | _ => x
  end.

Section Operations.
Context `{TextEngine}.
Variable selectors : list (string * string).
(** The order in which a HashMap is walked. *)
Variable hash_order : gmap string Seen -> list (string * Seen).

(** [classify] *)
Definition classify (input : string) : option string * bool :=
  let body := trim_start_matches "0x" input in
  match List.find (fun '(_, selector) => starts_with selector body) selectors with
  | Some (name, _) => (Some name, false)
  | None => match List.find (fun '(_, selector) => str_contains selector body) selectors with
            | Some (name, _) => (Some name, true)
            | None => (None, false)
            end
  end.

(** What [on_pending] takes out of its value. *)
Definition pending_fields (tx : PendingTx) : option (string * Seen * option string) :=
  match tx with
  | JustHash hash => Some (to_lowercase hash, {| at_us := 0; func := None; embedded := false; to := None |}, None)
  | TxObject hash input data to_ from =>
      hash ← as_str hash;
      let '(f, e) := classify (default "" (as_str (field_or input data))) in
      Some (to_lowercase hash, {| at_us := 0; func := f; embedded := e; to := to_lowercase <$> as_str to_ |},
            to_lowercase <$> as_str from)
  | OtherValue => None
  end.
Definition seen_at (at_ : Z) (s : Seen) : Seen := {| at_us := at_; func := func s; embedded := embedded s; to := to s |}.

Definition with_pending (m : gmap string Seen) (s : State) : State :=
  {| pending := m; logged_tx := logged_tx s; mode := mode s; pending_msgs := pending_msgs s; selector_direct := selector_direct s;
     selector_embedded := selector_embedded s; selector_no_log := selector_no_log s; late_pending := late_pending s;
     log_txs := log_txs s; hits := hits s; leads_us := leads_us s; window_pending_msgs := window_pending_msgs s;
     started_us := started_us s |}.
Definition with_mode (m : string) (s : State) : State :=
  {| pending := pending s; logged_tx := logged_tx s; mode := m; pending_msgs := pending_msgs s; selector_direct := selector_direct s;
     selector_embedded := selector_embedded s; selector_no_log := selector_no_log s; late_pending := late_pending s;
     log_txs := log_txs s; hits := hits s; leads_us := leads_us s; window_pending_msgs := window_pending_msgs s;
     started_us := started_us s |}.
(** A message, counted with [late] or as a match that is [direct] or [wrapped]. *)
Definition count_pending (late direct wrapped : Z) (s : State) : State :=
  {| pending := pending s; logged_tx := logged_tx s; mode := mode s; pending_msgs := u64_add (pending_msgs s) 1;
     selector_direct := u64_add (selector_direct s) direct; selector_embedded := u64_add (selector_embedded s) wrapped;
     selector_no_log := selector_no_log s; late_pending := u64_add (late_pending s) late;
     log_txs := log_txs s; hits := hits s; leads_us := leads_us s; window_pending_msgs := u64_add (window_pending_msgs s) 1;
     started_us := started_us s |}.

Definition insert_pending (hash : string) (seen : Seen) (s : State) : State := with_pending (<[hash := seen]> (pending s)) s.

(** [on_pending] up to where it gives up the lock: a match is still to be written and then
    inserted. *)
Definition on_pending (tx : PendingTx) (at_ : Z) (s : State) : State * option (Line * string * Seen) :=
  match pending_fields tx with
  | None => (s, None)
  | Some (hash, seen, from) =>
      let seen := seen_at at_ seen in
      if bool_decide (hash ∈ logged_tx s) then (count_pending 1 0 0 s, None)
      else match pending s !! hash with
      | Some _ => (count_pending 0 0 0 s, None)
      | None =>
          match func seen with
          | None => (insert_pending hash seen (count_pending 0 0 0 s), None)
          | Some f =>
              (if embedded seen then count_pending 0 0 1 s else count_pending 0 1 0 s,
               Some (PendingMatch hash f (embedded seen) (to seen) from at_, hash, seen))
          end
      end
  end.

Definition event_name (topic : string) : string :=
  let same t := String.eqb (to_ascii_lower topic) (to_ascii_lower t) in
  if same TOPIC_PROPOSE_PRICE then "ProposePrice" else if same TOPIC_DISPUTE_PRICE then "DisputePrice" else "other".

Definition as_i64 (z : Z) : Z := (z + 2 ^ 63) mod 2 ^ 64 - 2 ^ 63.
Definition lead (log_us pending_us : Z) : Z := as_i64 (as_i64 log_us - as_i64 pending_us).

(** A transaction whose first log this is. *)
Definition count_log (hash : string) (lead_ : option Z) (s : State) : State :=
  {| pending := pending s; logged_tx := {[hash]} ∪ logged_tx s; mode := mode s; pending_msgs := pending_msgs s;
     selector_direct := selector_direct s; selector_embedded := selector_embedded s; selector_no_log := selector_no_log s;
     late_pending := late_pending s; log_txs := u64_add (log_txs s) 1;
     hits := match lead_ with Some _ => u64_add (hits s) 1 | None => hits s end;
     leads_us := leads_us s ++ option_list lead_; window_pending_msgs := window_pending_msgs s; started_us := started_us s |}.

(** [on_log] up to where it gives up the lock. *)
Definition on_log (log : LogValue) (at_ : Z) (s : State) : State * option Line :=
  if bool_decide (removed log = Some true) then (s, None) else
  match as_str (transaction_hash log) with
  | None => (s, None)
  | Some hash =>
      let hash := to_lowercase hash in
      let event := event_name (default "" (as_str (topic0 log))) in
      let block := b ← as_str (block_number log); from_str_radix 16 u64_max (trim_start_matches "0x" b) in
      let emitter := as_str (emitter_address log) in
      if bool_decide (hash ∈ logged_tx s) then (s, None)
      else match pending s !! hash with
      | Some seen =>
          let l := lead at_ (at_us seen) in
          (count_log hash (Some l) s,
           Some (LogLine hash event block emitter at_ (Some (seen, f64_div (f64_of_Z l) (f64_of_Z 1000)))))
      | None => (count_log hash None s, Some (LogLine hash event block emitter at_ None))
      end
  end.

(** [sweep] up to where it gives up the lock. *)
Definition unlogged (now : Z) (logged : gset string) (e : string * Seen) : bool :=
  bool_decide (is_Some (func e.2)) && (NO_LOG_AFTER_US <? sat_sub now (at_us e.2)) && negb (bool_decide (e.1 ∈ logged)).
Definition kept (now : Z) (logged : gset string) (e : string * Seen) : bool :=
  negb (unlogged now logged e) && (sat_sub now (at_us e.2) <? PENDING_TTL_US).
Definition no_log_line (e : string * Seen) : Line := PendingNoLog e.1 (func e.2) (to e.2) (at_us e.2).
Definition sweep (now : Z) (s : State) : State * list Line :=
  let expired := List.filter (unlogged now (logged_tx s)) (hash_order (pending s)) in
  ({| pending := filter (fun e => kept now (logged_tx s) e = true) (pending s);
      logged_tx := if 200000 <? Z.of_nat (size (logged_tx s)) then ∅ else logged_tx s; mode := mode s;
      pending_msgs := pending_msgs s; selector_direct := selector_direct s; selector_embedded := selector_embedded s;
      selector_no_log := u64_add (selector_no_log s) (zlen expired); late_pending := late_pending s;
      log_txs := log_txs s; hits := hits s; leads_us := leads_us s; window_pending_msgs := window_pending_msgs s;
      started_us := started_us s |}, map no_log_line expired).

(** [pct]: [None] where the index is out of range, which panics. *)
Definition percentile_index (n : Z) (p : f64) : Z := f64_round_usize (f64_mul (f64_of_Z (n - 1)) p).
Definition pct (sorted : list Z) (p : f64) : option (option f64) :=
  if bool_decide (sorted = []) then Some None
  else l ← get_at sorted (percentile_index (zlen sorted) p); Some (Some (f64_div (f64_of_Z l) (f64_of_Z 1000))).
Definition PERCENTILES : list f64 := [f64_lit 1 10; f64_lit 1 2; f64_lit 9 10; f64_of_Z 0; f64_of_Z 1].

Definition tenths (x : f64) : f64 := f64_div (f64_round (f64_mul x (f64_of_Z 10))) (f64_of_Z 10).
(** [summary], which reads the clock twice. *)
Definition summary (window_secs : f64) (now1 now2 : Z) (s : State) : State * option Line :=
  let leads := sort_by Z.leb (leads_us s) in
  let rate := f64_div (f64_of_Z (window_pending_msgs s)) window_secs in
  let elapsed := f64_max (f64_div (f64_of_Z (u64_sub now2 (started_us s))) (f64_of_Z 1000000)) (f64_of_Z 1) in
  ({| pending := pending s; logged_tx := logged_tx s; mode := mode s; pending_msgs := pending_msgs s;
      selector_direct := selector_direct s; selector_embedded := selector_embedded s; selector_no_log := selector_no_log s;
      late_pending := late_pending s; log_txs := log_txs s; hits := hits s; leads_us := leads_us s; window_pending_msgs := 0;
      started_us := started_us s |},
   ps ← mapM (pct leads) PERCENTILES;
   Some (SummaryLine
     {| sm_at_us := now1; sm_mode := mode s; sm_pending_msgs := pending_msgs s; pending_per_sec := tenths rate;
        pending_per_sec_overall := tenths (f64_div (f64_of_Z (pending_msgs s)) elapsed);
        pending_tracked := Z.of_nat (size (pending s)); sm_direct := selector_direct s; sm_embedded := selector_embedded s;
        sm_no_log := selector_no_log s; sm_late := late_pending s; sm_log_txs := log_txs s; sm_hits := hits s;
        hit_rate := if 0 <? log_txs s then f64_div (f64_of_Z (hits s)) (f64_of_Z (log_txs s)) else f64_of_Z 0;
        lead_ms := ps |})).
End Operations.

(** ** The three tasks *)

(** [on_pending] between its locks. *)
Inductive PendingTask := PIdle | PEmits (l : Line) (hash : string) (seen : Seen) | PInserts (hash : string) (seen : Seen).
(** The main loop: [sweep]'s lines, then a summary over [window], then the next tick or the end. *)
Inductive MainTask := MWaits | MSweeps (lines : list Line) (window : f64) (last : bool) | MEmits (l : Line) (last : bool) | MDone.

Record Probe := {
  state : State; out : list Line; pending_task : PendingTask; logs_task : option Line; main_task : MainTask }.

Inductive Step :=
| PendingArrives (tx : PendingTx) (at_ : Z) | PendingGoes | SubscribedWith (full_tx : bool)
| LogArrives (log : LogValue) (at_ : Z) | LogGoes
| Tick (now : Z) | Deadline (now : Z) (elapsed : f64) | MainGoes (now1 now2 : Z).

Section Tasks.
Context `{TextEngine}.
Variable selectors : list (string * string).
Variable hash_order : gmap string Seen -> list (string * Seen).

Definition emit (l : Line) (p : Probe) : list Line := out p ++ [l].
Definition sweeps (now : Z) (window : f64) (last : bool) (p : Probe) : Probe :=
  let '(s, lines) := sweep hash_order now (state p) in
  {| state := s; out := out p; pending_task := pending_task p; logs_task := logs_task p; main_task := MSweeps lines window last |}.

Definition pending_moves (st : Step) (p : Probe) : option Probe :=
  match st, pending_task p with
  | PendingArrives tx at_, PIdle =>
      let '(s, r) := on_pending selectors tx at_ (state p) in
      Some {| state := s; out := out p; logs_task := logs_task p; main_task := main_task p;
              pending_task := match r with Some (l, hash, seen) => PEmits l hash seen | None => PIdle end |}
  | PendingGoes, PEmits l hash seen =>
      Some {| state := state p; out := emit l p; pending_task := PInserts hash seen; logs_task := logs_task p; main_task := main_task p |}
  | PendingGoes, PInserts hash seen =>
      Some {| state := insert_pending hash seen (state p); out := out p; pending_task := PIdle; logs_task := logs_task p;
              main_task := main_task p |}
  | SubscribedWith full, PIdle =>
      Some {| state := with_mode (if full then "full_tx" else "hash_only") (state p); out := out p; pending_task := PIdle;
              logs_task := logs_task p; main_task := main_task p |}
  | _, _ => None
  end.
Definition logs_moves (st : Step) (p : Probe) : option Probe :=
  match st, logs_task p with
  | LogArrives log at_, None =>
      let '(s, l) := on_log log at_ (state p) in
      Some {| state := s; out := out p; pending_task := pending_task p; logs_task := l; main_task := main_task p |}
  | LogGoes, Some l =>
      Some {| state := state p; out := emit l p; pending_task := pending_task p; logs_task := None; main_task := main_task p |}
  | _, _ => None
  end.
Definition main_moves (st : Step) (p : Probe) : option Probe :=
  match st, main_task p with
  | Tick now, MWaits => Some (sweeps now (f64_of_Z 60) false p)
  | Deadline now elapsed, MWaits => Some (sweeps now (f64_max elapsed (f64_of_Z 1)) true p)
  | MainGoes _ _, MSweeps (l :: lines) window last =>
      Some {| state := state p; out := emit l p; pending_task := pending_task p; logs_task := logs_task p;
              main_task := MSweeps lines window last |}
  | MainGoes now1 now2, MSweeps [] window last =>
      let '(s, l) := summary window now1 now2 (state p) in
      Some {| state := s; out := out p; pending_task := pending_task p; logs_task := logs_task p;
              main_task := match l with Some l => MEmits l last | None => MDone end |}
  | MainGoes _ _, MEmits l last =>
      Some {| state := state p; out := emit l p; pending_task := pending_task p; logs_task := logs_task p;
              main_task := if last then MDone else MWaits |}
  | _, _ => None
  end.
(** When the main loop is done the process ends. *)
Definition exec (st : Step) (p : Probe) : option Probe :=
  match main_task p with
  | MDone => None
  | _ => match pending_moves st p with
         | Some p => Some p
         | None => match logs_moves st p with Some p => Some p | None => main_moves st p end
         end
  end.
(** A step that is not the task's next one does not happen. *)
Definition run (steps : list Step) (p : Probe) : Probe := foldl (fun p st => default p (exec st p)) p steps.
End Tasks.

Definition probe_start (now : Z) : Probe :=
  {| state := {| pending := ∅; logged_tx := ∅; mode := "connecting"; pending_msgs := 0; selector_direct := 0; selector_embedded := 0;
                 selector_no_log := 0; late_pending := 0; log_txs := 0; hits := 0; leads_us := []; window_pending_msgs := 0;
                 started_us := now |};
     out := []; pending_task := PIdle; logs_task := None; main_task := MWaits |}.

(** ** What the lines add up to *)

Definition says_match (wrapped : bool) (l : Line) : bool := match l with PendingMatch _ _ e _ _ _ => Bool.eqb wrapped e | _ => false end.
Definition is_log (l : Line) : bool := match l with LogLine _ _ _ _ _ _ => true | _ => false end.
Definition is_no_log (l : Line) : bool := match l with PendingNoLog _ _ _ _ => true | _ => false end.
Definition lead_of (l : Line) : option Z :=
  match l with LogLine _ _ _ _ log_us (Some (seen, _)) => Some (lead log_us (at_us seen)) | _ => None end.
Definition tally (f : Line -> bool) (ls : list Line) : Z := zlen (List.filter f ls).
Definition u64 (z : Z) : Z := z mod 2 ^ 64.
#[local] Arguments tally : simpl never.
#[local] Arguments u64 : simpl never.

(** Matches that are remembered and neither reported nor forgotten. *)
Definition open_matches (m : gmap string Seen) : Z := Z.of_nat (size (filter (fun e => is_Some (func e.2)) m)).

(** Lines taken but not written yet. *)
Definition in_flight (p : Probe) : list Line :=
  match pending_task p with PEmits l _ _ => [l] | _ => [] end ++ option_list (logs_task p)
  ++ match main_task p with MSweeps ls _ _ => ls | MEmits l _ => [l] | _ => [] end.
Definition between_locks (p : Probe) : Z := match pending_task p with PIdle => 0 | _ => 1 end.

(** The counters of a state against the lines so far; [waiting] matches are counted and not
    remembered yet. *)
Record accounts (ls : list Line) (waiting : Z) (s : State) : Prop := {
  ac_direct : selector_direct s = u64 (tally (says_match false) ls);
  ac_embedded : selector_embedded s = u64 (tally (says_match true) ls);
  ac_no_log : selector_no_log s = u64 (tally is_no_log ls);
  ac_log_txs : log_txs s = u64 (tally is_log ls);
  ac_hits : hits s = u64 (zlen (leads_us s));
  ac_leads : leads_us s ≡ₚ omap lead_of ls;
  ac_open : tally is_no_log ls + open_matches (pending s) + waiting <= tally (says_match false) ls + tally (says_match true) ls }.

#[export] Instance tally_proper f : Proper ((≡ₚ) ==> (=)) (tally f).
Proof.
  intros l l' Hl. unfold tally, zlen. f_equal.
  induction Hl as [|x l l' _ IH|x y l|l l' l'' _ IH1 _ IH2]; cbn [List.filter]; [done| | |congruence].
  - destruct (f x); cbn [length]; congruence.
  - by destruct (f x), (f y).
Qed.

#[export] Instance accounts_proper : Proper ((≡ₚ) ==> (=) ==> (=) ==> iff) accounts.
Proof.
  assert (Hhalf : forall ls ls' w s, ls ≡ₚ ls' -> accounts ls w s -> accounts ls' w s).
  { intros ls ls' w s Hl []. split; rewrite <- ?Hl; done. }
  intros ls ls' Hl w w' <- s s' <-. split; by apply Hhalf.
Qed.

Lemma u64_succ z : u64_add (u64 z) 1 = u64 (1 + z).
Proof. unfold u64_add, u64. rewrite Zplus_mod_idemp_l. f_equal. lia. Qed.
Lemma u64_add_u64 z n : u64_add (u64 z) n = u64 (z + n).
Proof. apply Zplus_mod_idemp_l. Qed.
Lemma u64_same z : u64_add (u64 z) 0 = u64 z.
Proof. rewrite u64_add_u64. f_equal. lia. Qed.
Lemma tally_cons f l ls : tally f (l :: ls) = (if f l then 1 else 0) + tally f ls.
Proof. unfold tally, zlen. cbn [List.filter]. destruct (f l); cbn [length]; lia. Qed.
Lemma tally_app f ls ls' : tally f (ls ++ ls') = tally f ls + tally f ls'.
Proof. unfold tally, zlen. rewrite List.filter_app, length_app. lia. Qed.

Lemma open_insert hash seen m : open_matches (<[hash := seen]> m) <= open_matches m + match func seen with Some _ => 1 | None => 0 end.
Proof.
  unfold open_matches. destruct (func seen) as [f|] eqn:Ef.
  - rewrite map_filter_insert_True by (cbn; rewrite Ef; by eexists).
    set (m' := filter _ m). destruct (m' !! hash) eqn:El; [rewrite map_size_insert_Some by (by eexists); lia|].
    rewrite map_size_insert_None by done. lia.
  - rewrite map_filter_insert_False by (cbn; rewrite Ef; by intros []). rewrite map_filter_delete.
    set (m' := filter _ m). pose proof (map_subseteq_size _ _ (delete_subseteq m' hash)). lia.
Qed.

Lemma open_filter (keep : string * Seen -> bool) (gone : string * Seen -> bool) m :
  (forall e, gone e = true -> keep e = false /\ is_Some (func e.2)) ->
  Z.of_nat (size (filter (fun e => gone e = true) m)) + open_matches (filter (fun e => keep e = true) m) <= open_matches m.
Proof.
  intros Hg. unfold open_matches. set (a := filter (fun e => gone e = true) m).
  set (b := filter (fun e : string * Seen => is_Some (func e.2)) (filter (fun e => keep e = true) m)).
  assert (Hd : a ##ₘ b).
  { apply map_disjoint_spec. intros i x y Ha Hb. apply map_lookup_filter_Some in Ha as [Ha1 Ha2].
    apply map_lookup_filter_Some in Hb as [Hb _]. apply map_lookup_filter_Some in Hb as [Hb1 Hb2].
    rewrite Ha1 in Hb1. injection Hb1 as ->. destruct (Hg _ Ha2). congruence. }
  rewrite <- Nat2Z.inj_add, <- map_size_disj_union by done. apply inj_le, map_subseteq_size, map_subseteq_spec.
  intros i x Hx. apply map_lookup_filter_Some. apply (lookup_union_Some _ _ _ _ Hd) in Hx as [Hx|Hx]; apply map_lookup_filter_Some in Hx as [Hx1 Hx2].
  - split; [done|by apply Hg].
  - apply map_lookup_filter_Some in Hx1 as [Hx1 _]. done.
Qed.

Lemma size_filter_list (f : string * Seen -> bool) (m : gmap string Seen) l : l ≡ₚ map_to_list m ->
  length (List.filter f l) = size (filter (fun e => f e = true) m).
Proof.
  intros Hl. assert (Hp : length (List.filter f l) = length (List.filter f (map_to_list m))).
  { clear -Hl. induction Hl as [|x l l' _ IH|x y l|l l' l'' _ IH1 _ IH2]; cbn [List.filter]; [done| | |congruence].
    - destruct (f x); cbn [length]; congruence.
    - by destruct (f x), (f y). }
  rewrite Hp, <- (length_map_to_list (filter _ m)), map_filter_alt, map_to_list_to_map; cycle 1.
  { eapply sublist_NoDup; [apply (NoDup_fst_map_to_list m)|]. apply fmap_sublist, sublist_filter. }
  clear.
  generalize (map_to_list m) as l. induction l as [|e l IH]; [done|]. cbn [List.filter]. rewrite filter_cons.
  destruct (f e) eqn:E; [rewrite decide_True by done; cbn [length]; congruence|rewrite decide_False by congruence; done].
Qed.

Section Accounting.
Context `{TextEngine}.
Variable selectors : list (string * string).
Variable hash_order : gmap string Seen -> list (string * Seen).
Hypothesis hash_order_perm : forall m, hash_order m ≡ₚ map_to_list m.

Ltac tallies := rewrite ?tally_cons; cbn [says_match is_log is_no_log lead_of Bool.eqb omap list_omap]; rewrite ?Z.add_0_l.
Ltac account := split; cbn -[u64 tally open_matches u64_add]; tallies; rewrite ?u64_same, <- ?u64_succ; try congruence; try done.

Lemma insert_accounts ls w hash seen s : accounts ls (w + match func seen with Some _ => 1 | None => 0 end) s ->
  accounts ls w (insert_pending hash seen s).
Proof. intros []. account. pose proof (open_insert hash seen (pending s)). lia. Qed.

Lemma on_pending_accounts ls tx at_ s : accounts ls 0 s ->
  let '(s', r) := on_pending selectors tx at_ s in
  match r with Some (l, _, seen) => accounts (l :: ls) 1 s' /\ func seen <> None | None => accounts ls 0 s' end.
Proof.
  intros Ha. unfold on_pending. destruct (pending_fields selectors tx) as [[[hash seen] from]|]; [|done].
  assert (Hn : forall late, accounts ls 0 (count_pending late 0 0 s)).
  { intros late. destruct Ha. account; rewrite ?ac_direct0, ?ac_embedded0; by rewrite u64_same. }
  case_bool_decide; [by apply Hn|]. destruct (pending s !! hash); [by apply Hn|].
  destruct (func (seen_at at_ seen)) as [f|] eqn:Ef.
  - split; [|congruence]. destruct Ha. destruct (embedded (seen_at at_ seen)); account; rewrite ?ac_direct0, ?ac_embedded0, ?u64_same, ?u64_succ; try done; lia.
  - apply insert_accounts. rewrite Ef. apply Hn.
Qed.

Lemma on_log_accounts ls w log at_ s : accounts ls w s ->
  let '(s', r) := on_log log at_ s in accounts (option_list r ++ ls) w s'.
Proof.
  intros Ha. unfold on_log. case_bool_decide; [done|]. destruct (as_str (transaction_hash log)) as [hash|]; [|done].
  case_bool_decide; [done|]. destruct Ha. destruct (pending s !! to_lowercase hash) as [seen|]; cbn [option_list app]; account.
  - rewrite ac_hits0, u64_succ. f_equal. unfold zlen. rewrite length_app. cbn. lia.
  - rewrite ac_leads0. apply Permutation_app_comm.
  - by rewrite app_nil_r.
  - by rewrite app_nil_r.
Qed.

Lemma no_log_lines es : tally is_no_log (map no_log_line es) = zlen es /\ (forall e, tally (says_match e) (map no_log_line es) = 0)
  /\ tally is_log (map no_log_line es) = 0 /\ omap lead_of (map no_log_line es) = [].
Proof.
  induction es as [|e es (I1 & I2 & I3 & I4)]; [done|]. cbn [map]. split_and!.
  - rewrite tally_cons, I1. unfold zlen. cbn. lia.
  - intros e'. by rewrite tally_cons, I2.
  - by rewrite tally_cons, I3.
  - cbn. by rewrite I4.
Qed.

Lemma sweep_accounts ls w now s : accounts ls w s ->
  let '(s', lines) := sweep hash_order now s in accounts (lines ++ ls) w s'.
Proof.
  intros []. unfold sweep. set (es := List.filter _ _). destruct (no_log_lines es) as (E1 & E2 & E3 & E4).
  assert (Hsz : zlen es = Z.of_nat (size (filter (fun e => unlogged now (logged_tx s) e = true) (pending s)))).
  { unfold zlen, es. by rewrite (size_filter_list _ _ _ (hash_order_perm _)). }
  assert (Hgone : forall e, unlogged now (logged_tx s) e = true -> kept now (logged_tx s) e = false /\ is_Some (func e.2)).
  { intros e He. unfold kept. rewrite He. split; [done|]. unfold unlogged in He. by destruct (bool_decide_reflect (is_Some (func e.2))). }
  pose proof (open_filter _ _ (pending s) Hgone) as Hopen.
  split; cbn -[open_matches u64_add]; rewrite ?tally_app, ?E1, ?E2, ?E3, ?omap_app, ?E4, ?Z.add_0_l; try done.
  - rewrite ac_no_log0, u64_add_u64. f_equal. lia.
  - lia.
Qed.

Lemma summary_accounts ls w window now1 now2 s : accounts ls w s ->
  let '(s', r) := summary window now1 now2 s in accounts (option_list r ++ ls) w s'.
Proof.
  intros []. unfold summary. destruct (mapM _ PERCENTILES) as [ps|]; cbn [mbind option_bind option_list app]; account.
Qed.

Lemma accounts_less ls w w' s : w' <= w -> accounts ls w s -> accounts ls w' s.
Proof. intros Hw []. split; try done. lia. Qed.

Definition balanced (p : Probe) : Prop := accounts (out p ++ in_flight p) (between_locks p) (state p).

Ltac rebalance Ha := revert Ha; apply accounts_proper; [cbn; solve_Permutation|done|done].

Lemma pending_balanced st p p' : balanced p -> pending_moves selectors st p = Some p' -> balanced p'.
Proof.
  destruct p as [s o pt lt mt]. unfold balanced, in_flight, between_locks, pending_moves, emit. cbn -[on_pending]. intros Hb.
  destruct st as [tx at_| |full| | | | |]; try done.
  - destruct pt; try done. cbn [app] in Hb. pose proof (on_pending_accounts _ tx at_ s Hb) as Hon.
    destruct (on_pending selectors tx at_ s) as [s' [[[l hash] seen]|]]; intros [= <-]; cbn; [|done].
    destruct Hon as [Hon _]. rebalance Hon.
  - destruct pt as [|l hash seen|hash seen]; try done; intros [= <-]; cbn [state out pending_task logs_task main_task].
    + rebalance Hb.
    + apply insert_accounts. revert Hb. apply accounts_less. destruct (func seen); lia.
  - destruct pt; try done. intros [= <-]. cbn. destruct Hb. by split.
Qed.

Lemma logs_balanced st p p' : balanced p -> logs_moves st p = Some p' -> balanced p'.
Proof.
  destruct p as [s o pt lt mt]. unfold balanced, in_flight, logs_moves, emit. cbn -[on_log between_locks]. intros Hb.
  destruct st as [| | |log at_| | | |]; try done; destruct lt as [l|]; try done.
  - pose proof (on_log_accounts _ _ log at_ s Hb) as Hon. destruct (on_log log at_ s) as [s' r]. intros [= <-]. rebalance Hon.
  - intros [= <-]. rebalance Hb.
Qed.

Lemma sweeps_balanced now window last p : main_task p = MWaits -> balanced p -> balanced (sweeps hash_order now window last p).
Proof.
  destruct p as [s o pt lt mt]. unfold balanced, in_flight, sweeps. cbn -[sweep between_locks]. intros -> Hb.
  pose proof (sweep_accounts _ _ now s Hb) as Hon. destruct (sweep hash_order now s) as [s' lines]. rebalance Hon.
Qed.

Lemma main_balanced st p p' : balanced p -> main_moves hash_order st p = Some p' -> balanced p'.
Proof.
  intros Hb. unfold main_moves. destruct st as [| | | | |now|now elapsed|now1 now2]; try done; destruct (main_task p) as [|ls window last|l last|] eqn:Em; try done.
  1,2: intros [= <-]; by apply sweeps_balanced.
  - destruct p as [s o pt lt mt]. cbn in Em. subst mt. unfold balanced, in_flight, emit in *. cbn -[summary between_locks] in *.
    destruct ls as [|l ls]; [|intros [= <-]; rebalance Hb].
    pose proof (summary_accounts _ _ window now1 now2 s Hb) as Hon. destruct (summary window now1 now2 s) as [s' [l|]]; intros [= <-]; rebalance Hon.
  - destruct p as [s o pt lt mt]. cbn in Em. subst mt. unfold balanced, in_flight, emit in *. cbn -[between_locks] in *. intros [= <-].
    destruct last; rebalance Hb.
Qed.

Lemma exec_balanced st p p' : balanced p -> exec selectors hash_order st p = Some p' -> balanced p'.
Proof.
  intros Hb. unfold exec. destruct (main_task p); try done;
    (destruct (pending_moves selectors st p) as [q|] eqn:Ep; [intros [= <-]; by eapply pending_balanced|];
     destruct (logs_moves st p) as [q|] eqn:El; [intros [= <-]; by eapply logs_balanced|by apply main_balanced]).
Qed.

Lemma run_balanced steps p : balanced p -> balanced (run selectors hash_order steps p).
Proof.
  revert p. induction steps as [|st steps IH]; intros p Hb; [done|]. apply IH.
  destruct (exec selectors hash_order st p) eqn:E; [by eapply exec_balanced|done].
Qed.

(** C40: the probe's figures are its lines.  However its three tasks interleave, the matches,
    logs, hits and unanswered matches it counts are those it has written or is about to
    write, its leads are those of the hits, and never are more matches reported unanswered or
    still open than there were. *)
Theorem probe_accounts steps started :
  let p := run selectors hash_order steps (probe_start started) in
  let ls := out p ++ in_flight p in
  let s := state p in
  selector_direct s = u64 (tally (says_match false) ls) /\ selector_embedded s = u64 (tally (says_match true) ls)
  /\ selector_no_log s = u64 (tally is_no_log ls) /\ log_txs s = u64 (tally is_log ls) /\ hits s = u64 (zlen (omap lead_of ls))
  /\ leads_us s ≡ₚ omap lead_of ls
  /\ tally is_no_log ls + open_matches (pending s) <= tally (says_match false) ls + tally (says_match true) ls.
Proof.
  cbv zeta. destruct (run_balanced steps (probe_start started)) as [H1 H2 H3 H4 H5 H6 H7].
  { by split. }
  split_and!; try done.
  - rewrite H5. unfold zlen. by rewrite H6.
  - unfold between_locks in H7. destruct (pending_task _); lia.
Qed.
End Accounting.

(** ** What is seen pending is a hit *)

Section Hits.
Context `{TextEngine}.
Variable selectors : list (string * string).
Variable hash_order : gmap string Seen -> list (string * Seen).

(** Only [on_pending] inserts, so what it is about to insert is not there. *)
Definition apart (p : Probe) : Prop :=
  match pending_task p with PIdle => True | PEmits _ hash _ | PInserts hash _ => pending (state p) !! hash = None end.
(** The clock of a sweep. *)
Definition swept_by (limit : Z) (st : Step) : Prop := match st with Tick now | Deadline now _ => now <= limit | _ => True end.

Lemma on_pending_keeps tx at_ s : let '(s', r) := on_pending selectors tx at_ s in
  (forall h seen, pending s !! h = Some seen -> pending s' !! h = Some seen)
  /\ match r with Some (_, hash, _) => pending s' !! hash = None | None => True end.
Proof.
  unfold on_pending. destruct (pending_fields selectors tx) as [[[hash seen] from]|]; [|done].
  case_bool_decide; [done|]. destruct (pending s !! hash) eqn:E; [done|]. destruct (func (seen_at at_ seen)); cbn.
  - by destruct (embedded seen).
  - split; [|done]. intros h x Hx. rewrite lookup_insert_ne; [done|]. congruence.
Qed.

Lemma on_log_pending log at_ s : pending (fst (on_log log at_ s)) = pending s.
Proof.
  unfold on_log. case_bool_decide; [done|]. destruct (as_str _); [|done]. case_bool_decide; [done|]. by destruct (pending s !! _).
Qed.

Lemma sweep_keeps now s h seen : now <= at_us seen + NO_LOG_AFTER_US -> pending s !! h = Some seen ->
  pending (fst (sweep hash_order now s)) !! h = Some seen.
Proof.
  intros Hn Hs. cbn. apply map_lookup_filter_Some. split; [done|]. unfold kept, unlogged, sat_sub, NO_LOG_AFTER_US, PENDING_TTL_US in *. cbn.
  apply andb_true_iff. split; [|lia]. apply negb_true_iff, andb_false_iff. left. apply andb_false_iff. right. lia.
Qed.

Lemma sweep_only_removes now s h : pending s !! h = None -> pending (fst (sweep hash_order now s)) !! h = None.
Proof. intros Hs. cbn. apply map_lookup_filter_None. by left. Qed.

(** A step leaves alone what no sweep of it is late for. *)
Definition keeps (st : Step) (p p' : Probe) : Prop :=
  apart p' /\ forall h seen, swept_by (at_us seen + NO_LOG_AFTER_US) st -> pending (state p) !! h = Some seen -> pending (state p') !! h = Some seen.

Lemma pending_keeps st p p' : apart p -> pending_moves selectors st p = Some p' -> keeps st p p'.
Proof.
  unfold keeps, pending_moves, apart. intros Ha. destruct st as [tx at_| |full| | | | |]; try done; destruct (pending_task p) as [|l hash x|hash x]; try done.
  - pose proof (on_pending_keeps tx at_ (state p)) as Hk. destruct (on_pending selectors tx at_ (state p)) as [s' [[[l hash] x]|]];
      intros [= <-]; cbn; destruct Hk as [Hk1 Hk2]; auto.
  - by intros [= <-].
  - intros [= <-]. cbn. split; [done|]. intros h seen _ Hs. rewrite lookup_insert_ne; [done|]. congruence.
  - by intros [= <-].
Qed.

Lemma logs_keeps st p p' : apart p -> logs_moves st p = Some p' -> keeps st p p'.
Proof.
  unfold keeps, logs_moves, apart. intros Ha. destruct st as [| | |log at_| | | |]; try done; destruct (logs_task p); try done.
  - pose proof (on_log_pending log at_ (state p)) as Hk. destruct (on_log log at_ (state p)) as [s' r]. intros [= <-]. cbn in *. by rewrite Hk.
  - by intros [= <-].
Qed.

Lemma sweeps_keeps st now window last p : (forall limit, swept_by limit st -> now <= limit) -> apart p ->
  keeps st p (sweeps hash_order now window last p).
Proof.
  intros Hnow Ha. split; [|intros h seen Hw Hs; apply (sweep_keeps now); [by apply Hnow|done]].
  unfold apart in *. cbn [pending_task sweeps sweep]. destruct (pending_task p); [done|by apply (sweep_only_removes now)..].
Qed.

Lemma main_keeps st p p' : apart p -> main_moves hash_order st p = Some p' -> keeps st p p'.
Proof.
  intros Ha. unfold main_moves. destruct st as [| | | | |now|now elapsed|now1 now2]; try done;
    destruct (main_task p) as [|[|l ls] window last|l last|]; try done.
  1,2: intros [= <-]; by apply sweeps_keeps.
  - unfold summary. cbv zeta iota beta. by intros [= <-].
  - by intros [= <-].
  - by intros [= <-].
Qed.

Lemma exec_keeps st p p' : apart p -> exec selectors hash_order st p = Some p' -> keeps st p p'.
Proof.
  intros Ha. unfold exec. destruct (main_task p); try done;
    (destruct (pending_moves selectors st p) eqn:E1; [intros [= <-]; by apply pending_keeps|];
     destruct (logs_moves st p) eqn:E2; [intros [= <-]; by apply logs_keeps|by apply main_keeps]).
Qed.

Lemma run_apart steps p : apart p -> apart (run selectors hash_order steps p).
Proof.
  revert p. induction steps as [|st steps IH]; intros p Ha; [done|]. apply IH.
  destruct (exec selectors hash_order st p) eqn:E; [by eapply exec_keeps|done].
Qed.

Lemma run_keeps steps p h seen : apart p -> Forall (swept_by (at_us seen + NO_LOG_AFTER_US)) steps ->
  pending (state p) !! h = Some seen -> pending (state (run selectors hash_order steps p)) !! h = Some seen.
Proof.
  revert p. induction steps as [|st steps IH]; intros p Ha Hw Hs; [done|]. apply Forall_cons in Hw as [Hw1 Hw2]. cbn.
  destruct (exec selectors hash_order st p) as [p'|] eqn:E; [|by apply IH].
  destruct (exec_keeps st p p' Ha E) as [Ha' Hk]. apply IH; [done|done|by apply Hk].
Qed.

(** What was seen pending is a hit.  A transaction that was remembered stays remembered
    through any steps whose sweeps are within two minutes of it, and then its first log is
    counted and written as a hit with its lead. *)
Theorem seen_is_hit before started after h seen log at_ :
  let p := run selectors hash_order before (probe_start started) in
  let q := run selectors hash_order after p in
  pending (state p) !! h = Some seen -> Forall (swept_by (at_us seen + NO_LOG_AFTER_US)) after ->
  removed log <> Some true -> to_lowercase <$> as_str (transaction_hash log) = Some h -> h ∉ logged_tx (state q) ->
  exists event block emitter ms,
    on_log log at_ (state q) = (count_log h (Some (lead at_ (at_us seen))) (state q),
                                Some (LogLine h event block emitter at_ (Some (seen, ms)))).
Proof.
  cbv zeta. intros Hs Hw Hr Hh Hnew.
  apply (run_keeps after) in Hs; [|by apply run_apart|done].
  unfold on_log. rewrite bool_decide_eq_false_2 by done. destruct (as_str (transaction_hash log)) as [hash|]; [|done].
  injection Hh as Hh. rewrite Hh, bool_decide_eq_false_2 by done. rewrite Hs. by do 4 eexists.
Qed.
End Hits.

(** ** The connections *)

(** What the probe reads of a message's text: its error, whether its id is 1, and the value
    at [/params/result] as either stream takes it. *)
Record WsJson := { js_error : option string; js_id_one : bool; js_result : option (PendingTx * LogValue) }.
Inductive WsMessage :=
| WsText (json : result string WsJson) (at_ : Z) | WsPing (pong_sent : bool) | WsClose | WsError (error : string) | WsOther.

Inductive Stream := Pending | Logs.
(** [connect_async] and the request fail, or what comes then until the stream ends; [None]
    at the end if it has not ended yet. *)
Inductive Dial := Refused (error : string) | Dialled (ms : list WsMessage) (ended : bool).

Inductive Action := Subscribes (kind : Stream) (full_tx : bool) | Mode (full_tx : bool) | GotPending (tx : PendingTx) (at_ : Z)
                  | GotLog (log : LogValue) (at_ : Z) | Sleeps (secs : Z).

(** [subscribe]'s wait for the reply: what is left of the stream, or [None] when the
    messages are at their end and the stream is not. *)
Fixpoint await_reply (ms : list WsMessage) (ended : bool) : option (result string (list WsMessage)) :=
  match ms with
  | [] => if ended then Some (Err "closed before subscribe reply") else None
  | WsError e :: _ => Some (Err e)
  | WsText (Err e) _ :: _ => Some (Err e)
  | WsText (Ok reply) _ :: ms =>
      match js_error reply with
      | Some e => Some (Err ("subscribe rejected: " +:+ e))
      | None => if js_id_one reply then Some (Ok ms) else await_reply ms ended
      end
  | _ :: ms => await_reply ms ended
  end.

(** The inner loop of [run_stream]: what it hands on, and whether the stream is over. *)
Fixpoint read_stream (kind : Stream) (ms : list WsMessage) (ended : bool) : list Action * bool :=
  match ms with
  | [] => ([], ended)
  | WsText (Ok v) at_ :: ms =>
      let '(acts, over) := read_stream kind ms ended in
      (match js_result v, kind with
       | Some (tx, _), Pending => [GotPending tx at_]
       | Some (_, log), Logs => [GotLog log at_]
       | None, _ => []
       end ++ acts, over)
  | WsPing false :: _ | WsClose :: _ | WsError _ :: _ => ([], true)
  | _ :: ms => read_stream kind ms ended
  end.

Definition is_pending (kind : Stream) : bool := match kind with Pending => true | Logs => false end.
(** [run_stream] over its dials. *)
Fixpoint run_stream (kind : Stream) (dials : list Dial) (full_tx : bool) : list Action :=
  match dials with
  | [] => []
  | d :: dials =>
      let failed error :=
        if is_pending kind && full_tx && str_contains "rejected" error then run_stream kind dials false
        else Sleeps 2 :: run_stream kind dials full_tx in
      match d with
      | Refused error => failed error
      | Dialled ms ended =>
          Subscribes kind full_tx ::
          match await_reply ms ended with
          | None => []
          | Some (Err error) => failed error
          | Some (Ok ms) =>
              (if is_pending kind then [Mode full_tx] else []) ++
              let '(acts, over) := read_stream kind ms ended in
              acts ++ if over then Sleeps 1 :: run_stream kind dials full_tx else []
          end
      end
  end.

(** The steps of the interleaving a stream's task takes for an action. *)
Definition action_step (a : Action) : option Step :=
  match a with
  | Mode full => Some (SubscribedWith full)
  | GotPending tx at_ => Some (PendingArrives tx at_)
  | GotLog log at_ => Some (LogArrives log at_)
  | _ => None
  end.

Definition asks_full (a : Action) : bool := match a with Subscribes Pending true | Mode true => true | _ => false end.

Lemma read_asks_none kind ms ended : Forall (fun a => asks_full a = false) (fst (read_stream kind ms ended)).
Proof.
  induction ms as [|m ms IH]; [done|]. cbn. destruct m as [[v|e] at_|[]| | |]; try done.
  destruct (read_stream kind ms ended) as [acts over]. cbn in *. apply Forall_app. split; [|done].
  destruct (js_result v) as [[tx log]|]; [destruct kind; by repeat constructor|done].
Qed.

(** Once a provider has rejected whole transactions the probe never asks for them again. *)
Theorem hash_only_is_final kind dials : Forall (fun a => asks_full a = false) (run_stream kind dials false).
Proof.
  induction dials as [|d dials IH]; [done|]. cbn [run_stream]. rewrite andb_false_r. cbn [andb].
  destruct d as [error|ms ended]; [by constructor|]. constructor; [by destruct kind|].
  destruct (await_reply ms ended) as [[ms'|e]|]; [|by constructor|done].
  apply Forall_app. split; [destruct kind; by repeat constructor|].
  pose proof (read_asks_none kind ms' ended) as Hr. destruct (read_stream kind ms' ended) as [acts over]. cbn in Hr.
  apply Forall_app. split; [done|]. destruct over; by repeat constructor.
Qed.

(** ** Settings *)

Section Settings.
Variable env : string -> option string.

Definition set_var (key : string) : option string :=
  v ← env key; if String.eqb (trim v) "" then None else Some v.
Definition first_listed (list_ : string) : option string :=
  List.find (fun s => negb (String.eqb s "")) (map trim (split_on "," list_)).
Definition wss_url : option string :=
  match set_var "PROBE_WSS" with
  | Some v => Some v
  | None => match set_var "WSS_RPC_LIST" ≫= first_listed with
            | Some v => Some v
            | None => match set_var "WSS_RPC" with Some v => Some v | None => set_var "POLYGON_WSS_URL" end
            end
  end.
Definition probe_duration : Z := default 600 (env "PROBE_DURATION_SECONDS" ≫= parse_u64).
Definition probe_out : string := default "mempool_probe.ndjson"%string (env "PROBE_OUT").
End Settings.

Definition probe_selectors `{EthCodec} : list (string * string) :=
  map (fun '(name, sig) => (name, hex_encode (take 4 (keccak256 (bytes_of_str sig))))) SIGNATURES.

(** ** The set of logged transactions *)

(** The set is emptied when it is large, and [sweep] itself asks it which matches got their
    log: those that did are reported as unanswered by the next sweep. *)
Lemma clear_forgets_logs hash_order now now' s h seen : (forall m : gmap string Seen, hash_order m ≡ₚ map_to_list m) ->
  pending s !! h = Some seen -> is_Some (func seen) -> h ∈ logged_tx s -> 200000 < Z.of_nat (size (logged_tx s)) ->
  0 <= at_us seen -> at_us seen + NO_LOG_AFTER_US < now' -> now < at_us seen + PENDING_TTL_US ->
  no_log_line (h, seen) ∈ snd (sweep hash_order now' (fst (sweep hash_order now s))).
Proof.
  intros Ho Hs Hf Hl Hsize H0 Hlate Hsoon. cbn [fst snd sweep]. apply list_elem_of_fmap. exists (h, seen). split; [done|].
  apply list_elem_of_In, List.filter_In. split.
  - apply list_elem_of_In. cbn [sweep fst pending]. rewrite Ho. apply elem_of_map_to_list, map_lookup_filter_Some. split; [done|].
    unfold kept, unlogged, sat_sub. cbn [fst snd]. rewrite (bool_decide_eq_true_2 _ Hl), andb_false_r. cbn [negb andb]. unfold PENDING_TTL_US in *. lia.
  - unfold unlogged. cbn [sweep fst snd logged_tx]. rewrite (proj2 (Z.ltb_lt _ _) Hsize), (bool_decide_eq_true_2 _ Hf). cbn. 
    unfold sat_sub, NO_LOG_AFTER_US in *. rewrite bool_decide_eq_false_2 by set_solver. cbn. lia.
Qed.

(** ** Runs *)

Module ProbeSample.
#[local] Instance lower : TextEngine := {| regex_valid _ := true; is_match _ _ := false; to_lowercase := to_ascii_lower |}.
Definition selectors : list (string * string) := [("proposePrice", "aabbccdd"); ("disputePrice", "11223344")]%string.
Definition tx (hash input : string) : PendingTx := TxObject (Text hash) (Text input) Absent (Text "0xOracle") NotText.
Definition log_of (hash : string) : LogValue :=
  {| removed := Some false; transaction_hash := Text hash; topic0 := Text TOPIC_PROPOSE_PRICE; block_number := Text "0x10";
     emitter_address := Absent |}.
Abbreviation probe steps := (run selectors map_to_list steps (probe_start 0)).

Example classified : map (classify selectors) ["0xaabbccdd00"; "0xac9650d8aabbccdd"; "0xdeadbeef"; "0xAABBCCDD"]%string
  = [(Some "proposePrice", false); (Some "proposePrice", true); (None, false); (None, false)]%string.
Proof. reflexivity. Qed.

(** One match that is hit, one that is not, one log nobody had seen. *)
Definition steps : list Step :=
  [SubscribedWith true; PendingArrives (tx "0xA" "0xaabbccdd00") 1000; PendingGoes; PendingGoes;
   PendingArrives (tx "0xB" "0x0011223344") 2000; PendingGoes; PendingGoes; PendingArrives (JustHash "0xC") 2500;
   LogArrives (log_of "0xa") 4000; LogGoes; LogArrives (log_of "0xD") 4500; LogGoes; LogArrives (log_of "0xd") 4600;
   PendingArrives (tx "0xD" "") 5000; Tick 130000000; MainGoes 0 0; MainGoes 130000001 130000002; MainGoes 0 0].

Example probed :
  let p := probe steps in
  (selector_direct (state p), selector_embedded (state p), selector_no_log (state p), log_txs (state p), hits (state p)) = (1, 1, 1, 2, 1)
  /\ (late_pending (state p), pending_msgs (state p), leads_us (state p), length (out p)) = (1, 4, [3000], 6%nat)
  /\ in_flight p = [] /\ pending (state p) !! "0xb"%string = None.
Proof. vm_compute. done. Qed.

(** [on_pending] gives the lock up to write the match; a log that comes then is not a hit. *)
Example log_between_locks_is_missed :
  let p := probe [PendingArrives (tx "0xA" "0xaabbccdd00") 1000; PendingGoes; LogArrives (log_of "0xA") 4000; PendingGoes; LogGoes] in
  map is_log (out p) = [false; true] /\ selector_direct (state p) = 1 /\ log_txs (state p) = 1 /\ hits (state p) = 0.
Proof. vm_compute. done. Qed.

(** [pct] does not panic with up to 1024 leads. *)
Example percentiles_in_range :
  forallb (fun n => forallb (fun p => let i := percentile_index (Z.of_nat n) p in (0 <=? i) && (i <? Z.of_nat n)) PERCENTILES)
    (seq 1 1024) = true.
Proof. vm_compute. done. Qed.

Lemma probe_accounts_witness :
  let s := state (probe steps) in
  hits s = 1 /\ hits s = u64 (zlen (omap lead_of (out (probe steps) ++ in_flight (probe steps)))).
Proof.
  split; [vm_compute; done|]. apply (probe_accounts selectors map_to_list (fun m => Permutation_refl (map_to_list m)) steps 0).
Defined.

Definition first_seen : Seen := {| at_us := 1000; func := Some "proposePrice"; embedded := false; to := Some "0xoracle" |}%string.
Definition before : list Step := take 4 steps.
Definition after : list Step := take 4 (drop 4 steps) ++ [Tick 120001000; MainGoes 0 0].

Lemma seen_is_hit_witness :
  let q := run selectors map_to_list after (probe before) in
  exists event block emitter ms,
    on_log (log_of "0xA") 4000 q.(state) =
    (count_log "0xa" (Some (lead 4000 (at_us first_seen))) q.(state), Some (LogLine "0xa" event block emitter 4000 (Some (first_seen, ms)))).
Proof.
  assert (Hs : pending (state (probe before)) !! "0xa"%string = Some first_seen) by (vm_compute; reflexivity).
  assert (Hw : Forall (swept_by (at_us first_seen + NO_LOG_AFTER_US)) after) by (unfold after; cbn; repeat constructor; discriminate).
  assert (Hl : bool_decide ("0xa"%string ∈ logged_tx (state (run selectors map_to_list after (probe before)))) = false) by (vm_compute; reflexivity).
  apply bool_decide_eq_false in Hl.
  exact (seen_is_hit selectors map_to_list before 0 after "0xa"%string first_seen (log_of "0xA") 4000 Hs Hw
    ltac:(discriminate) eq_refl Hl).
Defined.

Example wss_urls : map wss_url
  [fun k => if String.eqb k "WSS_RPC_LIST" then Some " , wss://a ,wss://b"%string else None;
   fun k => if String.eqb k "PROBE_WSS" then Some " wss://p"%string else Some "x"%string; fun _ => Some " "%string]
  = [Some "wss://a"; Some " wss://p"; None]%string.
Proof. vm_compute. done. Qed.

(** A provider without whole transactions: the second dial asks for hashes only. *)
Example falls_back :
  run_stream Pending
    [Dialled [WsText (Ok {| js_error := Some "no"; js_id_one := true; js_result := None |}) 0] false;
     Dialled [WsText (Ok {| js_error := None; js_id_one := true; js_result := None |}) 0;
              WsText (Ok {| js_error := None; js_id_one := false; js_result := Some (JustHash "0xA", log_of "") |}) 7; WsClose] false] true
  = [Subscribes Pending true; Subscribes Pending false; Mode false; GotPending (JustHash "0xA") 7; Sleeps 1].
Proof. reflexivity. Qed.
End ProbeSample.
