(* ===== verification/HeadRace.v ===== *)
(** * HeadRace: when heads and logs are pushed ([examples/head_race.rs])

    A process beside the service: two connections to one endpoint, one for new heads and one
    for the oracle's logs, and a line of JSON with the time of arrival for each notification.
    A JSON value is what the process takes out of it; the endpoint is chosen as the mempool
    probe chooses it ([Probe.wss_url], the same code). *)
From S2P Require Import Prelude Events Probe.

Section HeadRace.
(** serde_json's values. *)
Variable V : Type.

Inductive Kind := HeadKind | LogKind.
(** The members of [/params/result] that are looked up, none of which need be there. *)
Record Notification := {
  n_hash : option V; n_number : option V; n_block_hash : option V; n_block_number : option V;
  n_transaction_hash : option V; n_log_index : option V }.
Inductive Rec :=
| HeadRec (us : Z) (hash number : option V)
| LogRec (us : Z) (hash number tx log_index : option V).

Definition record_of (kind : Kind) (at_ : Z) (n : Notification) : Rec :=
  match kind with
  | HeadKind => HeadRec at_ (n_hash n) (n_number n)
  | LogKind => LogRec at_ (n_block_hash n) (n_block_number n) (n_transaction_hash n) (n_log_index n)
  end.

(** A message: a text is [None] where it does not parse or has no [/params/result]. *)
Inductive RaceMessage := RaceText (n : option Notification) (at_ : Z) | RacePing (pong_sent : bool) | RaceClose | RaceError | RaceOther.
Inductive RaceDial := NoConnection | NotSent | Streams (ms : list RaceMessage) (ended : bool).
Inductive RaceAction := Writes (r : Rec) | Pauses (secs : Z).

(** The inner loop of [run]: the lines and whether the stream is over. *)
Fixpoint race_stream (kind : Kind) (ms : list RaceMessage) (ended : bool) : list RaceAction * bool :=
  match ms with
  | [] => ([], ended)
  | RaceText (Some n) at_ :: ms => let '(acts, over) := race_stream kind ms ended in (Writes (record_of kind at_ n) :: acts, over)
  | RacePing false :: _ | RaceClose :: _ | RaceError :: _ => ([], true)
  | _ :: ms => race_stream kind ms ended
  end.
(** [run] over its dials; a request that cannot be sent is tried again at once. *)
Fixpoint race_run (kind : Kind) (dials : list RaceDial) : list RaceAction :=
  match dials with
  | [] => []
  | NoConnection :: dials => Pauses 2 :: race_run kind dials
  | NotSent :: dials => race_run kind dials
  | Streams ms ended :: dials =>
      let '(acts, over) := race_stream kind ms ended in
      acts ++ if over then Pauses 1 :: race_run kind dials else []
  end.

Section Settings.
Variable env : string -> option string.
(** [wss_url], line for line that of the mempool probe. *)
Definition race_wss_url : option string := wss_url env.
Definition race_duration : Z := default 2400 (env "PROBE_DURATION_SECONDS" ≫= parse_u64).
Definition race_out : string := default "head_race.ndjson"%string (env "PROBE_OUT").
End Settings.

(** The reference: a stream up to what ends it, and its notifications. *)
Definition ends_stream (m : RaceMessage) : bool := match m with RacePing false | RaceClose | RaceError => true | _ => false end.
Fixpoint until_end (ms : list RaceMessage) : list RaceMessage :=
  match ms with [] => [] | m :: ms => if ends_stream m then [] else m :: until_end ms end.
Definition notification (m : RaceMessage) : option (Z * Notification) :=
  match m with RaceText (Some n) at_ => Some (at_, n) | _ => None end.
Definition dial_messages (d : RaceDial) : list RaceMessage := match d with Streams ms _ => until_end ms | _ => [] end.
Definition dial_over (d : RaceDial) : bool := match d with Streams ms ended => ended || existsb ends_stream ms | _ => true end.
Definition written (a : RaceAction) : option Rec := match a with Writes r => Some r | _ => None end.

Lemma race_stream_spec kind ms ended :
  race_stream kind ms ended
  = (map (fun '(at_, n) => Writes (record_of kind at_ n)) (omap notification (until_end ms)), ended || existsb ends_stream ms).
Proof.
  induction ms as [|m ms IH]; cbn; [by rewrite orb_false_r|]. destruct m as [[n|] at_|[]| | |]; cbn; rewrite ?IH; try done; by rewrite orb_true_r.
Qed.

(** Every notification of every connection that is over is written once, in order, with its
    time of arrival; nothing else is. *)
Theorem race_writes_all kind dials : Forall (fun d => dial_over d = true) dials ->
  omap written (race_run kind dials)
  = map (fun '(at_, n) => record_of kind at_ n) (omap notification (concat (map dial_messages dials))).
Proof.
  induction 1 as [|d dials Hd _ IH]; [done|]. cbn [map concat]. rewrite omap_app, map_app, <- IH. destruct d as [| |ms ended]; [done|done|].
  cbn [race_run dial_messages]. rewrite race_stream_spec. cbn in Hd. rewrite Hd, omap_app. f_equal.
  induction (omap notification (until_end ms)) as [|[at_ n] l IHl]; [done|]. cbn. by f_equal.
Qed.
End HeadRace.

(** A head, a message that is none, and a new connection after the server closed. *)
Example heads_recorded :
  let head n := {| n_hash := Some n; n_number := Some n; n_block_hash := None; n_block_number := None; n_transaction_hash := None; n_log_index := None |} in
  race_run nat HeadKind [NoConnection nat; Streams nat [RaceText nat None 1; RaceText nat (Some (head 7%nat)) 2; RaceClose nat] false;
                         NotSent nat; Streams nat [RaceText nat (Some (head 8%nat)) 9] false]
  = [Pauses nat 2; Writes nat (HeadRec nat 2 (Some 7%nat) (Some 7%nat)); Pauses nat 1; Writes nat (HeadRec nat 9 (Some 8%nat) (Some 8%nat))].
Proof. reflexivity. Qed.
