(* ===== verification/Uint256.v ===== *)
(** * Uint256: 256-bit numbers as 32 bytes ([parse_uint256] and [parse_hex_32] of
    [src/enrichment.rs], [uint256_decimal] and [hex_prefixed] of [src/model.rs])

    Token ids arrive as decimal (or hexadecimal) text and are printed back in decimal;
    both directions work on the big-endian bytes, a digit at a time. *)
From S2P Require Import Prelude Events.

Inductive EnrichmentError :=
| EnrichHttp
| EnrichStatus (code : Z)
| EnrichOversized
| EnrichJson
| EnrichStorage
| EnrichIdentity (what : string).

Definition is_transient (e : EnrichmentError) : bool :=
  match e with
  | EnrichHttp | EnrichJson => true
  | EnrichStatus s => ((500 <=? s) && (s <? 600)) || (s =? 429)
  | EnrichOversized | EnrichStorage | EnrichIdentity _ => false
  end.

(** ** Decimal text to bytes *)

(** The inner loop, from the last byte to the first: the bytes reversed, the carry. *)
Fixpoint mul10_rev (bs : bytes) (carry : Z) : bytes * Z :=
  match bs with
  | [] => ([], carry)
  | b :: bs =>
      let next := byte_val b * 10 + carry in
      let '(r, c) := mul10_rev bs (Z.shiftr next 8) in
      (byte_of next :: r, c)
  end.

(** One digit: [bytes * 10 + digit], with what did not fit. *)
Definition mul10 (bs : bytes) (digit : Z) : bytes * Z :=
  let '(r, c) := mul10_rev (rev bs) digit in (rev r, c).

Fixpoint parse_decimal (s : string) (bs : bytes) : result EnrichmentError bytes :=
  match s with
  | EmptyString => Ok bs
  | String c s =>
      let n := ascii_code c in
      if negb ((48 <=? n) && (n <=? 57)) then Err (EnrichIdentity "token_id") else
      let '(bs, carry) := mul10 bs (n - 48) in
      if carry =? 0 then parse_decimal s bs else Err (EnrichIdentity "token_id overflow")
  end.

Section Hex.
Context `{EthCodec}.

Definition parse_hex_32 (value : string) : result EnrichmentError bytes :=
  match hex_decode (strip_0x value) with
  | Some b => if decide (length b = 32%nat) then Ok b else Err (EnrichIdentity "condition_id")
  | None => Err (EnrichIdentity "condition_id")
  end.

Definition parse_uint256 (value : string) : result EnrichmentError bytes :=
  if starts_with "0x" value || starts_with "0X" value then
    match parse_hex_32 value with Ok b => Ok b | Err _ => Err (EnrichIdentity "token_id") end
  else if String.eqb value "" then Err (EnrichIdentity "token_id")
  else parse_decimal value (replicate 32 x00).

Definition hex_prefixed (value : bytes) : string := hex0x value.
End Hex.

(** ** Bytes to decimal text *)

(** One division by ten, from the first byte to the last. *)
Fixpoint div10 (bs : bytes) (remainder : Z) : bytes * Z :=
  match bs with
  | [] => ([], remainder)
  | b :: bs =>
      let current := Z.lor (Z.shiftl remainder 8) (byte_val b) in
      let '(q, r) := div10 bs (current mod 10) in
      (byte_of (current / 10) :: q, r)
  end.

Definition all_zero (bs : bytes) : bool := forallb (fun b => byte_val b =? 0) bs.

(** The [while] loop; the digits are pushed and reversed at the end, here consed. *)
Fixpoint decimal_digits (fuel : nat) (working : bytes) (digits : string) : string :=
  match fuel with
  | O => digits
  | S n =>
      if all_zero working then digits else
      let '(q, r) := div10 working 0 in
      decimal_digits n q (String (ascii_of_N (Z.to_N (48 + r))) digits)
  end.

(** A 256-bit number has at most 78 digits. *)
Definition uint256_decimal (value : bytes) : string :=
  if all_zero value then "0" else decimal_digits 78 value "".

(** ** Properties *)

Lemma be_decode_snoc bs b : be_decode (bs ++ [b]) = be_decode bs * 256 + byte_val b.
Proof. rewrite be_decode_app. cbn [length]. rewrite be_decode_cons. unfold be_decode at 2. cbn. lia. Qed.

Lemma mul10_rev_spec bs : forall carry, 0 <= carry < 256 ->
  let '(r, c) := mul10_rev bs carry in
  length r = length bs /\ 0 <= c < 256
  /\ be_decode (rev r) + c * 256 ^ zlen bs = be_decode (rev bs) * 10 + carry.
Proof.
  induction bs as [|b bs IH]; intros carry Hc; cbn [mul10_rev].
  { split; [done|]. split; [done|]. unfold be_decode, zlen. cbn. lia. }
  pose proof (byte_val_range b) as Hb. set (next := byte_val b * 10 + carry).
  rewrite Z.shiftr_div_pow2 by lia. change (2 ^ 8) with 256.
  assert (Hn : 0 <= next / 256 < 256) by (split; [apply Z.div_pos; lia|apply Z.div_lt_upper_bound; lia]).
  specialize (IH (next / 256) Hn). destruct (mul10_rev bs (next / 256)) as [r c].
  destruct IH as (Hl & Hcr & Hv). split; [cbn; lia|]. split; [done|].
  cbn [rev]. rewrite !be_decode_snoc, byte_val_of, zlen_cons, Z.pow_add_r, Z.pow_1_r by (unfold zlen; lia).
  pose proof (Z.div_mod next 256 ltac:(lia)). nia.
Qed.

Lemma mul10_spec bs d : 0 <= d < 10 ->
  let '(r, c) := mul10 bs d in
  length r = length bs /\ 0 <= c < 256 /\ be_decode r + c * 256 ^ zlen bs = be_decode bs * 10 + d.
Proof.
  intros Hd. unfold mul10. pose proof (mul10_rev_spec (rev bs) d ltac:(lia)) as Hm.
  destruct (mul10_rev (rev bs) d) as [r c]. destruct Hm as (Hl & Hc & Hv).
  rewrite length_rev in *. rewrite rev_involutive in Hv. unfold zlen in *. by rewrite length_rev in Hv.
Qed.

Definition u256_max : Z := 2 ^ 256 - 1.

Lemma digit_val_10 c :
  digit_val 10 c = if (48 <=? ascii_code c) && (ascii_code c <=? 57) then Some (ascii_code c - 48) else None.
Proof.
  unfold digit_val. cbv zeta. generalize (ascii_code c) as n. intros n.
  destruct ((48 <=? n) && (n <=? 57)) eqn:E1; [by replace (n - 48 <? 10) with true by lia|].
  destruct ((97 <=? n) && (n <=? 122)) eqn:E2; [by replace (n - 87 <? 10) with false by lia|].
  destruct ((65 <=? n) && (n <=? 90)) eqn:E3; [by replace (n - 55 <? 10) with false by lia|done].
Qed.

Lemma parse_decimal_spec s : forall bs, length bs = 32%nat ->
  result_ok (parse_decimal s bs) = option_map (be_encode 32) (parse_digits 10 u256_max s (be_decode bs)).
Proof.
  induction s as [|c s IH]; intros bs Hl; cbn [parse_decimal parse_digits].
  { pose proof (be_encode_decode bs) as He. rewrite Hl in He. cbn [result_ok option_map]. by rewrite He. }
  rewrite digit_val_10. destruct ((48 <=? ascii_code c) && _) eqn:E; cbn [negb]; [|done].
  pose proof (mul10_spec bs (ascii_code c - 48) ltac:(lia)) as Hm.
  destruct (mul10 bs (ascii_code c - 48)) as [r k]. destruct Hm as (Hr & Hk & Hv).
  assert (Hz : zlen bs = 32) by (unfold zlen; lia). rewrite Hz in Hv.
  pose proof (be_decode_bound r) as Hb. rewrite Hr, Hl in Hb.
  change (256 ^ Z.of_nat 32) with (2 ^ 256) in Hb. change (256 ^ 32) with (2 ^ 256) in Hv.
  unfold u256_max. destruct (k =? 0) eqn:Ek.
  - replace (be_decode bs * 10 + (ascii_code c - 48) <=? 2 ^ 256 - 1) with true by lia.
    rewrite IH by lia. unfold u256_max. do 2 f_equal. lia.
  - replace (be_decode bs * 10 + (ascii_code c - 48) <=? 2 ^ 256 - 1) with false by nia. done.
Qed.

(** Parsing a token id.  A decimal text is read exactly as the mathematical number:
    accepted when it is all digits and below 2^256, and then its 32 big-endian bytes;
    refused otherwise, and the empty text too. *)
Theorem parse_uint256_value `{EthCodec} s :
  starts_with "0x" s || starts_with "0X" s = false ->
  result_ok (parse_uint256 s) =
  if String.eqb s "" then None else option_map (be_encode 32) (parse_digits 10 u256_max s 0).
Proof.
  intros Hx. unfold parse_uint256. rewrite Hx. destruct (String.eqb s ""); [done|].
  rewrite parse_decimal_spec by done. by rewrite be_decode_zeros.
Qed.

Lemma div10_spec bs : forall rem, 0 <= rem < 10 ->
  let '(q, r) := div10 bs rem in
  length q = length bs /\ 0 <= r < 10 /\ be_decode q * 10 + r = rem * 256 ^ zlen bs + be_decode bs.
Proof.
  induction bs as [|b bs IH]; intros rem Hr; cbn [div10].
  { split; [done|]. split; [done|]. unfold be_decode, zlen. cbn. lia. }
  pose proof (byte_val_range b) as Hb.
  assert (Hcur : Z.lor (Z.shiftl rem 8) (byte_val b) = rem * 256 + byte_val b).
  { rewrite Z.lor_comm, lor_shiftl_add by (cbn; lia). cbn. lia. }
  rewrite Hcur. set (cur := rem * 256 + byte_val b).
  specialize (IH (cur mod 10) ltac:(apply Z.mod_pos_bound; lia)). destruct (div10 bs (cur mod 10)) as [q r].
  destruct IH as (Hl & Hrr & Hv). split; [cbn; lia|]. split; [done|].
  rewrite !be_decode_cons, Hl, byte_val_of, zlen_cons, Z.pow_add_r, Z.pow_1_r by (unfold zlen; lia).
  rewrite (Z.mod_small (cur / 10)) by (split; [apply Z.div_pos; lia|apply Z.div_lt_upper_bound; lia]).
  unfold zlen in *. pose proof (Z.div_mod cur 10 ltac:(lia)). nia.
Qed.

Lemma all_zero_spec bs : all_zero bs = (be_decode bs =? 0).
Proof.
  induction bs as [|b bs IH]; [done|]. cbn [all_zero forallb]. fold (all_zero bs). rewrite IH, be_decode_cons.
  pose proof (byte_val_range b). pose proof (be_decode_bound bs).
  assert (0 < 256 ^ Z.of_nat (length bs)) by (apply Z.pow_pos_nonneg; lia).
  destruct (byte_val b =? 0) eqn:E; cbn [andb]; [|nia].
  apply Z.eqb_eq in E as ->. by rewrite Z.mul_0_l, Z.add_0_l.
Qed.

Lemma decimal_digits_fmt fuel : forall bs f digits,
  be_decode bs < 10 ^ Z.of_nat fuel -> 0 < be_decode bs < 2 ^ Z.of_nat f ->
  decimal_digits fuel bs digits = fmt_radix_fuel f 10 (be_decode bs) digits.
Proof.
  induction fuel as [|n IH]; intros bs f digits Hf Hb; [cbn in Hf; lia|].
  destruct f as [|f]; [cbn in Hb; lia|]. rewrite Nat2Z.inj_succ, Z.pow_succ_r in Hf, Hb by lia.
  cbn [decimal_digits fmt_radix_fuel]. rewrite all_zero_spec. replace (be_decode bs =? 0) with false by lia.
  pose proof (div10_spec bs 0 ltac:(lia)) as Hd. destruct (div10 bs 0) as [q r].
  destruct Hd as (Hl & Hr & Hv). rewrite Z.mul_0_l, Z.add_0_l in Hv.
  assert (Hdiv : be_decode bs / 10 = be_decode q) by (symmetry; apply (Z.div_unique _ _ _ r); lia).
  assert (Hmod : be_decode bs mod 10 = r) by (symmetry; apply (Z.mod_unique _ _ (be_decode q)); lia).
  rewrite Hmod, Hdiv. unfold digit_char. replace (r <? 10) with true by lia. rewrite (Z.add_comm 48 r).
  destruct (be_decode bs <? 10) eqn:E.
  - assert (Hq : be_decode q = 0) by lia. destruct n; cbn [decimal_digits]; [done|]. by rewrite all_zero_spec, Hq.
  - apply IH; lia.
Qed.

Lemma uint256_decimal_fmt bs : length bs = 32%nat -> uint256_decimal bs = fmt_u64 (be_decode bs).
Proof.
  intros Hl. unfold uint256_decimal. rewrite all_zero_spec. pose proof (be_decode_bound bs) as Hb. rewrite Hl in Hb.
  destruct (be_decode bs =? 0) eqn:E; [apply Z.eqb_eq in E; by rewrite E|].
  unfold fmt_u64, fmt_radix. apply decimal_digits_fmt.
  - assert (256 ^ Z.of_nat 32 < 10 ^ Z.of_nat 78) by (vm_compute; reflexivity). lia.
  - split; [lia|]. rewrite Nat2Z.inj_succ, Z2Nat.id by apply Z.log2_nonneg. apply Z.log2_spec. lia.
Qed.

Lemma fmt_has_char c f : (forall d, 0 <= d < 10 -> Ascii.eqb (digit_char d) c = false) -> forall z acc,
  0 <= z -> has_char c acc = false -> has_char c (fmt_radix_fuel f 10 z acc) = false.
Proof.
  intros Hc. induction f as [|f IH]; intros z acc Hz Ha; cbn [fmt_radix_fuel]; [done|].
  pose proof (Z.mod_pos_bound z 10 ltac:(lia)).
  assert (has_char c (String (digit_char (z mod 10)) acc) = false) by (cbn [has_char]; by rewrite Hc).
  destruct (z <? 10); [done|]. apply IH; [apply Z.div_pos; lia|done].
Qed.

Lemma no_char_no_prefix c p s : has_char c s = false -> starts_with (String "0" (String c p)) s = false.
Proof.
  intros Hc. unfold starts_with. destruct (strip_prefix _ _) as [r|] eqn:E; [|done].
  apply strip_prefix_Some in E. rewrite E in Hc. change (has_char c (String "0" (String c (p +:+ r))) = false) in Hc.
  cbn [has_char] in Hc. by rewrite Ascii.eqb_refl, orb_true_r in Hc.
Qed.

Lemma fmt_no_hex_prefix z : 0 <= z ->
  starts_with "0x" (fmt_u64 z) || starts_with "0X" (fmt_u64 z) = false.
Proof.
  intros Hz.
  assert (Hd : forall c, c = "x"%char \/ c = "X"%char -> forall d, 0 <= d < 10 -> Ascii.eqb (digit_char d) c = false).
  { intros c Hc d Hd. assert (d = 0 \/ d = 1 \/ d = 2 \/ d = 3 \/ d = 4 \/ d = 5 \/ d = 6 \/ d = 7 \/ d = 8 \/ d = 9) as Hcases by lia.
    destruct Hc as [-> | ->]; repeat (destruct Hcases as [->|Hcases]; [reflexivity|]); by subst. }
  rewrite !no_char_no_prefix; [done|apply fmt_has_char; [apply Hd; auto|lia|done]..].
Qed.

(** Printing and parsing.  The printed token id is its decimal notation, and parsing
    it gives the 32 bytes back. *)
Theorem uint256_decimal_parse `{EthCodec} bs :
  length bs = 32%nat ->
  uint256_decimal bs = fmt_u64 (be_decode bs) /\ parse_uint256 (uint256_decimal bs) = Ok bs.
Proof.
  intros Hl. split; [by apply uint256_decimal_fmt|]. rewrite uint256_decimal_fmt by done.
  pose proof (be_decode_bound bs) as Hb. rewrite Hl in Hb. change (256 ^ Z.of_nat 32) with (2 ^ 256) in Hb.
  unfold parse_uint256. rewrite fmt_no_hex_prefix by lia.
  assert (Hp : parse_digits 10 u256_max (fmt_u64 (be_decode bs)) 0 = Some (be_decode bs)).
  { unfold fmt_u64, fmt_radix. rewrite fmt_radix_parse; [done|lia|unfold u256_max; lia|].
    rewrite Nat2Z.inj_succ, Z2Nat.id by apply Z.log2_nonneg.
    destruct (Z.eq_dec (be_decode bs) 0) as [->|]; [done|]. apply Z.log2_spec. lia. }
  pose proof (parse_decimal_spec (fmt_u64 (be_decode bs)) (replicate 32 x00) ltac:(done)) as Hs.
  rewrite be_decode_zeros, Hp in Hs. cbn [option_map] in Hs.
  replace (be_encode 32 (be_decode bs)) with bs in Hs by (rewrite <- Hl; by rewrite be_encode_decode).
  destruct (String.eqb (fmt_u64 (be_decode bs)) "") eqn:E.
  { destruct (fmt_radix_head 10 (S (Z.to_nat (Z.log2 (be_decode bs)))) (be_decode bs) "") as (c & r & Hc & _);
      [lia|lia|by left|]. unfold fmt_u64, fmt_radix in E. rewrite Hc in E. done. }
  destruct (parse_decimal _ _); cbn in Hs; congruence.
Qed.

Lemma parse_uint256_value_witness :
  result_ok (parse_uint256 (H := sample_codec) "115792089237316195423570985008687907853269984665640564039457584007913129639936") = None
  /\ result_ok (parse_uint256 (H := sample_codec) "258") = Some (be_encode 32 258).
Proof.
  split.
  - rewrite (parse_uint256_value (H := sample_codec)) by reflexivity. by vm_compute.
  - rewrite (parse_uint256_value (H := sample_codec)) by reflexivity. by vm_compute.
Defined.

Lemma uint256_decimal_parse_witness :
  uint256_decimal (replicate 32 xff) = "115792089237316195423570985008687907853269984665640564039457584007913129639935"%string
  /\ parse_uint256 (H := sample_codec) (uint256_decimal (replicate 32 xff)) = Ok (replicate 32 xff).
Proof.
  split; [by vm_compute|]. apply (uint256_decimal_parse (H := sample_codec) (replicate 32 xff)). reflexivity.
Defined.
