(* ===== verification/Calendar.v ===== *)
(** * Calendar: the look-back boundary ([civil_from_days] and [lookback_boundary_date] of
    [src/enrichment.rs])

    The boundary is a date printed [YYYY-MM-DD] and compared, as text, with Gamma's ISO
    timestamps; the results below show that this is the comparison of days. *)
From S2P Require Import Prelude.

(** Days since 1970-01-01 to (year, month, day).  The era divides with truncation
    ([i64]), the rest is unsigned. *)
Definition civil_from_days (z : Z) : Z * Z * Z :=
  let z := z + 719468 in
  let era := Z.quot (if 0 <=? z then z else z - 146096) 146097 in
  let doe := z - era * 146097 in
  let yoe := (doe - doe / 1460 + doe / 36524 - doe / 146096) / 365 in
  let y := yoe + era * 400 in
  let doy := doe - (365 * yoe + yoe / 4 - yoe / 100) in
  let mp := (5 * doy + 2) / 153 in
  let d := doy - (153 * mp + 2) / 5 + 1 in
  let m := if mp <? 10 then mp + 3 else mp - 9 in
  (if m <=? 2 then y + 1 else y, m, d).

Definition format_date (ymd : Z * Z * Z) : string :=
  let '(y, m, d) := ymd in fmt_padded 4 y +:+ "-" +:+ fmt_padded 2 m +:+ "-" +:+ fmt_padded 2 d.

(** [now_secs] is the clock. *)
Definition boundary_days (now_secs days_ago : Z) : Z := now_secs / 86400 - Z.min days_ago (now_secs / 86400).
Definition lookback_boundary_date (now_secs days_ago : Z) : string :=
  format_date (civil_from_days (boundary_days now_secs days_ago)).

(** ** The Gregorian calendar *)

Definition leap (y : Z) : bool := (y mod 4 =? 0) && (negb (y mod 100 =? 0) || (y mod 400 =? 0)).
Definition month_length (y m : Z) : Z :=
  if m =? 2 then if leap y then 29 else 28
  else if (m =? 4) || (m =? 6) || (m =? 9) || (m =? 11) then 30 else 31.
Definition next_day (ymd : Z * Z * Z) : Z * Z * Z :=
  let '(y, m, d) := ymd in
  if d <? month_length y m then (y, m, d + 1)
  else if m <? 12 then (y, m + 1, 1) else (y + 1, 1, 1).
Definition valid_date (ymd : Z * Z * Z) : bool :=
  let '(y, m, d) := ymd in (1 <=? m) && (m <=? 12) && (1 <=? d) && (d <=? month_length y m).

(** *** The era, the March year in it and the day of that year *)

Definition start (Y : Z) : Z := 365 * Y + Y / 4 - Y / 100 + Y / 400.
Definition year_length (Y : Z) : Z := if leap (Y + 1) then 366 else 365.
Definition yoe_num (doe : Z) : Z := doe - doe / 1460 + doe / 36524 - doe / 146096.

Definition month_of (doy : Z) : Z := let mp := (5 * doy + 2) / 153 in if mp <? 10 then mp + 3 else mp - 9.
Definition mday_of (doy : Z) : Z := doy - (153 * ((5 * doy + 2) / 153) + 2) / 5 + 1.
Definition march_date (era Y doy : Z) : Z * Z * Z :=
  let m := month_of doy in (if m <=? 2 then Y + era * 400 + 1 else Y + era * 400, m, mday_of doy).

(** A check of the numbers below [n]. *)
Fixpoint check_below (n : nat) (p : Z -> bool) : bool :=
  match n with O => true | S n => p (Z.of_nat n) && check_below n p end.

Lemma check_below_sound n p : check_below n p = true -> forall x, 0 <= x < Z.of_nat n -> p x = true.
Proof.
  induction n as [|n IH]; cbn [check_below]; [intros _ x; lia|]. rewrite andb_true_iff. intros [Hn Hs] x Hx.
  destruct (Z.eq_dec x (Z.of_nat n)) as [->|]; [done|]. apply IH; [done|lia].
Qed.

Definition year_ok (Y : Z) : bool :=
  (start (Y + 1) =? start Y + year_length Y)
  && (yoe_num (start Y) / 365 =? Y) && (yoe_num (start Y + year_length Y - 1) / 365 =? Y)
  && (365 * Y + Y / 4 - Y / 100 =? start Y).

Lemma years_checked : check_below 400 year_ok = true.
Proof. vm_compute. reflexivity. Qed.

(** One step inside a March year whose February has 28 or 29 days. *)
Definition doy_ok (l : bool) (doy : Z) : bool :=
  let m := month_of doy in let d := mday_of doy in
  let len := if m =? 2 then if l then 29 else 28 else if (m =? 4) || (m =? 6) || (m =? 9) || (m =? 11) then 30 else 31 in
  let m' := month_of (doy + 1) in let d' := mday_of (doy + 1) in
  (1 <=? m) && (m <=? 12) && (1 <=? d) && (d <=? len)
  && if doy + 1 <? (if l then 366 else 365) then
       if d <? len then (m' =? m) && (d' =? d + 1)
       else (d' =? 1) && if m <? 12 then (m' =? m + 1) && negb (m =? 2) else m' =? 1
     else (m =? 2) && (d =? len).

Lemma doys_checked : check_below 365 (doy_ok false) && check_below 366 (doy_ok true) = true.
Proof. vm_compute. reflexivity. Qed.

Lemma yoe_num_step x : 0 <= x -> yoe_num x <= yoe_num (x + 1).
Proof. intros Hx. unfold yoe_num. Z.div_mod_to_equations. lia. Qed.

Lemma yoe_num_mono x y : 0 <= x <= y -> yoe_num x <= yoe_num y.
Proof.
  intros Hxy. replace y with (x + Z.of_nat (Z.to_nat (y - x))) by lia.
  induction (Z.to_nat (y - x)) as [|n IH]; [rewrite Z.add_0_r; lia|].
  rewrite Nat2Z.inj_succ. replace (x + Z.succ (Z.of_nat n)) with (x + Z.of_nat n + 1) by lia.
  pose proof (yoe_num_step (x + Z.of_nat n) ltac:(lia)). lia.
Qed.

Lemma year_facts Y : 0 <= Y < 400 ->
  start (Y + 1) = start Y + year_length Y /\ 365 * Y + Y / 4 - Y / 100 = start Y
  /\ forall doy, 0 <= doy < year_length Y -> yoe_num (start Y + doy) / 365 = Y.
Proof.
  intros HY. pose proof (check_below_sound 400 year_ok years_checked Y ltac:(lia)) as Hok. unfold year_ok in Hok.
  rewrite !andb_true_iff, !Z.eqb_eq in Hok. destruct Hok as [[[H1 H2] H3] H4]. split; [done|]. split; [done|].
  intros doy Hd.
  assert (Hs : 0 <= start Y) by (unfold start; pose proof (Z.div_pos Y 400); pose proof (Z.div_pos Y 4);
    assert (Y / 100 <= Y / 1) by (apply Z.div_le_compat_l; lia); rewrite Z.div_1_r in *; lia).
  pose proof (yoe_num_mono (start Y) (start Y + doy) ltac:(lia)) as M1.
  pose proof (yoe_num_mono (start Y + doy) (start Y + year_length Y - 1) ltac:(lia)) as M2.
  apply (Z.div_le_mono _ _ 365) in M1, M2; lia.
Qed.

Lemma start_nonneg Y : 0 <= Y <= 400 -> 0 <= start Y.
Proof.
  intros HY. unfold start. pose proof (Z.div_pos Y 400). pose proof (Z.div_pos Y 4).
  assert (Y / 100 <= Y / 1) by (apply Z.div_le_compat_l; lia). rewrite Z.div_1_r in *. lia.
Qed.

Lemma start_mono_end Y doy : 0 <= Y < 400 -> 0 <= doy < year_length Y -> start Y + doy < 146097.
Proof.
  intros HY Hd.
  assert (Hend : forall k, 0 <= Y + 1 + Z.of_nat k <= 400 -> start (Y + 1) <= start (Y + 1 + Z.of_nat k)).
  { induction k as [|k IH]; intros Hk; [rewrite Z.add_0_r; lia|].
    destruct (year_facts (Y + 1 + Z.of_nat k) ltac:(lia)) as [Hs _].
    replace (Y + 1 + Z.of_nat (S k)) with (Y + 1 + Z.of_nat k + 1) by lia. rewrite Hs.
    specialize (IH ltac:(lia)). unfold year_length. destruct (leap _); lia. }
  specialize (Hend (Z.to_nat (399 - Y)) ltac:(lia)). replace (Y + 1 + Z.of_nat (Z.to_nat (399 - Y))) with 400 in Hend by lia.
  change (start 400) with 146097 in Hend. destruct (year_facts Y HY) as [Hs _]. lia.
Qed.

Lemma civil_march era Y doy :
  0 <= era -> 0 <= Y < 400 -> 0 <= doy < year_length Y ->
  civil_from_days (era * 146097 + start Y + doy - 719468) = march_date era Y doy.
Proof.
  intros He HY Hd. pose proof (start_nonneg Y ltac:(lia)). pose proof (start_mono_end Y doy HY Hd).
  destruct (year_facts Y HY) as (_ & Hst & Hyoe). specialize (Hyoe doy Hd).
  unfold civil_from_days. cbv zeta.
  replace (era * 146097 + start Y + doy - 719468 + 719468) with (start Y + doy + era * 146097) by lia.
  replace (0 <=? start Y + doy + era * 146097) with true by lia. rewrite Z.quot_div_nonneg by lia.
  rewrite Z.div_add, (Z.div_small (start Y + doy)) by lia.
  replace (start Y + doy + era * 146097 - (0 + era) * 146097) with (start Y + doy) by lia.
  fold (yoe_num (start Y + doy)). rewrite Hyoe, Hst.
  replace (start Y + doy - start Y) with doy by lia. unfold march_date, month_of, mday_of. cbv zeta.
  by rewrite (Z.add_0_l era).
Qed.

Lemma year_of doe : 0 <= doe < 146097 -> exists Y doy, 0 <= Y < 400 /\ 0 <= doy < year_length Y /\ doe = start Y + doy.
Proof.
  intros Hd. assert (Hn : forall n, (n <= 400)%nat -> doe < start (Z.of_nat n) ->
    exists Y doy, 0 <= Y < 400 /\ 0 <= doy < year_length Y /\ doe = start Y + doy).
  { induction n as [|n IH]; intros Hn Hlt; [change (start (Z.of_nat 0)) with 0 in Hlt; lia|].
    destruct (Z.lt_ge_cases doe (start (Z.of_nat n))) as [Hl|Hg]; [apply IH; [lia|done]|].
    exists (Z.of_nat n), (doe - start (Z.of_nat n)). destruct (year_facts (Z.of_nat n) ltac:(lia)) as [Hs _].
    replace (Z.of_nat (S n)) with (Z.of_nat n + 1) in Hlt by lia. lia. }
  apply (Hn 400%nat); [lia|]. change (start (Z.of_nat 400)) with 146097. lia.
Qed.

Lemma march_of_day z : 0 <= z -> exists era Y doy,
  0 <= era /\ 0 <= Y < 400 /\ 0 <= doy < year_length Y /\ z = era * 146097 + start Y + doy - 719468.
Proof.
  intros Hz. destruct (year_of ((z + 719468) mod 146097)) as (Y & doy & HY & Hd & E); [apply Z.mod_pos_bound; lia|].
  exists ((z + 719468) / 146097), Y, doy. split; [apply Z.div_pos; lia|]. split; [done|]. split; [done|].
  pose proof (Z.div_mod (z + 719468) 146097 ltac:(lia)). lia.
Qed.

Lemma leap_shift y k : leap (y + k * 400) = leap y.
Proof.
  unfold leap. rewrite Z.mod_add by lia.
  replace (y + k * 400) with (y + (100 * k) * 4) at 1 by lia. rewrite Z.mod_add by lia.
  replace (y + k * 400) with (y + (4 * k) * 100) at 1 by lia. by rewrite Z.mod_add by lia.
Qed.

(** A step of the calendar in March-year coordinates. *)
Lemma march_step era Y doy :
  0 <= Y < 400 -> 0 <= doy < year_length Y ->
  valid_date (march_date era Y doy) = true
  /\ next_day (march_date era Y doy) =
     if doy + 1 <? year_length Y then march_date era Y (doy + 1) else (Y + era * 400 + 1, 3, 1).
Proof.
  intros HY Hd. assert (Hok : doy_ok (leap (Y + 1)) doy = true).
  { pose proof doys_checked as [C1 C2]%andb_true_iff. unfold year_length in Hd.
    destruct (leap (Y + 1)); [apply (check_below_sound 366 _ C2); lia|apply (check_below_sound 365 _ C1); lia]. }
  unfold doy_ok in Hok. cbv zeta in Hok. unfold march_date, valid_date, next_day. cbv zeta.
  assert (Hlen : month_length (if month_of doy <=? 2 then Y + era * 400 + 1 else Y + era * 400) (month_of doy)
                 = if month_of doy =? 2 then if leap (Y + 1) then 29 else 28
                   else if (month_of doy =? 4) || (month_of doy =? 6) || (month_of doy =? 9) || (month_of doy =? 11) then 30 else 31).
  { unfold month_length. destruct (month_of doy =? 2) eqn:E; [|done]. replace (month_of doy <=? 2) with true by lia.
    replace (Y + era * 400 + 1) with (Y + 1 + era * 400) by lia. by rewrite leap_shift. }
  rewrite Hlen. clear Hlen. set (len := if month_of doy =? 2 then _ else _) in *. clearbody len.
  revert Hok. unfold year_length. set (m := month_of doy). set (d := mday_of doy).
  set (m' := month_of (doy + 1)). set (d' := mday_of (doy + 1)). clearbody m d m' d'.
  rewrite !andb_true_iff. intros [[[[K1 K2] K3] K4] K5]. split; [by rewrite K1, K2, K3, K4|].
  replace (if leap (Y + 1) then 366 else 365) with (if leap (Y + 1) then 366 else 365) in * by done.
  destruct (doy + 1 <? (if leap (Y + 1) then 366 else 365)).
  - destruct (d <? len).
    + apply andb_true_iff in K5 as [->%Z.eqb_eq ->%Z.eqb_eq]. done.
    + apply andb_true_iff in K5 as [->%Z.eqb_eq K5]. destruct (m <? 12) eqn:E.
      * apply andb_true_iff in K5 as [->%Z.eqb_eq Hm2]. f_equal. f_equal.
        destruct (m <=? 2) eqn:E2; destruct (m + 1 <=? 2) eqn:E3; lia.
      * apply Z.eqb_eq in K5 as ->. replace (m <=? 2) with false by lia. done.
  - apply andb_true_iff in K5 as [->%Z.eqb_eq ->%Z.eqb_eq]. by rewrite Z.ltb_irrefl.
Qed.

Lemma march_first era Y : march_date era Y 0 = (Y + era * 400, 3, 1).
Proof. reflexivity. Qed.

Lemma civil_next z : 0 <= z ->
  valid_date (civil_from_days z) = true /\ civil_from_days (z + 1) = next_day (civil_from_days z).
Proof.
  intros Hz. destruct (march_of_day z Hz) as (era & Y & doy & He & HY & Hd & ->). rewrite civil_march by done.
  destruct (march_step era Y doy HY Hd) as [Hv Hn]. split; [done|]. rewrite Hn.
  destruct (doy + 1 <? year_length Y) eqn:E.
  { rewrite <- civil_march by lia. f_equal. lia. }
  destruct (year_facts Y HY) as [Hs _]. assert (doy + 1 = year_length Y) by lia.
  destruct (Z.eq_dec Y 399) as [->|HY'].
  - transitivity (march_date (era + 1) 0 0); [|rewrite march_first; f_equal; f_equal; lia].
    rewrite <- civil_march by (done || lia). f_equal. change (start 0) with 0. change (start (399 + 1)) with 146097 in Hs. lia.
  - transitivity (march_date era (Y + 1) 0); [|rewrite march_first; f_equal; f_equal; lia].
    rewrite <- civil_march by (lia || (unfold year_length; destruct (leap _); lia)). f_equal. lia.
Qed.

(** The calendar.  Day 0 is 1970-01-01, every day from there on is a date of the
    Gregorian calendar, and the day after it is the next date. *)
Theorem civil_from_days_gregorian z :
  0 <= z ->
  civil_from_days 0 = (1970, 1, 1) /\ valid_date (civil_from_days z) = true
  /\ civil_from_days (z + 1) = next_day (civil_from_days z).
Proof.
  intros Hz. split; [by vm_compute|]. by apply civil_next.
Qed.

(** *** The text order is the order of days *)

Definition date_ltb (a b : Z * Z * Z) : bool :=
  let '(y, m, d) := a in let '(y', m', d') := b in
  (y <? y') || ((y =? y') && ((m <? m') || ((m =? m') && (d <? d')))).

Lemma date_ltb_trans a b c : date_ltb a b = true -> date_ltb b c = true -> date_ltb a c = true.
Proof. destruct a as [[y m] d], b as [[y' m'] d'], c as [[y2 m2] d2]. unfold date_ltb. lia. Qed.

Lemma next_day_later a : date_ltb a (next_day a) = true.
Proof.
  destruct a as [[y m] d]. unfold date_ltb, next_day. destruct (d <? month_length y m); [lia|].
  destruct (m <? 12); lia.
Qed.

Lemma civil_increasing z z' : 0 <= z < z' -> date_ltb (civil_from_days z) (civil_from_days z') = true.
Proof.
  intros Hz. replace z' with (z + 1 + Z.of_nat (Z.to_nat (z' - z - 1))) by lia.
  induction (Z.to_nat (z' - z - 1)) as [|n IH].
  - rewrite Z.add_0_r, (proj2 (civil_next z ltac:(lia))). apply next_day_later.
  - replace (z + 1 + Z.of_nat (S n)) with (z + 1 + Z.of_nat n + 1) by lia.
    eapply date_ltb_trans; [exact IH|]. rewrite (proj2 (civil_next (z + 1 + Z.of_nat n) ltac:(lia))). apply next_day_later.
Qed.

Lemma civil_order z z' : 0 <= z -> 0 <= z' ->
  date_ltb (civil_from_days z) (civil_from_days z') = (z <? z').
Proof.
  intros Hz Hz'. destruct (Z.lt_total z z') as [Hlt|[->|Hgt]].
  - rewrite civil_increasing by lia. lia.
  - destruct (civil_from_days z') as [[y m] d]. unfold date_ltb. lia.
  - pose proof (civil_increasing z' z ltac:(lia)) as Hi. destruct (civil_from_days z) as [[y m] d], (civil_from_days z') as [[y' m'] d'].
    unfold date_ltb in *. lia.
Qed.

(** The last day of the year 9999. *)
Definition max_day : Z := 2932896.

Lemma month_length_le y m : month_length y m <= 31.
Proof. unfold month_length. destruct (m =? 2); [destruct (leap y); lia|]. destruct (_ || _); lia. Qed.

Lemma civil_bounds z : 0 <= z <= max_day ->
  let '(y, m, d) := civil_from_days z in 1970 <= y <= 9999 /\ 1 <= m <= 12 /\ 1 <= d <= 31.
Proof.
  intros Hz. pose proof (civil_order z (max_day + 1) ltac:(lia) ltac:(unfold max_day in *; lia)) as H1.
  pose proof (civil_order z 0 ltac:(lia) ltac:(lia)) as H2.
  pose proof (proj1 (civil_next z ltac:(lia))) as Hv.
  change (civil_from_days (max_day + 1)) with (10000, 1, 1) in H1. change (civil_from_days 0) with (1970, 1, 1) in H2.
  destruct (civil_from_days z) as [[y m] d]. pose proof (month_length_le y m).
  unfold date_ltb, valid_date, max_day in *. lia.
Qed.

(** A number of exactly [w] digits. *)
Fixpoint fixed_digits (w : nat) (a : Z) : string :=
  match w with O => EmptyString | S w => fixed_digits w (a / 10) +:+ String (digit_char (a mod 10)) EmptyString end.

Lemma fixed_digits_length w a : String.length (fixed_digits w a) = w.
Proof. revert a. induction w as [|w IH]; intros a; cbn [fixed_digits]; [done|]. rewrite str_length_app, IH. cbn. lia. Qed.

Lemma digit_code d : 0 <= d < 10 -> ascii_code (digit_char d) = d + 48.
Proof.
  intros Hd. unfold ascii_code, digit_char. replace (d <? 10) with true by lia.
  rewrite N_ascii_embedding by lia. lia.
Qed.

Lemma fixed_digits_ltb w : forall a b, 0 <= a < 10 ^ Z.of_nat w -> 0 <= b < 10 ^ Z.of_nat w ->
  str_ltb (fixed_digits w a) (fixed_digits w b) = (a <? b)
  /\ String.eqb (fixed_digits w a) (fixed_digits w b) = (a =? b).
Proof.
  induction w as [|w IH]; intros a b Ha Hb; [cbn in *; replace a with 0 by lia; replace b with 0 by lia; done|].
  rewrite Nat2Z.inj_succ, Z.pow_succ_r in Ha, Hb by lia.
  destruct (IH (a / 10) (b / 10)) as [I1 I2]; [split; [apply Z.div_pos|apply Z.div_lt_upper_bound]; lia..|].
  pose proof (Z.mod_pos_bound a 10 ltac:(lia)). pose proof (Z.mod_pos_bound b 10 ltac:(lia)).
  pose proof (Z.div_mod a 10 ltac:(lia)). pose proof (Z.div_mod b 10 ltac:(lia)).
  assert (Hl : str_ltb (fixed_digits (S w) a) (fixed_digits (S w) b) = (a <? b)).
  { cbn [fixed_digits]. rewrite str_ltb_app by (by rewrite !fixed_digits_length). rewrite I1, I2. cbn [str_ltb].
    rewrite !digit_code by lia. lia. }
  split; [exact Hl|]. destruct (Z.eqb_spec a b) as [->|Hne]; [apply String.eqb_refl|].
  destruct (String.eqb_spec (fixed_digits (S w) a) (fixed_digits (S w) b)) as [E|]; [|done]. exfalso.
  rewrite E, str_ltb_irrefl in Hl.
  assert (Hl2 : str_ltb (fixed_digits (S w) b) (fixed_digits (S w) a) = (b <? a)).
  { cbn [fixed_digits]. rewrite str_ltb_app by (by rewrite !fixed_digits_length).
    destruct (IH (b / 10) (a / 10)) as [-> ->]; [split; [apply Z.div_pos|apply Z.div_lt_upper_bound]; lia..|].
    cbn [str_ltb]. rewrite !digit_code by lia. lia. }
  rewrite E, str_ltb_irrefl in Hl2. lia.
Qed.

Lemma padded_checked :
  check_below (Z.to_nat 10000) (fun a => String.eqb (fmt_padded 4 a) (fixed_digits 4 a))
  && check_below 100 (fun a => String.eqb (fmt_padded 2 a) (fixed_digits 2 a)) = true.
Proof. vm_compute. reflexivity. Qed.

Lemma fmt_padded_4 a : 0 <= a < 10000 -> fmt_padded 4 a = fixed_digits 4 a.
Proof. intros Ha. pose proof padded_checked as [C _]%andb_true_iff. apply String.eqb_eq. apply (check_below_sound _ _ C). lia. Qed.
Lemma fmt_padded_2 a : 0 <= a < 100 -> fmt_padded 2 a = fixed_digits 2 a.
Proof. intros Ha. pose proof padded_checked as [_ C]%andb_true_iff. apply String.eqb_eq. apply (check_below_sound _ _ C). lia. Qed.

Lemma format_date_ltb y m d y' m' d' rest :
  0 <= y < 10000 -> 0 <= m < 100 -> 0 <= d < 100 -> 0 <= y' < 10000 -> 0 <= m' < 100 -> 0 <= d' < 100 ->
  str_ltb (format_date (y, m, d) +:+ rest) (format_date (y', m', d')) = date_ltb (y, m, d) (y', m', d').
Proof.
  intros Hy Hm Hd Hy' Hm' Hd'. unfold format_date. rewrite !fmt_padded_4, !fmt_padded_2 by done.
  replace ((fixed_digits 4 y +:+ "-" +:+ fixed_digits 2 m +:+ "-" +:+ fixed_digits 2 d) +:+ rest)
    with (fixed_digits 4 y +:+ "-" +:+ fixed_digits 2 m +:+ "-" +:+ fixed_digits 2 d +:+ rest)
    by (by rewrite !str_app_assoc).
  replace (fixed_digits 2 d') with (fixed_digits 2 d' +:+ "") by apply str_app_nil_r.
  rewrite str_ltb_app by (by rewrite !fixed_digits_length). rewrite (str_ltb_app "-" "-") by done.
  rewrite str_ltb_app by (by rewrite !fixed_digits_length). rewrite (str_ltb_app "-" "-") by done.
  rewrite str_ltb_app by (by rewrite !fixed_digits_length).
  destruct (fixed_digits_ltb 4 y y') as [-> ->]; [done..|]. destruct (fixed_digits_ltb 2 m m') as [-> ->]; [done..|].
  destruct (fixed_digits_ltb 2 d d') as [-> ->]; [done..|]. unfold date_ltb.
  replace (str_ltb rest "") with false by (by destruct rest).
  change (str_ltb "-" "-") with false. change (String.eqb "-" "-") with true. lia.
Qed.

(** The text comparison compares days.  A timestamp that begins with the date of a
    day is below the boundary, as strings, exactly when its day is before the boundary
    day, which is [days_ago] days before today (or day 0). *)
Theorem boundary_compares_days now_secs days_ago z rest :
  0 <= now_secs -> 0 <= days_ago -> now_secs / 86400 <= max_day -> 0 <= z <= max_day ->
  str_ltb (format_date (civil_from_days z) +:+ rest) (lookback_boundary_date now_secs days_ago)
  = (z <? Z.max 0 (now_secs / 86400 - days_ago)).
Proof.
  intros Hn Hd Hmax Hz. assert (Hnow : 0 <= now_secs / 86400) by (apply Z.div_pos; lia).
  unfold lookback_boundary_date, boundary_days.
  replace (now_secs / 86400 - Z.min days_ago (now_secs / 86400)) with (Z.max 0 (now_secs / 86400 - days_ago)) by lia.
  set (b := Z.max 0 (now_secs / 86400 - days_ago)). assert (Hb : 0 <= b <= max_day) by lia. clearbody b.
  rewrite <- civil_order by lia. pose proof (civil_bounds z Hz) as Bz. pose proof (civil_bounds b Hb) as Bb.
  destruct (civil_from_days z) as [[y m] d], (civil_from_days b) as [[y' m'] d'].
  apply format_date_ltb; lia.
Qed.

Lemma civil_from_days_gregorian_witness :
  valid_date (civil_from_days 20732) = true /\ civil_from_days 20732 = (2026, 10, 6).
Proof. split; [apply (civil_from_days_gregorian 20732); lia|by vm_compute]. Defined.

Lemma boundary_compares_days_witness :
  lookback_boundary_date 1791331200 3 = "2026-10-04"%string
  /\ str_ltb ("2026-10-03" +:+ "T23:59:59Z") (lookback_boundary_date 1791331200 3) = true.
Proof.
  split; [by vm_compute|].
  pose proof (boundary_compares_days 1791331200 3 20729 "T23:59:59Z" ltac:(lia) ltac:(lia) ltac:(by vm_compute)
                ltac:(unfold max_day; lia)) as Hb.
  change (format_date (civil_from_days 20729)) with "2026-10-03"%string in Hb. rewrite Hb. by vm_compute.
Defined.
