(* ===== verification/Catalog.v ===== *)
(** * Catalog: the market catalog and its synchronisation ([src/enrichment.rs])

    The two indexes with their lookups and [upsert], the compaction of a Gamma market,
    the cursors, and the walks over the pages of Gamma's API.  Gamma answers with a
    list of responses, one per attempt; a walk that needs another when they are used up
    is still waiting ([None]). *)
From S2P Require Import Prelude Model Events Category Uint256 Calendar.

(** ** The indexes *)

Record Catalog := {
  by_condition : gmap bytes MarketEnrichment;
  market_to_condition : gmap Z bytes;
  max_market_id : Z }.

Definition catalog_empty : Catalog := {| by_condition := ∅; market_to_condition := ∅; max_market_id := 0 |}.

Definition catalog_get (c : bytes) (cat : Catalog) : option MarketEnrichment := by_condition cat !! c.

Definition get_by_market_id (id : Z) (cat : Catalog) : option MarketEnrichment :=
  c ← market_to_condition cat !! id; by_condition cat !! c.

Definition resolve (market_id : option Z) (derived_condition_id : bytes) (cat : Catalog) : option MarketEnrichment :=
  match (id ← market_id; get_by_market_id id cat) with
  | Some m => Some m
  | None => catalog_get derived_condition_id cat
  end.

Definition upsert (m : MarketEnrichment) (cat : Catalog) : bool * Catalog :=
  if bool_decide (by_condition cat !! condition_id m = Some m) then (false, cat) else
  let bc :=
    match market_to_condition cat !! market_id m with
    | Some previous => if decide (previous = condition_id m) then by_condition cat else delete previous (by_condition cat)
    | None => by_condition cat
    end in
  (true, {| by_condition := <[condition_id m := m]> bc;
            market_to_condition := <[market_id m := condition_id m]> (market_to_condition cat);
            max_market_id := Z.max (max_market_id cat) (market_id m) |}).

(** Upserting in order, and how many changed something. *)
Definition upsert_count (nc : Z * Catalog) (m : MarketEnrichment) : Z * Catalog :=
  let '(fresh, cat) := upsert m (snd nc) in (if fresh then fst nc + 1 else fst nc, cat).
Definition upsert_all (ms : list MarketEnrichment) (cat : Catalog) : Z * Catalog := foldl upsert_count (0, cat) ms.

Definition catalog_new (markets : list MarketEnrichment) : Catalog :=
  foldl (fun cat m => snd (upsert m cat)) catalog_empty markets.

Definition catalog_len (cat : Catalog) : Z := Z.of_nat (size (by_condition cat)).
Definition catalog_is_empty (cat : Catalog) : bool := catalog_len cat =? 0.

(** The snapshot's order is the hash table's: any enumeration of the rows. *)
Definition catalog_snapshot (cat : Catalog) : list MarketEnrichment := map snd (map_to_list (by_condition cat)).

(** ** Gamma's markets *)

Record GammaMarket := {
  gamma_id : string;
  updated_at : string;
  gamma_condition_id : string;
  clob_token_ids : list string;
  gamma_tags : list string;
  gamma_event_tags : list (list string);
  gamma_neg_risk : bool;
  sports_market_type : option string;
  question : option string }.

Record GammaPage := { markets : list GammaMarket; next_cursor : string }.

(** [dedup] on a sorted vector. *)
Fixpoint dedup (l : list Z) : list Z :=
  match l with
  | x :: (y :: _) as l' => if x =? y then dedup l' else x :: dedup l'
  | l => l
  end.

Section Gamma.
Context `{EthCodec} `{TextEngine}.
(** The compiled rules ([RULES]). *)
Context (rules : CompiledRules).

Fixpoint parse_all (l : list string) : result EnrichmentError (list bytes) :=
  match l with
  | [] => Ok []
  | s :: l => b ← parse_uint256 s; bs ← parse_all l; Ok (b :: bs)
  end.

Definition parsed_tags (raw : GammaMarket) : list Z :=
  omap parse_u32 (gamma_tags raw ++ concat (gamma_event_tags raw)).

Definition compact_market (raw : GammaMarket) : result EnrichmentError MarketEnrichment :=
  id ← ok_or (EnrichIdentity "market_id") (parse_u64 (gamma_id raw));
  cond ← parse_hex_32 (gamma_condition_id raw);
  toks ← parse_all (clob_token_ids raw);
  let tags := dedup (merge_sort Z.le (parsed_tags raw)) in
  let '(cat, bet) := classify_with rules tags (sports_market_type raw) (question raw) in
  Ok {| market_id := id; condition_id := cond; token_ids := toks; tag_ids := tags; category := cat; bet_type := bet;
        neg_risk := gamma_neg_risk raw |}.

(** ** Cursors *)

Record EnrichmentCursor := { cursor_updated_at : string; cursor_market_id : Z }.

Definition is_older (c : EnrichmentCursor) (at_ : string) : bool := str_ltb at_ (cursor_updated_at c).

(** [(updated_at, market_id) > (self.updated_at, self.market_id)] *)
Definition cursor_ltb (a b : EnrichmentCursor) : bool :=
  str_ltb (cursor_updated_at a) (cursor_updated_at b)
  || (String.eqb (cursor_updated_at a) (cursor_updated_at b) && (cursor_market_id a <? cursor_market_id b)).

Definition advance (c new : EnrichmentCursor) : EnrichmentCursor := if cursor_ltb c new then new else c.

Definition advance_opt (c : option EnrichmentCursor) (new : EnrichmentCursor) : option EnrichmentCursor :=
  Some (match c with Some c => advance c new | None => new end).

(** ** Requests *)

Definition KEYSET_RETRIES : nat := 3.

(** One page, with its retries: the answer and the responses left. *)
Fixpoint keyset_with_retry (attempts : nat) (responses : list (result EnrichmentError GammaPage))
  : option (result EnrichmentError GammaPage * list (result EnrichmentError GammaPage)) :=
  match responses with
  | [] => None
  | Ok page :: rest => Some (Ok page, rest)
  | Err e :: rest =>
      match attempts with
      | S n => if is_transient e then keyset_with_retry n rest else Some (Err e, rest)
      | O => Some (Err e, rest)
      end
  end.

Definition last_page (page_cursor : option string) (next : string) : bool :=
  String.eqb next "" || String.eqb next "LTE=" || bool_decide (page_cursor = Some next).

(** The state of a walk. *)
Record Walk := { changed : Z; newest : option EnrichmentCursor; catalog : Catalog }.

(** One market of a page of the incremental walk: whether it was already covered. *)
Definition sync_market (previous : option EnrichmentCursor) (boundary : option string) (raw : GammaMarket) (w : Walk)
  : bool * Walk :=
  if match previous with Some c => is_older c (updated_at raw) | None => false end then (true, w)
  else if match boundary with Some b => str_ltb (updated_at raw) b | None => false end then (true, w)
  else match compact_market raw with
  | Err _ => (false, w)
  | Ok m =>
      let newest' := match parse_u64 (gamma_id raw) with
                     | Some id => advance_opt (newest w) {| cursor_updated_at := updated_at raw; cursor_market_id := id |}
                     | None => newest w
                     end in
      let '(fresh, cat) := upsert m (catalog w) in
      (false, {| changed := if fresh then changed w + 1 else changed w; newest := newest'; catalog := cat |})
  end.

Fixpoint sync_page (previous : option EnrichmentCursor) (boundary : option string) (raws : list GammaMarket) (reached : bool) (w : Walk)
  : bool * Walk :=
  match raws with
  | [] => (reached, w)
  | raw :: raws =>
      let '(old, w) := sync_market previous boundary raw w in
      sync_page previous boundary raws (reached || old) w
  end.

(** The pages of [sync_incremental].  [fuel] bounds the pages by the responses there
    are; [pages] counts down [max_pages.max(1)]. *)
Fixpoint sync_loop (fuel : nat) (pages : Z) (previous : option EnrichmentCursor) (boundary : option string)
    (page_cursor : option string) (responses : list (result EnrichmentError GammaPage)) (w : Walk)
  : option (result EnrichmentError unit * Walk) :=
  if pages <=? 0 then Some (Ok tt, w) else
  match fuel with
  | O => None
  | S n =>
      match keyset_with_retry KEYSET_RETRIES responses with
      | None => None
      | Some (Err e, _) => Some (Err e, w)
      | Some (Ok page, rest) =>
          match markets page with
          | [] => Some (Ok tt, w)
          | raws =>
              let '(reached, w) := sync_page previous boundary raws false w in
              if reached then Some (Ok tt, w)
              else if last_page page_cursor (next_cursor page) then Some (Ok tt, w)
              else sync_loop n (pages - 1) previous boundary (Some (next_cursor page)) rest w
          end
      end
  end.

(** The answer of the walk, and the catalog, which an error does not undo. *)
Definition sync_incremental (cat : Catalog) (previous : option EnrichmentCursor) (boundary : option string)
    (max_pages : Z) (responses : list (result EnrichmentError GammaPage))
  : option (result EnrichmentError (Z * option EnrichmentCursor) * Catalog) :=
  '(r, w) ← sync_loop (length responses) (Z.max max_pages 1) previous boundary None responses
             {| changed := 0; newest := previous; catalog := cat |};
  Some (match r with Ok _ => Ok (changed w, newest w) | Err e => Err e end, catalog w).

(** One page of [sync_newest_markets]. *)
Fixpoint newest_page (known_max : Z) (raws : list GammaMarket) (nc : Z * Catalog) : bool * (Z * Catalog) :=
  match raws with
  | [] => (false, nc)
  | raw :: raws =>
      if match parse_u64 (gamma_id raw) with Some id => id <=? known_max | None => false end then (true, nc)
      else newest_page known_max raws (match compact_market raw with Ok m => upsert_count nc m | Err _ => nc end)
  end.

Fixpoint newest_loop (fuel : nat) (pages : Z) (known_max : Z) (page_cursor : option string)
    (responses : list (result EnrichmentError GammaPage)) (nc : Z * Catalog)
  : option (result EnrichmentError unit * (Z * Catalog)) :=
  if pages <=? 0 then Some (Ok tt, nc) else
  match fuel with
  | O => None
  | S n =>
      match keyset_with_retry KEYSET_RETRIES responses with
      | None => None
      | Some (Err e, _) => Some (Err e, nc)
      | Some (Ok page, rest) =>
          match markets page with
          | [] => Some (Ok tt, nc)
          | raws =>
              let '(reached, nc) := newest_page known_max raws nc in
              if reached || last_page page_cursor (next_cursor page) then Some (Ok tt, nc)
              else newest_loop n (pages - 1) known_max (Some (next_cursor page)) rest nc
          end
      end
  end.

Definition sync_newest_markets (cat : Catalog) (max_pages : Z) (responses : list (result EnrichmentError GammaPage))
  : option (result EnrichmentError Z * Catalog) :=
  '(r, nc) ← newest_loop (length responses) (Z.max max_pages 1) (max_market_id cat) None responses (0, cat);
  Some (match r with Ok _ => Ok (fst nc) | Err e => Err e end, snd nc).
End Gamma.

(** ** The catalog as a table of markets *)

(** The table the two indexes stand for: each market id's last row. *)
Definition table (ms : list MarketEnrichment) : gmap Z MarketEnrichment :=
  foldl (fun t m => <[market_id m := m]> t) ∅ ms.

(** A condition belongs to one market. *)
Definition conditions_distinct (ms : list MarketEnrichment) : Prop :=
  forall m m', m ∈ ms -> m' ∈ ms -> condition_id m = condition_id m' -> market_id m = market_id m'.

Record represents (ms : list MarketEnrichment) (cat : Catalog) : Prop := {
  rep_market : forall id c, market_to_condition cat !! id = Some c <->
                 exists m, table ms !! id = Some m /\ condition_id m = c;
  rep_rows : forall c m, by_condition cat !! c = Some m <-> table ms !! market_id m = Some m /\ condition_id m = c;
  rep_max : max_market_id cat = foldl (fun n m => Z.max n (market_id m)) 0 ms }.

Lemma table_snoc ms m : table (ms ++ [m]) = <[market_id m := m]> (table ms).
Proof. unfold table. by rewrite foldl_app. Qed.

Lemma table_elem ms id m : table ms !! id = Some m -> m ∈ ms /\ market_id m = id.
Proof.
  induction ms as [|x ms IH] using rev_ind; [change (table []) with (∅ : gmap Z MarketEnrichment); by rewrite lookup_empty|].
  rewrite table_snoc.
  destruct (decide (id = market_id x)) as [->|Hne].
  - rewrite lookup_insert_eq. intros [= <-]. split; [apply elem_of_app; right; by left|done].
  - rewrite lookup_insert_ne by done. intros Hm. apply IH in Hm as [Hin Hid]. split; [apply elem_of_app; by left|done].
Qed.

Lemma upsert_represents ms m cat :
  conditions_distinct (ms ++ [m]) -> represents ms cat -> represents (ms ++ [m]) (snd (upsert m cat)).
Proof.
  intros Hd [Hmk Hrows Hmax].
  assert (Hother : forall m', table ms !! market_id m' = Some m' -> condition_id m' = condition_id m -> market_id m' = market_id m).
  { intros m' Ht Hc. apply table_elem in Ht as [Hin _]. apply Hd; [apply elem_of_app; by left|apply elem_of_app; right; by left|done]. }
  unfold upsert. destruct (bool_decide _) eqn:E.
  - apply bool_decide_eq_true, Hrows in E as [E _]. cbn [snd].
    assert (Ht : table (ms ++ [m]) = table ms) by (rewrite table_snoc; by apply insert_id).
    split; [by setoid_rewrite Ht|by setoid_rewrite Ht|]. rewrite Hmax, foldl_app. cbn [foldl].
    assert (Hge : forall l n, n <= foldl (fun n m => Z.max n (market_id m)) n l
              /\ forall x, x ∈ l -> market_id x <= foldl (fun n m => Z.max n (market_id m)) n l).
    { induction l as [|y l IH]; intros n; [split; [cbn; lia|by intros x ?%elem_of_nil]|]. cbn [foldl].
      destruct (IH (Z.max n (market_id y))) as [I1 I2]. split; [lia|]. intros x [->|Hx]%elem_of_cons; [lia|by apply I2]. }
    apply table_elem in E as [Hin _]. pose proof (proj2 (Hge ms 0) m Hin). lia.
  - apply bool_decide_eq_false in E. cbn [snd]. split; cbn [by_condition market_to_condition max_market_id].
    + intros id c. rewrite table_snoc. destruct (decide (id = market_id m)) as [->|Hne].
      * rewrite !lookup_insert_eq. split; [intros [= <-]; by exists m|intros (x & [= <-] & <-); done].
      * rewrite !lookup_insert_ne by done. apply Hmk.
    + intros c x. rewrite table_snoc. destruct (decide (c = condition_id m)) as [->|Hne].
      * rewrite lookup_insert_eq. split; [intros [= <-]; by rewrite lookup_insert_eq|].
        intros [Hx Hc]. destruct (decide (market_id x = market_id m)) as [Hid|Hid].
        { rewrite Hid, lookup_insert_eq in Hx. by injection Hx as ->. }
        rewrite lookup_insert_ne in Hx by done. by apply Hother in Hx.
      * rewrite lookup_insert_ne by done.
        assert (Hold : by_condition cat !! c = Some x <-> table ms !! market_id x = Some x /\ condition_id x = c) by apply Hrows.
        destruct (market_to_condition cat !! market_id m) as [p|] eqn:Ep.
        -- apply Hmk in Ep as (y & Hy & Hyc).
           assert (Hx : (if decide (p = condition_id m) then by_condition cat else delete p (by_condition cat)) !! c = Some x
                        <-> (by_condition cat !! c = Some x /\ c <> p)).
           { destruct (decide (p = condition_id m)) as [->|]; [intuition congruence|].
             rewrite lookup_delete_Some. intuition congruence. }
           rewrite Hx, Hold. destruct (decide (market_id x = market_id m)) as [Hid|Hid].
           ++ rewrite Hid, lookup_insert_eq. split; [|by intros [[= <-] ?]]. intros [[Htx Hcx] Hcp]. congruence.
           ++ rewrite lookup_insert_ne by done. split; [tauto|]. intros [Htx Hcx]. split; [done|]. intros ->.
              apply Hid. pose proof (table_elem _ _ _ Hy) as [Hiny Hidy]. apply table_elem in Htx as [Hinx _].
              rewrite <- Hidy. apply Hd; [apply elem_of_app; by left..|congruence].
        -- rewrite Hold. destruct (decide (market_id x = market_id m)) as [Hid|Hid].
           ++ rewrite Hid, lookup_insert_eq. split; [|by intros [[= <-] ?]]. intros [Htx Hcx]. exfalso.
              assert (Hs : market_to_condition cat !! market_id m = Some c) by (apply Hmk; by exists x). congruence.
           ++ by rewrite lookup_insert_ne by done.
    + rewrite foldl_app. cbn [foldl]. by rewrite Hmax.
Qed.

Lemma catalog_new_represents ms : conditions_distinct ms -> represents ms (catalog_new ms).
Proof.
  induction ms as [|m ms IH] using rev_ind; intros Hd.
  - split; [intros id c; split; [done|by intros (m & Hm & _)]|intros c m; split; [done|by intros [Hm _]]|done].
  - unfold catalog_new. rewrite foldl_app. cbn [foldl]. apply upsert_represents; [done|]. apply IH.
    intros x y Hx Hy. apply Hd; apply elem_of_app; by left.
Qed.

(** C29: the catalog is the table of markets.  When no condition is shared by two
    markets, the lookup by market id is the last row given for it, the lookup by
    condition is the one market that now has it, and the highest id is the stop point
    of the newest-first walk. *)
Theorem catalog_is_table ms :
  conditions_distinct ms ->
  let cat := catalog_new ms in
  (forall id, get_by_market_id id cat = table ms !! id)
  /\ (forall c m, catalog_get c cat = Some m <-> table ms !! market_id m = Some m /\ condition_id m = c)
  /\ (forall id c m, resolve (Some id) c cat = Some m ->
        table ms !! id = Some m \/ (table ms !! id = None /\ catalog_get c cat = Some m))
  /\ max_market_id cat = foldl (fun n m => Z.max n (market_id m)) 0 ms.
Proof.
  intros Hd cat. destruct (catalog_new_represents ms Hd) as [Hmk Hrows Hmax]. fold cat in Hmk, Hrows, Hmax.
  assert (Hget : forall id, get_by_market_id id cat = table ms !! id).
  { intros id. unfold get_by_market_id. destruct (table ms !! id) as [m|] eqn:E.
    - assert (Hm : market_to_condition cat !! id = Some (condition_id m)) by (apply Hmk; by exists m).
      rewrite Hm. cbn. apply Hrows. destruct (table_elem _ _ _ E) as [_ Hid]. by rewrite Hid.
    - destruct (market_to_condition cat !! id) as [c|] eqn:Em; [|done]. apply Hmk in Em as (m & Hm & _). congruence. }
  split; [done|]. split; [done|]. split; [|done]. intros id c m. unfold resolve. cbn [mbind option_bind].
  rewrite Hget. destruct (table ms !! id) as [x|]; [intros [= ->]; by left|]. intros Hc. by right.
Qed.

(** A condition shared by two markets: when one of them moves to another condition, the
    other's row goes with the old one. *)
Example shared_condition_loses :
  let mk id c := {| market_id := id; condition_id := c; token_ids := []; tag_ids := []; category := Category_Other;
                    bet_type := Bet_Unspecified; neg_risk := false |} in
  get_by_market_id 2 (catalog_new [mk 1 [x01]; mk 2 [x01]; mk 1 [x02]]) = None.
Proof. by vm_compute. Qed.

(** ** The walks *)

Definition cursor_leb (a b : EnrichmentCursor) : bool := negb (cursor_ltb b a).

Lemma cursor_ltb_irrefl a : cursor_ltb a a = false.
Proof. unfold cursor_ltb. by rewrite str_ltb_irrefl, Z.ltb_irrefl, andb_false_r. Qed.

Lemma cursor_ltb_trans a b c : cursor_ltb a b = true -> cursor_ltb b c = true -> cursor_ltb a c = true.
Proof.
  unfold cursor_ltb. rewrite !orb_true_iff, !andb_true_iff, !String.eqb_eq.
  intros [H1|[E1 H1]] [H2|[E2 H2]].
  - left. by eapply str_ltb_trans.
  - left. by rewrite <- E2.
  - left. by rewrite E1.
  - right. split; [congruence|lia].
Qed.

Lemma cursor_ltb_total a b c : cursor_ltb a c = true -> cursor_ltb b c = false -> cursor_ltb a b = true.
Proof.
  intros H1 H2. destruct (cursor_ltb a b) eqn:E; [done|]. exfalso.
  assert (Hba : cursor_ltb b a = true -> False) by (intros Hba; rewrite (cursor_ltb_trans b a c) in H2; done).
  unfold cursor_ltb in *. rewrite orb_false_iff, andb_false_iff in E, H2.
  destruct (str_ltb (cursor_updated_at b) (cursor_updated_at a)) eqn:Eb; [by apply Hba|]. destruct E as [E E'].
  pose proof (str_ltb_total _ _ E Eb) as Eq. rewrite Eq in *. rewrite String.eqb_refl in *.
  apply orb_true_iff in H1 as [H1|[H1 H1']%andb_true_iff]; [rewrite H1 in H2; by destruct H2|].
  rewrite H1 in H2. destruct H2 as [_ [|H2]]; [done|]. destruct E' as [|E']; [done|].
  apply Hba. cbn. lia.
Qed.

Lemma cursor_leb_trans a b c : cursor_leb a b = true -> cursor_leb b c = true -> cursor_leb a c = true.
Proof.
  unfold cursor_leb. rewrite !negb_true_iff. intros H1 H2. destruct (cursor_ltb c a) eqn:E; [|done].
  by rewrite (cursor_ltb_total c b a E H1) in H2.
Qed.

Lemma advance_ge c n : cursor_leb c (advance c n) = true /\ cursor_leb n (advance c n) = true.
Proof.
  unfold advance, cursor_leb. destruct (cursor_ltb c n) eqn:E; rewrite !negb_true_iff.
  - split; [|apply cursor_ltb_irrefl]. destruct (cursor_ltb n c) eqn:E2; [|done].
    pose proof (cursor_ltb_trans c n c E E2) as Ht. by rewrite cursor_ltb_irrefl in Ht.
  - split; [apply cursor_ltb_irrefl|done].
Qed.

Definition opt_leb (c : option EnrichmentCursor) (n : option EnrichmentCursor) : Prop :=
  match c with None => True | Some c => match n with Some n => cursor_leb c n = true | None => False end end.

Lemma advance_all_ge cs : forall c,
  opt_leb c (foldl advance_opt c cs) /\ forall x, x ∈ cs -> opt_leb (Some x) (foldl advance_opt c cs).
Proof.
  assert (Hopt : forall a b c, opt_leb a b -> opt_leb b c -> opt_leb a c).
  { intros [a|] [b|] [c|]; cbn; try done. apply cursor_leb_trans. }
  induction cs as [|x cs IH]; intros c; cbn [foldl].
  { split; [|by intros ? ?%elem_of_nil]. destruct c as [c|]; [|done]. cbn. unfold cursor_leb. by rewrite cursor_ltb_irrefl. }
  destruct (IH (advance_opt c x)) as [I1 I2].
  assert (Hstep : opt_leb c (advance_opt c x) /\ opt_leb (Some x) (advance_opt c x)).
  { destruct c as [c|]; cbn; [apply advance_ge|]. split; [done|]. unfold cursor_leb. by rewrite cursor_ltb_irrefl. }
  split; [eapply Hopt; [apply Hstep|done]|]. intros y [->|Hy]%elem_of_cons; [eapply Hopt; [apply Hstep|done]|by apply I2].
Qed.

Section Walks.
Context `{EthCodec} `{TextEngine}.
Context (rules : CompiledRules).

(** A market the last walk already covered, or beyond the look-back. *)
Definition covered (previous : option EnrichmentCursor) (boundary : option string) (raw : GammaMarket) : bool :=
  match previous with Some c => is_older c (updated_at raw) | None => false end
  || match boundary with Some b => str_ltb (updated_at raw) b | None => false end.

(** What a walk takes from a market: its row and its position. *)
Definition accept (previous : option EnrichmentCursor) (boundary : option string) (raw : GammaMarket)
  : option (MarketEnrichment * EnrichmentCursor) :=
  if covered previous boundary raw then None else
  match compact_market rules raw with
  | Ok m => Some (m, {| cursor_updated_at := updated_at raw; cursor_market_id := market_id m |})
  | Err _ => None
  end.

Definition walk_after (w : Walk) (acc : list (MarketEnrichment * EnrichmentCursor)) : Walk :=
  let nc := foldl upsert_count (changed w, catalog w) (map fst acc) in
  {| changed := fst nc; newest := foldl advance_opt (newest w) (map snd acc); catalog := snd nc |}.

Lemma walk_after_app w a b : walk_after w (a ++ b) = walk_after (walk_after w a) b.
Proof. unfold walk_after. rewrite !map_app, !foldl_app. cbn. by rewrite <- surjective_pairing. Qed.

Lemma compact_market_id raw m : compact_market rules raw = Ok m -> parse_u64 (gamma_id raw) = Some (market_id m).
Proof.
  unfold compact_market, ok_or. destruct (parse_u64 (gamma_id raw)) as [id|]; [|done]. cbn [mbind result_bind].
  destruct (parse_hex_32 _); [|done]. destruct (parse_all _); [|done]. cbn [mbind result_bind].
  destruct (classify_with _ _ _ _). by intros [= <-].
Qed.

Lemma sync_market_spec previous boundary raw w :
  sync_market rules previous boundary raw w =
  (covered previous boundary raw, walk_after w (match accept previous boundary raw with Some a => [a] | None => [] end)).
Proof.
  assert (Hid : walk_after w [] = w) by by destruct w.
  unfold sync_market, accept, covered. destruct (match previous with Some _ => _ | None => _ end); cbn [orb]; [by rewrite Hid|].
  destruct (match boundary with Some _ => _ | None => _ end); [by rewrite Hid|].
  destruct (compact_market rules raw) as [m|e] eqn:E; [|by rewrite Hid].
  rewrite (compact_market_id _ _ E). unfold walk_after. cbn. unfold upsert_count. cbn.
  by destruct (upsert m (catalog w)) as [[] cat].
Qed.

Lemma sync_page_spec previous boundary raws : forall reached w,
  sync_page rules previous boundary raws reached w =
  (reached || existsb (covered previous boundary) raws, walk_after w (omap (accept previous boundary) raws)).
Proof.
  induction raws as [|raw raws IH]; intros reached w; cbn [sync_page existsb].
  { rewrite orb_false_r. by destruct w. }
  rewrite sync_market_spec, IH, orb_assoc. f_equal. rewrite <- walk_after_app. f_equal. cbn.
  by destruct (accept previous boundary raw).
Qed.

(** The answer to one request and what is left: a page, or the first error that is not
    transient or that comes when the retries are used up. *)
Inductive answers : nat -> list (result EnrichmentError GammaPage) -> result EnrichmentError GammaPage
    -> list (result EnrichmentError GammaPage) -> Prop :=
| answers_page n page rest : answers n (Ok page :: rest) (Ok page) rest
| answers_error n e rest : n = O \/ is_transient e = false -> answers n (Err e :: rest) (Err e) rest
| answers_again n e rest o left : is_transient e = true -> answers n rest o left -> answers (S n) (Err e :: rest) o left.

(** A page nothing can follow. *)
Definition final (asked_with : option string) (next : string) : Prop := next = ""%string \/ next = "LTE="%string \/ asked_with = Some next.

(** The pages a walk reads, in order, and the error that ends it, if one does.  [n] is how
    many pages it may still ask for, [c] the cursor it asks with. *)
Inductive walked (previous : option EnrichmentCursor) (boundary : option string)
  : Z -> option string -> list (result EnrichmentError GammaPage) -> list GammaPage -> option EnrichmentError -> Prop :=
| walked_limit n c rs : n <= 0 -> walked previous boundary n c rs [] None
| walked_error n c rs e left : 0 < n -> answers KEYSET_RETRIES rs (Err e) left -> walked previous boundary n c rs [] (Some e)
| walked_empty n c rs page left : 0 < n -> answers KEYSET_RETRIES rs (Ok page) left -> markets page = [] ->
    walked previous boundary n c rs [] None
| walked_end n c rs page left : 0 < n -> answers KEYSET_RETRIES rs (Ok page) left -> markets page <> [] ->
    (exists raw, raw ∈ markets page /\ covered previous boundary raw = true) \/ final c (next_cursor page) ->
    walked previous boundary n c rs [page] None
| walked_on n c rs page left pages e : 0 < n -> answers KEYSET_RETRIES rs (Ok page) left -> markets page <> [] ->
    (forall raw, raw ∈ markets page -> covered previous boundary raw = false) -> ~ final c (next_cursor page) ->
    walked previous boundary (n - 1) (Some (next_cursor page)) left pages e ->
    walked previous boundary n c rs (page :: pages) e.

Lemma keyset_answers n : forall rs o left, keyset_with_retry n rs = Some (o, left) <-> answers n rs o left.
Proof.
  induction n as [|n IH]; intros [|[page|e] rs] o left; cbn [keyset_with_retry].
  1, 4: by split; [|inversion 1].
  1, 3: by split; [intros [= <- <-]; constructor|inversion 1].
  - split; [intros [= <- <-]; constructor; by left|by inversion 1].
  - destruct (is_transient e) eqn:Et.
    + rewrite IH. split; [by apply answers_again|]. inversion 1 as [|? ? ? [?|?]|]; subst; congruence.
    + split; [intros [= <- <-]; constructor; by right|]. inversion 1; subst; congruence.
Qed.

Lemma answers_shorter n rs o left : answers n rs o left -> (length left < length rs)%nat.
Proof. induction 1; cbn; lia. Qed.

Lemma last_page_final c next : last_page c next = true <-> final c next.
Proof. unfold last_page, final. rewrite !orb_true_iff, !String.eqb_eq, bool_decide_eq_true. tauto. Qed.

Lemma existsb_covered previous boundary raws :
  existsb (covered previous boundary) raws = true <-> exists raw, raw ∈ raws /\ covered previous boundary raw = true.
Proof. rewrite existsb_exists. by setoid_rewrite list_elem_of_In. Qed.
Lemma existsb_uncovered previous boundary raws :
  existsb (covered previous boundary) raws = false <-> forall raw, raw ∈ raws -> covered previous boundary raw = false.
Proof.
  rewrite <- not_true_iff_false, existsb_covered. split.
  - intros Hn raw Hin. apply not_true_iff_false. intros Hc. apply Hn. by exists raw.
  - intros Hn (raw & Hin & Hc). rewrite Hn in Hc by done. discriminate Hc.
Qed.

Definition failed (failure : option EnrichmentError) : result EnrichmentError unit :=
  match failure with Some e => Err e | None => Ok tt end.

(** One turn of the loop on an answer. *)
Lemma sync_loop_turn previous boundary fuel n c rs page left w : 0 < n -> answers KEYSET_RETRIES rs (Ok page) left ->
  markets page <> [] ->
  let w1 := walk_after w (omap (accept previous boundary) (markets page)) in
  sync_loop rules (S fuel) n previous boundary c rs w =
    if existsb (covered previous boundary) (markets page) || last_page c (next_cursor page) then Some (Ok tt, w1)
    else sync_loop rules fuel (n - 1) previous boundary (Some (next_cursor page)) left w1.
Proof.
  intros Hn Ha%keyset_answers Hne w1. cbn [sync_loop]. replace (n <=? 0) with false by lia. rewrite Ha.
  destruct (markets page) as [|raw raws] eqn:Em; [done|]. rewrite sync_page_spec, <- Em. cbn [orb]. rewrite Em.
  by destruct (existsb _ _), (last_page _ _).
Qed.

Lemma sync_loop_walked previous boundary fuel : forall n c rs w r w', sync_loop rules fuel n previous boundary c rs w = Some (r, w') ->
  exists pages failure, walked previous boundary n c rs pages failure /\ r = failed failure
    /\ w' = walk_after w (omap (accept previous boundary) (concat (map markets pages))).
Proof.
  assert (Hnil : forall w, walk_after w [] = w) by by intros [].
  induction fuel as [|fuel IH]; intros n c rs w r w' Hs.
  { cbn in Hs. destruct (Z.leb_spec n 0); [|done]. injection Hs as <- <-. exists [], None. split; [by constructor|]. by rewrite Hnil. }
  destruct (Z.leb_spec n 0) as [Hn|Hn].
  { cbn in Hs. replace (n <=? 0) with true in Hs by lia. injection Hs as <- <-. exists [], None. split; [by constructor|]. by rewrite Hnil. }
  pose proof Hs as Hs'. cbn [sync_loop] in Hs'. replace (n <=? 0) with false in Hs' by lia.
  destruct (keyset_with_retry KEYSET_RETRIES rs) as [[[page|e] left]|] eqn:Ek; [|injection Hs' as <- <-|done]; apply keyset_answers in Ek.
  2: { exists [], (Some e). split; [by eapply walked_error|]. by rewrite Hnil. }
  destruct (decide (markets page = [])) as [Em|Em].
  { rewrite Em in Hs'. injection Hs' as <- <-. exists [], None. split; [by eapply walked_empty|]. by rewrite Hnil. }
  clear Hs'.
  rewrite (sync_loop_turn previous boundary fuel n c rs page left w Hn Ek Em) in Hs.
  destruct (existsb _ _ || _) eqn:Ee.
  - injection Hs as <- <-. exists [page], None. split; [|cbn; by rewrite app_nil_r]. eapply walked_end; [done..|].
    apply orb_true_iff in Ee as [Ee|Ee]; [left; by apply existsb_covered|right; by apply last_page_final].
  - apply orb_false_iff in Ee as [Ee El]. apply IH in Hs as (pages & failure & Hw & -> & ->). exists (page :: pages), failure. split; [|split; [done|]].
    + eapply walked_on; [done..|by apply existsb_uncovered| |done]. rewrite <- last_page_final. by rewrite El.
    + cbn [map concat]. by rewrite omap_app, walk_after_app.
Qed.

Lemma walked_sync_loop previous boundary n c rs pages failure : walked previous boundary n c rs pages failure ->
  forall fuel w, (length rs <= fuel)%nat ->
  sync_loop rules fuel n previous boundary c rs w
  = Some (failed failure, walk_after w (omap (accept previous boundary) (concat (map markets pages)))).
Proof.
  assert (Hnil : forall w, walk_after w [] = w) by by intros [].
  induction 1 as [n c rs Hn|n c rs e left Hn Ha|n c rs page left Hn Ha Hm|n c rs page left Hn Ha Hm He|n c rs page left pages e Hn Ha Hm Hc Hf _ IH];
    intros fuel w Hl; cbn [map concat];
    try (change (omap (accept previous boundary) []) with (@nil (MarketEnrichment * EnrichmentCursor)); rewrite Hnil).
  { destruct fuel; cbn [sync_loop]; by replace (n <=? 0) with true by lia. }
  all: pose proof (answers_shorter _ _ _ _ Ha) as Hsh; destruct fuel as [|fuel]; [lia|].
  - cbn [sync_loop]. replace (n <=? 0) with false by lia. apply keyset_answers in Ha. by rewrite Ha.
  - cbn [sync_loop]. replace (n <=? 0) with false by lia. apply keyset_answers in Ha. by rewrite Ha, Hm.
  - rewrite (sync_loop_turn previous boundary fuel n c rs page left w Hn Ha Hm). rewrite app_nil_r.
    destruct He as [He|He]; [rewrite (proj2 (existsb_covered _ _ _) He)|rewrite (proj2 (last_page_final _ _) He), orb_true_r]; reflexivity.
  - rewrite (sync_loop_turn previous boundary fuel n c rs page left w Hn Ha Hm). rewrite (proj2 (existsb_uncovered _ _ _) Hc).
    destruct (last_page c (next_cursor page)) eqn:El; [by apply last_page_final in El|]. cbn [orb]. rewrite IH by lia.
    by rewrite omap_app, walk_after_app.
Qed.

Lemma advance_all_from cs : forall c, foldl advance_opt c cs = c \/ exists x, x ∈ cs /\ foldl advance_opt c cs = Some x.
Proof.
  induction cs as [|x cs IH]; intros c; cbn [foldl]; [by left|].
  assert (Hx : advance_opt c x = c \/ advance_opt c x = Some x).
  { unfold advance_opt, advance. destruct c as [c|]; [destruct (cursor_ltb c x); [right|left]; reflexivity|right; reflexivity]. }
  destruct (IH (advance_opt c x)) as [E|(y & Hy & E)]; rewrite E; [|right; exists y; split; [by right|done]].
  destruct Hx as [Hx|Hx]; rewrite Hx; [by left|]. right. exists x. split; [by left|done].
Qed.

(** C30: an incremental walk.  It ends with an answer exactly when Gamma's responses bring it
    to an end: an empty page, a page with a market the cursor or the look-back excludes,
    a page nothing can follow, the page limit, or an error that is not retried.  It has then
    upserted, in order and once each, exactly the usable markets of the pages read that are
    not excluded; it counts the rows that changed; its next cursor is the old one or that of
    a market taken, and before none of them; and an error loses count and cursor but not
    the rows. *)
Theorem sync_incremental_effect cat previous boundary max_pages responses r cat' :
  sync_incremental rules cat previous boundary max_pages responses = Some (r, cat')
  <-> exists pages failure, walked previous boundary (Z.max max_pages 1) None responses pages failure /\
    let taken := omap (accept previous boundary) (concat (map markets pages)) in
    let next := foldl advance_opt previous (map snd taken) in
    cat' = snd (upsert_all (map fst taken) cat)
    /\ r = match failure with Some e => Err e | None => Ok (fst (upsert_all (map fst taken) cat), next) end
    /\ opt_leb previous next /\ (forall m c, (m, c) ∈ taken -> opt_leb (Some c) next)
    /\ (next = previous \/ exists m c, (m, c) ∈ taken /\ next = Some c).
Proof.
  unfold sync_incremental. split.
  - intros ([r0 w] & Hl & Hs)%bind_Some. injection Hs as <- <-. apply sync_loop_walked in Hl as (pages & failure & Hw & -> & ->).
    exists pages, failure. split; [done|]. set (taken := omap _ _). set (next := foldl _ _ _). split; [done|]. split; [by destruct failure|].
    destruct (advance_all_ge (map snd taken) previous) as [A1 A2]. split; [done|]. split.
    + intros m c Hin. apply A2. by apply (list_elem_of_fmap_2 snd taken (m, c)).
    + destruct (advance_all_from (map snd taken) previous) as [A|(x & ((m & c) & -> & Hx)%list_elem_of_fmap & A)]; [by left|].
      right. by exists m, c.
  - intros (pages & failure & Hw & -> & -> & _). erewrite walked_sync_loop by (done || lia). by destruct failure.
Qed.
End Walks.

(** *** The tags of a compacted market *)

Lemma dedup_elem l x : x ∈ dedup l <-> x ∈ l.
Proof.
  induction l as [|a [|b l] IH]; [done|done|]. change (dedup (a :: b :: l)) with (if a =? b then dedup (b :: l) else a :: dedup (b :: l)).
  destruct (a =? b) eqn:E.
  - apply Z.eqb_eq in E as ->. rewrite IH, !elem_of_cons. tauto.
  - by rewrite elem_of_cons, IH, (elem_of_cons (b :: l)).
Qed.

Lemma dedup_sorted l : StronglySorted Z.le l -> StronglySorted Z.lt (dedup l).
Proof.
  induction l as [|a [|b l] IH]; intros Hs; [constructor|repeat constructor|].
  change (dedup (a :: b :: l)) with (if a =? b then dedup (b :: l) else a :: dedup (b :: l)).
  apply StronglySorted_inv in Hs as [Hs Ha]. specialize (IH Hs). destruct (a =? b) eqn:E; [done|]. constructor; [done|].
  apply Forall_forall. intros x Hx. rewrite dedup_elem in Hx. apply StronglySorted_inv in Hs as [_ Hb].
  apply Forall_cons in Ha as [Hab _]. apply elem_of_cons in Hx as [->|Hx]; [lia|].
  rewrite Forall_forall in Hb. specialize (Hb x Hx). lia.
Qed.

(** Tags.  A usable market's tags are exactly the numeric ones of the market and of
    its events, each once and increasing. *)
Theorem compact_market_tags `{EthCodec} `{TextEngine} rules raw m :
  compact_market rules raw = Ok m ->
  StronglySorted Z.lt (tag_ids m) /\ forall t, t ∈ tag_ids m <-> t ∈ parsed_tags raw.
Proof.
  intros Hm. assert (Ht : tag_ids m = dedup (merge_sort Z.le (parsed_tags raw))).
  { unfold compact_market in Hm. apply result_bind_ok in Hm as (id & _ & Hm). apply result_bind_ok in Hm as (c & _ & Hm).
    apply result_bind_ok in Hm as (tk & _ & Hm). cbv zeta in Hm. destruct (classify_with _ _ _ _). by injection Hm as <-. }
  rewrite Ht. split; [apply dedup_sorted, (StronglySorted_merge_sort Z.le)|].
  intros t. rewrite dedup_elem. by rewrite merge_sort_Permutation.
Qed.

(** ** Instances *)

Module CatalogSample.
#[local] Instance codec : EthCodec := sample_codec.
#[local] Instance engine : TextEngine := sample_engine.
Definition rules : CompiledRules := {| category_text_rules := []; tag_rules := []; bet_type_groups := [] |}.
Definition raw (id at_ : string) (cond : bytes) : GammaMarket :=
  {| gamma_id := id; updated_at := at_; gamma_condition_id := hex0x cond; clob_token_ids := ["12"]; gamma_tags := ["7"; "x"; "3"];
     gamma_event_tags := [["7"]]; gamma_neg_risk := false; sports_market_type := None; question := None |}.
Definition row (id : Z) (cond : bytes) : MarketEnrichment :=
  {| market_id := id; condition_id := cond; token_ids := []; tag_ids := []; category := Category_Other;
     bet_type := Bet_Unspecified; neg_risk := false |}.
Definition responses : list (result EnrichmentError GammaPage) :=
  [Ok {| markets := [raw "9" "2026-10-03" (replicate 32 x09); raw "8" "2026-10-02" (replicate 32 x08)]; next_cursor := "n1" |};
   Err EnrichHttp;
   Ok {| markets := [raw "7" "2026-10-02" (replicate 32 x07); raw "6" "2026-10-01" (replicate 32 x06)]; next_cursor := "n2" |}].
Definition previous : option EnrichmentCursor := Some {| cursor_updated_at := "2026-10-02"; cursor_market_id := 5 |}.
End CatalogSample.

Lemma catalog_is_table_witness :
  let ms := [CatalogSample.row 1 [x01]; CatalogSample.row 2 [x02]; CatalogSample.row 1 [x03]] in
  get_by_market_id 1 (catalog_new ms) = Some (CatalogSample.row 1 [x03])
  /\ catalog_get [x01] (catalog_new ms) = None /\ max_market_id (catalog_new ms) = 2.
Proof.
  intros ms. assert (Hd : conditions_distinct ms).
  { intros a b Ha Hb. unfold ms in Ha, Hb. rewrite !elem_of_cons in Ha, Hb.
    destruct Ha as [->|[->|[->|[]%elem_of_nil]]], Hb as [->|[->|[->|[]%elem_of_nil]]]; done. }
  destruct (catalog_is_table ms Hd) as (H1 & _ & _ & H4). split; [rewrite H1; by vm_compute|].
  split; [by vm_compute|]. rewrite H4. by vm_compute.
Defined.

Lemma sync_incremental_effect_witness :
  exists cat',
    sync_incremental (H := sample_codec) (H0 := sample_engine) CatalogSample.rules catalog_empty CatalogSample.previous None
      (2 ^ 64 - 1) CatalogSample.responses
    = Some (Ok (3, Some {| cursor_updated_at := "2026-10-03"; cursor_market_id := 9 |}), cat')
    /\ opt_leb CatalogSample.previous (Some {| cursor_updated_at := "2026-10-03"; cursor_market_id := 9 |}).
Proof.
  eexists. assert (Hs : sync_incremental (H := sample_codec) (H0 := sample_engine) CatalogSample.rules catalog_empty
    CatalogSample.previous None (2 ^ 64 - 1) CatalogSample.responses
    = Some (Ok (3, Some {| cursor_updated_at := "2026-10-03"; cursor_market_id := 9 |}),
            snd (upsert_all (map fst (omap (accept (H := sample_codec) (H0 := sample_engine) CatalogSample.rules CatalogSample.previous None)
               (omap (fun r => match r with Ok p => head (markets p) | Err _ => None end) CatalogSample.responses ++
                omap (fun r => match r with Ok p => markets p !! 1%nat | Err _ => None end) CatalogSample.responses))) catalog_empty)))
    by (vm_compute; reflexivity).
  split; [exact Hs|].
  destruct (proj1 (sync_incremental_effect (H := sample_codec) (H0 := sample_engine) _ _ _ _ _ _ _ _) Hs) as (ps & [e|] & _ & _ & Hr & Hle & _); [done|].
  injection Hr as _ Hn. rewrite Hn. exact Hle.
Defined.

Lemma compact_market_tags_witness :
  exists m, compact_market (H := sample_codec) (H0 := sample_engine) CatalogSample.rules
              (CatalogSample.raw "9" "2026-10-03" (replicate 32 x09)) = Ok m
    /\ tag_ids m = [3; 7] /\ StronglySorted Z.lt (tag_ids m).
Proof.
  eexists. split; [vm_compute; reflexivity|]. split; [reflexivity|].
  apply (compact_market_tags (H := sample_codec) (H0 := sample_engine) CatalogSample.rules
           (CatalogSample.raw "9" "2026-10-03" (replicate 32 x09))). vm_compute. reflexivity.
Defined.
