(* ===== verification/Forfeit.v ===== *)
(** * Forfeit: the blocklist of forfeited matches ([src/forfeit.rs])

    The matches the feed reported, the index by condition id that the hot path reads,
    their merge, expiry and reload.  The list has two locks and a notification: an operation
    that takes one after the other is a definition for each ([apply_state], [apply_index],
    ...), which [ForfeitFeed] interleaves, and their composition, the call with nothing
    in between.  The feed's protobuf messages are records with the fields the program
    reads; the enum number of a lookup status is an interface; the clock is an argument. *)
From S2P Require Import Prelude Model Events Calldata Uint256.

Definition SNAPSHOT_VERSION : Z := 1.
Definition RECENT_BLOCKED : nat := 200.

Record BlockedMarket := {
  bm_condition_id : string;
  bm_sports_market_type : string;
  bm_game_number : Z;
  bm_question : string;
  bm_is_forfeited_market : bool }.

Record BlockedMatch := {
  bx_match_id : Z;
  bx_game : string;
  bx_league : string;
  bx_match_name : string;
  bx_team_a : string;
  bx_team_b : string;
  bx_winner : string;
  bx_forfeited_games : list Z;
  bx_pm_event_slug : string;
  bx_lookup_status : string;
  bx_markets : list BlockedMarket;
  bx_detect_at_us : Z;
  bx_added_at_us : Z;
  bx_updated_at_us : Z;
  bx_feed_sequences : list Z;
  bx_blocked_events : Z }.

Record BlockedEvent := {
  be_sequence : Z;
  be_kind : string;
  be_transaction_hash : string;
  be_condition_id : string;
  be_market_id : Z;
  be_match_id : Z;
  be_match_name : string;
  be_blocked_at_us : Z }.

Record Snapshot := {
  snap_version : Z;
  snap_last_feed_sequence : Z;
  snap_blocked_events_total : Z;
  snap_matches : list BlockedMatch;
  snap_recent_blocked : list BlockedEvent }.

Record Entry := { match_id : Z; added_at_us : Z }.

(** The list with its two locked parts ([index], [State]) and the permit of [dirty]. *)
Record ForfeitBlocklist := {
  enabled : bool;
  ttl_us : Z;
  index : gmap bytes Entry;
  matches : gmap Z BlockedMatch;
  recent_blocked : list BlockedEvent;
  last_feed_sequence : Z;
  blocked_events_total : Z;
  dirty : bool }.

Definition forfeit_empty (enabled : bool) (ttl_us : Z) : ForfeitBlocklist :=
  {| enabled := enabled; ttl_us := ttl_us; index := ∅; matches := ∅; recent_blocked := []; last_feed_sequence := 0;
     blocked_events_total := 0; dirty := false |}.
Definition forfeit_disabled : ForfeitBlocklist := forfeit_empty false 0.

Definition lookup_match (condition_id : bytes) (l : ForfeitBlocklist) : option Z :=
  if negb (enabled l) then None else option_map match_id (index l !! condition_id).

Definition blocked_before (condition_id : bytes) (at_us : Z) (l : ForfeitBlocklist) : bool :=
  match index l !! condition_id with Some e => added_at_us e <=? at_us | None => false end.

(** What is done to each part: the index under its lock, the matches and the rest of
    [State] under the other, and [dirty.notify_one()]. *)
Definition with_index (ix : gmap bytes Entry) (l : ForfeitBlocklist) : ForfeitBlocklist :=
  {| enabled := enabled l; ttl_us := ttl_us l; index := ix; matches := matches l; recent_blocked := recent_blocked l;
     last_feed_sequence := last_feed_sequence l; blocked_events_total := blocked_events_total l; dirty := dirty l |}.
Definition with_matches (ms : gmap Z BlockedMatch) (seq : Z) (l : ForfeitBlocklist) : ForfeitBlocklist :=
  {| enabled := enabled l; ttl_us := ttl_us l; index := index l; matches := ms; recent_blocked := recent_blocked l;
     last_feed_sequence := seq; blocked_events_total := blocked_events_total l; dirty := dirty l |}.
Definition with_dirty (d : bool) (l : ForfeitBlocklist) : ForfeitBlocklist :=
  {| enabled := enabled l; ttl_us := ttl_us l; index := index l; matches := matches l; recent_blocked := recent_blocked l;
     last_feed_sequence := last_feed_sequence l; blocked_events_total := blocked_events_total l; dirty := d |}.
Definition notify_one : ForfeitBlocklist -> ForfeitBlocklist := with_dirty true.

(** ** The feed's messages *)

Inductive LookupStatus : Set := Lookup_Unspecified | Lookup_Matched | Lookup_NotFound | Lookup_Failed.

Record pb_ForfeitMarket := {
  fm_condition_id : bytes;
  fm_sports_market_type : string;
  fm_game_number : Z;
  fm_question : string;
  fm_is_forfeited_market : bool }.

Record pb_ForfeitEvent := {
  fe_sequence : Z;
  fe_match_id : Z;
  fe_game : string;
  fe_league : string;
  fe_match_name : string;
  fe_team_a : string;
  fe_team_b : string;
  fe_winner : string;
  fe_forfeited_game_number : Z;
  fe_pm_event_slug : string;
  fe_lookup_status : Z;
  fe_detect_at_us : Z;
  fe_markets : list pb_ForfeitMarket;
  fe_condition_ids : list bytes }.

Class ForfeitNumbers := { LookupStatus_try_from : Z -> option LookupStatus }.

(** [(a.game_number, &a.sports_market_type) <= (b...)] *)
Definition market_le (a b : BlockedMarket) : bool :=
  (bm_game_number a <? bm_game_number b)
  || ((bm_game_number a =? bm_game_number b) && negb (str_ltb (bm_sports_market_type b) (bm_sports_market_type a))).

Definition contains_z (l : list Z) (z : Z) : bool := existsb (Z.eqb z) l.

Section Forfeit.
Context `{EthCodec} `{ForfeitNumbers}.

Definition status_text (v : Z) : string :=
  match LookupStatus_try_from v with
  | Some Lookup_Matched => "matched"
  | Some Lookup_NotFound => "not_found"
  | Some Lookup_Failed => "failed"
  | Some Lookup_Unspecified | None => "unspecified"
  end.

(** [record_blocked] under the lock, and with its notification. *)
Definition record_state (r : EventRecord) (m : Z) (now : Z) (l : ForfeitBlocklist) : ForfeitBlocklist :=
  let name := match matches l !! m with
              | Some b => bx_team_a b +:+ " vs " +:+ bx_team_b b
              | None => ""
              end in
  let bump b := {| bx_match_id := bx_match_id b; bx_game := bx_game b; bx_league := bx_league b;
                   bx_match_name := bx_match_name b; bx_team_a := bx_team_a b; bx_team_b := bx_team_b b;
                   bx_winner := bx_winner b; bx_forfeited_games := bx_forfeited_games b;
                   bx_pm_event_slug := bx_pm_event_slug b; bx_lookup_status := bx_lookup_status b;
                   bx_markets := bx_markets b; bx_detect_at_us := bx_detect_at_us b;
                   bx_added_at_us := bx_added_at_us b; bx_updated_at_us := bx_updated_at_us b;
                   bx_feed_sequences := bx_feed_sequences b; bx_blocked_events := u64_add (bx_blocked_events b) 1 |} in
  let e := {| be_sequence := sequence r;
              be_kind := match event_kind (event r) with Propose => "propose" | Dispute => "dispute" end;
              be_transaction_hash := hex_prefixed (transaction_hash (event_chain (event r)));
              be_condition_id := hex_prefixed (resolved_condition_id r);
              be_market_id := match enrichment r with Some e => market_id e | None => 0 end;
              be_match_id := m; be_match_name := name; be_blocked_at_us := now |} in
  {| enabled := enabled l; ttl_us := ttl_us l; index := index l; matches := alter bump m (matches l);
     recent_blocked := take RECENT_BLOCKED (e :: recent_blocked l);
     last_feed_sequence := last_feed_sequence l; blocked_events_total := u64_add (blocked_events_total l) 1; dirty := dirty l |}.
Definition record_blocked (r : EventRecord) (m : Z) (now : Z) (l : ForfeitBlocklist) : ForfeitBlocklist := notify_one (record_state r m now l).

Definition new_match (e : pb_ForfeitEvent) (now : Z) : BlockedMatch :=
  {| bx_match_id := fe_match_id e; bx_game := fe_game e; bx_league := fe_league e; bx_match_name := fe_match_name e;
     bx_team_a := fe_team_a e; bx_team_b := fe_team_b e; bx_winner := fe_winner e; bx_forfeited_games := [];
     bx_pm_event_slug := ""; bx_lookup_status := status_text (fe_lookup_status e); bx_markets := [];
     bx_detect_at_us := fe_detect_at_us e; bx_added_at_us := now; bx_updated_at_us := now; bx_feed_sequences := [];
     bx_blocked_events := 0 |}.

(** The two loops over the event's markets and condition ids: the markets pushed and
    the new ids, in order.  [known] are the condition ids the match had. *)
Definition add_market (known : gset string) (acc : list BlockedMarket * list bytes) (m : pb_ForfeitMarket)
  : list BlockedMarket * list bytes :=
  let id := fm_condition_id m in
  if negb (length id =? 32)%nat then acc else
  if bool_decide (hex_prefixed id ∈ known) then acc else
  (fst acc ++ [{| bm_condition_id := hex_prefixed id; bm_sports_market_type := fm_sports_market_type m;
                  bm_game_number := fm_game_number m; bm_question := fm_question m;
                  bm_is_forfeited_market := fm_is_forfeited_market m |}], snd acc ++ [id]).

Definition add_condition (known : gset string) (acc : list BlockedMarket * list bytes) (id : bytes)
  : list BlockedMarket * list bytes :=
  if negb (length id =? 32)%nat then acc else
  if bool_decide (hex_prefixed id ∈ known) || bool_decide (id ∈ snd acc) then acc else
  (fst acc ++ [{| bm_condition_id := hex_prefixed id; bm_sports_market_type := ""; bm_game_number := 0; bm_question := "";
                  bm_is_forfeited_market := false |}], snd acc ++ [id]).

Definition event_markets (known : gset string) (e : pb_ForfeitEvent) : list BlockedMarket * list bytes :=
  foldl (add_condition known) (foldl (add_market known) ([], []) (fe_markets e)) (fe_condition_ids e).

(** The merge of an event into a match: the match, the new ids, and whether it changed. *)
Definition merge_match (e : pb_ForfeitEvent) (now : Z) (is_new : bool) (b : BlockedMatch) : BlockedMatch * list bytes * bool :=
  let status := status_text (fe_lookup_status e) in
  let new_game := negb (contains_z (bx_forfeited_games b) (fe_forfeited_game_number e)) in
  let games := if new_game then merge_sort Z.le (bx_forfeited_games b ++ [fe_forfeited_game_number e]) else bx_forfeited_games b in
  let new_seq := negb (contains_z (bx_feed_sequences b) (fe_sequence e)) in
  let seqs := if new_seq then merge_sort Z.le (bx_feed_sequences b ++ [fe_sequence e]) else bx_feed_sequences b in
  let new_status := negb (String.eqb (bx_lookup_status b) "matched") && negb (String.eqb (bx_lookup_status b) status) in
  let new_slug := negb (String.eqb (fe_pm_event_slug e) "") && negb (String.eqb (bx_pm_event_slug b) (fe_pm_event_slug e)) in
  let known : gset string := list_to_set (map bm_condition_id (bx_markets b)) in
  let '(added, ids) := event_markets known e in
  let new_ids := negb (length ids =? 0)%nat in
  let ms := if new_ids then sort_by market_le (bx_markets b ++ added) else bx_markets b ++ added in
  let changed := is_new || new_game || new_seq || new_status || new_slug || new_ids in
  ({| bx_match_id := bx_match_id b; bx_game := bx_game b; bx_league := bx_league b; bx_match_name := bx_match_name b;
      bx_team_a := bx_team_a b; bx_team_b := bx_team_b b; bx_winner := bx_winner b; bx_forfeited_games := games;
      bx_pm_event_slug := if new_slug then fe_pm_event_slug e else bx_pm_event_slug b;
      bx_lookup_status := if new_status then status else bx_lookup_status b; bx_markets := ms;
      bx_detect_at_us := bx_detect_at_us b; bx_added_at_us := bx_added_at_us b;
      bx_updated_at_us := if changed then now else bx_updated_at_us b; bx_feed_sequences := seqs;
      bx_blocked_events := bx_blocked_events b |}, ids, changed).

(** [index.entry(id).or_insert(entry)] for each id. *)
Definition index_insert (e : Entry) (ix : gmap bytes Entry) (id : bytes) : gmap bytes Entry :=
  match ix !! id with Some _ => ix | None => <[id := e]> ix end.

(** [apply] under the state's lock: whether the list changed, the new ids, and what to
    index them as. *)
Definition apply_state (e : pb_ForfeitEvent) (now : Z) (l : ForfeitBlocklist) : bool * list bytes * Entry * ForfeitBlocklist :=
  let m := fe_match_id e in
  let is_new := bool_decide (matches l !! m = None) in
  let '(b, ids, changed) := merge_match e now is_new (default (new_match e now) (matches l !! m)) in
  (changed, ids, {| match_id := m; added_at_us := bx_added_at_us b |},
   with_matches (<[m := b]> (matches l)) (Z.max (last_feed_sequence l) (fe_sequence e)) l).
(** ... then under the index's. *)
Definition apply_index (ids : list bytes) (e : Entry) (l : ForfeitBlocklist) : ForfeitBlocklist :=
  with_index (foldl (index_insert e) (index l) ids) l.

Definition apply (e : pb_ForfeitEvent) (now : Z) (l : ForfeitBlocklist) : bool * ForfeitBlocklist :=
  let '(changed, ids, entry, l) := apply_state e now l in
  let l := match ids with [] => l | _ => apply_index ids entry l end in
  (changed, if changed then notify_one l else l).

(** The matches in the order of the B-tree. *)
Definition key_le (a b : Z * BlockedMatch) : Prop := fst a <= fst b.
#[local] Instance key_le_dec : RelDecision key_le.
Proof. intros a b. apply Z.le_dec. Defined.
Definition matches_in_order (ms : gmap Z BlockedMatch) : list BlockedMatch :=
  map snd (merge_sort key_le (map_to_list ms)).

Definition market_id_bytes (m : BlockedMarket) : option bytes :=
  b ← hex_decode (trim_start_matches "0x" (bm_condition_id m));
  if decide (length b = 32%nat) then Some b else None.

Definition index_match (ix : gmap bytes Entry) (b : BlockedMatch) : gmap bytes Entry :=
  foldl (index_insert {| match_id := bx_match_id b; added_at_us := bx_added_at_us b |}) ix (omap market_id_bytes (bx_markets b)).

Definition build_index (ms : gmap Z BlockedMatch) : gmap bytes Entry := foldl index_match ∅ (matches_in_order ms).

(** [prune] under the state's lock: how many matches it removed and, where it removed
    some, the index of the others, with which it overwrites the index afterwards. *)
Definition prune_state (now : Z) (l : ForfeitBlocklist) : Z * option (gmap bytes Entry) * ForfeitBlocklist :=
  if ttl_us l =? 0 then (0, None, l) else
  let ms := filter (fun p => now < u64_sat_add (bx_added_at_us (snd p)) (ttl_us l)) (matches l) in
  let removed := Z.of_nat (size (matches l)) - Z.of_nat (size ms) in
  (removed, if 0 <? removed then Some (build_index ms) else None, with_matches ms (last_feed_sequence l) l).

Definition prune (now : Z) (l : ForfeitBlocklist) : Z * ForfeitBlocklist :=
  let '(removed, rebuilt, l) := prune_state now l in
  (removed, match rebuilt with Some ix => notify_one (with_index ix l) | None => l end).

(** [load] on what the file parses to ([None]: missing, unreadable or malformed). *)
Definition load (file : option Snapshot) (now : Z) (l : ForfeitBlocklist) : ForfeitBlocklist :=
  match file with
  | None => l
  | Some s =>
      if negb (snap_version s =? SNAPSHOT_VERSION) then l else
      let ms : gmap Z BlockedMatch := foldl (fun t m => <[bx_match_id m := m]> t) ∅ (snap_matches s) in
      snd (prune now {| enabled := enabled l; ttl_us := ttl_us l; index := build_index ms; matches := ms;
                        recent_blocked := snap_recent_blocked s; last_feed_sequence := snap_last_feed_sequence s;
                        blocked_events_total := snap_blocked_events_total s; dirty := dirty l |})
  end.

Definition snapshot_of (l : ForfeitBlocklist) : Snapshot :=
  {| snap_version := SNAPSHOT_VERSION; snap_last_feed_sequence := last_feed_sequence l;
     snap_blocked_events_total := blocked_events_total l; snap_matches := matches_in_order (matches l);
     snap_recent_blocked := recent_blocked l |}.

Definition blocked_condition_ids (l : ForfeitBlocklist) : Z := Z.of_nat (size (index l)).

(** ** The index is the markets of the matches *)

Definition lists (b : BlockedMatch) (c : bytes) : Prop := exists m, m ∈ bx_markets b /\ market_id_bytes m = Some c.

Definition keyed (ms : gmap Z BlockedMatch) : Prop := forall id b, ms !! id = Some b -> bx_match_id b = id.
(** An index has the conditions of the matches, each with a match that lists it. *)
Record indexed (ms : gmap Z BlockedMatch) (ix : gmap bytes Entry) : Prop := {
  ix_key : keyed ms;
  ix_entry : forall c e, ix !! c = Some e -> exists b, ms !! match_id e = Some b /\ lists b c;
  ix_markets : forall id b c, ms !! id = Some b -> lists b c -> is_Some (ix !! c) }.
Definition forfeit_inv (l : ForfeitBlocklist) : Prop := indexed (matches l) (index l).

Lemma market_id_bytes_hex m c : bm_condition_id m = hex_prefixed c -> length c = 32%nat -> market_id_bytes m = Some c.
Proof.
  intros Hc Hl. unfold market_id_bytes. rewrite Hc. unfold hex_prefixed. rewrite trim_hex0x, hex_decode_encode.
  cbn [mbind option_bind]. by rewrite decide_True.
Qed.

Lemma hex_prefixed_inj a b : hex_prefixed a = hex_prefixed b -> a = b.
Proof.
  intros E. assert (Ht : hex_decode (trim_start_matches "0x" (hex_prefixed a)) = hex_decode (trim_start_matches "0x" (hex_prefixed b)))
    by by rewrite E.
  unfold hex_prefixed in Ht. rewrite !trim_hex0x, !hex_decode_encode in Ht. congruence.
Qed.

Lemma index_insert_spec e ids : forall ix c,
  (foldl (index_insert e) ix ids !! c = ix !! c \/ (ix !! c = None /\ c ∈ ids /\ foldl (index_insert e) ix ids !! c = Some e))
  /\ (c ∈ ids -> is_Some (foldl (index_insert e) ix ids !! c)).
Proof.
  induction ids as [|id ids IH]; intros ix c; cbn [foldl]; [split; [by left|by intros ?%elem_of_nil]|].
  destruct (IH (index_insert e ix id) c) as [I1 I2].
  assert (Hstep : (index_insert e ix id !! c = ix !! c /\ (c = id -> is_Some (ix !! c)))
                  \/ (ix !! c = None /\ c = id /\ index_insert e ix id !! c = Some e)).
  { unfold index_insert. destruct (ix !! id) as [x|] eqn:E; [left; split; [done|intros ->; by rewrite E]|].
    destruct (decide (c = id)) as [->|]; [right; by rewrite lookup_insert_eq|]. left. rewrite lookup_insert_ne by done. done. }
  split.
  - destruct I1 as [I1|(In & Hin & I1)].
    + rewrite I1. destruct Hstep as [[-> _]|(Hn & -> & ->)]; [by left|right]. split; [done|]. split; [by left|done].
    + destruct Hstep as [[E _]|(_ & _ & E)]; [|congruence]. right. rewrite <- E. split; [done|]. split; [by right|done].
  - intros Hc. apply elem_of_cons in Hc as [->|Hc]; [|by apply I2].
    destruct I1 as [I1|(_ & _ & I1)]; [|by rewrite I1]. rewrite I1.
    destruct Hstep as [[-> Hs]|(_ & _ & ->)]; [by apply Hs|done].
Qed.

(** What the two loops push: every new id has its market, and each id of the event the
    match did not have is there. *)
Definition pushed_ok (known : gset string) (acc : list BlockedMarket * list bytes) : Prop :=
  (forall c, c ∈ snd acc -> length c = 32%nat /\ exists m, m ∈ fst acc /\ bm_condition_id m = hex_prefixed c)
  /\ (forall m, m ∈ fst acc -> exists c, c ∈ snd acc /\ bm_condition_id m = hex_prefixed c).

Lemma push_ok known acc m c : pushed_ok known acc -> length c = 32%nat -> bm_condition_id m = hex_prefixed c ->
  pushed_ok known (fst acc ++ [m], snd acc ++ [c]).
Proof.
  intros [P1 P2] Hl Hm. split; cbn.
  - intros c' Hc'. apply elem_of_app in Hc' as [Hc|Hc']; [|apply list_elem_of_singleton in Hc' as ->].
    + destruct (P1 c' Hc) as (H1 & x & Hx & Hxc). split; [done|]. exists x. split; [apply elem_of_app; by left|done].
    + split; [done|]. exists m. split; [apply elem_of_app; right; by left|done].
  - intros x Hx'. apply elem_of_app in Hx' as [Hx|Hx']; [|apply list_elem_of_singleton in Hx' as ->].
    + destruct (P2 x Hx) as (c' & Hc' & Hxc). exists c'. split; [apply elem_of_app; by left|done].
    + exists c. split; [apply elem_of_app; right; by left|done].
Qed.

Lemma event_markets_ok known e : pushed_ok known (event_markets known e).
Proof.
  assert (Hm : forall l acc, pushed_ok known acc -> pushed_ok known (foldl (add_market known) acc l)).
  { induction l as [|m l IH]; intros acc Hacc; cbn [foldl]; [done|]. apply IH. unfold add_market.
    destruct (negb _) eqn:E; [done|]. apply negb_false_iff, Nat.eqb_eq in E. destruct (bool_decide _); [done|]. by apply push_ok. }
  assert (Hc : forall l acc, pushed_ok known acc -> pushed_ok known (foldl (add_condition known) acc l)).
  { induction l as [|m l IH]; intros acc Hacc; cbn [foldl]; [done|]. apply IH. unfold add_condition.
    destruct (negb _) eqn:E; [done|]. apply negb_false_iff, Nat.eqb_eq in E. destruct (_ || _); [done|]. by apply push_ok. }
  apply Hc, Hm. split; intros ? ?%elem_of_nil; done.
Qed.

Lemma merge_match_markets e now is_new b : let '(b', ids, _) := merge_match e now is_new b in
  (forall c, lists b' c <-> lists b c \/ c ∈ ids)
  /\ bx_match_id b' = bx_match_id b /\ bx_added_at_us b' = bx_added_at_us b.
Proof.
  unfold merge_match. cbv zeta. set (known := list_to_set (map bm_condition_id (bx_markets b))).
  pose proof (event_markets_ok known e) as [P1 P2]. destruct (event_markets known e) as [added ids]. cbn [fst snd] in *.
  split; [|done]. intros c. unfold lists. cbn [bx_markets].
  assert (Helem : forall m, m ∈ (if negb (length ids =? 0)%nat then sort_by market_le (bx_markets b ++ added) else bx_markets b ++ added)
                   <-> m ∈ bx_markets b \/ m ∈ added).
  { intros m. destruct (negb _); rewrite ?sort_by_elem; apply elem_of_app. }
  setoid_rewrite Helem. split.
  - intros (m & [Hm|Hm] & Hc); [left; by exists m|]. right. destruct (P2 m Hm) as (c' & Hc' & Hmc).
    destruct (P1 c' Hc') as [Hl _]. rewrite (market_id_bytes_hex m c' Hmc Hl) in Hc. by injection Hc as <-.
  - intros [(m & Hm & Hc)|Hc]; [exists m; by split; [left|]|]. destruct (P1 c Hc) as (Hl & m & Hm & Hmc).
    exists m. split; [by right|]. by apply market_id_bytes_hex.
Qed.

Lemma apply_state_keys e now l : keyed (matches l) -> keyed (matches (snd (apply_state e now l))).
Proof.
  intros Ik id b0. unfold apply_state. cbv zeta. set (m := fe_match_id e). set (old := default (new_match e now) (matches l !! m)).
  pose proof (merge_match_markets e now (bool_decide (matches l !! m = None)) old) as Hmm.
  destruct (merge_match e now _ old) as [[b ids] changed]. destruct Hmm as (_ & Hid & _). cbn [snd with_matches matches].
  destruct (decide (id = m)) as [->|]; [rewrite lookup_insert_eq; intros [= <-]|rewrite lookup_insert_ne by done; apply Ik].
  rewrite Hid. unfold old. destruct (matches l !! m) eqn:E; [by apply Ik in E|done].
Qed.

(** The first part of [apply] leaves the index alone; with its new ids inserted, an index
    of the matches before is one of the matches after. *)
Lemma apply_state_indexed e now l ix : indexed (matches l) ix ->
  let '(_, ids, en, l') := apply_state e now l in index l' = index l /\ indexed (matches l') (foldl (index_insert en) ix ids).
Proof.
  intros [Ik Ii Im]. pose proof (apply_state_keys e now l Ik) as Hkeys. revert Hkeys.
  unfold apply_state. cbv zeta. set (m := fe_match_id e). set (old := default (new_match e now) (matches l !! m)).
  pose proof (merge_match_markets e now (bool_decide (matches l !! m = None)) old) as Hmm.
  destruct (merge_match e now _ old) as [[b ids] changed]. destruct Hmm as (Hl & _ & _). cbn [snd with_matches matches index].
  intros Hkeys. split; [done|].
  assert (Holdl : forall c, lists old c -> is_Some (ix !! c)).
  { intros c Hc. unfold old in Hc. destruct (matches l !! m) eqn:E; [by eapply Im|]. destruct Hc as (x & Hx & _). by apply elem_of_nil in Hx. }
  assert (Hkeep : forall c b0, matches l !! m = Some b0 -> lists b0 c -> lists b c).
  { intros c b0 E Hc. apply Hl. left. unfold old. by rewrite E. }
  set (en := {| match_id := m; added_at_us := bx_added_at_us b |}).
  split; [done| |].
  - intros c x Hc. destruct (index_insert_spec en ids ix c) as [[E|(_ & Hin & E)] _]; rewrite E in Hc.
    + destruct (Ii c x Hc) as (b0 & Hb0 & Hbc). destruct (decide (match_id x = m)) as [Hm|Hm].
      * exists b. rewrite Hm, lookup_insert_eq. rewrite Hm in Hb0. split; [done|]. by eapply Hkeep.
      * exists b0. by rewrite lookup_insert_ne.
    + injection Hc as <-. exists b. cbn [match_id en]. rewrite lookup_insert_eq. split; [done|]. apply Hl. by right.
  - intros id b0 c Hb Hc. destruct (index_insert_spec en ids ix c) as [H1 H2].
    assert (Hgrow : is_Some (ix !! c) -> is_Some (foldl (index_insert en) ix ids !! c)).
    { destruct H1 as [->|(_ & _ & ->)]; [done|by eexists]. }
    destruct (decide (id = m)) as [->|Hne].
    + rewrite lookup_insert_eq in Hb. injection Hb as <-. apply Hl in Hc as [Hc|Hc]; [by apply Hgrow, Holdl|by apply H2].
    + rewrite lookup_insert_ne in Hb by done. apply Hgrow. by eapply Im.
Qed.

Lemma matches_in_order_elem ms b : b ∈ matches_in_order ms <-> exists id, ms !! id = Some b.
Proof.
  unfold matches_in_order. rewrite list_elem_of_fmap. split.
  - intros ([id x] & -> & Hin). rewrite merge_sort_Permutation in Hin. exists id. by apply elem_of_map_to_list in Hin.
  - intros [id Hb]. exists (id, b). split; [done|]. rewrite merge_sort_Permutation. by apply elem_of_map_to_list.
Qed.

Lemma index_match_spec bs : forall ix c,
  (foldl index_match ix bs !! c = ix !! c
   \/ exists b, b ∈ bs /\ lists b c
        /\ foldl index_match ix bs !! c = Some {| match_id := bx_match_id b; added_at_us := bx_added_at_us b |})
  /\ ((is_Some (ix !! c) \/ exists b, b ∈ bs /\ lists b c) -> is_Some (foldl index_match ix bs !! c)).
Proof.
  induction bs as [|b bs IH]; intros ix c; cbn [foldl].
  { split; [by left|]. intros [?|(b & Hb & _)]; [done|by apply elem_of_nil in Hb]. }
  destruct (IH (index_match ix b) c) as [I1 I2].
  pose proof (index_insert_spec {| match_id := bx_match_id b; added_at_us := bx_added_at_us b |} (omap market_id_bytes (bx_markets b)) ix c) as [S1 S2].
  fold (index_match ix b) in S1, S2.
  assert (Hlists : c ∈ omap market_id_bytes (bx_markets b) <-> lists b c).
  { rewrite list_elem_of_omap. unfold lists. done. }
  rewrite Hlists in S1, S2. split.
  - destruct I1 as [->|(x & Hx & Hxc & ->)]; [|right; exists x; by split; [right|]].
    destruct S1 as [->|(_ & Hc & ->)]; [by left|right]. exists b. by split; [left|].
  - intros Hc. apply I2. destruct Hc as [Hc|(x & Hx & Hxc)]; [|apply elem_of_cons in Hx as [->|Hx]].
    + left. destruct S1 as [->|(_ & _ & ->)]; [done|by eexists].
    + left. by apply S2.
    + right. by exists x.
Qed.

Lemma build_index_indexed ms : keyed ms -> indexed ms (build_index ms).
Proof.
  intros Hk. split; [done| |].
  - intros c e He. unfold build_index in He. destruct (index_match_spec (matches_in_order ms) ∅ c) as [[E|(b & Hb & Hc & E)] _];
      rewrite E in He; [by rewrite lookup_empty in He|]. injection He as <-. cbn [match_id].
    apply matches_in_order_elem in Hb as [id Hb]. exists b. by rewrite (Hk id b Hb).
  - intros id b c Hb Hc. apply (index_match_spec (matches_in_order ms) ∅ c). right. exists b. split; [|done].
    apply matches_in_order_elem. by exists id.
Qed.

(** What [prune] leaves: without anything removed the matches are those it found; else the
    index it built is that of the matches left, whatever the index was. *)
Lemma prune_state_matches now l : let '(_, rebuilt, l') := prune_state now l in
  index l' = index l /\ match rebuilt with Some ix => ix = build_index (matches l') | None => matches l' = matches l end.
Proof.
  unfold prune_state. cbv zeta. destruct (ttl_us l =? 0); [done|]. set (ms := filter _ (matches l)).
  cbn [with_matches matches index]. split; [done|]. destruct (0 <? _) eqn:E; [done|].
  apply map_subseteq_size_eq; [apply map_filter_subseteq|lia].
Qed.
Lemma prune_state_keys now l : keyed (matches l) -> keyed (matches (snd (prune_state now l))).
Proof.
  intros Hk id b. unfold prune_state. cbv zeta. destruct (ttl_us l =? 0); [apply Hk|]. cbn [snd with_matches matches].
  intros [Hb _]%map_lookup_filter_Some. by apply Hk.
Qed.
Lemma prune_inv now l : forfeit_inv l -> forfeit_inv (snd (prune now l)).
Proof.
  unfold forfeit_inv. intros Hinv. pose proof (prune_state_matches now l) as Hm. pose proof (prune_state_keys now l (ix_key _ _ Hinv)) as Hk.
  unfold prune. destruct (prune_state now l) as [[removed [ix|]] l']; destruct Hm as [Ei Hm]; cbn [snd] in *.
  - rewrite Hm. by apply build_index_indexed.
  - by rewrite Ei, Hm.
Qed.

Lemma snapshot_keys ms : forall (t : gmap Z BlockedMatch), keyed t -> keyed (foldl (fun t m => <[bx_match_id m := m]> t) t ms).
Proof.
  induction ms as [|m ms IH]; intros t Ht; cbn [foldl]; [done|]. apply IH. intros id b.
  destruct (decide (id = bx_match_id m)) as [->|]; [rewrite lookup_insert_eq; by intros [= <-]|].
  rewrite lookup_insert_ne by done. apply Ht.
Qed.

Lemma record_state_indexed r m now l ix : indexed (matches l) ix -> indexed (matches (record_state r m now l)) ix.
Proof.
  intros [I1 I2 I3]. unfold record_state. cbv zeta. split; cbn [matches].
  - intros id b Hb. apply lookup_alter_Some in Hb as [(-> & x & Hx & ->)|[_ Hb]]; [|by apply I1]. cbn. by apply I1.
  - intros c e Hc. destruct (I2 c e Hc) as (b & Hb & Hbc). destruct (decide (m = match_id e)) as [->|].
    + eexists. rewrite lookup_alter_eq, Hb. cbn. split; [done|]. exact Hbc.
    + exists b. by rewrite lookup_alter_ne.
  - intros id b c Hb Hc. apply lookup_alter_Some in Hb as [(-> & x & Hx & ->)|[_ Hb]]; [|by eapply I3]. by eapply I3.
Qed.

Lemma forfeit_empty_inv on ttl : forfeit_inv (forfeit_empty on ttl).
Proof. split; cbn; [intros ? ?|intros ? ?|intros ? ? ?]; by rewrite lookup_empty. Qed.

Lemma load_inv file now l : forfeit_inv l -> forfeit_inv (load file now l).
Proof.
  intros Hl. unfold load. destruct file as [s|]; [|done]. destruct (negb _); [done|]. cbv zeta. apply prune_inv, build_index_indexed, snapshot_keys.
  intros id b Hb. by rewrite lookup_empty in Hb.
Qed.

(** ** Replays *)

(** An id of the event that the match has, or that the loops pushed. *)
Definition id_done (known : gset string) (ids : list bytes) (id : bytes) : Prop :=
  length id = 32%nat -> hex_prefixed id ∈ known \/ id ∈ ids.

Lemma event_markets_covers known e id :
  id ∈ map fm_condition_id (fe_markets e) ++ fe_condition_ids e -> id_done known (snd (event_markets known e)) id.
Proof.
  assert (Hm1 : forall l acc x, x ∈ snd acc -> x ∈ snd (foldl (add_market known) acc l)).
  { induction l as [|m l IH]; intros acc x Hx; [done|]. cbn [foldl]. apply IH. unfold add_market.
    destruct (negb _); [done|]. destruct (bool_decide _); [done|]. apply elem_of_app. by left. }
  assert (Hc1 : forall l acc x, x ∈ snd acc -> x ∈ snd (foldl (add_condition known) acc l)).
  { induction l as [|m l IH]; intros acc x Hx; [done|]. cbn [foldl]. apply IH. unfold add_condition.
    destruct (negb _); [done|]. destruct (_ || _); [done|]. apply elem_of_app. by left. }
  assert (Hm2 : forall l acc, id ∈ map fm_condition_id l -> id_done known (snd (foldl (add_market known) acc l)) id).
  { induction l as [|m l IH]; intros acc Hid Hl; [by apply elem_of_nil in Hid|]. cbn [map foldl] in *.
    apply elem_of_cons in Hid as [->|Hid]; [|by apply IH]. unfold add_market at 2. rewrite Hl, Nat.eqb_refl. cbn [negb].
    destruct (bool_decide _) eqn:E; [left; by apply bool_decide_eq_true in E|]. right. apply Hm1, elem_of_app. right. by left. }
  assert (Hc2 : forall l acc, id ∈ l -> id_done known (snd (foldl (add_condition known) acc l)) id).
  { induction l as [|m l IH]; intros acc Hid Hl; [by apply elem_of_nil in Hid|]. cbn [foldl].
    apply elem_of_cons in Hid as [->|Hid]; [|by apply IH]. unfold add_condition at 2. rewrite Hl, Nat.eqb_refl. cbn [negb].
    destruct (bool_decide (_ ∈ known)) eqn:E; [left; by apply bool_decide_eq_true in E|].
    destruct (bool_decide (m ∈ snd acc)) eqn:E2; cbn [orb]; right; apply Hc1.
    - by apply bool_decide_eq_true in E2.
    - apply elem_of_app. right. by left. }
  unfold event_markets. intros [Hid|Hid]%elem_of_app; [|by apply Hc2].
  intros Hl. destruct (Hm2 (fe_markets e) ([], []) Hid Hl) as [?|?]; [by left|right; by apply Hc1].
Qed.

Lemma event_markets_known known e :
  (forall id, id ∈ map fm_condition_id (fe_markets e) ++ fe_condition_ids e -> length id = 32%nat -> hex_prefixed id ∈ known) ->
  event_markets known e = ([], []).
Proof.
  intros Hk. unfold event_markets.
  assert (Hm : forall l, (forall x, x ∈ map fm_condition_id l -> length x = 32%nat -> hex_prefixed x ∈ known) ->
            foldl (add_market known) ([], []) l = ([], [])).
  { induction l as [|m l IH]; intros Hl; [done|]. cbn [foldl]. unfold add_market at 2.
    destruct (negb _) eqn:E; [apply IH; intros x Hx; apply Hl; by right|]. apply negb_false_iff, Nat.eqb_eq in E.
    rewrite bool_decide_true by (apply Hl; [by left|done]). apply IH. intros x Hx. apply Hl. by right. }
  assert (Hc : forall l, (forall x, x ∈ l -> length x = 32%nat -> hex_prefixed x ∈ known) ->
            foldl (add_condition known) ([], []) l = ([], [])).
  { induction l as [|m l IH]; intros Hl; [done|]. cbn [foldl]. unfold add_condition at 2.
    destruct (negb _) eqn:E; [apply IH; intros x Hx; apply Hl; by right|]. apply negb_false_iff, Nat.eqb_eq in E.
    rewrite bool_decide_true by (apply Hl; [by left|done]). cbn [orb]. apply IH. intros x Hx. apply Hl. by right. }
  rewrite Hm, Hc; [done|intros x Hx; apply Hk, elem_of_app; by right|intros x Hx; apply Hk, elem_of_app; by left].
Qed.

Lemma contains_z_spec l z : contains_z l z = true <-> z ∈ l.
Proof.
  unfold contains_z. rewrite existsb_exists. split.
  - intros (x & Hx & ->%Z.eqb_eq). by apply list_elem_of_In.
  - intros Hz. exists z. split; [by apply list_elem_of_In|apply Z.eqb_refl].
Qed.

Lemma contains_after l z :
  contains_z (if negb (contains_z l z) then merge_sort Z.le (l ++ [z]) else l) z = true.
Proof.
  destruct (contains_z l z) eqn:E; [done|]. cbn [negb]. apply contains_z_spec.
  rewrite merge_sort_Permutation. apply elem_of_app. right. by left.
Qed.

Lemma merge_match_again e now now' is_new b :
  let '(b1, _, _) := merge_match e now is_new b in merge_match e now' false b1 = (b1, [], false).
Proof.
  unfold merge_match at 1. cbv zeta. set (known := list_to_set (map bm_condition_id (bx_markets b))).
  pose proof (event_markets_covers known e) as Hcov. pose proof (event_markets_ok known e) as [P1 P2].
  destruct (event_markets known e) as [added ids]. cbn [fst snd] in *.
  set (ms := if negb (length ids =? 0)%nat then _ else _).
  assert (Hms : forall m, m ∈ ms <-> m ∈ bx_markets b \/ m ∈ added).
  { intros m. unfold ms. destruct (negb _); rewrite ?sort_by_elem; apply elem_of_app. }
  assert (Hk : event_markets (list_to_set (map bm_condition_id ms)) e = ([], [])).
  { apply event_markets_known. intros id Hid Hl. apply elem_of_list_to_set, list_elem_of_fmap.
    destruct (Hcov id Hid Hl) as [Hkn|Hin].
    - apply elem_of_list_to_set, list_elem_of_fmap in Hkn as (m & Hm & Hin). exists m. split; [done|]. apply Hms. by left.
    - destruct (P1 id Hin) as (_ & m & Hm & Hmc). exists m. split; [done|]. apply Hms. by right. }
  set (status := status_text (fe_lookup_status e)).
  unfold merge_match. cbv zeta. cbn [bx_match_id bx_game bx_league bx_match_name bx_team_a bx_team_b bx_winner bx_forfeited_games
    bx_pm_event_slug bx_lookup_status bx_markets bx_detect_at_us bx_added_at_us bx_updated_at_us bx_feed_sequences bx_blocked_events].
  rewrite Hk, !contains_after. fold status. cbn [negb length Nat.eqb orb]. rewrite app_nil_r.
  assert (Hst : negb (String.eqb (if negb (String.eqb (bx_lookup_status b) "matched") && negb (String.eqb (bx_lookup_status b) status)
                  then status else bx_lookup_status b) "matched")
                && negb (String.eqb (if negb (String.eqb (bx_lookup_status b) "matched") && negb (String.eqb (bx_lookup_status b) status)
                  then status else bx_lookup_status b) status) = false).
  { destruct (String.eqb (bx_lookup_status b) "matched") eqn:E1; cbn [negb andb]; [by rewrite E1|].
    destruct (String.eqb (bx_lookup_status b) status) eqn:E2; cbn [negb andb]; [by rewrite E2, andb_false_r|].
    by rewrite String.eqb_refl, andb_false_r. }
  assert (Hsl : negb (String.eqb (fe_pm_event_slug e) "")
                && negb (String.eqb (if negb (String.eqb (fe_pm_event_slug e) "") && negb (String.eqb (bx_pm_event_slug b) (fe_pm_event_slug e))
                                     then fe_pm_event_slug e else bx_pm_event_slug b) (fe_pm_event_slug e)) = false).
  { destruct (String.eqb (fe_pm_event_slug e) ""); cbn [negb andb]; [done|].
    destruct (String.eqb (bx_pm_event_slug b) (fe_pm_event_slug e)) eqn:E2; cbn [negb]; [by rewrite E2|by rewrite String.eqb_refl]. }
  by rewrite Hst, Hsl.
Qed.

(** Replays change nothing.  Merging an event again, whenever, reports no change and
    leaves the list as it was, so the feed may replay its history at every connection. *)
Theorem apply_idempotent e now now' l :
  apply e now' (snd (apply e now l)) = (false, snd (apply e now l)).
Proof.
  assert (Hs : let '(_, _, _, l1) := apply_state e now l in forall l2, matches l2 = matches l1 -> last_feed_sequence l2 = last_feed_sequence l1 ->
            exists en, apply_state e now' l2 = (false, [], en, l2)).
  { unfold apply_state at 1. cbv zeta. set (old := default (new_match e now) (matches l !! fe_match_id e)).
    pose proof (merge_match_again e now now' (bool_decide (matches l !! fe_match_id e = None)) old) as Hm.
    destruct (merge_match e now _ old) as [[b ids] changed]. intros l2 Em Es. cbn [with_matches matches last_feed_sequence] in Em, Es.
    unfold apply_state. cbv zeta. rewrite Em, lookup_insert_eq. change (default (new_match e now') (Some b)) with b.
    rewrite bool_decide_false by done. rewrite Hm. eexists. f_equal. destruct l2. cbn in *. subst. unfold with_matches. cbn. f_equal; [apply insert_insert_eq|lia]. }
  assert (Ha : forall ids en l1, matches (match ids with [] => l1 | _ => apply_index ids en l1 end) = matches l1
                /\ last_feed_sequence (match ids with [] => l1 | _ => apply_index ids en l1 end) = last_feed_sequence l1) by by intros [].
  unfold apply at 2 3. destruct (apply_state e now l) as [[[changed ids] en] l1]. destruct (Ha ids en l1) as [Am As]. cbn [snd].
  unfold apply. destruct (Hs (if changed then notify_one match ids with [] => l1 | _ => apply_index ids en l1 end
                              else match ids with [] => l1 | _ => apply_index ids en l1 end)) as [en' ->]; [by destruct changed|by destruct changed|done].
Qed.
End Forfeit.

(** An expired match comes back when the feed replays its history: the new entry is
    dated by the replay, so it blocks for another term, and the events blocked before
    count as broadcast after a restart. *)
Example pruned_match_returns :
  let numbers : ForfeitNumbers := {| LookupStatus_try_from := fun _ => None |} in
  let c : bytes := replicate 32 x01 in
  let e := {| fe_sequence := 1; fe_match_id := 7; fe_game := ""; fe_league := ""; fe_match_name := ""; fe_team_a := "";
              fe_team_b := ""; fe_winner := ""; fe_forfeited_game_number := 0; fe_pm_event_slug := ""; fe_lookup_status := 0;
              fe_detect_at_us := 0; fe_markets := []; fe_condition_ids := [c] |} in
  let l1 := snd (apply (H := sample_codec) (H0 := numbers) e 10 (forfeit_empty true 100)) in
  let l2 := snd (prune (H := sample_codec) 200 l1) in
  let l3 := snd (apply (H := sample_codec) (H0 := numbers) e 201 l2) in
  lookup_match c l1 = Some 7 /\ lookup_match c l2 = None /\ lookup_match c l3 = Some 7
  /\ blocked_before c 50 l1 = true /\ blocked_before c 50 l3 = false.
Proof. by vm_compute. Qed.
