(* ===== verification/Pipeline.v ===== *)
(** * Pipeline: from a raw log to a frame ([src/pipeline.rs], [src/stats.rs], recovery in
    [src/main.rs])

    [process] runs on several sources at once; the code between two accesses of the
    shared event hub is one step here: [prepare] up to the sequence number, [commit]
    from the insertion on.  The batcher then groups what was broadcast into frames. *)
From S2P Require Import Prelude Model WireFrame Channel Events Calldata Hubs Category Catalog Forfeit.

(** ** Counters *)

Record SourceRaceStats := { received : Z; won : Z }.

(** The counters this component writes; the others are dashboard-only. *)
Record Stats := {
  rpc_logs_received : Z;
  last_upstream_received_at_us : Z;
  decode_errors : Z;
  duplicates : Z;
  enrichment_hits : Z;
  enrichment_hits_via_market_id : Z;
  enrichment_misses : Z;
  enrichment_recent_hits : Z;
  enrichment_recent_total : Z;
  events_decoded : Z;
  latest_block : Z;
  storage_queue_dropped : Z;
  source_race : gmap string SourceRaceStats }.

Definition stats_default : Stats := {| rpc_logs_received := 0; last_upstream_received_at_us := 0; decode_errors := 0;
  duplicates := 0; enrichment_hits := 0; enrichment_hits_via_market_id := 0; enrichment_misses := 0;
  enrichment_recent_hits := 0; enrichment_recent_total := 0; events_decoded := 0; latest_block := 0;
  storage_queue_dropped := 0; source_race := ∅ |}.

Definition increment (n : Z) : Z := u64_add n 1.
Definition decrement_saturating (n : Z) : Z := sat_sub n 1.

Definition record_source_race (source : string) (w : bool) (m : gmap string SourceRaceStats) : gmap string SourceRaceStats :=
  let e := default {| received := 0; won := 0 |} (m !! source) in
  <[source := {| received := u64_add (received e) 1; won := if w then u64_add (won e) 1 else won e |}]> m.

Definition stats_received (at_ : Z) (s : Stats) : Stats :=
  {| rpc_logs_received := increment (rpc_logs_received s); last_upstream_received_at_us := at_; decode_errors := decode_errors s;
     duplicates := duplicates s; enrichment_hits := enrichment_hits s;
     enrichment_hits_via_market_id := enrichment_hits_via_market_id s; enrichment_misses := enrichment_misses s;
     enrichment_recent_hits := enrichment_recent_hits s; enrichment_recent_total := enrichment_recent_total s;
     events_decoded := events_decoded s; latest_block := latest_block s; storage_queue_dropped := storage_queue_dropped s;
     source_race := source_race s |}.
Definition stats_decode_error (s : Stats) : Stats :=
  {| rpc_logs_received := rpc_logs_received s; last_upstream_received_at_us := last_upstream_received_at_us s;
     decode_errors := increment (decode_errors s); duplicates := duplicates s; enrichment_hits := enrichment_hits s;
     enrichment_hits_via_market_id := enrichment_hits_via_market_id s; enrichment_misses := enrichment_misses s;
     enrichment_recent_hits := enrichment_recent_hits s; enrichment_recent_total := enrichment_recent_total s;
     events_decoded := events_decoded s; latest_block := latest_block s; storage_queue_dropped := storage_queue_dropped s;
     source_race := source_race s |}.
Definition stats_duplicate (source : string) (s : Stats) : Stats :=
  {| rpc_logs_received := rpc_logs_received s; last_upstream_received_at_us := last_upstream_received_at_us s;
     decode_errors := decode_errors s; duplicates := increment (duplicates s); enrichment_hits := enrichment_hits s;
     enrichment_hits_via_market_id := enrichment_hits_via_market_id s; enrichment_misses := enrichment_misses s;
     enrichment_recent_hits := enrichment_recent_hits s; enrichment_recent_total := enrichment_recent_total s;
     events_decoded := events_decoded s; latest_block := latest_block s; storage_queue_dropped := storage_queue_dropped s;
     source_race := record_source_race source false (source_race s) |}.
Definition stats_enrichment (hit via : bool) (recent_hits recent_total : Z) (s : Stats) : Stats :=
  {| rpc_logs_received := rpc_logs_received s; last_upstream_received_at_us := last_upstream_received_at_us s;
     decode_errors := decode_errors s; duplicates := duplicates s;
     enrichment_hits := if hit then increment (enrichment_hits s) else enrichment_hits s;
     enrichment_hits_via_market_id :=
       if hit && via then increment (enrichment_hits_via_market_id s) else enrichment_hits_via_market_id s;
     enrichment_misses := if hit then enrichment_misses s else increment (enrichment_misses s);
     enrichment_recent_hits := recent_hits; enrichment_recent_total := recent_total;
     events_decoded := events_decoded s; latest_block := latest_block s; storage_queue_dropped := storage_queue_dropped s;
     source_race := source_race s |}.
Definition stats_accepted (source : string) (block : Z) (stored : bool) (s : Stats) : Stats :=
  {| rpc_logs_received := rpc_logs_received s; last_upstream_received_at_us := last_upstream_received_at_us s;
     decode_errors := decode_errors s; duplicates := duplicates s; enrichment_hits := enrichment_hits s;
     enrichment_hits_via_market_id := enrichment_hits_via_market_id s; enrichment_misses := enrichment_misses s;
     enrichment_recent_hits := enrichment_recent_hits s; enrichment_recent_total := enrichment_recent_total s;
     events_decoded := increment (events_decoded s); latest_block := Z.max (latest_block s) block;
     storage_queue_dropped := if stored then storage_queue_dropped s else increment (storage_queue_dropped s);
     source_race := record_source_race source true (source_race s) |}.

(** The trailing window of enrichment outcomes: the window and the hit counter. *)
Definition RECENT_ENRICHMENT_WINDOW : Z := 1000.
Definition record_recent_enrichment (hit : bool) (window : list bool) (hits : Z) : list bool * Z :=
  let w := window ++ [hit] in
  let hits := if hit then increment hits else hits in
  if RECENT_ENRICHMENT_WINDOW <? zlen w then
    match w with
    | true :: w => (w, decrement_saturating hits)
    | false :: w => (w, hits)
    | [] => (w, hits)
    end
  else (w, hits).

(** ** The processor *)

Inductive StorageCommand := StoreEvent (r : EventRecord) | Checkpoint (block : Z).

Record ProcConfig := { contract_address_bytes : list bytes; require_market_id : bool }.

Section Pipeline.
Context `{EthCodec} `{Mpsc StorageCommand}.

Record Processor := {
  config : ProcConfig;
  catalog : Catalog;
  hub : EventHub;
  forfeit : ForfeitBlocklist;
  counter : Z;
  window : list bool;
  stats : Stats;
  storage_tx : chan;
  batch_tx : list EventRecord;
  batch_open : bool }.

Definition with_stats (s : Stats) (p : Processor) : Processor :=
  {| config := config p; catalog := catalog p; hub := hub p; forfeit := forfeit p; counter := counter p; window := window p;
     stats := s; storage_tx := storage_tx p; batch_tx := batch_tx p; batch_open := batch_open p |}.

(** A record on its way from [prepare] to [commit]. *)
Record Prepared := { prep_record : EventRecord; prep_source : string }.

Definition event_outcome (e : UmaEvent) : PriceOutcome :=
  match event_kind e with
  | Propose => from_propose_price (proposed_price (event_request e))
  | Dispute => Outcome_Unspecified
  end.

(** From the raw log to the sequence number. *)
Definition prepare (raw : RpcLog) (received_at_us : Z) (source : string) (p : Processor) : option Prepared * Processor :=
  let p := with_stats (stats_received received_at_us (stats p)) p in
  match decode_signal_log raw received_at_us (contract_address_bytes (config p)) (require_market_id (config p)) with
  | Err _ => (None, with_stats (stats_decode_error (stats p)) p)
  | Ok e =>
      if contains (chain_key (event_chain e)) (hub p) then (None, with_stats (stats_duplicate source (stats p)) p) else
      let market_id := anc_market_id (ancillary (event_request e)) in
      let enr := resolve market_id (req_condition_id (event_request e)) (catalog p) in
      let hit := bool_decide (is_Some enr) in
      let '(w, hits) := record_recent_enrichment hit (window p) (enrichment_recent_hits (stats p)) in
      let s := stats_enrichment hit (bool_decide (is_Some market_id)) hits (zlen w) (stats p) in
      let seq := u64_add (counter p) 1 in
      (Some {| prep_record := {| sequence := seq; event := e; enrichment := enr; price_outcome := event_outcome e |};
               prep_source := source |},
       {| config := config p; catalog := catalog p; hub := hub p; forfeit := forfeit p; counter := seq; window := w;
          stats := s; storage_tx := storage_tx p; batch_tx := batch_tx p; batch_open := batch_open p |})
  end.

(** From the insertion into the ring on: storage, then the two reasons not to broadcast. *)
Definition commit (now : Z) (pr : Prepared) (p : Processor) : Processor :=
  let r := prep_record pr in
  let '(fresh, h) := insert_event r (hub p) in
  if negb fresh then with_stats (stats_duplicate (prep_source pr) (stats p)) p else
  let '(tx, stored) := match try_send (storage_tx p) (StoreEvent r) with
                       | Sent c => (c, true)
                       | Full | Channel.Closed => (storage_tx p, false)
                       end in
  let s := stats_accepted (prep_source pr) (block_number (event_chain (event r))) stored (stats p) in
  let put f b := {| config := config p; catalog := catalog p; hub := h; forfeit := f; counter := counter p; window := window p;
                    stats := s; storage_tx := tx; batch_tx := b; batch_open := batch_open p |} in
  match enrichment r with
  | None => put (forfeit p) (batch_tx p)
  | Some _ =>
      match lookup_match (resolved_condition_id r) (forfeit p) with
      | Some m => put (record_blocked r m now (forfeit p)) (batch_tx p)
      | None => put (forfeit p) (if batch_open p then batch_tx p ++ [r] else batch_tx p)
      end
  end.

(** One call with nothing in between. *)
Definition process (raw : RpcLog) (received_at_us : Z) (source : string) (now : Z) (p : Processor) : Processor :=
  match prepare raw received_at_us source p with
  | (Some pr, p) => commit now pr p
  | (None, p) => p
  end.

Definition checkpoint (block : Z) (p : Processor) : Processor :=
  match try_send (storage_tx p) (Checkpoint block) with
  | Sent c => {| config := config p; catalog := catalog p; hub := hub p; forfeit := forfeit p; counter := counter p;
                 window := window p; stats := stats p; storage_tx := c; batch_tx := batch_tx p; batch_open := batch_open p |}
  | Full | Channel.Closed =>
      let s := stats p in
      with_stats {| rpc_logs_received := rpc_logs_received s; last_upstream_received_at_us := last_upstream_received_at_us s;
        decode_errors := decode_errors s; duplicates := duplicates s; enrichment_hits := enrichment_hits s;
        enrichment_hits_via_market_id := enrichment_hits_via_market_id s; enrichment_misses := enrichment_misses s;
        enrichment_recent_hits := enrichment_recent_hits s; enrichment_recent_total := enrichment_recent_total s;
        events_decoded := events_decoded s; latest_block := latest_block s;
        storage_queue_dropped := increment (storage_queue_dropped s); source_race := source_race s |} p
  end.

(** ** Recovery at start-up *)

(** [main.rs]: the initial sequence, the newest sequence that was broadcast, the ring. *)
Definition recover_one (f : ForfeitBlocklist) (acc : Z * Z * EventHub) (r : EventRecord) : Z * Z * EventHub :=
  let '(initial, last, h) := acc in
  (Z.max initial (sequence r),
   if bool_decide (is_Some (enrichment r))
      && negb (blocked_before (resolved_condition_id r) (upstream_received_at_us (event_chain (event r))) f)
   then Z.max last (sequence r) else last,
   snd (insert_event r h)).
Definition recover (f : ForfeitBlocklist) (recovered : list EventRecord) (h : EventHub) : Z * Z * EventHub :=
  foldl (recover_one f) (0, 0, h) recovered.

(** ** Interleavings *)

(** Calls run concurrently: a step either prepares one more log or commits one of the
    prepared records, in any order. *)
Inductive pipe_step :=
| Prepare (raw : RpcLog) (received_at_us : Z) (source : string)
| Commit (i : nat) (now : Z).

Definition pipe_run1 (s : list Prepared * Processor) (st : pipe_step) : list Prepared * Processor :=
  let '(pending, p) := s in
  match st with
  | Prepare raw at_ source =>
      match prepare raw at_ source p with
      | (Some pr, p) => (pending ++ [pr], p)
      | (None, p) => (pending, p)
      end
  | Commit i now =>
      match pending !! i with
      | Some pr => (delete i pending, commit now pr p)
      | None => s
      end
  end.
Definition pipe_run (s : list Prepared * Processor) (steps : list pipe_step) : list Prepared * Processor :=
  foldl pipe_run1 s steps.

Lemma process_interleaved raw at_ source now p :
  snd (pipe_run ([], p) [Prepare raw at_ source; Commit 0 now]) = process raw at_ source now p
  /\ fst (pipe_run ([], p) [Prepare raw at_ source; Commit 0 now]) = [].
Proof.
  unfold process, pipe_run. cbn [foldl pipe_run1]. destruct (prepare raw at_ source p) as [[pr|] p1]; done.
Qed.

(** What a run accepts into the ring, in the order of the insertions. *)
Definition accepts (s : list Prepared * Processor) (st : pipe_step) : list EventRecord :=
  match st with
  | Commit i _ => match fst s !! i with
                  | Some pr => if fst (insert_event (prep_record pr) (hub (snd s))) then [prep_record pr] else []
                  | None => []
                  end
  | Prepare _ _ _ => []
  end.
Fixpoint accepted (s : list Prepared * Processor) (steps : list pipe_step) : list EventRecord :=
  match steps with
  | [] => []
  | st :: steps => accepts s st ++ accepted (pipe_run1 s st) steps
  end.

Definition tradeable (f : ForfeitBlocklist) (r : EventRecord) : bool :=
  bool_decide (is_Some (enrichment r)) && bool_decide (lookup_match (resolved_condition_id r) f = None).

Lemma lookup_record_blocked c r m now f : lookup_match c (record_blocked r m now f) = lookup_match c f.
Proof. done. Qed.

Lemma commit_spec now pr p : event_hub_inv (hub p) ->
  let fresh := fst (insert_event (prep_record pr) (hub p)) in
  let p' := commit now pr p in
  hub p' = (if fresh then snd (insert_event (prep_record pr) (hub p)) else hub p)
  /\ batch_tx p' = (if fresh && tradeable (forfeit p) (prep_record pr) && batch_open p
                    then batch_tx p ++ [prep_record pr] else batch_tx p)
  /\ (forall r, tradeable (forfeit p') r = tradeable (forfeit p) r)
  /\ counter p' = counter p /\ batch_open p' = batch_open p.
Proof.
  intros Hinv. unfold commit. cbv zeta. destruct (insert_event (prep_record pr) (hub p)) as [fresh h] eqn:E. cbn [fst snd].
  destruct fresh; cbn [negb andb]; [|done]. destruct (match try_send _ _ with Sent _ => _ | _ => _ end) as [tx stored].
  unfold tradeable at 1. destruct (enrichment (prep_record pr)) as [en|]; cbn [hub batch_tx forfeit counter batch_open]; [|done].
  rewrite (bool_decide_true (is_Some (Some en))) by by eexists. cbn [andb].
  destruct (lookup_match (resolved_condition_id (prep_record pr)) (forfeit p)) as [m|] eqn:El; [done|].
  rewrite bool_decide_true by done. cbn [andb hub batch_tx forfeit counter batch_open]. done.
Qed.

Lemma prepare_spec raw at_ source p :
  let '(o, p') := prepare raw at_ source p in
  hub p' = hub p /\ batch_tx p' = batch_tx p /\ forfeit p' = forfeit p /\ batch_open p' = batch_open p
  /\ match o with
     | Some pr => sequence (prep_record pr) = u64_add (counter p) 1 /\ counter p' = u64_add (counter p) 1
     | None => counter p' = counter p
     end.
Proof.
  unfold prepare. cbv zeta. destruct (decode_signal_log _ _ _ _) as [e|e]; [|done].
  cbn [hub with_stats]. destruct (contains _ _); [done|]. destruct (record_recent_enrichment _ _ _) as [w hits]. done.
Qed.

(** Every prepared or accepted record has its own number, drawn from the counter. *)
Record pipe_inv (acc : list EventRecord) (base : Z) (s : list Prepared * Processor) : Prop := {
  pi_hub : event_hub_inv (hub (snd s));
  pi_nodup : NoDup (map sequence acc ++ map (fun pr => sequence (prep_record pr)) (fst s));
  pi_range : forall n, n ∈ map sequence acc ++ map (fun pr => sequence (prep_record pr)) (fst s) -> base < n <= counter (snd s);
  pi_base : base <= counter (snd s) }.

Lemma pipe_step_spec acc base s st :
  pipe_inv acc base s -> counter (snd s) < u64_max -> 0 <= base ->
  let s' := pipe_run1 s st in
  pipe_inv (acc ++ accepts s st) base s'
  /\ (forall r, tradeable (forfeit (snd s')) r = tradeable (forfeit (snd s)) r) /\ batch_open (snd s') = batch_open (snd s)
  /\ batch_tx (snd s') = batch_tx (snd s)
       ++ (if batch_open (snd s) then List.filter (tradeable (forfeit (snd s))) (accepts s st) else [])
  /\ events (hub (snd s')) = last_n (Z.to_nat (capacity (hub (snd s)))) (events (hub (snd s)) ++ accepts s st)
  /\ capacity (hub (snd s')) = capacity (hub (snd s))
  /\ (counter (snd s) <= counter (snd s') <= counter (snd s) + 1).
Proof.
  intros [I1 I2 I3 I4] Hmax Hbase. destruct s as [pending p]. cbn [fst snd] in *.
  assert (Hevs : events (hub p) = last_n (Z.to_nat (capacity (hub p))) (events (hub p))).
  { rewrite last_n_all; [done|]. destruct I1 as [_ Hb _ _]. unfold zlen in Hb. lia. }
  destruct st as [raw at_ source|i now]; cbn [pipe_run1 accepts fst snd].
  - pose proof (prepare_spec raw at_ source p) as Hp. destruct (prepare raw at_ source p) as [[pr|] p1].
    + destruct Hp as (Hh & Hb & Hf & Ho & Hs & Hc). cbn [fst snd]. rewrite Hh, Hb, Hf, Ho, !app_nil_r.
      rewrite u64_add_small in Hs, Hc by (unfold u64_max in *; lia). cbn [List.filter].
      replace (if batch_open p then [] else []) with (@nil EventRecord) by (by destruct (batch_open p)).
      rewrite app_nil_r. split; [|split_and!; first [done|exact Hevs|lia]]. split; cbn [fst snd].
      * by rewrite Hh.
      * rewrite map_app, app_assoc. cbn [map]. apply NoDup_app. split; [done|]. split; [|apply NoDup_singleton].
        intros n Hn Hn'. apply list_elem_of_singleton in Hn'. apply I3 in Hn. lia.
      * intros n Hn. rewrite map_app, app_assoc in Hn. apply elem_of_app in Hn as [Hn|Hn].
        -- apply I3 in Hn. lia.
        -- cbn in Hn. apply list_elem_of_singleton in Hn. lia.
      * lia.
    + destruct Hp as (Hh & Hb & Hf & Ho & Hc). cbn [fst snd]. rewrite Hh, Hb, Hf, Ho, !app_nil_r. cbn [List.filter].
      replace (if batch_open p then [] else []) with (@nil EventRecord) by (by destruct (batch_open p)).
      rewrite app_nil_r. split; [|split_and!; first [done|exact Hevs|lia]]. split; cbn [fst snd]; rewrite ?Hh, ?Hc; done.
  - destruct (pending !! i) as [pr|] eqn:E; cbn [fst snd].
    2:{ cbn [List.filter]. replace (if batch_open p then [] else []) with (@nil EventRecord) by (by destruct (batch_open p)).
        rewrite !app_nil_r. split; [|split_and!; first [done|exact Hevs|lia]]. by split. }
    pose proof (commit_spec now pr p I1) as Hc. cbv zeta in Hc. destruct Hc as (Hh & Hb & Hf & Hcn & Ho).
    pose proof (insert_event_spec (prep_record pr) (hub p) I1) as Hi.
    pose proof (insert_event_inv (prep_record pr) (hub p) I1) as Hii.
    assert (Hperm : pending ≡ₚ pr :: delete i pending) by by apply delete_Permutation.
    assert (Hseq : map (fun pr => sequence (prep_record pr)) pending
                   ≡ₚ sequence (prep_record pr) :: map (fun pr => sequence (prep_record pr)) (delete i pending)).
    { rewrite Hperm at 1. done. }
    rewrite Hseq in I2. assert (I3' : forall n, n ∈ map sequence acc ++ sequence (prep_record pr)
        :: map (fun pr => sequence (prep_record pr)) (delete i pending) -> base < n <= counter p).
    { intros n Hn. apply I3. by rewrite Hseq. }
    destruct (insert_event (prep_record pr) (hub p)) as [fresh h] eqn:Ei. cbn [fst snd] in *.
    destruct fresh; cbn [andb] in *.
    + rewrite Hb, Ho, Hcn, Hh. cbn [List.filter]. split; [|split_and!; first [done|lia|idtac]].
      * split; cbn [fst snd]; rewrite ?Hh, ?Hcn; [done| |intros n Hn; apply I3'|done].
        -- rewrite map_app. cbn [map]. by rewrite <- app_assoc.
        -- rewrite map_app in Hn. cbn [map] in Hn. by rewrite <- app_assoc in Hn.
      * destruct (tradeable _ _), (batch_open p); cbn [andb]; by rewrite ?app_nil_r.
      * destruct (contains _ _); [done|]. by injection Hi as ->.
      * destruct (contains _ _); [done|]. by injection Hi as ->.
    + rewrite Hb, Ho, Hcn, Hh, !app_nil_r. cbn [List.filter].
      replace (if batch_open p then [] else []) with (@nil EventRecord) by (by destruct (batch_open p)).
      rewrite app_nil_r. split; [|split_and!; first [done|exact Hevs|lia]].
      split; cbn [fst snd]; rewrite ?Hh, ?Hcn; [done| |intros n Hn; apply I3'|done].
      * apply NoDup_app in I2 as (N1 & N2 & N3). apply NoDup_cons in N3 as [_ N3]. apply NoDup_app. split; [done|]. split; [|done].
        intros n Hn Hn'. apply (N2 n Hn). by right.
      * apply elem_of_app in Hn as [Hn|Hn]; apply elem_of_app; [by left|right; by right].
Qed.

Lemma accepts_fresh s st : event_hub_inv (hub (snd s)) ->
  accepts s st = [] \/ exists r, accepts s st = [r] /\ record_key r ∉ map record_key (events (hub (snd s))).
Proof.
  intros Hinv. destruct st as [raw at_ source|i now]; cbn [accepts]; [by left|].
  destruct (fst s !! i) as [pr|]; [|by left]. rewrite insert_event_spec by done.
  pose proof (contains_key_set (record_key (prep_record pr)) (hub (snd s)) Hinv) as Hc.
  destruct (contains _ _); cbn [fst]; [by left|]. right. exists (prep_record pr). split; [done|].
  intros Hin. by apply Hc in Hin.
Qed.

Lemma pipe_run_spec steps : forall acc base s,
  pipe_inv acc base s -> counter (snd s) + zlen steps <= u64_max -> 0 <= base ->
  let new := accepted s steps in let s' := pipe_run s steps in
  pipe_inv (acc ++ new) base s'
  /\ batch_tx (snd s') = batch_tx (snd s) ++ (if batch_open (snd s) then List.filter (tradeable (forfeit (snd s))) new else [])
  /\ events (hub (snd s')) = last_n (Z.to_nat (capacity (hub (snd s)))) (events (hub (snd s)) ++ new)
  /\ (forall pre r post, new = pre ++ r :: post ->
        record_key r ∉ map record_key (last_n (Z.to_nat (capacity (hub (snd s)))) (events (hub (snd s)) ++ pre))).
Proof.
  induction steps as [|st steps IH]; intros acc base s Hinv Hmax Hbase.
  { cbn [accepted pipe_run foldl]. rewrite !app_nil_r. cbn [List.filter]. split; [done|].
    split; [by destruct (batch_open (snd s)); rewrite app_nil_r|]. split; [|by intros [] ? ? ?].
    rewrite last_n_all; [done|]. destruct Hinv as [[_ Hb _ _] _ _ _]. unfold zlen in Hb. lia. }
  rewrite zlen_cons in Hmax. pose proof (zlen_nonneg steps).
  pose proof (pipe_step_spec acc base s st Hinv ltac:(lia) Hbase) as Hs. cbv zeta in Hs.
  destruct Hs as (S1 & S2 & S3 & S4 & S5 & S6 & S7). cbn [accepted]. unfold pipe_run. cbn [foldl]. fold (pipe_run (pipe_run1 s st) steps).
  specialize (IH (acc ++ accepts s st) base (pipe_run1 s st) S1 ltac:(lia) Hbase). cbv zeta in IH.
  destruct IH as (I1 & I2 & I3 & I4). rewrite S6 in I3, I4. rewrite S5 in I3, I4.
  split; [by rewrite app_assoc|]. split.
  { rewrite I2, S4, S3. destruct (batch_open (snd s)); [|by rewrite !app_nil_r]. rewrite List.filter_app, <- app_assoc.
    do 2 f_equal. apply List.filter_ext. intros r. by rewrite S2. }
  split; [by rewrite I3, last_n_app, <- app_assoc|].
  intros pre r post E.
  assert (Hown : last_n (Z.to_nat (capacity (hub (snd s)))) (events (hub (snd s))) = events (hub (snd s))).
  { apply last_n_all. destruct Hinv as [[_ Hb _ _] _ _ _]. unfold zlen in Hb. lia. }
  destruct (accepts_fresh s st (pi_hub _ _ _ Hinv)) as [Ha|(x & Ha & Hx)]; rewrite Ha in *; cbn [app] in *.
  - rewrite app_nil_r in I4. rewrite <- (last_n_app _ _ pre). by apply (I4 pre r post).
  - destruct pre as [|y pre]; cbn [app] in E; injection E as -> E.
    + by rewrite app_nil_r, Hown.
    + specialize (I4 pre r post E). by rewrite last_n_app, <- app_assoc in I4.
Qed.

(** Concurrent sources.  In every interleaving of any number of calls, the accepted
    events carry distinct sequence numbers, none repeats the key of an event still in
    the ring when it is accepted, the ring is the last of them, and what is handed to
    the batcher is exactly the accepted events that are enriched and not blocked, in
    the order of acceptance. *)
Theorem interleaved_broadcast p steps :
  event_hub_inv (hub p) -> 0 <= counter p -> counter p + zlen steps <= u64_max ->
  let acc := accepted ([], p) steps in
  let p' := snd (pipe_run ([], p) steps) in
  NoDup (map sequence acc) /\ (forall n, n ∈ map sequence acc -> counter p < n)
  /\ (forall pre r post, acc = pre ++ r :: post ->
        record_key r ∉ map record_key (last_n (Z.to_nat (capacity (hub p))) (events (hub p) ++ pre)))
  /\ events (hub p') = last_n (Z.to_nat (capacity (hub p))) (events (hub p) ++ acc)
  /\ batch_tx p' = batch_tx p ++ (if batch_open p then List.filter (tradeable (forfeit p)) acc else []).
Proof.
  intros Hh Hc Hmax acc p'.
  assert (Hinv : pipe_inv [] (counter p) ([], p)).
  { split; cbn; [done|constructor|intros n Hn; by apply elem_of_nil in Hn|lia]. }
  pose proof (pipe_run_spec steps [] (counter p) ([], p) Hinv Hmax Hc) as Hr. cbv zeta in Hr. cbn [app snd] in Hr.
  fold acc in Hr. fold p' in Hr. destruct Hr as ([_ Hnd Hrng _] & Hb & He & Hd). apply NoDup_app in Hnd as (Hnd & _ & _).
  split; [done|]. split; [|done]. intros n Hn. apply (Hrng n). apply elem_of_app. by left.
Qed.

(** *** One call *)

(** C13: one log.  A call whose log decodes to a new event accepts it with the next
    number and the enrichment the catalog resolves, and broadcasts it exactly when it is
    enriched and not blocked; a log that does not decode, or repeats a key of the ring,
    changes neither the ring nor the broadcast nor the numbering. *)
Theorem process_outcome raw at_ source now p :
  event_hub_inv (hub p) ->
  let p' := process raw at_ source now p in
  match decode_signal_log raw at_ (contract_address_bytes (config p)) (require_market_id (config p)) with
  | Err _ => hub p' = hub p /\ batch_tx p' = batch_tx p /\ counter p' = counter p
             /\ decode_errors (stats p') = increment (decode_errors (stats p))
  | Ok e =>
      if contains (chain_key (event_chain e)) (hub p)
      then hub p' = hub p /\ batch_tx p' = batch_tx p /\ counter p' = counter p
           /\ duplicates (stats p') = increment (duplicates (stats p))
      else
        let r := {| sequence := u64_add (counter p) 1; event := e;
                    enrichment := resolve (anc_market_id (ancillary (event_request e))) (req_condition_id (event_request e)) (catalog p);
                    price_outcome := event_outcome e |} in
        hub p' = snd (insert_event r (hub p)) /\ r ∈ events (hub p') /\ counter p' = u64_add (counter p) 1
        /\ batch_tx p' = if tradeable (forfeit p) r && batch_open p then batch_tx p ++ [r] else batch_tx p
  end.
Proof.
  intros Hinv p'. unfold p', process, prepare. cbv zeta. cbn [with_stats config hub stats].
  destruct (decode_signal_log raw at_ _ _) as [e|err]; [|done].
  destruct (contains (chain_key (event_chain e)) (hub p)) eqn:Ec; [done|].
  cbn [with_stats stats window catalog forfeit counter].
  destruct (record_recent_enrichment _ _ _) as [w hits].
  set (r := {| sequence := _; event := e; enrichment := _; price_outcome := _ |}).
  set (p1 := {| config := _; catalog := _; hub := _; forfeit := _; counter := _; window := _; stats := _; storage_tx := _;
                batch_tx := _; batch_open := _ |}).
  pose proof (commit_spec now {| prep_record := r; prep_source := source |} p1 Hinv) as Hc. cbv zeta in Hc.
  cbn [prep_record] in Hc. change (hub p1) with (hub p) in Hc. change (batch_tx p1) with (batch_tx p) in Hc.
  change (forfeit p1) with (forfeit p) in Hc. change (batch_open p1) with (batch_open p) in Hc.
  change (counter p1) with (u64_add (counter p) 1) in Hc.
  assert (Hi : insert_event r (hub p) = (true, snd (insert_event r (hub p)))
               /\ r ∈ events (snd (insert_event r (hub p)))).
  { rewrite insert_event_spec by done. change (record_key r) with (chain_key (event_chain e)). rewrite Ec. split; [done|].
    cbn [snd events]. destruct Hinv as [Hcap _ _ _]. unfold last_n. rewrite length_app. cbn [length].
    rewrite drop_app_le by lia. apply elem_of_app. right. by left. }
  destruct Hi as [Hi Hin]. rewrite Hi in Hc. cbn [fst snd andb] in Hc. destruct Hc as (C1 & C2 & _ & C4 & _).
  rewrite C1, C2, C4. done.
Qed.

End Pipeline.

(** ** The batcher *)

Section Batcher.
Variable event_len : EventRecord -> Z.
Variables (batch_max_events batch_max_bytes : Z).

(** The inner loop: [avail] is how many events the channel holds when it is asked. *)
Fixpoint fill (avail : nat) (queue batch : list EventRecord) (estimated : Z)
  : list EventRecord * option EventRecord * list EventRecord :=
  if Z.max batch_max_events 1 <=? zlen batch then (batch, None, queue) else
  match avail, queue with
  | S a, next :: queue =>
      let size := event_len next in
      if (batch_max_bytes <? u64_add estimated size) && negb (zlen batch =? 0) then (batch, Some next, queue)
      else fill a queue (batch ++ [next]) (u64_add estimated size)
  | _, _ => (batch, None, queue)
  end.

Definition next_batch_sequence (n : Z) : Z := Z.max (u64_add n 1) 1.

(** The pending event, or else the next of the queue. *)
Definition take_first (pending : option EventRecord) (queue : list EventRecord) : option (EventRecord * list EventRecord) :=
  match pending, queue with
  | Some e, _ => Some (e, queue)
  | None, e :: queue => Some (e, queue)
  | None, [] => None
  end.

(** The outer loop, one element of [rounds] per round; it ends when nothing is left. *)
Fixpoint batcher (rounds : list nat) (pending : option EventRecord) (queue : list EventRecord) (bseq : Z)
  : list (Z * list EventRecord) * option EventRecord * list EventRecord :=
  match rounds with
  | [] => ([], pending, queue)
  | avail :: rounds =>
      match take_first pending queue with
      | None => ([], pending, queue)
      | Some (first, queue) =>
          let '(batch, pending, queue) := fill avail queue [first] (event_len first) in
          let bseq := next_batch_sequence bseq in
          let '(out, pending, queue) := batcher rounds pending queue bseq in
          ((bseq, batch) :: out, pending, queue)
      end
  end.

Definition opt_list {A} (o : option A) : list A := match o with Some x => [x] | None => [] end.
Definition total_len (b : list EventRecord) : Z := foldr (fun e n => event_len e + n) 0 b.

Lemma total_len_snoc b e : total_len (b ++ [e]) = total_len b + event_len e.
Proof. induction b as [|x b IH]; cbn [app total_len foldr]; [lia|]. fold (total_len (b ++ [e])). rewrite IH. fold (total_len b). lia. Qed.

(** A batch respects both limits, except that its first event always goes. *)
Definition batch_ok (b : list EventRecord) : Prop :=
  b <> [] /\ zlen b <= Z.max batch_max_events 1 /\ (zlen b = 1 \/ total_len b <= batch_max_bytes).

Hypothesis lens : forall e, 0 <= event_len e < 2 ^ 62.
Hypothesis max_bytes : 0 <= batch_max_bytes < 2 ^ 62.

Lemma fill_spec avail : forall queue batch,
  batch_ok batch ->
  let '(b, pending, q) := fill avail queue batch (total_len batch) in
  b ++ opt_list pending ++ q = batch ++ queue /\ batch_ok b.
Proof.
  induction avail as [|a IH]; intros queue batch Hok; cbn [fill]; (destruct (_ <=? zlen batch) eqn:Emax; [by split|]); [by split|].
  destruct queue as [|next queue]; [by split|]. cbv zeta. destruct Hok as (Hne & Hmax & Hlen).
  assert (Hz : 1 <= zlen batch) by (destruct batch; [done|rewrite zlen_cons; pose proof (zlen_nonneg batch); lia]).
  assert (Htot : 0 <= total_len batch < 2 ^ 62).
  { assert (Hpos : 0 <= total_len batch).
    { clear -lens. induction batch as [|x b IHb]; cbn [total_len foldr]; [lia|]. fold (total_len b). pose proof (lens x). lia. }
    split; [done|]. destruct Hlen as [H1|H1]; [|lia]. destruct batch as [|x [|y b]]; [done| |rewrite !zlen_cons in H1; pose proof (zlen_nonneg b); lia].
    cbn. pose proof (lens x). lia. }
  pose proof (lens next) as Hn. rewrite u64_add_small by (unfold u64_max; lia).
  replace (negb (zlen batch =? 0)) with true by lia. rewrite andb_true_r.
  destruct (batch_max_bytes <? _) eqn:Eb; [by split|]. rewrite <- total_len_snoc.
  assert (Hok' : batch_ok (batch ++ [next])).
  { split; [by destruct batch|]. rewrite zlen_app, zlen_cons, zlen_nil. split; [lia|]. right. rewrite total_len_snoc. lia. }
  specialize (IH queue (batch ++ [next]) Hok'). destruct (fill a queue (batch ++ [next]) _) as [[b pending] q].
  destruct IH as [I1 I2]. split; [|done]. by rewrite I1, <- app_assoc.
Qed.

Lemma batcher_spec rounds pending queue bseq :
  0 <= bseq -> bseq + zlen rounds <= u64_max ->
  let '(out, pending', queue') := batcher rounds pending queue bseq in
  concat (map snd out) ++ opt_list pending' ++ queue' = opt_list pending ++ queue
  /\ Forall batch_ok (map snd out)
  /\ map fst out = map (fun i => bseq + Z.of_nat i) (seq 1 (length out)).
Proof.
  revert pending queue bseq. induction rounds as [|avail rounds IH]; intros pending queue bseq Hb Hmax; cbn [batcher]; [done|].
  rewrite zlen_cons in Hmax. pose proof (zlen_nonneg rounds).
  destruct (take_first pending queue) as [[first q]|] eqn:E.
  2:{ destruct pending as [e|]; [discriminate E|]. destruct queue; [done|discriminate E]. }
  assert (Hq : opt_list pending ++ queue = first :: q).
  { destruct pending as [e|]; [by injection E as -> ->|]. destruct queue as [|e queue]; [done|]. by injection E as -> ->. }
  assert (Hone : batch_ok [first]) by (split; [done|]; unfold zlen; cbn; lia).
  pose proof (fill_spec avail q [first] Hone) as Hf. cbn [total_len foldr] in Hf. rewrite Z.add_0_r in Hf.
  destruct (fill avail q [first] (event_len first)) as [[b pend1] q1]. destruct Hf as [F1 F2].
  assert (Hnext : next_batch_sequence bseq = bseq + 1).
  { unfold next_batch_sequence. rewrite u64_add_small by (unfold u64_max in *; lia). lia. }
  rewrite Hnext. specialize (IH pend1 q1 (bseq + 1) ltac:(lia) ltac:(lia)).
  destruct (batcher rounds pend1 q1 (bseq + 1)) as [[out pend2] q2]. destruct IH as (I1 & I2 & I3).
  cbn [map snd fst concat length seq]. split; [|split].
  - rewrite <- app_assoc, I1, F1, Hq. done.
  - by constructor.
  - f_equal. rewrite I3, <- (seq_shift (length out) 1), map_map. apply map_ext. intros i. lia.
Qed.

(** Batching.  Whatever arrives when, the batches with what is still pending and
    queued are the events in their order, none lost or repeated; every batch is
    non-empty and respects the limits, a single event over the size limit travelling
    alone; and the batch numbers follow each other. *)
Theorem batcher_preserves rounds pending queue bseq :
  0 <= bseq -> bseq + zlen rounds <= u64_max ->
  let '(out, pending', queue') := batcher rounds pending queue bseq in
  concat (map snd out) ++ opt_list pending' ++ queue' = opt_list pending ++ queue
  /\ Forall batch_ok (map snd out)
  /\ map fst out = map (fun i => bseq + Z.of_nat i) (seq 1 (length out)).
Proof. apply batcher_spec. Qed.
End Batcher.

(** [run_batcher]: each batch is encoded and published; one that cannot be encoded is
    dropped with a log line. *)
Section Publish.
Context `{WireNumbers}.
Variable encode_event : pb.UmaEvent -> bytes.
Variable encode_batch : pb.UmaBatch -> bytes.
Variable zstd_encode : bytes -> option bytes.

Definition publish_batch (cfg : WireConfig) (clock : Z -> Z) (h : FrameHub) (b : Z * list EventRecord) : FrameHub :=
  match encode_frame encode_batch zstd_encode (clock (fst b)) (fst b) (snd b) cfg with
  | Ok f => publish_frame f h
  | Err _ => h
  end.

Definition run_batcher (max_events max_bytes : Z) (cfg : WireConfig) (clock : Z -> Z) (rounds : list nat)
    (queue : list EventRecord) (h : FrameHub) : FrameHub :=
  let '(out, _, _) := batcher (encoded_event_len encode_event) max_events max_bytes rounds None queue 0 in
  foldl (publish_batch cfg clock) h out.
End Publish.

(** ** Instances *)

Module PipelineSample.
#[local] Instance codec : EthCodec := sample_codec.
#[local] Instance queue : Mpsc StorageCommand := list_mpsc StorageCommand.
Definition log (i : Z) : RpcLog := synth_log Calldata.Sample.call Calldata.Sample.tx i Calldata.Sample.to (replicate 20 x01).
Definition market : MarketEnrichment :=
  {| market_id := 907474; condition_id := replicate 32 x05; token_ids := []; tag_ids := []; category := Category_Other;
     bet_type := Bet_Unspecified; neg_risk := false |}.
Definition start : Processor :=
  {| config := {| contract_address_bytes := []; require_market_id := false |}; catalog := catalog_new [market];
     hub := event_hub_new 10; forfeit := forfeit_disabled; counter := 5; window := []; stats := stats_default;
     storage_tx := chan_new 4; batch_tx := []; batch_open := true |}.
Definition crossed : list pipe_step := [Prepare (log 1) 1 "wss[0]"; Prepare (log 2) 2 "wss[1]"; Commit 1 0; Commit 0 0].

Lemma hub_ok : event_hub_inv (hub start).
Proof. split; cbn; [lia|done|constructor|done]. Qed.
End PipelineSample.

(** Two sources whose calls cross: the event with the higher number is broadcast first,
    so a session whose cursor passed it never gets the lower one ([late_frame_skipped]
    in Hubs). *)
Example crossed_out_of_order :
  map sequence (batch_tx (H0 := list_mpsc StorageCommand)
    (snd (pipe_run (H := sample_codec) (H0 := list_mpsc StorageCommand) ([], PipelineSample.start) PipelineSample.crossed)))
  = [7; 6].
Proof. vm_compute. reflexivity. Qed.

Lemma interleaved_broadcast_witness :
  let acc := accepted (H := sample_codec) (H0 := list_mpsc StorageCommand) ([], PipelineSample.start) PipelineSample.crossed in
  map sequence acc = [7; 6] /\ NoDup (map sequence acc).
Proof.
  intros acc. split; [vm_compute; reflexivity|].
  apply (interleaved_broadcast (H := sample_codec) (H0 := list_mpsc StorageCommand) PipelineSample.start PipelineSample.crossed
           PipelineSample.hub_ok); [cbn; lia|vm_compute; congruence].
Defined.

Lemma process_outcome_witness :
  let p' := process (H := sample_codec) (H0 := list_mpsc StorageCommand) (PipelineSample.log 1) 9 "wss[0]" 0 PipelineSample.start in
  counter (H0 := list_mpsc StorageCommand) p' = 6.
Proof.
  intros p'.
  pose proof (process_outcome (H := sample_codec) (H0 := list_mpsc StorageCommand) (PipelineSample.log 1) 9 "wss[0]" 0
                PipelineSample.start PipelineSample.hub_ok) as Ho.
  cbv zeta in Ho. fold p' in Ho.
  assert (Hd : decode_signal_log (H := sample_codec) (PipelineSample.log 1) 9 [] false
               = Ok (call_event (H := sample_codec) Calldata.Sample.call (replicate 32 xdd) 1 9)) by (vm_compute; reflexivity).
  change (contract_address_bytes _) with (@nil bytes) in Ho. change (require_market_id _) with false in Ho.
  rewrite Hd in Ho. change (contains _ _) with false in Ho. cbn match in Ho. exact (proj1 (proj2 (proj2 Ho))).
Defined.

Lemma batcher_preserves_witness :
  batcher (fun _ => 10) 2 1000 [5%nat; 0%nat; 5%nat] None [sample_record 1; sample_record 2; sample_record 3] 0
  = ([(1, [sample_record 1; sample_record 2]); (2, [sample_record 3])], None, [])
  /\ concat (map snd (fst (fst (batcher (fun _ => 10) 2 1000 [5%nat; 0%nat; 5%nat] None
       [sample_record 1; sample_record 2; sample_record 3] 0)))) = [sample_record 1; sample_record 2; sample_record 3].
Proof.
  split; [vm_compute; reflexivity|].
  pose proof (batcher_preserves (fun _ => 10) 2 1000 ltac:(intros; lia) ltac:(lia) [5%nat; 0%nat; 5%nat] None
    [sample_record 1; sample_record 2; sample_record 3] 0 ltac:(lia) ltac:(vm_compute; congruence)) as Hb.
  destruct (batcher _ _ _ _ _ _ _) as [[out pending] queue] eqn:E. vm_compute in E. injection E as <- <- <-.
  destruct Hb as (Hc & _ & _). exact Hc.
Defined.
