(* ===== verification/Service.v ===== *)
(** * Service: what the pipeline gives the relay

    [Relay] takes the service's frames to be in sequence order and readable by an edge.
    Here both are derived from the pipeline ([src/pipeline.rs]) and the encoder
    ([src/wire.rs]) for calls of [process] that follow each other. *)
From S2P Require Import Prelude Model WireFrame Channel EdgeHub EdgeServer EdgeUpstream Hubs Relay Events Calldata Category Catalog Forfeit Pipeline.

Section Service.
Context `{EthCodec} `{Mpsc StorageCommand} `{WireNumbers}.

(** One log after another, from any sources. *)
Record LogCall := { c_log : RpcLog; c_received_at_us : Z; c_source : string; c_now : Z }.
Definition process_all (calls : list LogCall) (p : Processor) : Processor :=
  foldl (fun p c => process (c_log c) (c_received_at_us c) (c_source c) (c_now c) p) p calls.

(** ** The queue of the batcher is in sequence order *)

Record ordered (c0 : Z) (p : Processor) : Prop := {
  or_hub : event_hub_inv (hub p);
  or_sorted : StronglySorted Z.lt (map sequence (batch_tx p));
  or_range : Forall (fun n => c0 < n <= counter p) (map sequence (batch_tx p)) }.

Lemma sorted_snoc l n : StronglySorted Z.lt l -> Forall (fun m => m < n) l -> StronglySorted Z.lt (l ++ [n]).
Proof.
  induction 1 as [|m l Hs IH Hall]; intros Hn; [by repeat constructor|]. apply Forall_cons in Hn as [Hm Hn].
  cbn. constructor; [by apply IH|]. apply Forall_app. split; [done|by constructor].
Qed.

Lemma process_ordered raw at_ source now c0 p : ordered c0 p -> 0 <= c0 <= counter p -> counter p < u64_max ->
  ordered c0 (process raw at_ source now p) /\ counter p <= counter (process raw at_ source now p) <= counter p + 1.
Proof.
  intros [Hh Hs Hr] Hc Hmax. unfold process. pose proof (prepare_spec raw at_ source p) as Hp.
  destruct (prepare raw at_ source p) as [[pr|] p1]; destruct Hp as (Eh & Eb & Ef & Eo & Hseq).
  2: { rewrite Hseq. split; [split; rewrite ?Eh, ?Eb, ?Hseq; done|lia]. }
  destruct Hseq as [Hseq Hctr]. rewrite u64_add_small in Hseq, Hctr by (unfold u64_max in *; lia).
  destruct (commit_spec now pr p1) as (Ch & Cb & _ & Cc & _); [by rewrite Eh|]. rewrite Cc, Hctr.
  assert (Hr' : Forall (fun n => c0 < n <= counter p + 1) (map sequence (batch_tx p))).
  { eapply Forall_impl; [exact Hr|]. cbn. lia. }
  split; [|lia]. split.
  - rewrite Ch, Eh. destruct (fst (insert_event (prep_record pr) (hub p))); [by apply insert_event_inv|done].
  - rewrite Cb, Eb. destruct (_ && _ && _); [|done]. rewrite map_app. apply sorted_snoc; [done|].
    eapply Forall_impl; [exact Hr|]. cbn. rewrite Hseq. lia.
  - rewrite Cb, Eb, Cc, Hctr. destruct (_ && _ && _); [|done]. rewrite map_app. apply Forall_app. split; [done|].
    cbn. rewrite Hseq. constructor; [lia|constructor].
Qed.

Lemma process_all_ordered calls c0 : forall p, ordered c0 p -> 0 <= c0 <= counter p -> counter p + zlen calls <= u64_max ->
  ordered c0 (process_all calls p) /\ c0 <= counter (process_all calls p) <= counter p + zlen calls.
Proof.
  induction calls as [|c calls IH]; intros p Ho Hc Hmax; [split; [done|rewrite zlen_nil; cbn; lia]|].
  rewrite zlen_cons in *. pose proof (zlen_nonneg calls). cbn [process_all foldl].
  destruct (process_ordered (c_log c) (c_received_at_us c) (c_source c) (c_now c) c0 p Ho Hc) as [Ho1 Hc1]; [lia|].
  destruct (IH _ Ho1) as [I1 I2]; [lia|lia|]. unfold process_all in *. split; [done|lia].
Qed.

(** ** The frames *)

Section Frames.
Variable event_rest : pb.UmaEvent -> list Wire.field.
Variable encode_event : pb.UmaEvent -> bytes.
Variable encode_batch : pb.UmaBatch -> bytes.
Variable zstd_encode : bytes -> option bytes.
Variable zstd_decompress : bytes -> Z -> option bytes.
Variables (cfg : WireConfig) (clock : Z -> Z).

(** The frames of [run_batcher], in the order it publishes them. *)
Definition encoded (b : Z * list EventRecord) : option WireFrame :=
  result_ok (encode_frame encode_batch zstd_encode (clock (fst b)) (fst b) (snd b) cfg).
Definition batch_frames (max_events max_bytes : Z) (rounds : list nat) (queue : list EventRecord) : list WireFrame :=
  let '(out, _, _) := batcher (encoded_event_len encode_event) max_events max_bytes rounds None queue 0 in omap encoded out.

Lemma run_batcher_publishes max_events max_bytes rounds queue h :
  run_batcher encode_event encode_batch zstd_encode max_events max_bytes cfg clock rounds queue h
  = publish_all (batch_frames max_events max_bytes rounds queue) h.
Proof.
  unfold run_batcher, batch_frames. destruct (batcher _ _ _ _ _ _ _) as [[out ?] ?]. unfold publish_all. revert h.
  induction out as [|b out IH]; intros h; [done|]. cbn [foldl omap list_omap]. unfold publish_batch at 2, encoded at 1.
  destruct (encode_frame _ _ _ _ _ _) as [f|e]; cbn [result_ok foldl]; apply IH.
Qed.

Lemma encoded_last b f : encoded b = Some f -> last_sequence f ∈ map sequence (snd b).
Proof.
  unfold encoded. destruct (encode_frame _ _ _ _ _ _) as [g|e] eqn:E; [|done]. intros [= ->]. unfold encode_frame in E.
  apply result_bind_ok in E as (fst_ & _ & E). apply result_bind_ok in E as (lst & El & E). cbv zeta in E.
  apply result_bind_ok in E as (? & _ & E). apply result_bind_ok in E as ([fl body] & _ & E). injection E as <-. cbn [last_sequence].
  unfold ok_or in El. destruct (last (snd b)) as [y|] eqn:Ex; [|done]. injection El as ->.
  apply list_elem_of_fmap. exists lst. split; [done|]. apply last_Some in Ex as (l' & ->). apply elem_of_app. right. by left.
Qed.

Lemma encoded_increasing out : StronglySorted Z.lt (map sequence (concat (map snd out))) -> increasing (omap encoded out).
Proof.
  induction out as [|b out IH]; intros Hs; cbn [map concat omap list_omap] in *; [constructor|].
  rewrite map_app in Hs. pose proof (StronglySorted_app_1_r _ _ _ Hs) as Hs2. specialize (IH Hs2).
  destruct (encoded b) as [f|] eqn:Ef; [|done]. constructor; [done|]. apply Forall_forall. intros g Hg.
  apply list_elem_of_omap in Hg as (b' & Hb' & Eg). apply encoded_last in Ef, Eg.
  refine (StronglySorted_app_1_elem_of Z.lt _ _ (last_sequence f) (last_sequence g) Hs _ _); [done|]. apply list_elem_of_fmap in Eg as (x & -> & Hx).
  apply list_elem_of_fmap. exists x. split; [done|]. apply list_elem_of_In, in_concat. exists (snd b').
  split; [by apply in_map, list_elem_of_In|by apply list_elem_of_In].
Qed.

Context (prost : Prost event_rest encode_event encode_batch) (zstd : zstd_law zstd_encode zstd_decompress).
Context (cap_ok : max_decompressed_bytes cfg <= MAX_DECOMPRESSED) (clock_ok : forall n, u64_ok (clock n)).

Lemma encoded_frames_readable out : StronglySorted Z.lt (map sequence (concat (map snd out))) ->
  Forall (fun n => 0 < n <= u64_max) (map sequence (concat (map snd out))) -> Forall u64_ok (map fst out) ->
  Forall (readable zstd_decompress) (omap encoded out).
Proof.
  induction out as [|b out IH]; intros Hs Hr Hb; cbn [map concat omap list_omap] in *; [constructor|].
  rewrite map_app in Hs, Hr. apply Forall_app in Hr as [Hr1 Hr2]. apply Forall_cons in Hb as [Hb1 Hb2].
  specialize (IH (StronglySorted_app_1_r _ _ _ Hs) Hr2 Hb2). apply StronglySorted_app_1_l in Hs.
  destruct (encoded b) as [f|] eqn:Ef; [|done]. constructor; [|done]. unfold encoded in Ef.
  destruct (encode_frame _ _ _ _ _ _) as [g|e] eqn:E; [|done]. injection Ef as ->.
  eapply (encoded_readable zstd_decompress event_rest encode_event);
    [exact prost|exact zstd|exact cap_ok|apply clock_ok|exact Hb1| | |exact Hs|exact E].
  - apply List.Forall_map in Hr1. eapply Forall_impl; [exact Hr1|]. cbn. unfold u64_ok. lia.
  - eapply Forall_impl; [exact Hr1|]. cbn. lia.
Qed.

Lemma batcher_rounds len max_events max_bytes rounds : forall pending queue n,
  (length (fst (fst (batcher len max_events max_bytes rounds pending queue n))) <= length rounds)%nat.
Proof.
  induction rounds as [|a rounds IH]; intros pending queue n; cbn [batcher]; [done|].
  destruct (take_first pending queue) as [[e q]|]; [|cbn; lia]. destruct (fill _ _ _ _ _ _ _) as [[b p1] q1].
  specialize (IH p1 q1 (next_batch_sequence n)). destruct (batcher _ _ _ rounds p1 q1 _) as [[out p2] q2]. cbn in *. lia.
Qed.

Lemma batch_frames_ok max_events max_bytes rounds queue :
  (forall e, encoded_event_len encode_event e < 2 ^ 62) -> 0 <= max_bytes < 2 ^ 62 -> zlen rounds <= u64_max ->
  StronglySorted Z.lt (map sequence queue) -> Forall (fun n => 0 < n <= u64_max) (map sequence queue) ->
  increasing (batch_frames max_events max_bytes rounds queue)
  /\ Forall (readable zstd_decompress) (batch_frames max_events max_bytes rounds queue).
Proof.
  intros Hlen Hmax Hr Hs Hq. unfold batch_frames.
  pose proof (batcher_spec (encoded_event_len encode_event) max_events max_bytes) as Hb.
  specialize (Hb ltac:(intros e; split; [apply zlen_nonneg|apply Hlen]) Hmax rounds None queue 0 ltac:(lia) ltac:(lia)).
  destruct (batcher _ _ _ _ _ _ _) as [[out pending] left_] eqn:E. destruct Hb as (Hc & _ & Hn). cbn [opt_list app] in Hc.
  rewrite <- Hc, map_app in Hs, Hq. apply StronglySorted_app_1_l in Hs. apply Forall_app in Hq as [Hq _].
  split; [by apply encoded_increasing|]. apply encoded_frames_readable; [done|done|]. rewrite Hn.
  apply Forall_forall. intros n Hi. apply list_elem_of_In, in_map_iff in Hi as (i & <- & Hi). apply in_seq in Hi.
  pose proof (batcher_rounds (encoded_event_len encode_event) max_events max_bytes rounds None queue 0) as Hlr. rewrite E in Hlr.
  unfold zlen, u64_ok in *. cbn in Hlr. lia.
Qed.

(** C2: from the logs to the last client.  Logs that [process] takes one after another go
    through the batcher and the encoder to the service's hub.  While the edge keeps
    dialling with the cursor of what arrived, and is not told that the cursor is gone, it
    receives over any number of broken connections, each frame once and in order, the
    beginning of what was broadcast above its first cursor; and what any client of the
    edge was replayed, received and has queued, whatever the interleaving at the edge, is
    byte for byte one contiguous segment of it. *)
Theorem service_to_client `{Mpsc Frame} iter (iter_perm : forall m, iter m ≡ₚ map_to_list m)
    calls p max_events max_bytes rounds cap floor before c0 xs capacity_ queue_len ops id lg l :
  event_hub_inv (hub p) -> batch_tx p = [] -> 0 <= counter p -> counter p + zlen calls <= u64_max ->
  (forall e, encoded_event_len encode_event e < 2 ^ 62) -> 0 <= max_bytes < 2 ^ 62 -> zlen rounds <= u64_max -> 0 < c0 ->
  let s := relay zstd_decompress xs (relay_start cap floor before c0) in
  rl_published s `prefix_of` batch_frames max_events max_bytes rounds (batch_tx (process_all calls p)) ->
  rl_rejected s = false ->
  forwarded ops `prefix_of` map frame_bytes (rl_got s) -> Forall op_ok ops -> zlen ops < u64_max - 1 ->
  let r := run_ops iter capacity_ queue_len ops in
  logs r !! id = Some lg -> links (EdgeHub.hub r) !! id = Some l ->
  rl_got s `prefix_of` List.filter (newer c0) (rl_published s)
  /\ exists a b, map frame_bytes (List.filter (newer c0) (rl_published s))
                = a ++ map payload (log_replay lg ++ log_got lg ++ queued (link_chan l)) ++ b.
Proof using prost zstd cap_ok clock_ok.
  intros Hh Hq Hc Hn Hlen Hmax Hr Hc0 s [more Hpub] Hrej Hfw Hok Hlen' r Hlg Hlk.
  destruct (process_all_ordered calls (counter p) p) as [[_ Hs Hr'] Hc']; [|lia|done|].
  { split; rewrite ?Hq; cbn; [done|constructor|constructor]. }
  destruct (batch_frames_ok max_events max_bytes rounds (batch_tx (process_all calls p))) as [Hinc Hread]; [done..| |].
  { eapply Forall_impl; [exact Hr'|]. cbn. lia. }
  rewrite Hpub in Hinc, Hread. apply increasing_app_l in Hinc. apply Forall_app in Hread as [Hread _].
  by apply (relay_end_to_end iter iter_perm zstd_decompress cap floor before c0 xs capacity_ queue_len ops id lg l).
Qed.
End Frames.
End Service.

(** ** A run *)

Module ServiceRun.
#[local] Instance codec : EthCodec := sample_codec.
#[local] Instance storage_queue : Mpsc StorageCommand := list_mpsc StorageCommand.
#[local] Instance queue : Mpsc Frame := list_mpsc Frame.
#[local] Instance numbers : WireNumbers := sample_numbers.
Definition calls : list LogCall :=
  map (fun i => {| c_log := PipelineSample.log i; c_received_at_us := i; c_source := "wss[0]"; c_now := i |}) [1; 2].
Definition frames : list WireFrame :=
  batch_frames WireFrame.Sample.encode_event WireFrame.Sample.encode_batch WireFrame.Sample.zstd_encode WireFrame.Sample.config
    (fun _ => 1700) 1 1000 [0%nat; 0%nat; 0%nat] (batch_tx (process_all calls PipelineSample.start)).
Definition frame (i : nat) : WireFrame := nth i frames WireFrame.Sample.frame.

(** The first frame is written but lost with its connection; the second one is broadcast
    while the edge is away. *)
Definition stretches : list Stretch :=
  [{| x_events := [Published (frame 0); Wake []]; x_arrived := 0; x_close_arrives := false; x_meanwhile := [frame 1] |};
   {| x_events := [Wake []]; x_arrived := 9; x_close_arrives := false; x_meanwhile := [] |}].
Definition after_two : RelayState := relay RelayRun.zstd stretches (relay_start 4 5 [] 5).
Definition edge_frame (i : nat) (n : Z) : Frame :=
  {| offset := 0; EdgeHub.batch_sequence := n; event_sequence := n; payload := frame_bytes (frame i); EdgeHub.recv_at_us := 5 |}.
Definition ops : list hub_op :=
  [Publish (edge_frame 0 6) 1; Subscribe 9 "10.0.0.1" 4001 (Some "alice"%string) 77; Publish (edge_frame 1 7) 1; Receive 1].
Definition edge : Run := run_ops RelayRun.iter 8 4 ops.

Lemma varint_short n : zlen (Wire.varint n) <= 10.
Proof.
  unfold Wire.varint. change 10 with (Z.of_nat 10). generalize 10%nat as k. intros k. revert n.
  induction k as [|k IH]; intros n; cbn [Wire.varint_fuel]; [done|].
  destruct (n <? 128); rewrite zlen_cons; [rewrite zlen_nil; lia|]. specialize (IH (n / 128)). lia.
Qed.
Lemma event_short e : encoded_event_len WireFrame.Sample.encode_event e < 2 ^ 62.
Proof.
  unfold encoded_event_len, WireFrame.Sample.encode_event. generalize (to_proto e) as m. intros m. unfold opt_field, WireFrame.Sample.event_rest, Wire.encode.
  destruct (_ =? 0); cbn [app flat_map map concat]; unfold Wire.encode_field; cbn [Wire.payload Wire.val Wire.num Wire.wire_type];
    rewrite ?zlen_app, ?zlen_nil; repeat match goal with |- context [zlen (Wire.varint ?n)] =>
      pose proof (varint_short n); generalize dependent (zlen (Wire.varint n)); intros end; unfold zlen; cbn; lia.
Qed.

Lemma service_to_client_witness :
  map last_sequence (rl_got after_two) = [6; 7]
  /\ exists lg l a b, logs edge !! 1 = Some lg /\ links (EdgeHub.hub edge) !! 1 = Some l /\ length (log_replay lg ++ log_got lg) = 2%nat
    /\ map frame_bytes (List.filter (newer 5) (rl_published after_two))
       = a ++ map payload (log_replay lg ++ log_got lg ++ queued (link_chan l)) ++ b.
Proof.
  split; [vm_compute; reflexivity|].
  destruct (logs edge !! 1) as [lg|] eqn:Elg; [|vm_compute in Elg; discriminate].
  destruct (links (EdgeHub.hub edge) !! 1) as [l|] eqn:El; [|vm_compute in El; discriminate].
  destruct (service_to_client WireFrame.Sample.event_rest WireFrame.Sample.encode_event WireFrame.Sample.encode_batch
    WireFrame.Sample.zstd_encode RelayRun.zstd WireFrame.Sample.config (fun _ => 1700) WireFrame.Sample.prost WireFrame.Sample.zstd
    ltac:(cbn; unfold MAX_DECOMPRESSED; lia) ltac:(intros ?; unfold u64_ok, u64_max; lia)
    RelayRun.iter EdgeHub.Sample.iter_perm calls PipelineSample.start 1 1000 [0%nat; 0%nat; 0%nat] 4 5 [] 5 stretches 8 4 ops 1 lg l)
    as [_ (a & b & E)].
  - exact PipelineSample.hub_ok.
  - vm_compute. reflexivity.
  - cbn. lia.
  - vm_compute. congruence.
  - exact event_short.
  - lia.
  - vm_compute. congruence.
  - lia.
  - exists []. vm_compute. reflexivity.

  - vm_compute. reflexivity.
  - exists []. vm_compute. reflexivity.
  - repeat constructor; cbn; lia.
  - vm_compute. reflexivity.
  - exact Elg.
  - exact El.
  - exists lg, l, a, b. split; [reflexivity|]. split; [reflexivity|]. split; [|exact E].
    vm_compute in Elg. injection Elg as <-. vm_compute. reflexivity.
Defined.
End ServiceRun.
