(* ===== verification/Storage.v ===== *)
(** * Storage: the files that survive a restart ([src/storage.rs])

    The catalog file, the event journal (a write-ahead log with a length and a checksum
    per record) and the cursors.  The file system keeps whole files; [atomic_write]
    replaces one.  prost's coding of an event and the CRC are an interface. *)
From S2P Require Import Prelude Model.

Definition CATALOG_MAGIC : bytes := bytes_of_str "UMACAT3" ++ [x00].
Definition CATALOG_MAGIC_V1 : bytes := bytes_of_str "UMACAT1" ++ [x00].
Definition CATALOG_MAGIC_V2 : bytes := bytes_of_str "UMACAT2" ++ [x00].
Definition WAL_MAGIC : bytes := bytes_of_str "UMAWAL1" ++ [x00].
Definition MAX_WAL_RECORD : Z := 1048576.

Inductive StorageError := StorageIo | StorageFormat (what : string) | StorageProtobuf.

(** The directory: each file's contents, if it exists. *)
Record Files := {
  catalog_bin : option bytes;
  events_wal : option bytes;
  enrichment_cursor : option string;
  closed_cursor : option string;
  uma_cursor : option string }.

(** ** Reading *)

(** [read_exact] of [n] bytes. *)
Definition read_exact (n : nat) (r : bytes) : option (bytes * bytes) :=
  if (n <=? length r)%nat then Some (take n r, drop n r) else None.

Definition read_uint (n : nat) (r : bytes) : result StorageError (Z * bytes) :=
  '(v, r) ← ok_or StorageIo (read_exact n r); Ok (be_decode v, r).
Definition read_u8 := read_uint 1.
Definition read_u16 := read_uint 2.
Definition read_u32 := read_uint 4.
Definition read_u64 := read_uint 8.
(** [i32::from_be_bytes] *)
Definition read_i32 (r : bytes) : result StorageError (Z * bytes) :=
  '(v, r) ← read_uint 4 r; Ok (if v <? 2 ^ 31 then v else v - 2 ^ 32, r).

Fixpoint read_many {A} (n : nat) (read : bytes -> result StorageError (A * bytes)) (r : bytes)
  : result StorageError (list A * bytes) :=
  match n with
  | O => Ok ([], r)
  | S n => '(x, r) ← read r; '(xs, r) ← read_many n read r; Ok (x :: xs, r)
  end.

Section Storage.
Context `{WireNumbers}.

(** ** The catalog file *)

Definition read_bytes (n : nat) (r : bytes) : result StorageError (bytes * bytes) := ok_or StorageIo (read_exact n r).

Definition read_market (r : bytes) : result StorageError (MarketEnrichment * bytes) :=
  '(id, r) ← read_u64 r;
  '(cond, r) ← read_bytes 32 r;
  '(token_count, r) ← read_u16 r;
  '(tokens, r) ← read_many (Z.to_nat token_count) (read_bytes 32) r;
  '(tag_count, r) ← read_u16 r;
  '(tags, r) ← read_many (Z.to_nat tag_count) read_u32 r;
  '(cat, r) ← read_u8 r;
  '(bet, r) ← read_i32 r;
  '(neg, r) ← read_u8 r;
  Ok ({| market_id := id; condition_id := cond; token_ids := tokens; tag_ids := tags; category := Category_from_proto cat;
         bet_type := BetType_from_proto bet; neg_risk := negb (neg =? 0) |}, r).

(** [load_catalog] with [discard_stale_catalog]: an old format removes the two cursors. *)
Definition load_catalog (f : Files) : result StorageError (list MarketEnrichment) * Files :=
  match catalog_bin f with
  | None => (Ok [], f)
  | Some data =>
      match read_exact 8 data with
      | None => (Err StorageIo, f)
      | Some (magic, r) =>
          if decide (magic = CATALOG_MAGIC_V1 \/ magic = CATALOG_MAGIC_V2) then
            (Ok [], {| catalog_bin := catalog_bin f; events_wal := events_wal f; enrichment_cursor := None;
                       closed_cursor := None; uma_cursor := uma_cursor f |})
          else if decide (magic = CATALOG_MAGIC) then
            (match ('(count, r) ← read_u32 r; read_many (Z.to_nat count) read_market r) with
             | Ok (ms, _) => Ok ms
             | Err e => Err e
             end, f)
          else (Err (StorageFormat "catalog magic"), f)
      end
  end.

Definition market_bytes (m : MarketEnrichment) : bytes :=
  be_encode 8 (market_id m) ++ condition_id m ++ be_encode 2 (zlen (token_ids m)) ++ concat (token_ids m)
  ++ be_encode 2 (zlen (tag_ids m)) ++ concat (map (be_encode 4) (tag_ids m))
  ++ [byte_of (Category_to_proto (category m))] ++ be_encode 4 (BetType_to_proto (bet_type m))
  ++ [byte_of (if neg_risk m then 1 else 0)].

Definition write_market (m : MarketEnrichment) : result StorageError bytes :=
  _ ← require (zlen (token_ids m) <? 2 ^ 16) (StorageFormat "too many token IDs");
  _ ← require (zlen (tag_ids m) <? 2 ^ 16) (StorageFormat "too many tag IDs");
  Ok (market_bytes m).

Fixpoint write_markets (ms : list MarketEnrichment) : result StorageError bytes :=
  match ms with
  | [] => Ok []
  | m :: ms => b ← write_market m; bs ← write_markets ms; Ok (b ++ bs)
  end.

Definition id_le (a b : MarketEnrichment) : Prop := market_id a <= market_id b.
#[global] Instance id_le_dec : RelDecision id_le.
Proof. intros a b. apply Z.le_dec. Defined.

(** A failure leaves the old file; equal ids may come in any order. *)
Definition save_catalog (ms : list MarketEnrichment) (f : Files) : result StorageError unit * Files :=
  let ordered := merge_sort id_le ms in
  match write_markets ordered with
  | Err e => (Err e, f)
  | Ok body =>
      (Ok tt, {| catalog_bin := Some (CATALOG_MAGIC ++ be_encode 4 (zlen ordered) ++ body); events_wal := events_wal f;
                 enrichment_cursor := enrichment_cursor f; closed_cursor := closed_cursor f; uma_cursor := uma_cursor f |})
  end.

(** ** Cursors *)

Definition load_cursor (file : option string) : option string :=
  v ← file; if String.eqb (trim v) "" then None else Some (trim v).
Definition load_enrichment_cursor (f : Files) : option string := load_cursor (enrichment_cursor f).
Definition load_closed_market_cursor (f : Files) : option string := load_cursor (closed_cursor f).
Definition load_uma_cursor (f : Files) : result StorageError (option Z) :=
  match uma_cursor f with
  | None => Ok None
  | Some v => n ← ok_or (StorageFormat "UMA cursor") (parse_u64 (trim v)); Ok (Some n)
  end.
Definition save_enrichment_cursor (c : string) (f : Files) : Files :=
  {| catalog_bin := catalog_bin f; events_wal := events_wal f; enrichment_cursor := Some c; closed_cursor := closed_cursor f;
     uma_cursor := uma_cursor f |}.
Definition save_closed_market_cursor (c : string) (f : Files) : Files :=
  {| catalog_bin := catalog_bin f; events_wal := events_wal f; enrichment_cursor := enrichment_cursor f; closed_cursor := Some c;
     uma_cursor := uma_cursor f |}.
Definition save_uma_cursor (block : Z) (f : Files) : Files :=
  {| catalog_bin := catalog_bin f; events_wal := events_wal f; enrichment_cursor := enrichment_cursor f;
     closed_cursor := closed_cursor f; uma_cursor := Some (fmt_u64 block) |}.

(** ** Properties of the catalog file *)

(** The widths and lengths of the Rust types, and the counts that fit their fields. *)
Record storable (m : MarketEnrichment) : Prop := {
  st_market : wf_market m;
  st_id : 0 <= market_id m < 2 ^ 64;
  st_tags : Forall (fun t => 0 <= t < 2 ^ 32) (tag_ids m);
  st_token_count : zlen (token_ids m) < 2 ^ 16;
  st_tag_count : zlen (tag_ids m) < 2 ^ 16 }.

Lemma read_exact_app n a r : length a = n -> read_exact n (a ++ r) = Some (a, r).
Proof.
  intros <-. unfold read_exact. rewrite length_app. replace (length a <=? _)%nat with true by lia.
  by rewrite take_app_length, drop_app_length.
Qed.

Lemma read_exact_Some n r a b : read_exact n r = Some (a, b) -> r = a ++ b /\ length a = n.
Proof.
  unfold read_exact. destruct (n <=? length r)%nat eqn:E; [|done]. intros [= <- <-]. apply Nat.leb_le in E.
  split; [by rewrite take_drop|]. rewrite length_take. lia.
Qed.

Lemma read_bytes_app n a r : length a = n -> read_bytes n (a ++ r) = Ok (a, r).
Proof. intros Ha. unfold read_bytes. by rewrite read_exact_app. Qed.

Lemma read_uint_app n v r : 0 <= v < 256 ^ Z.of_nat n -> read_uint n (be_encode n v ++ r) = Ok (v, r).
Proof.
  intros Hv. unfold read_uint. rewrite read_exact_app by apply be_encode_length. cbn. by rewrite be_decode_encode_small.
Qed.

Lemma read_many_app {A} (read : bytes -> result StorageError (A * bytes)) (enc : A -> bytes) xs : forall r,
  Forall (fun x => forall r, read (enc x ++ r) = Ok (x, r)) xs ->
  read_many (length xs) read (concat (map enc xs) ++ r) = Ok (xs, r).
Proof.
  induction xs as [|x xs IH]; intros r Hx; [done|]. apply Forall_cons in Hx as [Hx Hxs].
  cbn [length read_many map concat]. rewrite <- app_assoc, Hx. cbn [mbind result_bind]. by rewrite IH.
Qed.

Lemma read_write_market m b r : storable m -> write_market m = Ok b -> read_market (b ++ r) = Ok (m, r).
Proof.
  intros [[Hc Ht] Hid Htags Htc Hgc] Hw. unfold write_market in Hw.
  apply result_bind_ok in Hw as (_ & _ & Hw). apply result_bind_ok in Hw as (_ & _ & Hw). injection Hw as <-.
  unfold market_bytes. rewrite <- !app_assoc. unfold read_market, read_u64, read_u16, read_u8, read_i32.
  rewrite read_uint_app by (cbn; lia). cbn [mbind result_bind].
  rewrite read_bytes_app by done. cbn [mbind result_bind].
  rewrite read_uint_app by (cbn; pose proof (zlen_nonneg (token_ids m)); lia). cbn [mbind result_bind].
  unfold zlen at 1. rewrite Nat2Z.id.
  assert (Htok : forall r, read_many (length (token_ids m)) (read_bytes 32) (concat (token_ids m) ++ r) = Ok (token_ids m, r)).
  { intros r'. pose proof (read_many_app (read_bytes 32) id (token_ids m) r') as Hm. rewrite map_id in Hm. apply Hm.
    eapply Forall_impl; [exact Ht|]. cbn. intros x Hx r2. by apply read_bytes_app. }
  rewrite Htok. cbn [mbind result_bind].
  rewrite read_uint_app by (cbn; pose proof (zlen_nonneg (tag_ids m)); lia). cbn [mbind result_bind].
  unfold zlen. rewrite Nat2Z.id. rewrite (read_many_app read_u32 (be_encode 4)).
  2:{ eapply Forall_impl; [exact Htags|]. intros x Hx r2. cbn beta in Hx. unfold read_u32. apply read_uint_app. cbn. lia. }
  cbn [mbind result_bind].
  assert (Hcat : forall c r, read_uint 1 ([byte_of c] ++ r) = Ok (c mod 256, r)).
  { intros c r'. unfold read_uint. rewrite read_exact_app by done. cbn. unfold be_decode. cbn. by rewrite byte_val_of. }
  rewrite Hcat. cbn [mbind result_bind].
  assert (Hcn : forall c, 0 <= Category_to_proto c < 256) by (intros []; apply Category_num_byte).
  rewrite Z.mod_small by apply Hcn.
  assert (Hbn : forall b, 0 <= BetType_to_proto b < 2 ^ 31) by (intros []; apply BetType_num_i32).
  pose proof (Hbn (bet_type m)) as Hb. rewrite read_uint_app by (cbn; lia). cbn [mbind result_bind].
  replace (BetType_to_proto (bet_type m) <? 2 ^ 31) with true by lia. rewrite Hcat. cbn [mbind result_bind].
  rewrite Category_proto_rt, BetType_proto_rt. destruct m as [a b c d e f []]; reflexivity.
Qed.

Lemma write_markets_ok ms : Forall storable ms -> exists b, write_markets ms = Ok b
  /\ forall r, read_many (length ms) read_market (b ++ r) = Ok (ms, r).
Proof.
  induction ms as [|m ms IH]; intros Hs; [by exists []|]. apply Forall_cons in Hs as [Hm Hms].
  destruct (IH Hms) as (b & Hb & Hr).
  assert (Hw : exists bm, write_market m = Ok bm).
  { destruct Hm as [_ _ _ H1 H2]. unfold write_market, require.
    replace (zlen (token_ids m) <? 2 ^ 16) with true by lia. replace (zlen (tag_ids m) <? 2 ^ 16) with true by lia. by eexists. }
  destruct Hw as [bm Hw]. exists (bm ++ b). cbn [write_markets]. rewrite Hw, Hb. split; [done|]. intros r.
  cbn [length read_many]. rewrite <- app_assoc, (read_write_market m bm _ Hm Hw). cbn [mbind result_bind]. by rewrite Hr.
Qed.

(** The catalog file.  Saving a catalog succeeds and loading it gives the same rows
    in the order of their ids; a row with too many token or tag ids fails the save and
    keeps the file; a file of an older format yields an empty catalog and, so that the
    next synchronisation starts over, no cursors. *)
Theorem catalog_roundtrip ms f :
  Forall storable ms -> zlen ms < 2 ^ 32 ->
  exists f', save_catalog ms f = (Ok tt, f') /\ load_catalog f' = (Ok (merge_sort id_le ms), f')
    /\ (forall bad e, write_markets (merge_sort id_le bad) = Err e -> save_catalog bad f = (Err e, f))
    /\ (forall old data, catalog_bin f = Some (old ++ data) -> old = CATALOG_MAGIC_V1 \/ old = CATALOG_MAGIC_V2 ->
          fst (load_catalog f) = Ok [] /\ load_enrichment_cursor (snd (load_catalog f)) = None
          /\ load_closed_market_cursor (snd (load_catalog f)) = None).
Proof.
  intros Hs Hl. set (ordered := merge_sort id_le ms).
  assert (Hs' : Forall storable ordered) by (unfold ordered; by rewrite merge_sort_Permutation).
  assert (Hl' : zlen ordered < 2 ^ 32).
  { unfold zlen, ordered. by rewrite merge_sort_Permutation. }
  destruct (write_markets_ok ordered Hs') as (b & Hb & Hr). unfold save_catalog at 1. cbv zeta. fold ordered. rewrite Hb.
  eexists. split; [done|]. split; [|split].
  - unfold load_catalog. cbn [catalog_bin]. rewrite read_exact_app by done. cbn [ok_or].
    rewrite decide_False by (intros [|]; discriminate). rewrite decide_True by done.
    unfold read_u32. rewrite read_uint_app by (pose proof (zlen_nonneg ordered); cbn; lia). cbn [mbind result_bind].
    unfold zlen. rewrite Nat2Z.id. rewrite <- (app_nil_r b). by rewrite Hr.
  - intros bad e He. unfold save_catalog. cbv zeta. by rewrite He.
  - intros old data Hd Hold. unfold load_catalog. rewrite Hd.
    rewrite read_exact_app by (by destruct Hold as [-> | ->]). by rewrite decide_True.
Qed.
End Storage.

(** ** The event journal *)

(** The ranges of the message's integer fields. *)
Record pb_ok (e : pb.UmaEvent) : Prop := {
  pb_sequence : 0 <= pb.sequence e < 2 ^ 64;
  pb_type : 0 <= pb.event_type e < 2 ^ 31;
  pb_log_index : 0 <= pb.log_index e < 2 ^ 64;
  pb_market : 0 <= pb.market_id e < 2 ^ 64;
  pb_tags : Forall (fun t => 0 <= t < 2 ^ 32) (pb.tag_ids e);
  pb_received : 0 <= pb.upstream_received_at_us e < 2 ^ 64;
  pb_status : 0 <= pb.enrichment_status e < 2 ^ 31;
  pb_outcome : 0 <= pb.price_outcome e < 2 ^ 31;
  pb_category : 0 <= pb.category e < 2 ^ 31;
  pb_bet : 0 <= pb.bet_type e < 2 ^ 31 }.

Class WalCodec := {
  encode_event : pb.UmaEvent -> bytes;
  decode_event : bytes -> option pb.UmaEvent;
  crc32 : bytes -> Z;
  decode_encode_event e : pb_ok e -> decode_event (encode_event e) = Some e;
  crc32_range b : 0 <= crc32 b < 2 ^ 32 }.

Section Journal.
Context `{WireNumbers} `{WalCodec}.

(** A record on disk: length, checksum, payload. *)
Definition wal_frame (payload : bytes) : bytes := be_encode 4 (zlen payload) ++ be_encode 4 (crc32 payload) ++ payload.
#[global] Arguments wal_frame : simpl never.

Definition record_payload (r : EventRecord) : bytes := encode_event (to_proto r).

Definition push_event (cap : Z) (es : list EventRecord) (e : EventRecord) : list EventRecord :=
  last_n (Z.to_nat (Z.max cap 1)) (es ++ [e]).

(** The reading loop; a round reads at least the eight bytes of a header, so the
    length of the rest is fuel enough ([wal_loop_fuel]). *)
Fixpoint wal_loop (fuel : nat) (cap : Z) (r : bytes) (es : list EventRecord) : result StorageError (list EventRecord) :=
  match fuel with
  | O => Ok es
  | S n =>
      match read_exact 4 r with
      | None => Ok es
      | Some (len, r) =>
          if MAX_WAL_RECORD <? be_decode len then Ok es else
          match read_exact 4 r with
          | None => Ok es
          | Some (crc, r) =>
              match read_exact (Z.to_nat (be_decode len)) r with
              | None => Ok es
              | Some (payload, r) =>
                  if negb (crc32 payload =? be_decode crc) then Ok es else
                  match decode_event payload with
                  | None => Err StorageProtobuf
                  | Some proto =>
                      wal_loop n cap r (match from_proto proto with Some e => push_event cap es e | None => es end)
                  end
              end
          end
      end
  end.

Definition load_events (cap : Z) (f : Files) : result StorageError (list EventRecord) :=
  match events_wal f with
  | None => Ok []
  | Some data =>
      match read_exact 8 data with
      | None => Err StorageIo
      | Some (magic, r) =>
          if decide (magic = WAL_MAGIC) then wal_loop (S (length r)) cap r [] else Err (StorageFormat "event WAL magic")
      end
  end.

(** What has reached the file, what is still in the writer's buffer, and the counter. *)
Record Journal := { on_disk : bytes; buffered : bytes; records : Z }.

Definition journal_open (file : option bytes) : Journal :=
  match file with
  | None | Some [] => {| on_disk := WAL_MAGIC; buffered := []; records := 0 |}
  | Some data => {| on_disk := data; buffered := []; records := 0 |}
  end.

Definition journal_append (r : EventRecord) (j : Journal) : result StorageError unit * Journal :=
  let payload := record_payload r in
  if MAX_WAL_RECORD <? zlen payload then (Err (StorageFormat "event WAL record too large"), j)
  else (Ok tt, {| on_disk := on_disk j; buffered := buffered j ++ wal_frame payload; records := records j + 1 |}).

Definition journal_flush (j : Journal) : Journal :=
  {| on_disk := on_disk j ++ buffered j; buffered := []; records := records j |}.

(** [rewrite] writes the ring to a new file and renames it over the old one. *)
Definition journal_rewrite (events : list EventRecord) (j : Journal) : Journal :=
  {| on_disk := WAL_MAGIC ++ concat (map (fun r => wal_frame (record_payload r)) events); buffered := [];
     records := zlen events |}.

(** A crash: the writer may have written any part of its buffer. *)
Definition crash (n : nat) (j : Journal) : bytes := on_disk j ++ take n (buffered j).

(** *** The storage writer *)

Record Writer := { journal : Journal; writer_cursor : Z; writer_files : Files }.

Inductive writer_event :=
| WriteEvent (r : EventRecord) (ring : list EventRecord)
| WriteCheckpoint (block : Z)
| FlushTick.

Definition writer_step (capacity : Z) (w : Writer) (e : writer_event) : Writer :=
  match e with
  | WriteEvent r ring =>
      let j := snd (journal_append r (journal w)) in
      let j := if Z.max (u64_sat_mul capacity 2) 2 <? records j then journal_rewrite ring j else j in
      {| journal := j; writer_cursor := writer_cursor w; writer_files := writer_files w |}
  | WriteCheckpoint block =>
      {| journal := journal w; writer_cursor := Z.max (writer_cursor w) block; writer_files := writer_files w |}
  | FlushTick =>
      {| journal := journal_flush (journal w); writer_cursor := writer_cursor w;
         writer_files := if 0 <? writer_cursor w then save_uma_cursor (writer_cursor w) (writer_files w) else writer_files w |}
  end.

(** ** Properties of the journal *)

Definition storable_record (r : EventRecord) : Prop :=
  wf_record r /\ pb_ok (to_proto r) /\ zlen (record_payload r) <= MAX_WAL_RECORD.

Definition frames (rs : list EventRecord) : bytes := concat (map (fun r => wal_frame (record_payload r)) rs).

(** The records that lie wholly in the first [n] bytes. *)
Fixpoint complete (n : nat) (rs : list EventRecord) : nat :=
  match rs with
  | [] => O
  | r :: rs => let l := length (wal_frame (record_payload r)) in if (l <=? n)%nat then S (complete (n - l) rs) else O
  end.

Lemma wal_frame_length p : length (wal_frame p) = (8 + length p)%nat.
Proof. unfold wal_frame. rewrite !length_app, !be_encode_length. lia. Qed.

Lemma read_exact_short n r : (length r < n)%nat -> read_exact n r = None.
Proof. intros Hl. unfold read_exact. by replace (n <=? length r)%nat with false by lia. Qed.

Lemma len_decode (p : bytes) : zlen p <= MAX_WAL_RECORD -> be_decode (be_encode 4 (zlen p)) = zlen p.
Proof. intros Hp. apply be_decode_encode_small. pose proof (zlen_nonneg p). unfold MAX_WAL_RECORD in Hp. cbn. lia. Qed.

Lemma wal_loop_fuel fuel : forall cap r es fuel',
  (length r < fuel)%nat -> (length r < fuel')%nat -> wal_loop fuel cap r es = wal_loop fuel' cap r es.
Proof.
  induction fuel as [|n IH]; intros cap r es [|m] H1 H2; [lia..|]. cbn [wal_loop].
  destruct (read_exact 4 r) as [[len r1]|] eqn:E1; [|done]. destruct (_ <? _); [done|].
  destruct (read_exact 4 r1) as [[crc r2]|] eqn:E2; [|done].
  destruct (read_exact _ r2) as [[payload r3]|] eqn:E3; [|done]. destruct (negb _); [done|].
  destruct (decode_event payload); [|done].
  assert (Hr : (length r3 < length r)%nat).
  { apply read_exact_Some in E1 as [-> L1], E2 as [-> L2], E3 as [-> L3]. rewrite !length_app. lia. }
  apply IH; lia.
Qed.

Lemma wal_loop_frame fuel cap r rest es : storable_record r ->
  wal_loop (S fuel) cap (wal_frame (record_payload r) ++ rest) es = wal_loop fuel cap rest (push_event cap es (persisted_view r)).
Proof.
  intros (Hwf & Hpb & Hlen). cbn [wal_loop]. unfold wal_frame. rewrite <- !app_assoc.
  rewrite read_exact_app by apply be_encode_length. rewrite len_decode by done.
  replace (MAX_WAL_RECORD <? zlen (record_payload r)) with false by lia.
  rewrite read_exact_app by apply be_encode_length. unfold zlen. rewrite Nat2Z.id, read_exact_app by done.
  rewrite be_decode_encode_small by (pose proof (crc32_range (record_payload r)); cbn; lia).
  rewrite Z.eqb_refl. cbn [negb]. unfold record_payload. rewrite decode_encode_event by done. by rewrite from_to_proto.
Qed.

Lemma wal_loop_torn fuel cap r n es : zlen (record_payload r) <= MAX_WAL_RECORD ->
  (n < length (wal_frame (record_payload r)))%nat -> wal_loop fuel cap (take n (wal_frame (record_payload r))) es = Ok es.
Proof.
  intros Hlen Hn. rewrite wal_frame_length in Hn. destruct fuel as [|fuel]; [done|]. cbn [wal_loop].
  destruct (decide (n < 4)%nat) as [H4|H4].
  { rewrite read_exact_short; [done|]. rewrite length_take. lia. }
  unfold wal_frame. rewrite take_app_ge by (rewrite be_encode_length; lia). rewrite be_encode_length.
  rewrite read_exact_app by apply be_encode_length. rewrite len_decode by done.
  replace (MAX_WAL_RECORD <? zlen (record_payload r)) with false by lia.
  destruct (decide (n < 8)%nat) as [H8|H8].
  { rewrite read_exact_short; [done|]. rewrite length_take. lia. }
  rewrite take_app_ge by (rewrite be_encode_length; lia). rewrite be_encode_length.
  rewrite read_exact_app by apply be_encode_length. rewrite read_exact_short; [done|].
  rewrite length_take. unfold zlen. lia.
Qed.

Lemma push_events cap rs : forall es, foldl (push_event cap) (last_n (Z.to_nat (Z.max cap 1)) es) rs
  = last_n (Z.to_nat (Z.max cap 1)) (es ++ rs).
Proof.
  induction rs as [|r rs IH]; intros es; cbn [foldl]; [by rewrite app_nil_r|].
  unfold push_event at 2. by rewrite last_n_app, IH, <- app_assoc.
Qed.

Lemma wal_loop_prefix rs : forall fuel cap n es,
  Forall storable_record rs -> (length (take n (frames rs)) < fuel)%nat ->
  wal_loop fuel cap (take n (frames rs)) es = Ok (foldl (push_event cap) es (map persisted_view (take (complete n rs) rs))).
Proof.
  induction rs as [|r rs IH]; intros fuel cap n es Hs Hf.
  { cbn. rewrite take_nil. destruct fuel; done. }
  apply Forall_cons in Hs as [Hr Hrs]. cbn [complete]. cbv zeta.
  change (frames (r :: rs)) with (wal_frame (record_payload r) ++ frames rs) in *.
  destruct (length (wal_frame (record_payload r)) <=? n)%nat eqn:E.
  - apply Nat.leb_le in E. rewrite take_app_ge in Hf |- * by done. rewrite length_app in Hf.
    destruct fuel as [|fuel]; [lia|]. rewrite wal_loop_frame by done. rewrite IH; [done|done|].
    pose proof (wal_frame_length (record_payload r)). lia.
  - apply Nat.leb_gt in E. rewrite take_app_le by lia. apply wal_loop_torn; [apply Hr|done].
Qed.

(** Appending storable records only fills the buffer. *)
Definition append_all (rs : list EventRecord) (j : Journal) : Journal := foldl (fun j r => snd (journal_append r j)) j rs.

Lemma append_all_spec rs : forall j, Forall storable_record rs ->
  append_all rs j = {| on_disk := on_disk j; buffered := buffered j ++ frames rs; records := records j + zlen rs |}.
Proof.
  induction rs as [|r rs IH]; intros j Hs.
  { unfold frames. cbn. rewrite app_nil_r, Z.add_0_r. by destruct j. }
  apply Forall_cons in Hs as [(_ & _ & Hr) Hrs]. change (append_all (r :: rs) j) with (append_all rs (snd (journal_append r j))).
  unfold journal_append. cbv zeta. replace (MAX_WAL_RECORD <? zlen (record_payload r)) with false by lia. cbn [snd].
  rewrite IH by done. cbn [on_disk buffered records]. rewrite zlen_cons, <- app_assoc. f_equal. lia.
Qed.

Definition files_with_wal (data : bytes) : Files :=
  {| catalog_bin := None; events_wal := Some data; enrichment_cursor := None; closed_cursor := None; uma_cursor := None |}.

Lemma journal_crash_loads rs1 rs2 n cap :
  Forall storable_record rs1 -> Forall storable_record rs2 ->
  load_events cap (files_with_wal (crash n (append_all rs2 (journal_flush (append_all rs1 (journal_open None))))))
  = Ok (last_n (Z.to_nat (Z.max cap 1)) (map persisted_view (rs1 ++ take (complete n rs2) rs2))).
Proof.
  intros H1 H2. rewrite append_all_spec by done. unfold crash. cbn [on_disk buffered app].
  rewrite append_all_spec by done. unfold journal_flush. cbn [on_disk buffered journal_open app].
  unfold load_events, files_with_wal. cbn [events_wal]. rewrite <- app_assoc, read_exact_app by done. rewrite decide_True by done.
  assert (Hcat : frames rs1 ++ take n (frames rs2) = take (length (frames rs1) + n) (frames (rs1 ++ rs2))).
  { unfold frames. rewrite map_app, concat_app. by rewrite take_app_add. }
  rewrite Hcat. rewrite wal_loop_prefix; [|by apply Forall_app|lia].
  assert (Hc : complete (length (frames rs1) + n) (rs1 ++ rs2) = (length rs1 + complete n rs2)%nat).
  { clear. induction rs1 as [|r rs1 IH]; [done|]. cbn [app complete length]. cbv zeta.
    change (frames (r :: rs1)) with (wal_frame (record_payload r) ++ frames rs1). rewrite length_app.
    replace (_ <=? _)%nat with true by (symmetry; apply Nat.leb_le; lia). cbn. f_equal. rewrite <- IH. f_equal. lia. }
  rewrite Hc, take_app_add. f_equal.
  pose proof (push_events cap (map persisted_view (rs1 ++ take (complete n rs2) rs2)) []) as Hp.
  rewrite last_n_all in Hp by (cbn; lia). exact Hp.
Qed.

(** Crash safety.  After any appends, a flush and further appends, whatever part of
    the buffer a crash leaves behind, recovery succeeds and yields the last records (up
    to the capacity) of a prefix of what was appended: all that was flushed and every
    later record that is wholly on disk; a torn record is ignored. *)
Theorem journal_crash_safe rs1 rs2 n cap :
  Forall storable_record rs1 -> Forall storable_record rs2 ->
  load_events cap (files_with_wal (crash n (append_all rs2 (journal_flush (append_all rs1 (journal_open None))))))
  = Ok (last_n (Z.to_nat (Z.max cap 1)) (map persisted_view (rs1 ++ take (complete n rs2) rs2))).
Proof. apply journal_crash_loads. Qed.
(** *** The writer keeps the last events *)

Lemma load_frames cap rs : Forall storable_record rs ->
  load_events cap (files_with_wal (WAL_MAGIC ++ frames rs)) = Ok (last_n (Z.to_nat (Z.max cap 1)) (map persisted_view rs)).
Proof.
  intros Hs. unfold load_events, files_with_wal. cbn [events_wal]. rewrite read_exact_app by done. rewrite decide_True by done.
  pose proof (wal_loop_prefix rs (S (length (frames rs))) cap (length (frames rs)) [] Hs) as Hl.
  rewrite firstn_all in Hl. rewrite Hl by lia.
  assert (Hc : complete (length (frames rs)) rs = length rs).
  { clear. induction rs as [|r rs IH]; [done|]. cbn [complete length]. cbv zeta.
    change (frames (r :: rs)) with (wal_frame (record_payload r) ++ frames rs). rewrite length_app.
    replace (_ <=? _)%nat with true by (symmetry; apply Nat.leb_le; lia). f_equal. rewrite <- IH. f_equal. lia. }
  rewrite Hc, firstn_all. pose proof (push_events cap (map persisted_view rs) []) as Hp.
  rewrite last_n_all in Hp by (cbn; lia). by rewrite Hp.
Qed.

Lemma frames_app xs ys : frames (xs ++ ys) = frames xs ++ frames ys.
Proof. unfold frames. by rewrite map_app, concat_app. Qed.

(** The events a run writes, and the highest checkpoint. *)
Definition written (evs : list writer_event) : list EventRecord :=
  omap (fun e => match e with WriteEvent r _ => Some r | _ => None end) evs.
Definition checkpoint_max (c0 : Z) (evs : list writer_event) : Z :=
  foldl (fun c e => match e with WriteCheckpoint b => Z.max c b | _ => c end) c0 evs.

(** The ring the writer sees after an event holds the last [n] events so far. *)
Fixpoint rings_ok (n : nat) (past : list EventRecord) (evs : list writer_event) : Prop :=
  match evs with
  | [] => True
  | WriteEvent r ring :: evs => ring = last_n n (past ++ [r]) /\ rings_ok n (past ++ [r]) evs
  | _ :: evs => rings_ok n past evs
  end.

(** The file and the buffer hold a log that ends with the last [n] events. *)
Definition journal_holds (n : nat) (past : list EventRecord) (j : Journal) : Prop :=
  exists log, Forall storable_record log /\ on_disk j ++ buffered j = WAL_MAGIC ++ frames log
    /\ last_n n (map persisted_view log) = last_n n (map persisted_view past).

Lemma append_holds n past j r : storable_record r -> journal_holds n past j ->
  journal_holds n (past ++ [r]) (snd (journal_append r j)).
Proof.
  intros Hr (log & Hl & Hd & Hp). exists (log ++ [r]). split; [by apply Forall_app; split; [|constructor]|].
  destruct Hr as (_ & _ & Hr). unfold journal_append. cbv zeta.
  replace (MAX_WAL_RECORD <? zlen (record_payload r)) with false by lia. cbn [snd on_disk buffered]. split.
  - rewrite app_assoc, Hd, frames_app, <- app_assoc. unfold frames at 2. cbn. by rewrite app_nil_r.
  - rewrite !map_app. cbn [map]. by rewrite <- last_n_snoc, Hp, last_n_snoc.
Qed.

Lemma rewrite_holds n past j : Forall storable_record past -> journal_holds n past (journal_rewrite (last_n n past) j).
Proof.
  intros Hp. exists (last_n n past). split; [|split].
  - unfold last_n. by apply Forall_drop.
  - cbn. by rewrite app_nil_r.
  - pose proof (last_n_app n (map persisted_view past) []) as Ha. rewrite !app_nil_r in Ha. rewrite <- Ha. f_equal.
    unfold last_n. rewrite length_map. symmetry. apply skipn_map.
Qed.

Lemma flush_holds n past j : journal_holds n past j -> journal_holds n past (journal_flush j).
Proof. intros (log & Hl & Hd & Hp). exists log. cbn. by rewrite app_nil_r. Qed.

Lemma writer_run_holds cap evs : forall past w,
  Forall storable_record past -> Forall storable_record (written evs) ->
  rings_ok (Z.to_nat (Z.max cap 1)) past evs -> journal_holds (Z.to_nat (Z.max cap 1)) past (journal w) ->
  let w' := foldl (writer_step cap) w evs in
  journal_holds (Z.to_nat (Z.max cap 1)) (past ++ written evs) (journal w')
  /\ writer_cursor w' = checkpoint_max (writer_cursor w) evs.
Proof.
  induction evs as [|e evs IH]; intros past w Hp Hs Hr Hj w'; [by rewrite app_nil_r|].
  subst w'. cbn [foldl]. destruct e as [r ring|b|]; cbn [writer_step rings_ok written omap list_omap checkpoint_max foldl] in *.
  - destruct Hr as [-> Hr]. apply Forall_cons in Hs as [Hs1 Hs].
    assert (Hp' : Forall storable_record (past ++ [r])) by (apply Forall_app; split; [done|by constructor]).
    change (r :: omap _ evs) with ([r] ++ written evs). rewrite app_assoc.
    apply (IH (past ++ [r]) (writer_step cap w (WriteEvent r (last_n (Z.to_nat (Z.max cap 1)) (past ++ [r]))))); [done..|].
    cbn [writer_step journal].
    destruct (_ <? records _); [by apply rewrite_holds|by apply append_holds].
  - by apply (IH past (writer_step cap w (WriteCheckpoint b))).
  - apply (IH past (writer_step cap w FlushTick)); [done..|]. by apply flush_holds.
Qed.

(** What the file of a flushed writer stands for, and how many records were appended since
    it was opened or compacted: a compaction puts the ring of that moment in the place of
    all that was there, the event that set it off included. *)
Definition log_step (cap : Z) (s : list EventRecord * Z) (e : writer_event) : list EventRecord * Z :=
  match e with
  | WriteEvent r ring => if Z.max (u64_sat_mul cap 2) 2 <? snd s + 1 then (ring, zlen ring) else (fst s ++ [r], snd s + 1)
  | _ => s
  end.
Definition rings (evs : list writer_event) : list EventRecord :=
  concat (omap (fun e => match e with WriteEvent _ ring => Some ring | _ => None end) evs).

(** The file and the buffer hold exactly a log. *)
Definition journal_is (s : list EventRecord * Z) (j : Journal) : Prop :=
  Forall storable_record (fst s) /\ on_disk j ++ buffered j = WAL_MAGIC ++ frames (fst s) /\ records j = snd s.

Lemma append_is s j r : storable_record r -> journal_is s j -> journal_is (fst s ++ [r], snd s + 1) (snd (journal_append r j)).
Proof.
  intros Hr (Hl & Hd & Hn). split; [by apply Forall_app; split; [|constructor]|].
  destruct Hr as (_ & _ & Hr). unfold journal_append. cbv zeta.
  replace (MAX_WAL_RECORD <? zlen (record_payload r)) with false by lia. cbn [snd fst on_disk buffered records]. split; [|by rewrite Hn].
  rewrite app_assoc, Hd, frames_app, <- app_assoc. unfold frames at 2. cbn. by rewrite app_nil_r.
Qed.

Lemma writer_run_is cap evs : forall s w, Forall storable_record (written evs) -> Forall storable_record (rings evs) ->
  journal_is s (journal w) -> journal_is (foldl (log_step cap) s evs) (journal (foldl (writer_step cap) w evs)).
Proof.
  induction evs as [|e evs IH]; intros s w Hs Hr Hj; [done|]. cbn [foldl]. destruct e as [r ring|b|].
  - apply Forall_cons in Hs as [Hs1 Hs]. change (rings (WriteEvent r ring :: evs)) with (ring ++ rings evs) in Hr.
    apply Forall_app in Hr as [Hr1 Hr]. apply IH; [done..|]. pose proof (append_is s (journal w) r Hs1 Hj) as Ha.
    cbn [writer_step journal log_step]. rewrite (proj2 (proj2 Ha)). cbn [snd]. destruct (_ <? snd s + 1); [|exact Ha].
    split; [exact Hr1|]. cbn. by rewrite app_nil_r.
  - by apply (IH s (writer_step cap w (WriteCheckpoint b))).
  - apply (IH s (writer_step cap w FlushTick)); [done..|]. destruct Hj as (Hl & Hd & Hn). split; [done|]. cbn. by rewrite app_nil_r.
Qed.

Lemma checkpoint_max_ge evs : forall c, c <= checkpoint_max c evs.
Proof.
  induction evs as [|[r ring|b|] evs IH]; intros c; cbn; [lia|apply IH| |apply IH].
  specialize (IH (Z.max c b)). unfold checkpoint_max in *. lia.
Qed.

(** C33: the storage writer.  Whatever the ring holds at each event, after any sequence of
    events, checkpoints, flushes and compactions and a last flush the file is the records it
    was opened with and all events since, or, from the last compaction on, the ring of that
    moment and the events since it; a compaction comes when these are more than twice the
    capacity and more than two, not counting what the file was opened with.  A restart loads the last of them, up to the
    capacity, and the highest checkpoint, never an older one.  If the ring at each event
    holds the last of exactly those events that have arrived, the restart loads the last
    events of all that ever arrived, in order and once each. *)
Theorem writer_keeps_log cap log0 evs files c0 :
  Forall storable_record log0 -> Forall storable_record (written evs) -> Forall storable_record (rings evs) -> 0 < c0 ->
  let w := foldl (writer_step cap)
    {| journal := journal_open (Some (WAL_MAGIC ++ frames log0)); writer_cursor := c0; writer_files := files |}
    (evs ++ [FlushTick]) in
  let log := fst (foldl (log_step cap) (log0, 0) evs) in
  let last_events := last_n (Z.to_nat (Z.max cap 1)) in
  on_disk (journal w) = WAL_MAGIC ++ frames log
  /\ load_events cap (files_with_wal (on_disk (journal w))) = Ok (last_events (map persisted_view log))
  /\ (forall past0, Forall storable_record past0 -> last_events (map persisted_view log0) = last_events (map persisted_view past0) ->
        rings_ok (Z.to_nat (Z.max cap 1)) past0 evs ->
        load_events cap (files_with_wal (on_disk (journal w))) = Ok (last_events (map persisted_view (past0 ++ written evs))))
  /\ uma_cursor (writer_files w) = Some (fmt_u64 (checkpoint_max c0 evs)) /\ c0 <= checkpoint_max c0 evs.
Proof.
  intros Hl0 Hs Hrs Hc0 w log last_events. unfold w. rewrite foldl_app. cbn [foldl writer_step journal journal_flush on_disk].
  set (w0 := {| journal := _; writer_cursor := c0; writer_files := files |}).
  destruct (writer_run_is cap evs (log0, 0) w0 Hs Hrs) as (Hl & Hd & _); [split; [done|]; cbn; by rewrite app_nil_r|].
  fold log in Hl, Hd. rewrite Hd, load_frames by done. split; [done|]. split; [done|]. split.
  - intros past0 Hp0 Heq Hr. destruct (writer_run_holds cap evs past0 w0 Hp0 Hs Hr) as [(log' & Hl' & Hd' & Hh) _].
    { exists log0. split; [done|]. split; [|exact Heq]. cbn. by rewrite app_nil_r. }
    pose proof (load_frames cap log Hl) as E1. pose proof (load_frames cap log' Hl') as E2. rewrite Hd in Hd'. rewrite Hd', E2 in E1.
    rewrite <- E1. unfold last_events. by rewrite Hh.
  - assert (Hcur : forall evs w, writer_cursor (foldl (writer_step cap) w evs) = checkpoint_max (writer_cursor w) evs).
    { clear. induction evs as [|[r ring|b|] evs IH]; intros w; cbn [foldl]; [done|..]; rewrite IH; done. }
    cbn [writer_files]. rewrite Hcur. cbn [w0 writer_cursor]. pose proof (checkpoint_max_ge evs c0). split; [|done].
    by replace (0 <? checkpoint_max c0 evs) with true by lia.
Qed.
End Journal.

(** ** A journal that can be run *)

(** A codec for the examples: the fields as one number, a bit per byte. *)
#[local] Instance pb_eq_dec : EqDecision pb.UmaEvent.
Proof. solve_decision. Defined.

#[local] Program Instance pb_countable : Countable pb.UmaEvent :=
  inj_countable'
    (fun e => (pb.sequence e, pb.event_type e, pb.transaction_hash e, pb.log_index e, pb.market_id e, pb.condition_id e,
               pb.token_ids e, pb.tag_ids e, pb.upstream_received_at_us e, pb.removed e,
               (pb.enrichment_status e, pb.price_outcome e, pb.category e, pb.bet_type e, pb.neg_risk e)))
    (fun '(s, t, h, l, m, c, ts, tg, u, r, (es, po, ca, bt, nr)) =>
       {| pb.sequence := s; pb.event_type := t; pb.transaction_hash := h; pb.log_index := l; pb.market_id := m;
          pb.condition_id := c; pb.token_ids := ts; pb.tag_ids := tg; pb.upstream_received_at_us := u; pb.removed := r;
          pb.enrichment_status := es; pb.price_outcome := po; pb.category := ca; pb.bet_type := bt; pb.neg_risk := nr |}) _.
Next Obligation. by intros []. Qed.

Fixpoint bits_bytes (p : positive) : bytes :=
  match p with xH => [x01] | xO p => x00 :: bits_bytes p | xI p => x02 :: bits_bytes p end.
Fixpoint bytes_bits (b : bytes) : option positive :=
  match b with
  | [] => None
  | x01 :: _ => Some 1%positive
  | x00 :: b => xO <$> bytes_bits b
  | _ :: b => xI <$> bytes_bits b
  end.
Lemma bytes_bits_rt p : bytes_bits (bits_bytes p) = Some p.
Proof. induction p as [p IH|p IH|]; cbn; [by rewrite IH..|done]. Qed.

(** The checksum of the examples: the first bytes. *)
Definition head_sum (b : bytes) : Z := be_decode (take 4 b).

Definition sample_codec : WalCodec.
Proof.
  refine {| encode_event := fun e => bits_bytes (encode e); decode_event := fun b => p ← bytes_bits b; decode p;
            crc32 := head_sum |}.
  - intros e _. rewrite bytes_bits_rt. cbn. apply decode_encode.
  - intros b. unfold head_sum. pose proof (be_decode_bound (take 4 b)) as Hr.
    assert (256 ^ Z.of_nat (length (take 4 b)) <= 256 ^ 4).
    { apply Z.pow_le_mono_r; [lia|]. rewrite length_take. lia. }
    change (2 ^ 32) with (256 ^ 4). lia.
Defined.

Lemma sample_storable seq : 0 <= seq < 2 ^ 64 ->
  zlen (record_payload (H := sample_numbers) (H0 := sample_codec) (sample_record seq)) <= MAX_WAL_RECORD ->
  storable_record (H := sample_numbers) (H0 := sample_codec) (sample_record seq).
Proof.
  intros Hseq Hl. split; [|split; [|exact Hl]].
  - split; [done|done|]. intros m [= <-]. split; [done|]. by repeat constructor.
  - clear Hl. constructor; [exact Hseq|..]; cbn [to_proto sample_record pb.event_type pb.log_index pb.market_id
      pb.tag_ids pb.upstream_received_at_us pb.enrichment_status pb.price_outcome pb.category pb.bet_type].
    4: { cbn. repeat constructor; lia. }
    all: vm_compute; split; [intros Hc; inversion Hc|reflexivity].
Qed.

Lemma catalog_roundtrip_witness :
  exists f', save_catalog (H := sample_numbers) [sample_market] (files_with_wal []) = (Ok tt, f')
    /\ fst (load_catalog (H := sample_numbers) f') = Ok [sample_market].
Proof.
  destruct (catalog_roundtrip (H := sample_numbers) [sample_market] (files_with_wal [])) as (f' & Hs & Hl & _).
  - repeat constructor; cbn; lia.
  - reflexivity.
  - exists f'. split; [exact Hs|]. rewrite Hl. reflexivity.
Defined.

Lemma sample_one : storable_record (H := sample_numbers) (H0 := sample_codec) (sample_record 1).
Proof. apply sample_storable; [lia|]. apply Z.leb_le. vm_compute. reflexivity. Qed.
Lemma sample_two : storable_record (H := sample_numbers) (H0 := sample_codec) (sample_record 2).
Proof. apply sample_storable; [lia|]. apply Z.leb_le. vm_compute. reflexivity. Qed.

(** One flushed record and one torn one: a restart finds the first. *)
Lemma journal_crash_safe_witness :
  load_events (H := sample_numbers) (H0 := sample_codec) 100
    (files_with_wal (crash 10 (append_all (H := sample_numbers) (H0 := sample_codec) [sample_record 2]
      (journal_flush (append_all (H := sample_numbers) (H0 := sample_codec) [sample_record 1] (journal_open None))))))
  = Ok [persisted_view (sample_record 1)].
Proof.
  etransitivity; [apply (journal_crash_safe (H := sample_numbers) (H0 := sample_codec) [sample_record 1] [sample_record 2] 10 100)|];
    [constructor; [exact sample_one|constructor]|constructor; [exact sample_two|constructor]|].
  vm_compute. reflexivity.
Defined.

(** A journal reopened after a torn tail appends behind it: a restart reads the
    torn record's header together with the bytes of the new record, stops at the
    checksum, and never reads what was appended later. *)
Example append_after_torn_tail_is_lost :
  let torn := crash 10 (append_all (H := sample_numbers) (H0 := sample_codec) [sample_record 2]
    (journal_flush (append_all (H := sample_numbers) (H0 := sample_codec) [sample_record 1] (journal_open None)))) in
  load_events (H := sample_numbers) (H0 := sample_codec) 100
    (files_with_wal (on_disk (journal_flush
       (append_all (H := sample_numbers) (H0 := sample_codec) [sample_record 3; sample_record 4] (journal_open (Some torn))))))
  = Ok [persisted_view (sample_record 1)].
Proof. vm_compute. reflexivity. Qed.

(** Capacity 1: the third event makes the counter pass [2] and the file is compacted. *)
Definition sample_arrivals : list writer_event :=
  [WriteEvent (sample_record 1) [sample_record 1]; WriteCheckpoint 50; WriteEvent (sample_record 2) [sample_record 2];
   FlushTick; WriteEvent (sample_record 1) [sample_record 1]; WriteCheckpoint 40; WriteEvent (sample_record 2) [sample_record 2]].

Lemma writer_keeps_log_witness :
  load_events (H := sample_numbers) (H0 := sample_codec) 1
    (files_with_wal (on_disk (journal (foldl (writer_step (H := sample_numbers) (H0 := sample_codec) 1)
      {| journal := journal_open (Some (WAL_MAGIC ++ frames (H := sample_numbers) (H0 := sample_codec) [])); writer_cursor := 7;
         writer_files := files_with_wal [] |}
      (sample_arrivals ++ [FlushTick])))))
  = Ok [persisted_view (sample_record 2)].
Proof.
  destruct (writer_keeps_log (H := sample_numbers) (H0 := sample_codec) 1 [] sample_arrivals (files_with_wal []) 7) as (_ & Hload & _).
  - constructor.
  - constructor; [exact sample_one|constructor; [exact sample_two|constructor; [exact sample_one|constructor; [exact sample_two|constructor]]]].
  - constructor; [exact sample_one|constructor; [exact sample_two|constructor; [exact sample_one|constructor; [exact sample_two|constructor]]]].
  - lia.
  - etransitivity; [exact Hload|vm_compute; reflexivity].
Defined.
