(* ===== verification/System.v ===== *)
(** * System: the service with everything in flight ([src/pipeline.rs], [src/storage.rs],
    [src/main.rs])

    Any number of calls of [process], the batcher, the storage writer, the tasks that change
    the catalog and the blocklist, and the stop of the process, all at once.  A call is cut at
    each access to something shared, so every order in which threads can reach the hub, the
    counters, the lists and the channels is a list of actions here.  [Pipeline] has the same
    call in one piece ([process]); [call_alone] joins the two. *)
From S2P Require Import Prelude Model WireFrame Channel Events Calldata Hubs Category Catalog Forfeit Pipeline Storage.

(** ** A call between two accesses *)

Inductive Call :=
| AtCheck (e : UmaEvent) (source : string)
| AtResolve (e : UmaEvent) (source : string)
| AtCount (e : UmaEvent) (enr : option MarketEnrichment) (source : string)
| AtNumber (e : UmaEvent) (enr : option MarketEnrichment) (source : string)
| AtInsert (r : EventRecord) (source : string)
| AtStore (r : EventRecord)
| AtFilter (r : EventRecord)
| AtBlock (r : EventRecord) (match_id : Z)
| AtSend (r : EventRecord).

(** How a call returns. *)
Inductive Fate :=
| Undecodable
| Duplicate
| Unenriched (r : EventRecord)
| Held (r : EventRecord)
| Broadcast (r : EventRecord)
| Refused (r : EventRecord).

Inductive call_result := Goes (c : Call) | Ends (f : Fate).

(** What a step did, for the statements. *)
Inductive Note :=
| Received
| Inserted (r : EventRecord)
| Queued (c : StorageCommand)
| Dropped (c : StorageCommand)
| Ended (f : Fate)
| Taken (c : StorageCommand)
| Batch (n : Z) (b : list EventRecord).

Definition stats_dropped (s : Stats) : Stats :=
  {| rpc_logs_received := rpc_logs_received s; last_upstream_received_at_us := last_upstream_received_at_us s;
     decode_errors := decode_errors s; duplicates := duplicates s; enrichment_hits := enrichment_hits s;
     enrichment_hits_via_market_id := enrichment_hits_via_market_id s; enrichment_misses := enrichment_misses s;
     enrichment_recent_hits := enrichment_recent_hits s; enrichment_recent_total := enrichment_recent_total s;
     events_decoded := events_decoded s; latest_block := latest_block s;
     storage_queue_dropped := increment (storage_queue_dropped s); source_race := source_race s |}.

(** The batcher between two accesses to its channel. *)
Inductive BatcherState :=
| Top (pending : option EventRecord)
| Filling (batch : list EventRecord) (estimated : Z)
| Ready (batch : list EventRecord) (pending : option EventRecord)
| BatcherStopped.

Inductive WriterState := Waiting | Holding (c : StorageCommand) | WriterStopped.

Section System.
Context `{EthCodec} `{Mpsc StorageCommand} `{WireNumbers} `{WalCodec}.
Variable event_len : EventRecord -> Z.
Variable publish : FrameHub -> Z * list EventRecord -> FrameHub.
Variables (batch_max_events batch_max_bytes : Z).
Variables (batch_capacity event_ring_capacity : Z).

(** *** Updates of the processor *)

Definition with_window (w : list bool) (s : Stats) (p : Processor) : Processor :=
  {| config := config p; catalog := catalog p; hub := hub p; forfeit := forfeit p; counter := counter p; window := w;
     stats := s; storage_tx := storage_tx p; batch_tx := batch_tx p; batch_open := batch_open p |}.
Definition with_counter (n : Z) (p : Processor) : Processor :=
  {| config := config p; catalog := catalog p; hub := hub p; forfeit := forfeit p; counter := n; window := window p;
     stats := stats p; storage_tx := storage_tx p; batch_tx := batch_tx p; batch_open := batch_open p |}.
Definition with_hub (h : EventHub) (s : Stats) (p : Processor) : Processor :=
  {| config := config p; catalog := catalog p; hub := h; forfeit := forfeit p; counter := counter p; window := window p;
     stats := s; storage_tx := storage_tx p; batch_tx := batch_tx p; batch_open := batch_open p |}.
Definition with_storage (tx : chan) (s : Stats) (p : Processor) : Processor :=
  {| config := config p; catalog := catalog p; hub := hub p; forfeit := forfeit p; counter := counter p; window := window p;
     stats := s; storage_tx := tx; batch_tx := batch_tx p; batch_open := batch_open p |}.
Definition with_lists (cat : Catalog) (f : ForfeitBlocklist) (p : Processor) : Processor :=
  {| config := config p; catalog := cat; hub := hub p; forfeit := f; counter := counter p; window := window p;
     stats := stats p; storage_tx := storage_tx p; batch_tx := batch_tx p; batch_open := batch_open p |}.
Definition with_batch (q : list EventRecord) (opened : bool) (p : Processor) : Processor :=
  {| config := config p; catalog := catalog p; hub := hub p; forfeit := forfeit p; counter := counter p; window := window p;
     stats := stats p; storage_tx := storage_tx p; batch_tx := q; batch_open := opened |}.

(** *** One step of a call *)

Definition send_storage (c : StorageCommand) (p : Processor) : Processor * list Note :=
  match try_send (storage_tx p) c with
  | Sent tx => (with_storage tx (stats p) p, [Queued c])
  | Full | Channel.Closed => (with_stats (stats_dropped (stats p)) p, [Dropped c])
  end.

(** [None]: the call waits for room in the batch channel. *)
Definition call_step (now : Z) (c : Call) (p : Processor) : option (call_result * Processor * list Note) :=
  match c with
  | AtCheck e source =>
      Some (if contains (chain_key (event_chain e)) (hub p)
            then (Ends Duplicate, with_stats (stats_duplicate source (stats p)) p, [])
            else (Goes (AtResolve e source), p, []))
  | AtResolve e source =>
      let enr := resolve (anc_market_id (ancillary (event_request e))) (req_condition_id (event_request e)) (catalog p) in
      Some (Goes (AtCount e enr source), p, [])
  | AtCount e enr source =>
      let hit := bool_decide (is_Some enr) in
      let '(w, hits) := record_recent_enrichment hit (window p) (enrichment_recent_hits (stats p)) in
      let via := bool_decide (is_Some (anc_market_id (ancillary (event_request e)))) in
      Some (Goes (AtNumber e enr source), with_window w (stats_enrichment hit via hits (zlen w) (stats p)) p, [])
  | AtNumber e enr source =>
      let seq := u64_add (counter p) 1 in
      let r := {| sequence := seq; event := e; enrichment := enr; price_outcome := event_outcome e |} in
      Some (Goes (AtInsert r source), with_counter seq p, [])
  | AtInsert r source =>
      let '(fresh, h) := insert_event r (hub p) in
      Some (if fresh
            then (Goes (AtStore r), with_hub h (stats_accepted source (block_number (event_chain (event r))) true (stats p)) p, [Inserted r])
            else (Ends Duplicate, with_stats (stats_duplicate source (stats p)) p, []))
  | AtStore r => let '(p, notes) := send_storage (StoreEvent r) p in Some (Goes (AtFilter r), p, notes)
  | AtFilter r =>
      Some (match enrichment r with
            | None => (Ends (Unenriched r), p, [])
            | Some _ =>
                match lookup_match (resolved_condition_id r) (forfeit p) with
                | Some m => (Goes (AtBlock r m), p, [])
                | None => (Goes (AtSend r), p, [])
                end
            end)
  | AtBlock r m => Some (Ends (Held r), with_lists (catalog p) (record_blocked r m now (forfeit p)) p, [])
  | AtSend r =>
      if batch_open p then
        if zlen (batch_tx p) <? batch_capacity then Some (Ends (Broadcast r), with_batch (batch_tx p ++ [r]) true p, []) else None
      else Some (Ends (Refused r), p, [])
  end.

(** *** One step of the batcher *)

(** Its state, what is left in its channel, and the batch it publishes. *)
Definition batcher_step (b : BatcherState) (queue : list EventRecord)
  : option (BatcherState * list EventRecord * option (list EventRecord)) :=
  match b with
  | Top pending => '(e, queue) ← take_first pending queue; Some (Filling [e] (event_len e), queue, None)
  | Filling batch estimated =>
      if Z.max batch_max_events 1 <=? zlen batch then Some (Ready batch None, queue, None) else
      match queue with
      | [] => Some (Ready batch None, [], None)
      | next :: queue =>
          let size := event_len next in
          if (batch_max_bytes <? u64_add estimated size) && negb (zlen batch =? 0) then Some (Ready batch (Some next), queue, None)
          else Some (Filling (batch ++ [next]) (u64_add estimated size), queue, None)
      end
  | Ready batch pending => Some (Top pending, queue, Some batch)
  | BatcherStopped => None
  end.

(** ** The whole *)

Record System := {
  calls : list Call;
  proc : Processor;
  batching : BatcherState;
  batch_number : Z;
  frame_hub : FrameHub;
  writing : WriterState;
  writer : Writer;
  stopping : bool;
  notes : list Note }.

Inductive Action :=
| Deliver (raw : RpcLog) (received_at_us : Z) (source : string)
| Advance (i : nat) (now : Z)
| SendCheckpoint (block : Z)
| ListsBecome (cat : Catalog) (f : ForfeitBlocklist)
| BatcherMoves
| WriterReceives
| WriterWrites
| WriterFlushes
| StopRequested
| BatcherStops
| WriterStops.

Definition with_calls (cs : list Call) (p : Processor) (ns : list Note) (s : System) : System :=
  {| calls := cs; proc := p; batching := batching s; batch_number := batch_number s; frame_hub := frame_hub s;
     writing := writing s; writer := writer s; stopping := stopping s; notes := notes s ++ ns |}.
Definition with_batcher (b : BatcherState) (n : Z) (h : FrameHub) (p : Processor) (ns : list Note) (s : System) : System :=
  {| calls := calls s; proc := p; batching := b; batch_number := n; frame_hub := h;
     writing := writing s; writer := writer s; stopping := stopping s; notes := notes s ++ ns |}.
Definition with_writer (ws : WriterState) (w : Writer) (p : Processor) (ns : list Note) (s : System) : System :=
  {| calls := calls s; proc := p; batching := batching s; batch_number := batch_number s; frame_hub := frame_hub s;
     writing := ws; writer := w; stopping := stopping s; notes := notes s ++ ns |}.
Definition with_stopping (s : System) : System :=
  {| calls := calls s; proc := proc s; batching := batching s; batch_number := batch_number s; frame_hub := frame_hub s;
     writing := writing s; writer := writer s; stopping := true; notes := notes s |}.

(** [process] up to the first shared access. *)
Definition deliver (raw : RpcLog) (at_ : Z) (source : string) (p : Processor) : call_result * Processor :=
  let p := with_stats (stats_received at_ (stats p)) p in
  match decode_signal_log raw at_ (contract_address_bytes (config p)) (require_market_id (config p)) with
  | Err _ => (Ends Undecodable, with_stats (stats_decode_error (stats p)) p)
  | Ok e => (Goes (AtCheck e source), p)
  end.
Definition goes (r : call_result) : list Call := match r with Goes c => [c] | Ends _ => [] end.
Definition ended (r : call_result) : list Note := match r with Goes _ => [] | Ends f => [Ended f] end.

Definition writer_event_of (c : StorageCommand) (h : EventHub) : writer_event :=
  match c with StoreEvent r => WriteEvent r (events h) | Checkpoint block => WriteCheckpoint block end.

(** [None]: the action cannot happen now. *)
Definition exec (s : System) (a : Action) : option System :=
  let p := proc s in
  match a with
  | Deliver raw at_ source =>
      let '(r, p) := deliver raw at_ source p in Some (with_calls (calls s ++ goes r) p (Received :: ended r) s)
  | Advance i now =>
      c ← calls s !! i;
      '(r, p, ns) ← call_step now c p;
      Some (with_calls (delete i (calls s) ++ goes r) p (ns ++ ended r) s)
  | SendCheckpoint block => let '(p, ns) := send_storage (Checkpoint block) p in Some (with_calls (calls s) p ns s)
  | ListsBecome cat f => Some (with_calls (calls s) (with_lists cat f p) [] s)
  | BatcherMoves =>
      '(b, queue, out) ← batcher_step (batching s) (batch_tx p);
      let p := with_batch queue (batch_open p) p in
      Some (match out with
            | None => with_batcher b (batch_number s) (frame_hub s) p [] s
            | Some batch =>
                let n := next_batch_sequence (batch_number s) in
                with_batcher b n (publish (frame_hub s) (n, batch)) p [Batch n batch] s
            end)
  | WriterReceives =>
      match writing s, recv (storage_tx p) with
      | Waiting, Some (c, rx) => Some (with_writer (Holding c) (writer s) (with_storage rx (stats p) p) [Taken c] s)
      | _, _ => None
      end
  | WriterWrites =>
      match writing s with
      | Holding c => Some (with_writer Waiting (writer_step event_ring_capacity (writer s) (writer_event_of c (hub p))) p [] s)
      | _ => None
      end
  | WriterFlushes =>
      match writing s with
      | Waiting => Some (with_writer Waiting (writer_step event_ring_capacity (writer s) FlushTick) p [] s)
      | _ => None
      end
  | StopRequested => Some (with_stopping s)
  | BatcherStops =>
      match batching s, stopping s with
      | Top None, true => Some (with_batcher BatcherStopped (batch_number s) (frame_hub s) (with_batch (batch_tx p) false p) [] s)
      | _, _ => None
      end
  | WriterStops =>
      match writing s, stopping s with
      | Waiting, true =>
          Some (with_writer WriterStopped (writer_step event_ring_capacity (writer s) FlushTick)
                  (with_storage (drop_receiver (storage_tx p)) (stats p) p) [] s)
      | _, _ => None
      end
  end.

Fixpoint run (s : System) (acts : list Action) : option System :=
  match acts with
  | [] => Some s
  | a :: acts => s ← exec s a; run s acts
  end.

(** At the start: [boot]'s processor, its tasks waiting. *)
Definition system_start (p : Processor) (h : FrameHub) (w : Writer) : System :=
  {| calls := []; proc := p; batching := Top None; batch_number := 0; frame_hub := h; writing := Waiting; writer := w;
     stopping := false; notes := [] |}.
End System.
