(* ===== verification/Accounting.v ===== *)
(** * Accounting: no log disappears unseen ([System])

    Whatever the threads, the batcher, the writer and the other tasks do in whatever order:
    every log is counted under what became of it, every event that entered the ring is in one
    place, the batcher gets the events in the order they were sent, and nothing waits for ever. *)
From S2P Require Import Prelude Model WireFrame Channel Events Calldata Hubs Category Catalog Forfeit Pipeline Storage System.

(** ** Reading the notes *)

(** The notes of one kind, in order. *)
Definition pick {A} (f : Note -> option A) (ns : list Note) : list A := omap f ns.
#[global] Arguments pick : simpl never.
Lemma pick_app {A} (f : Note -> option A) ns ms : pick f (ns ++ ms) = pick f ns ++ pick f ms.
Proof. apply omap_app. Qed.
Lemma pick_cons {A} (f : Note -> option A) n ns : pick f (n :: ns) = opt_list (f n) ++ pick f ns.
Proof. unfold pick. cbn. by destruct (f n). Qed.
Lemma pick_nil {A} (f : Note -> option A) : pick f [] = [].
Proof. done. Qed.

Definition note_inserted (n : Note) : option EventRecord := match n with Inserted r => Some r | _ => None end.
Definition note_fate (n : Note) : option Fate := match n with Ended f => Some f | _ => None end.
Definition note_received (n : Note) : option unit := match n with Received => Some tt | _ => None end.
Definition note_queued (n : Note) : option StorageCommand := match n with Queued c => Some c | _ => None end.
Definition note_dropped (n : Note) : option StorageCommand := match n with Dropped c => Some c | _ => None end.
Definition note_taken (n : Note) : option StorageCommand := match n with Taken c => Some c | _ => None end.
Definition note_batch (n : Note) : option (Z * list EventRecord) := match n with Batch i b => Some (i, b) | _ => None end.
Abbreviation inserted := (pick note_inserted).
Abbreviation fates := (pick note_fate).
Abbreviation received := (pick note_received).
Abbreviation queued_commands := (pick note_queued).
Abbreviation dropped_commands := (pick note_dropped).
Abbreviation taken_commands := (pick note_taken).
Abbreviation batches := (pick note_batch).

Ltac notes_simpl :=
  cbn [calls proc batching batch_number frame_hub writing writer stopping notes with_calls with_batcher with_writer with_stopping
    with_batch with_storage with_lists with_stats batch_tx storage_tx batch_open goes ended];
  rewrite ?pick_app, ?pick_cons, ?pick_nil;
  cbn [note_inserted note_fate note_received note_queued note_dropped note_taken note_batch opt_list app omap list_omap];
  rewrite ?app_nil_r, ?app_nil_l.

(** The record a call holds once it is in the ring, and the one a finished call left. *)
Definition held_record (c : Call) : option EventRecord :=
  match c with AtStore r | AtFilter r | AtBlock r _ | AtSend r => Some r | _ => None end.
Definition fate_record (f : Fate) : option EventRecord :=
  match f with Unenriched r | Held r | Broadcast r | Refused r => Some r | Undecodable | Duplicate => None end.
Definition broadcast (f : Fate) : option EventRecord := match f with Broadcast r => Some r | _ => None end.
Definition undecoded (f : Fate) : option unit := match f with Undecodable => Some tt | _ => None end.
Definition duplicate (f : Fate) : option unit := match f with Duplicate => Some tt | _ => None end.
Definition stored_record (c : StorageCommand) : option EventRecord := match c with StoreEvent r => Some r | Checkpoint _ => None end.
Definition unstored (c : Call) : option EventRecord := match c with AtStore r => Some r | _ => None end.
Definition numbered (c : Call) : option EventRecord := match c with AtInsert r _ => Some r | _ => None end.
(** A call whose log is not in the ring yet. *)
Definition undecided (c : Call) : option unit := match held_record c with Some _ => None | None => Some tt end.

Definition in_hand (b : BatcherState) : list EventRecord :=
  match b with
  | Top pending => opt_list pending
  | Filling batch _ => batch
  | Ready batch pending => batch ++ opt_list pending
  | BatcherStopped => []
  end.

Definition modulo64 {A} (l : list A) : Z := zlen l mod 2 ^ 64.
Lemma increment_modulo64 {A} (l : list A) x : increment (modulo64 l) = modulo64 (l ++ [x]).
Proof. unfold increment, modulo64, u64_add. rewrite zlen_app, zlen_cons, zlen_nil, Zplus_mod_idemp_l. f_equal. Qed.

(** The counters a process starts with at zero. *)
Definition fresh_counters (s : Stats) : Prop :=
  rpc_logs_received s = 0 /\ decode_errors s = 0 /\ duplicates s = 0 /\ events_decoded s = 0 /\ storage_queue_dropped s = 0.

Section Accounting.
Context `{EthCodec} `{Mpsc StorageCommand} `{WireNumbers} `{WalCodec}.
Variable event_len : EventRecord -> Z.
Variable publish : FrameHub -> Z * list EventRecord -> FrameHub.
Variables (batch_max_events batch_max_bytes : Z).
Variables (batch_capacity event_ring_capacity : Z).
#[local] Abbreviation exec := (exec event_len publish batch_max_events batch_max_bytes batch_capacity event_ring_capacity).
#[local] Abbreviation run := (run event_len publish batch_max_events batch_max_bytes batch_capacity event_ring_capacity).
#[local] Abbreviation call_step := (call_step batch_capacity).
#[local] Abbreviation batcher_step := (batcher_step event_len batch_max_events batch_max_bytes).

Lemma run_ind (P : System -> Prop) : (forall s a s', exec s a = Some s' -> P s -> P s') ->
  forall acts s s', run s acts = Some s' -> P s -> P s'.
Proof.
  intros Hstep. induction acts as [|a acts IH]; intros s s' Hr HP; [by injection Hr as <-|].
  cbn in Hr. destruct (exec s a) as [s1|] eqn:E; [|done]. eauto.
Qed.

Lemma run_app s acts acts' : run s (acts ++ acts') = run s acts ≫= (fun s => run s acts').
Proof. revert s. induction acts as [|a acts IH]; intros s; [done|]. cbn. destruct (exec s a); [apply IH|done]. Qed.

(** *** What a step does to each list *)

Lemma calls_perm {A} (f : Call -> option A) cs i c : cs !! i = Some c -> omap f cs ≡ₚ opt_list (f c) ++ omap f (delete i cs).
Proof.
  intros Hi. apply delete_Permutation in Hi. rewrite Hi at 1. cbn. by destruct (f c).
Qed.

(** The lists of a call's step: what the call held, and what there is after it. *)
Record step_balance (c : Call) (r : call_result) (p p' : Processor) (ns : list Note) : Prop := {
  sb_held : inserted ns ++ opt_list (held_record c) ≡ₚ omap held_record (goes r) ++ omap fate_record (fates (ended r));
  sb_received : received ns = [];
  sb_fates : fates ns = [];
  sb_taken : taken_commands ns = [];
  sb_batches : batches ns = [];
  sb_counts : (length (opt_list (undecided c))
    = length (omap undecided (goes r)) + length (inserted ns) + length (omap duplicate (fates (ended r))))%nat;
  sb_undecoded : omap undecoded (fates (ended r)) = [];
  sb_sent : batch_tx p' = batch_tx p ++ omap broadcast (fates (ended r));
  sb_open : batch_open p' = batch_open p;
  sb_config : config p' = config p;
  sb_commands : queued_commands ns = [] /\ storage_tx p' = storage_tx p
    \/ (exists r, ns = [Queued (StoreEvent r)] /\ try_send (storage_tx p) (StoreEvent r) = Sent (storage_tx p'));
  sb_stored : opt_list (unstored c) ++ inserted ns
    ≡ₚ omap unstored (goes r) ++ omap stored_record (queued_commands ns ++ dropped_commands ns);
}.

Lemma call_step_balance now c p r p' ns : call_step now c p = Some (r, p', ns) -> step_balance c r p p' ns.
Proof.
  intros Hs. destruct c as [e src|e src|e enr src|e enr src|rc src|rc|rc|rc m|rc]; cbn [System.call_step] in Hs.
  - destruct (contains _ _); injection Hs as <- <- <-; split; cbn; rewrite ?app_nil_r; auto.
  - injection Hs as <- <- <-; split; cbn; rewrite ?app_nil_r; auto.
  - destruct (record_recent_enrichment _ _ _) as [w hits]. injection Hs as <- <- <-; split; cbn; rewrite ?app_nil_r; auto.
  - injection Hs as <- <- <-; split; cbn; rewrite ?app_nil_r; auto.
  - destruct (insert_event rc (hub p)) as [[] h]; injection Hs as <- <- <-; split; cbn; rewrite ?app_nil_r; auto.
  - unfold send_storage in Hs. destruct (try_send (storage_tx p) (StoreEvent rc)) as [tx| |] eqn:E; injection Hs as <- <- <-;
      split; cbn; rewrite ?app_nil_r; auto. right. by exists rc.
  - destruct (enrichment rc); [destruct (lookup_match _ _)|]; injection Hs as <- <- <-; split; cbn; rewrite ?app_nil_r; auto.
  - injection Hs as <- <- <-; split; cbn; rewrite ?app_nil_r; auto.
  - destruct (batch_open p) eqn:Eo; [destruct (_ <? _)|]; try discriminate; injection Hs as <- <- <-; split; cbn; rewrite ?app_nil_r; auto.
Qed.

(** ** Where everything is *)

Record accounted (h0 : FrameHub) (s : System) : Prop := {
  ac_received : length (received (notes s))
    = (length (omap undecoded (fates (notes s))) + length (omap duplicate (fates (notes s))) + length (inserted (notes s))
       + length (omap undecided (calls s)))%nat;
  ac_inserted : inserted (notes s) ≡ₚ omap held_record (calls s) ++ omap fate_record (fates (notes s));
  ac_stored : inserted (notes s)
    ≡ₚ omap unstored (calls s) ++ omap stored_record (queued_commands (notes s) ++ dropped_commands (notes s));
  ac_sent : omap broadcast (fates (notes s)) = concat (map snd (batches (notes s))) ++ in_hand (batching s) ++ batch_tx (proc s);
  ac_frames : frame_hub s = foldl publish h0 (batches (notes s));
  ac_commands : exists lost, queued_commands (notes s) = taken_commands (notes s) ++ lost ++ queued (storage_tx (proc s))
    /\ match writing s with WriterStopped => receiving (storage_tx (proc s)) = false | _ => lost = [] end }.

Lemma accounted_start p h w : batch_tx p = [] -> queued (storage_tx p) = [] -> accounted h (system_start p h w).
Proof. intros Hb Hq. split; cbn; rewrite ?Hb, ?Hq; try done. by exists []. Qed.

Lemma ended_notes r : inserted (ended r) = [] /\ received (ended r) = [] /\ queued_commands (ended r) = []
  /\ dropped_commands (ended r) = [] /\ taken_commands (ended r) = [] /\ batches (ended r) = [].
Proof. by destruct r. Qed.

(** A command that is sent is queued behind the others; a stopped writer takes none. *)
Lemma queued_behind (taken sent_ : list StorageCommand) c tx tx' ws : try_send tx c = Sent tx' ->
  (exists lost, sent_ = taken ++ lost ++ queued tx /\ match ws with WriterStopped => receiving tx = false | _ => lost = [] end) ->
  exists lost, sent_ ++ [c] = taken ++ lost ++ queued tx' /\ match ws with WriterStopped => receiving tx' = false | _ => lost = [] end.
Proof.
  intros Hs (lost & L1 & L2). pose proof (try_send_spec tx c) as Ht. rewrite Hs in Ht. destruct Ht as (T1 & _ & T3 & T4 & _).
  exists lost. rewrite T3, L1, <- !app_assoc. split; [done|]. destruct ws; [done|done|congruence].
Qed.

Lemma advance_accounted h0 s i now s' : exec s (Advance i now) = Some s' -> accounted h0 s -> accounted h0 s'.
Proof.
  intros He [A1 A2 A3 A4 A5 A6]. cbn in He. destruct (calls s !! i) as [c|] eqn:Ei; [|done]. cbn in He.
  destruct (call_step now c (proc s)) as [[[r p'] ns]|] eqn:Ec; [|done]. injection He as <-.
  apply call_step_balance in Ec as [B1 B2 B3 B4 B5 B6 B7 B8 B9 B10 B11 B12].
  pose proof (ended_notes r) as (R1 & R2 & R3 & R4 & R5 & R6).
  split; notes_simpl; rewrite ?R1, ?R2, ?R3, ?R4, ?R5, ?R6, ?B2, ?B3, ?B4, ?B5, ?app_nil_r, ?app_nil_l, ?omap_app.
  - rewrite !length_app, B7. cbn [length]. rewrite A1. pose proof (calls_perm undecided _ _ _ Ei) as Hp.
    apply Permutation_length in Hp. rewrite length_app in Hp. lia.
  - rewrite A2, (calls_perm held_record _ _ _ Ei).
    transitivity (omap held_record (delete i (calls s)) ++ (inserted ns ++ opt_list (held_record c)) ++ omap fate_record (fates (notes s))); [solve_Permutation|].
    rewrite B1. solve_Permutation.
  - rewrite A3, omap_app, (calls_perm unstored _ _ _ Ei).
    transitivity (omap unstored (delete i (calls s)) ++ (opt_list (unstored c) ++ inserted ns)
      ++ omap stored_record (queued_commands (notes s)) ++ omap stored_record (dropped_commands (notes s))); [solve_Permutation|].
    rewrite B12, omap_app. solve_Permutation.
  - rewrite A4, B8. by rewrite !app_assoc.
  - done.
  - destruct B11 as [[-> ->]|(rc & -> & Hs)]; [by rewrite app_nil_r|by eapply queued_behind].
Qed.

Lemma batcher_step_keeps b q b' q' out : batcher_step b q = Some (b', q', out) ->
  in_hand b ++ q = default [] out ++ in_hand b' ++ q'.
Proof.
  destruct b as [pending|batch est|batch pending|]; cbn [System.batcher_step]; [| | |done].
  - destruct pending as [e|]; [|destruct q as [|e q]; [done|]]; by intros [= <- <- <-].
  - destruct (_ <=? _); [by intros [= <- <- <-]; cbn; rewrite app_nil_r|]. destruct q as [|next q].
    + intros [= <- <- <-]. cbn. by rewrite !app_nil_r.
    + cbv zeta. destruct (_ && _); intros [= <- <- <-]; cbn; by rewrite <- app_assoc.
  - intros [= <- <- <-]. cbn. by rewrite <- app_assoc.
Qed.

Lemma send_storage_spec c p : let '(p', ns) := send_storage c p in
  batch_tx p' = batch_tx p /\ batch_open p' = batch_open p /\ hub p' = hub p /\ counter p' = counter p
  /\ (ns = [Queued c] /\ try_send (storage_tx p) c = Sent (storage_tx p') /\ stats p' = stats p
      \/ ns = [Dropped c] /\ storage_tx p' = storage_tx p /\ stats p' = stats_dropped (stats p)).
Proof. unfold send_storage. destruct (try_send _ _); cbn; auto 10. Qed.

Lemma exec_accounted h0 s a s' : exec s a = Some s' -> accounted h0 s -> accounted h0 s'.
Proof.
  intros He Ha. destruct a as [raw at_ src|i now|block|cat f| | | | | | |]; [|by eapply advance_accounted|..];
    destruct Ha as [A1 A2 A3 A4 A5 A6]; cbn in He.
  - unfold deliver in He. destruct (decode_signal_log _ _ _ _) as [e|e]; injection He as <-; split; notes_simpl; rewrite ?(omap_app _ (calls s)), ?(omap_app _ (fates (notes s)));
      notes_simpl; auto; rewrite ?length_app; cbn [length omap list_omap undecided held_record undecoded duplicate]; lia.
  - destruct (send_storage _ _) as [p' ns] eqn:E. pose proof (send_storage_spec (Checkpoint block) (proc s)) as Hs. rewrite E in Hs.
    destruct Hs as (S1 & _ & _ & _ & [(-> & S3 & _)|(-> & S3 & _)]); injection He as <-; split; notes_simpl; rewrite ?S1, ?S3; auto.
    + rewrite A3, !omap_app. cbn. by rewrite app_nil_r.
    + by eapply queued_behind.
    + rewrite A3, !omap_app. cbn. by rewrite app_nil_r.
  - injection He as <-. by split; notes_simpl.
  - destruct (batcher_step (batching s) (batch_tx (proc s))) as [[[b q] out]|] eqn:E; [|done]. apply batcher_step_keeps in E. cbn in He.
    destruct out as [batch|]; injection He as <-; split; notes_simpl; auto.
    + rewrite map_app, concat_app. cbn. rewrite app_nil_r, A4, E, <- !app_assoc. done.
    + rewrite foldl_app. cbn. by rewrite <- A5.
    + by rewrite A4, E.
  - destruct (writing s) eqn:Ew; try done. destruct (recv (storage_tx (proc s))) as [[c rx]|] eqn:Er; [|done]. injection He as <-.
    split; notes_simpl; auto.
    pose proof (recv_spec (storage_tx (proc s))) as Hr. rewrite Er in Hr. destruct Hr as (R1 & _). destruct A6 as (lost & L1 & ->).
    exists []. rewrite L1, R1. cbn. by rewrite <- app_assoc.
  - destruct (writing s) eqn:Ew; try done. injection He as <-. split; notes_simpl; auto.
  - destruct (writing s) eqn:Ew; try done. injection He as <-. split; notes_simpl; auto.
  - injection He as <-. by split; notes_simpl.
  - destruct (batching s) as [[e|]|? ?|? ?|] eqn:Eb; try done. destruct (stopping s); [|done]. injection He as <-. split; notes_simpl; auto.
  - destruct (writing s) eqn:Ew; try done. destruct (stopping s); [|done]. injection He as <-. split; notes_simpl; auto.
    destruct (drop_receiver_spec (storage_tx (proc s))) as (D1 & D2 & _). destruct A6 as (lost & L1 & ->).
    exists (queued (storage_tx (proc s))). rewrite D1, app_nil_r. by rewrite L1.
Qed.

(** ** The counters *)

Record counted (st : Stats) (ns : list Note) : Prop := {
  ct_received : rpc_logs_received st = modulo64 (received ns);
  ct_undecoded : decode_errors st = modulo64 (omap undecoded (fates ns));
  ct_duplicate : duplicates st = modulo64 (omap duplicate (fates ns));
  ct_decoded : events_decoded st = modulo64 (inserted ns);
  ct_dropped : storage_queue_dropped st = modulo64 (dropped_commands ns) }.

Lemma call_step_counted now c p r p' ns0 ns : call_step now c p = Some (r, p', ns) -> counted (stats p) ns0 ->
  counted (stats p') (ns0 ++ ns ++ ended r).
Proof.
  intros Hs [C1 C2 C3 C4 C5]. destruct c as [e src|e src|e enr src|e enr src|rc src|rc|rc|rc m|rc]; cbn [System.call_step] in Hs.
  - destruct (contains _ _); injection Hs as <- <- <-; split; notes_simpl; rewrite ?omap_app; cbn; rewrite ?app_nil_r; auto.
    by rewrite C3, <- (increment_modulo64 _ tt).
  - injection Hs as <- <- <-; split; notes_simpl; auto.
  - destruct (record_recent_enrichment _ _ _) as [w hits]. injection Hs as <- <- <-; split; notes_simpl; auto.
  - injection Hs as <- <- <-; split; notes_simpl; auto.
  - destruct (insert_event rc (hub p)) as [[] h]; injection Hs as <- <- <-; split; notes_simpl; rewrite ?omap_app; cbn; rewrite ?app_nil_r; auto.
    + by rewrite C4, <- (increment_modulo64 _ rc).
    + by rewrite C3, <- (increment_modulo64 _ tt).
  - pose proof (send_storage_spec (StoreEvent rc) p) as Hp. destruct (send_storage _ _) as [p1 ns1]. injection Hs as <- <- <-.
    destruct Hp as (_ & _ & _ & _ & [(-> & _ & ->)|(-> & _ & ->)]); split; notes_simpl; auto.
    cbn. by rewrite C5, <- (increment_modulo64 _ (StoreEvent rc)).
  - destruct (enrichment rc); [destruct (lookup_match _ _)|]; injection Hs as <- <- <-; split; notes_simpl; rewrite ?omap_app; cbn;
      rewrite ?app_nil_r; auto.
  - injection Hs as <- <- <-; split; notes_simpl; rewrite ?omap_app; cbn; rewrite ?app_nil_r; auto.
  - destruct (batch_open p) eqn:Eo; [destruct (_ <? _)|]; try discriminate; injection Hs as <- <- <-; split; notes_simpl; rewrite ?omap_app; cbn;
      rewrite ?app_nil_r; auto.
Qed.

Lemma exec_counted s a s' : exec s a = Some s' -> counted (stats (proc s)) (notes s) -> counted (stats (proc s')) (notes s').
Proof.
  intros He Hc. destruct a as [raw at_ src|i now|block|cat f| | | | | | |]; cbn in He.
  - unfold deliver in He. destruct Hc as [C1 C2 C3 C4 C5]. destruct (decode_signal_log _ _ _ _) as [e|e]; injection He as <-; split; notes_simpl;
      rewrite ?omap_app; cbn; rewrite ?app_nil_r; auto; try (by rewrite C1, <- (increment_modulo64 _ tt));
      by rewrite C2, <- (increment_modulo64 _ tt).
  - destruct (calls s !! i) as [c|]; [|done]. cbn in He. destruct (call_step now c (proc s)) as [[[r p'] ns]|] eqn:Ec; [|done].
    injection He as <-. by eapply call_step_counted.
  - pose proof (send_storage_spec (Checkpoint block) (proc s)) as Hp. destruct (send_storage _ _) as [p1 ns1]. injection He as <-.
    destruct Hc as [C1 C2 C3 C4 C5]. destruct Hp as (_ & _ & _ & _ & [(-> & _ & E)|(-> & _ & E)]); split; notes_simpl; rewrite ?E; auto.
    cbn. by rewrite C5, <- (increment_modulo64 _ (Checkpoint block)).
  - injection He as <-. cbn. by rewrite app_nil_r.
  - destruct (batcher_step _ _) as [[[b q] out]|]; [|done]. cbn in He. destruct Hc as [C1 C2 C3 C4 C5].
    destruct out; injection He as <-; split; notes_simpl; auto.
  - destruct (writing s), (recv (storage_tx (proc s))) as [[cmd rx]|]; try done. injection He as <-.
    destruct Hc as [C1 C2 C3 C4 C5]. split; notes_simpl; auto.
  - destruct (writing s); try done. injection He as <-. cbn. by rewrite app_nil_r.
  - destruct (writing s); try done. injection He as <-. cbn. by rewrite app_nil_r.
  - by injection He as <-.
  - destruct (batching s) as [[]| | |], (stopping s); try done. injection He as <-. cbn. by rewrite app_nil_r.
  - destruct (writing s), (stopping s); try done. injection He as <-. cbn. by rewrite app_nil_r.
Qed.

(** ** Numbers and the ring *)

Record ring_ok (c0 : Z) (old : list EventRecord) (cap : Z) (s : System) : Prop := {
  ro_hub : event_hub_inv (hub (proc s));
  ro_cap : Hubs.capacity (hub (proc s)) = cap;
  ro_events : events (hub (proc s)) = last_n (Z.to_nat cap) (old ++ inserted (notes s));
  ro_fresh : forall pre r post, inserted (notes s) = pre ++ r :: post ->
    record_key r ∉ map record_key (last_n (Z.to_nat cap) (old ++ pre));
  ro_nodup : NoDup (map sequence (inserted (notes s) ++ omap numbered (calls s)));
  ro_range : Forall (fun n => c0 < n <= counter (proc s)) (map sequence (inserted (notes s) ++ omap numbered (calls s)));
  ro_base : c0 <= counter (proc s) }.

Lemma call_step_ring now c p r p' ns : call_step now c p = Some (r, p', ns) ->
  (hub p' = hub p /\ inserted ns = []
     /\ (counter p' = counter p /\ omap numbered (goes r) = []
         \/ exists rc, omap numbered (goes r) = [rc] /\ numbered c = None /\ sequence rc = u64_add (counter p) 1 /\ counter p' = u64_add (counter p) 1))
  \/ (exists rc, numbered c = Some rc /\ insert_event rc (hub p) = (true, hub p') /\ inserted ns = [rc] /\ counter p' = counter p
       /\ omap numbered (goes r) = []).
Proof.
  intros Hs. destruct c as [e src|e src|e enr src|e enr src|rc src|rc|rc|rc m|rc]; cbn [System.call_step] in Hs.
  - destruct (contains _ _); injection Hs as <- <- <-; left; cbn; auto.
  - injection Hs as <- <- <-; left; cbn; auto.
  - destruct (record_recent_enrichment _ _ _) as [w hits]. injection Hs as <- <- <-; left; cbn; auto.
  - injection Hs as <- <- <-; left; cbn. split; [done|split; [done|]]. right. by eexists.
  - destruct (insert_event rc (hub p)) as [[] h] eqn:E; injection Hs as <- <- <-; [right|left; cbn; auto]. by exists rc.
  - pose proof (send_storage_spec (StoreEvent rc) p) as Hp. destruct (send_storage _ _) as [p1 ns1]. injection Hs as <- <- <-.
    left. destruct Hp as (_ & _ & -> & -> & [(-> & _)|(-> & _)]); cbn; auto.
  - destruct (enrichment rc); [destruct (lookup_match _ _)|]; injection Hs as <- <- <-; left; cbn; auto.
  - injection Hs as <- <- <-; left; cbn; auto.
  - destruct (batch_open p); [destruct (_ <? _)|]; try discriminate; injection Hs as <- <- <-; left; cbn; auto.
Qed.

(** Whatever else happens leaves the ring and the numbers alone. *)
Lemma exec_other_ring s a s' : exec s a = Some s' -> match a with Advance _ _ => False | _ => True end ->
  hub (proc s') = hub (proc s) /\ counter (proc s') = counter (proc s) /\ inserted (notes s') = inserted (notes s)
  /\ omap numbered (calls s') = omap numbered (calls s).
Proof.
  intros He Ha. destruct a as [raw at_ src|i now|block|cat f| | | | | | |]; [|done|..]; cbn in He.
  - unfold deliver in He. destruct (decode_signal_log _ _ _ _) as [e|e]; injection He as <-; notes_simpl; rewrite ?omap_app; cbn;
      rewrite ?app_nil_r; auto.
  - pose proof (send_storage_spec (Checkpoint block) (proc s)) as Hp. destruct (send_storage _ _) as [p1 ns1]. injection He as <-.
    destruct Hp as (_ & _ & E1 & E2 & [(-> & _)|(-> & _)]); notes_simpl; auto.
  - injection He as <-. notes_simpl. auto.
  - destruct (batcher_step _ _) as [[[b q] out]|]; [|done]. cbn in He. destruct out; injection He as <-; notes_simpl; auto.
  - destruct (writing s), (recv (storage_tx (proc s))) as [[cmd rx]|]; try done. injection He as <-. notes_simpl; auto.
  - destruct (writing s); try done. injection He as <-. notes_simpl; auto.
  - destruct (writing s); try done. injection He as <-. notes_simpl; auto.
  - injection He as <-. auto.
  - destruct (batching s) as [[]| | |], (stopping s); try done. injection He as <-. notes_simpl; auto.
  - destruct (writing s), (stopping s); try done. injection He as <-. notes_simpl; auto.
Qed.

Lemma exec_ring_ok c0 old cap s a s' : exec s a = Some s' -> 0 <= c0 -> counter (proc s) < u64_max -> ring_ok c0 old cap s ->
  ring_ok c0 old cap s' /\ counter (proc s') <= counter (proc s) + 1.
Proof.
  intros He Hc0 Hmax Hr. destruct a as [|i now| | | | | | | | |];
    try (pose proof (exec_other_ring _ _ _ He I) as (E1 & E2 & E3 & E4); rewrite E2; split; [|lia];
         destruct Hr as [R1 R2 R3 R4 R5 R6 R7]; split; rewrite ?E1, ?E2, ?E3, ?E4; done).
  destruct Hr as [R1 R2 R3 R4 R5 R6 R7]. cbn in He. destruct (calls s !! i) as [c|] eqn:Ei; [|done]. cbn in He.
  destruct (call_step now c (proc s)) as [[[r p'] ns]|] eqn:Ec; [|done]. injection He as <-.
  pose proof (calls_perm numbered _ _ _ Ei) as Hp. pose proof (ended_notes r) as (Q1 & _). apply call_step_ring in Ec.
  assert (Hall : inserted (notes s) ++ omap numbered (calls s)
    ≡ₚ opt_list (numbered c) ++ inserted (notes s) ++ omap numbered (delete i (calls s))) by (rewrite Hp; solve_Permutation).
  rewrite Hall in R5, R6. rewrite map_app in R5, R6. apply NoDup_app in R5 as (N1 & N2 & N3). apply Forall_app in R6 as [F1 F2].
  destruct Ec as [(E1 & E2 & E3)|(rc & E1 & E2 & E3 & E4 & E5)].
  - assert (Hins : inserted (notes (with_calls (delete i (calls s) ++ goes r) p' (ns ++ ended r) s)) = inserted (notes s)).
    { notes_simpl. by rewrite E2, Q1, !app_nil_r. }
    destruct E3 as [[E3 E4]|(rc & E3 & E4 & E5 & E6)].
    + split; [|cbn; lia]. split; rewrite ?Hins; cbn [proc calls with_calls]; rewrite ?E1, ?E3, ?omap_app, ?E4, ?app_nil_r; done.
    + rewrite u64_add_small in E5, E6 by (unfold u64_max in *; lia). split; [|cbn; lia].
      assert (Hperm : map sequence (inserted (notes s) ++ omap numbered (delete i (calls s) ++ goes r))
        ≡ₚ (counter (proc s) + 1) :: map sequence (inserted (notes s) ++ omap numbered (delete i (calls s)))).
      { rewrite omap_app, E3, app_assoc, map_app. cbn. rewrite E5. symmetry. apply Permutation_cons_append. }
      split; rewrite ?Hins; cbn [proc calls with_calls]; rewrite ?E1, ?E6; [done|done|done|done|..|lia].
      * rewrite Hperm. constructor; [|done]. rewrite Forall_forall in F2. intros Hi. apply F2 in Hi. lia.
      * rewrite Hperm. constructor; [lia|]. eapply Forall_impl; [exact F2|]. cbn. lia.
  - split; [|cbn; lia]. pose proof (insert_event_spec rc (hub (proc s)) R1) as Hi. pose proof (insert_event_inv rc (hub (proc s)) R1) as Hv.
    pose proof (contains_key_set (record_key rc) (hub (proc s)) R1) as Hk. rewrite E2 in Hi, Hv. cbn [snd] in Hv.
    destruct (contains (record_key rc) (hub (proc s))); [done|]. injection Hi as Hi.
    assert (Hins : inserted (notes (with_calls (delete i (calls s) ++ goes r) p' (ns ++ ended r) s)) = inserted (notes s) ++ [rc]).
    { notes_simpl. by rewrite E3, Q1, !app_nil_r. }
    rewrite E1 in N1, N2, F1. cbn in N1, N2, F1. apply Forall_inv in F1.
    assert (Hperm : map sequence ((inserted (notes s) ++ [rc]) ++ omap numbered (delete i (calls s) ++ goes r))
      ≡ₚ sequence rc :: map sequence (inserted (notes s) ++ omap numbered (delete i (calls s)))).
    { rewrite omap_app, E5, app_nil_r, <- app_assoc, !map_app. cbn. symmetry. apply Permutation_middle. }
    split; rewrite ?Hins; cbn [proc calls with_calls]; rewrite ?E4; [done|by rewrite Hi| | | | |done].
    + rewrite Hi. cbn [events]. rewrite R3, R2. by rewrite last_n_app, <- app_assoc.
    + intros pre x post Hpre. destruct (decide (post = [])) as [->|Hne].
      * apply app_inj_tail in Hpre as [<- <-]. rewrite <- R3. intros Hin. by apply Hk in Hin.
      * destruct (exists_last Hne) as (post' & y & ->). rewrite app_comm_cons, app_assoc in Hpre. apply app_inj_tail in Hpre as [Hpre _].
        by eapply R4.
    + rewrite Hperm. constructor; [|done]. intros Hin. apply (N2 (sequence rc)); [by left|done].
    + rewrite Hperm. by constructor.
Qed.

(** ** Nothing waits for ever *)

(** What the tasks do when no log arrives and nobody stops them. *)
Definition internal (a : Action) : Prop :=
  match a with Advance _ _ | BatcherMoves | WriterReceives | WriterWrites => True | _ => False end.

Definition call_work (c : Call) : nat :=
  match c with
  | AtCheck _ _ => 13 | AtResolve _ _ => 12 | AtCount _ _ _ => 11 | AtNumber _ _ _ => 10 | AtInsert _ _ => 9 | AtStore _ => 8
  | AtFilter _ => 5 | AtBlock _ _ => 1 | AtSend _ => 4
  end.
Definition batching_work (b : BatcherState) : nat :=
  match b with
  | Top None => 0 | Top (Some _) => 3 | Filling _ _ => 2 | Ready _ None => 1 | Ready _ (Some _) => 4 | BatcherStopped => 0
  end.
Definition writing_work (w : WriterState) : nat := match w with Holding _ => 1 | _ => 0 end.
(** What is left to do. *)
Definition work (s : System) : nat :=
  sum_list_with call_work (calls s) + batching_work (batching s) + 3 * length (batch_tx (proc s))
  + 2 * length (queued (storage_tx (proc s))) + writing_work (writing s).

Lemma sum_calls cs i c : cs !! i = Some c -> (sum_list_with call_work cs = call_work c + sum_list_with call_work (delete i cs))%nat.
Proof.
  revert i. induction cs as [|x cs IH]; intros [|i] Hi; [done|done|by injection Hi as ->|]. apply IH in Hi.
  change (sum_list_with call_work (x :: cs)) with (call_work x + sum_list_with call_work cs)%nat.
  change (sum_list_with call_work (delete (S i) (x :: cs))) with (call_work x + sum_list_with call_work (delete i cs))%nat. lia.
Qed.

Lemma call_step_work now c p r p' ns : call_step now c p = Some (r, p', ns) ->
  (sum_list_with call_work (goes r) + 3 * length (batch_tx p') + 2 * length (queued (storage_tx p'))
   < call_work c + 3 * length (batch_tx p) + 2 * length (queued (storage_tx p)))%nat.
Proof.
  intros Hs. destruct c as [e src|e src|e enr src|e enr src|rc src|rc|rc|rc m|rc]; cbn [System.call_step] in Hs.
  - destruct (contains _ _); injection Hs as <- <- <-; cbn; lia.
  - injection Hs as <- <- <-; cbn; lia.
  - destruct (record_recent_enrichment _ _ _) as [w hits]. injection Hs as <- <- <-; cbn; lia.
  - injection Hs as <- <- <-; cbn; lia.
  - destruct (insert_event rc (hub p)) as [[] h]; injection Hs as <- <- <-; cbn; lia.
  - pose proof (send_storage_spec (StoreEvent rc) p) as Hp. destruct (send_storage _ _) as [p1 ns1]. injection Hs as <- <- <-.
    destruct Hp as (-> & _ & _ & _ & [(-> & Ht & _)|(-> & -> & _)]); cbn; [|lia].
    pose proof (try_send_spec (storage_tx p) (StoreEvent rc)) as Hsp. rewrite Ht in Hsp. destruct Hsp as (_ & _ & -> & _).
    rewrite length_app. cbn. lia.
  - destruct (enrichment rc); [destruct (lookup_match _ _)|]; injection Hs as <- <- <-; cbn; lia.
  - injection Hs as <- <- <-; cbn; lia.
  - destruct (batch_open p); [destruct (_ <? _)|]; try discriminate; injection Hs as <- <- <-; cbn; rewrite ?length_app; cbn; lia.
Qed.

Lemma batcher_step_work b q b' q' out : batcher_step b q = Some (b', q', out) ->
  (batching_work b' + 3 * length q' < batching_work b + 3 * length q)%nat.
Proof.
  destruct b as [pending|batch est|batch pending|]; cbn [System.batcher_step]; [| | |done].
  - destruct pending as [e|]; [|destruct q as [|e q]; [done|]]; intros [= <- <- <-]; cbn; lia.
  - destruct (_ <=? _); [by intros [= <- <- <-]; cbn; lia|]. destruct q as [|next q]; [by intros [= <- <- <-]; cbn; lia|].
    cbv zeta. destruct (_ && _); intros [= <- <- <-]; cbn; lia.
  - intros [= <- <- <-]. destruct pending; cbn; lia.
Qed.

Lemma exec_work s a s' : exec s a = Some s' -> internal a -> (work s' < work s)%nat.
Proof.
  intros He Ha. destruct a as [|i now| | | | | | | | |]; try done; cbn in He; unfold work.
  - destruct (calls s !! i) as [c|] eqn:Ei; [|done]. cbn in He. destruct (call_step now c (proc s)) as [[[r p'] ns]|] eqn:Ec; [|done].
    injection He as <-. apply call_step_work in Ec. cbn [calls proc batching writing with_calls].
    rewrite sum_list_with_app, (sum_calls _ _ _ Ei). lia.
  - destruct (batcher_step _ _) as [[[b q] out]|] eqn:Eb; [|done]. apply batcher_step_work in Eb. cbn in He.
    destruct out; injection He as <-; cbn [calls proc batching writing with_batcher with_batch batch_tx storage_tx]; lia.
  - destruct (writing s) eqn:Ew; try done. pose proof (recv_spec (storage_tx (proc s))) as Hr.
    destruct (recv (storage_tx (proc s))) as [[cmd rx]|]; try done. destruct Hr as (-> & _). injection He as <-. cbn. lia.
  - destruct (writing s) eqn:Ew; try done. injection He as <-. cbn. lia.
Qed.

(** Every call has returned, and nothing is left in a channel that is still read. *)
Definition settled (s : System) : Prop :=
  calls s = []
  /\ match batching s with Top None => batch_tx (proc s) = [] | BatcherStopped => True | _ => False end
  /\ match writing s with Waiting => queued (storage_tx (proc s)) = [] | WriterStopped => True | Holding _ => False end.

(** The batch channel is open as long as the batcher runs, which only a stop ends. *)
Definition batch_channel_ok (s : System) : Prop :=
  match batching s with BatcherStopped => batch_open (proc s) = false /\ stopping s = true | _ => batch_open (proc s) = true end
  /\ (stopping s = false -> Forall (fun f => match f with Refused _ => False | _ => True end) (fates (notes s))).

Lemma call_step_fates now c p r p' ns : call_step now c p = Some (r, p', ns) -> batch_open p = true ->
  fates (ns ++ ended r) = [] \/ exists f, fates (ns ++ ended r) = [f] /\ match f with Refused _ => False | _ => True end.
Proof.
  intros Hs Ho. destruct c as [e src|e src|e enr src|e enr src|rc src|rc|rc|rc m|rc]; cbn [System.call_step] in Hs.
  - destruct (contains _ _); injection Hs as <- <- <-; notes_simpl; first [by left|right; by eexists].
  - injection Hs as <- <- <-; notes_simpl; first [by left|right; by eexists].
  - destruct (record_recent_enrichment _ _ _) as [w hits]. injection Hs as <- <- <-; notes_simpl; first [by left|right; by eexists].
  - injection Hs as <- <- <-; notes_simpl; first [by left|right; by eexists].
  - destruct (insert_event rc (hub p)) as [[] h]; injection Hs as <- <- <-; notes_simpl; first [by left|right; by eexists].
  - pose proof (send_storage_spec (StoreEvent rc) p) as Hp. destruct (send_storage _ _) as [p1 ns1]. injection Hs as <- <- <-.
    destruct Hp as (_ & _ & _ & _ & [(-> & _)|(-> & _)]); by left.
  - destruct (enrichment rc); [destruct (lookup_match _ _)|]; injection Hs as <- <- <-; notes_simpl; first [by left|right; by eexists].
  - injection Hs as <- <- <-; notes_simpl; first [by left|right; by eexists].
  - rewrite Ho in Hs. destruct (_ <? _); [|done]. injection Hs as <- <- <-; notes_simpl; first [by left|right; by eexists].
Qed.

Lemma exec_channel_ok s a s' : exec s a = Some s' -> batch_channel_ok s -> batch_channel_ok s'.
Proof.
  intros He [C1 C2]. destruct a as [raw at_ src|i now|block|cat f| | | | | | |]; cbn in He.
  - unfold deliver in He. destruct (decode_signal_log _ _ _ _) as [e|e]; injection He as <-; split; notes_simpl; auto.
    intros Hst. apply Forall_app. split; [auto|repeat constructor].
  - destruct (calls s !! i) as [c|]; [|done]. cbn in He. destruct (call_step now c (proc s)) as [[[r p'] ns]|] eqn:Ec; [|done].
    injection He as <-. pose proof (call_step_balance _ _ _ _ _ _ Ec) as Hb. split; cbn [batching proc stopping notes with_calls].
    { by rewrite (sb_open _ _ _ _ _ Hb). }
    intros Hst. rewrite pick_app. apply Forall_app. split; [auto|]. assert (Ho : batch_open (proc s) = true).
    { destruct (batching s); [done|done|done|]. destruct C1 as [_ C1]. congruence. }
    destruct (call_step_fates _ _ _ _ _ _ Ec Ho) as [->|(f & -> & Hf)]; [constructor|by repeat constructor].
  - pose proof (send_storage_spec (Checkpoint block) (proc s)) as Hp. destruct (send_storage _ _) as [p1 ns1]. injection He as <-.
    destruct Hp as (_ & E1 & _ & _ & [(-> & _)|(-> & _)]); split; notes_simpl; rewrite ?E1; auto.
  - injection He as <-. split; notes_simpl; auto.
  - destruct (batcher_step _ _) as [[[b q] out]|] eqn:Eb; [|done]. cbn in He.
    assert (Ho : batch_open (proc s) = true /\ b <> BatcherStopped).
    { destruct (batching s) as [[]|? ?|? ?|]; cbn in Eb; [| | | |done].
      - injection Eb as <- _ _. done.
      - destruct (batch_tx (proc s)); [done|]. by injection Eb as <- _ _.
      - destruct (_ <=? _); [by injection Eb as <- _ _|]. destruct (batch_tx (proc s)); [by injection Eb as <- _ _|].
        destruct (_ && _); by injection Eb as <- _ _.
      - by injection Eb as <- _ _. }
    destruct Ho as [Ho Hb]. destruct out; injection He as <-; split; notes_simpl; auto; by destruct b.
  - destruct (writing s), (recv (storage_tx (proc s))) as [[cmd rx]|]; try done. injection He as <-. split; notes_simpl; auto.
  - destruct (writing s); try done. injection He as <-. split; notes_simpl; auto.
  - destruct (writing s); try done. injection He as <-. split; notes_simpl; auto.
  - injection He as <-. split; notes_simpl; [|done]. destruct (batching s); [done|done|done|]. by destruct C1.
  - destruct (batching s) as [[]| | |], (stopping s) eqn:Est; try done. injection He as <-. split; notes_simpl; rewrite ?Est; auto.
  - destruct (writing s), (stopping s) eqn:Est; try done. injection He as <-. split; notes_simpl; rewrite ?Est; auto.
Qed.

Lemma internal_enabled s : 1 <= batch_capacity -> batch_channel_ok s -> settled s \/ exists a s', internal a /\ exec s a = Some s'.
Proof.
  intros Hcap [Hch _]. destruct (batcher_step (batching s) (batch_tx (proc s))) as [[[b q] out]|] eqn:Eb.
  { right. exists BatcherMoves. cbn. rewrite Eb. cbn. destruct out; by eexists. }
  assert (Hb : match batching s with Top None => batch_tx (proc s) = [] | BatcherStopped => True | _ => False end).
  { destruct (batching s) as [[]|? ?|? ?|]; cbn in Eb; [done| | |done|done].
    - by destruct (batch_tx (proc s)).
    - destruct (_ <=? _); [done|]. destruct (batch_tx (proc s)); [done|]. by destruct (_ && _). }
  destruct (calls s) as [|c cs] eqn:Ec.
  - destruct (writing s) as [|cmd|] eqn:Ew.
    + pose proof (recv_spec (storage_tx (proc s))) as Hr. destruct (recv (storage_tx (proc s))) as [[cmd rx]|] eqn:Er.
      * right. exists WriterReceives. cbn. rewrite Ew, Er. by eexists.
      * left. split; [done|]. split; [done|by rewrite Ew].
    + right. exists WriterWrites. cbn. rewrite Ew. by eexists.
    + left. split; [done|]. split; [done|by rewrite Ew].
  - right. exists (Advance 0 0). cbn. rewrite Ec. cbn.
    assert (Hc : exists x, call_step 0 c (proc s) = Some x).
    { destruct c as [e src|e src|e enr src|e enr src|rc src|rc|rc|rc m|rc]; cbn [System.call_step]; try by eexists.
      - destruct (record_recent_enrichment _ _ _). by eexists.
      - destruct (insert_event _ _). by eexists.
      - destruct (send_storage _ _). by eexists.
      - destruct (batching s) as [[]| | |]; try done.
        + rewrite Hch, Hb. replace (zlen [] <? batch_capacity) with true by (rewrite zlen_nil; lia). by eexists.
        + destruct Hch as [-> _]. by eexists. }
    destruct Hc as [[[r p'] ns] ->]. cbn. by eexists.
Qed.

(** ** A call that nothing interrupts *)

Fixpoint call_run (fuel : nat) (now : Z) (c : Call) (p : Processor) : option Processor :=
  match fuel with
  | O => None
  | S fuel => '(r, p, _) ← call_step now c p; match r with Goes c => call_run fuel now c p | Ends _ => Some p end
  end.

Lemma call_run_check now e src p : batch_open p = false \/ zlen (batch_tx p) < batch_capacity ->
  call_run 9 now (AtCheck e src) p
  = Some (if contains (chain_key (event_chain e)) (hub p) then with_stats (stats_duplicate src (stats p)) p else
          let market_id := anc_market_id (ancillary (event_request e)) in
          let enr := resolve market_id (req_condition_id (event_request e)) (catalog p) in
          let '(w, hits) := record_recent_enrichment (bool_decide (is_Some enr)) (window p) (enrichment_recent_hits (stats p)) in
          commit now {| prep_record := {| sequence := u64_add (counter p) 1; event := e; enrichment := enr;
                                          price_outcome := event_outcome e |}; prep_source := src |}
            (with_counter (u64_add (counter p) 1)
              (with_window w (stats_enrichment (bool_decide (is_Some enr)) (bool_decide (is_Some market_id)) hits (zlen w) (stats p)) p))).
Proof.
  intros Hroom. cbn [call_run System.call_step]. destruct (contains _ _); [done|]. cbn. destruct (record_recent_enrichment _ _ _) as [w hits].
  cbn. unfold commit. cbn [prep_record prep_source hub with_counter with_window].
  set (rc := {| sequence := _; event := _; enrichment := _; price_outcome := _ |}).
  destruct (insert_event rc (hub p)) as [[] h]; [|cbn; reflexivity]. cbn. unfold send_storage.
  cbn [storage_tx with_hub with_counter with_window stats forfeit batch_open batch_tx].
  destruct (try_send (storage_tx p) (StoreEvent rc)); cbn; (destruct (resolve _ _ _) as [en|]; cbn; [|reflexivity]);
    (destruct (lookup_match _ _); cbn; [reflexivity|]); (destruct (batch_open p) eqn:Eo; cbn; [|unfold with_stats, with_storage, with_hub; cbn; by rewrite Eo]);
    (destruct Hroom as [Hroom|Hroom]; [done|]); (replace (_ <? _) with true by lia); unfold with_batch; cbn; reflexivity.
Qed.

(** What [Pipeline] proves of [process] holds of a call here that runs on its own. *)
Lemma call_alone raw at_ src now p : batch_open p = false \/ zlen (batch_tx p) < batch_capacity ->
  match deliver raw at_ src p with
  | (Ends _, p') => p' = process raw at_ src now p
  | (Goes c, p') => call_run 9 now c p' = Some (process raw at_ src now p)
  end.
Proof.
  intros Hroom. unfold deliver, process, prepare. cbn [config with_stats]. destruct (decode_signal_log _ _ _ _) as [e|e]; [|done].
  rewrite call_run_check by done. cbn [hub with_stats]. destruct (contains _ _); [done|]. cbn zeta.
  change (catalog _) with (catalog p). change (window _) with (window p).
  destruct (record_recent_enrichment _ _ _) as [w hits]. done.
Qed.

(** ** The theorems *)

Lemma run_accounted h0 p w acts s : batch_tx p = [] -> queued (storage_tx p) = [] -> run (system_start p h0 w) acts = Some s -> accounted h0 s.
Proof. intros Hb Hq Hr. eapply (run_ind (accounted h0)); [apply exec_accounted|exact Hr|by apply accounted_start]. Qed.

Lemma run_channel_ok p h0 w acts s : batch_open p = true -> run (system_start p h0 w) acts = Some s -> batch_channel_ok s.
Proof. intros Ho Hr. eapply (run_ind batch_channel_ok); [apply exec_channel_ok|exact Hr|]. split; [done|]. intros _. constructor. Qed.

Lemma run_counted p h0 w acts s : fresh_counters (stats p) -> run (system_start p h0 w) acts = Some s -> counted (stats (proc s)) (notes s).
Proof.
  intros (F1 & F2 & F3 & F4 & F5) Hr. eapply (run_ind (fun s => counted (stats (proc s)) (notes s))); [apply exec_counted|exact Hr|].
  split; cbn; by rewrite ?F1, ?F2, ?F3, ?F4, ?F5.
Qed.

Lemma run_ring_ok acts : forall c0 old cap s0 s, 0 <= c0 -> counter (proc s0) + zlen acts <= u64_max ->
  ring_ok c0 old cap s0 -> run s0 acts = Some s -> ring_ok c0 old cap s.
Proof.
  induction acts as [|a acts IH]; intros c0 old cap s0 s Hc Hm Hr Hrun; [by injection Hrun as <-|].
  cbn in Hrun. destruct (exec s0 a) as [s1|] eqn:E; [|done]. rewrite zlen_cons in Hm. pose proof (zlen_nonneg acts).
  destruct (exec_ring_ok c0 old cap s0 a s1 E) as [Hr1 Hle]; [done|lia|done|]. eapply IH; [done| |done|done]. lia.
Qed.

(** C10: accounting.  Whatever the interleaving of any number of calls with the batcher,
    the storage writer, the tasks that change the lists and a stop: every log received is
    counted as undecodable, as a duplicate or as an event of the ring, or its call is still
    deciding, and the process's counters show these numbers; every event of the ring is
    held by exactly one call or came to exactly one end; the storage queue or the drop
    counter got each of them once; and the events sent to the batcher are, in the order of
    the sends, those of the batches published, then those in its hands, then its queue. *)
Theorem every_log_accounted p h0 w acts s :
  fresh_counters (stats p) -> batch_tx p = [] -> queued (storage_tx p) = [] ->
  run (system_start p h0 w) acts = Some s ->
  let ns := notes s in
  length (received ns) = (length (omap undecoded (fates ns)) + length (omap duplicate (fates ns)) + length (inserted ns)
                          + length (omap undecided (calls s)))%nat
  /\ counted (stats (proc s)) ns
  /\ inserted ns ≡ₚ omap held_record (calls s) ++ omap fate_record (fates ns)
  /\ inserted ns ≡ₚ omap unstored (calls s) ++ omap stored_record (queued_commands ns ++ dropped_commands ns)
  /\ omap broadcast (fates ns) = concat (map snd (batches ns)) ++ in_hand (batching s) ++ batch_tx (proc s)
  /\ frame_hub s = foldl publish h0 (batches ns).
Proof.
  intros Hf Hb Hq Hr ns. destruct (run_accounted h0 p w acts s Hb Hq Hr) as [A1 A2 A3 A4 A5 _].
  pose proof (run_counted p h0 w acts s Hf Hr) as Hc. done.
Qed.

(** C11: concurrent sources.  In every interleaving the events of the ring carry distinct
    sequence numbers above the starting one, no two calls ever get the same number, none
    repeats the key of an event still in the ring when it enters, and the ring is the last
    of them in the order they entered. *)
Theorem concurrent_numbers p h0 w acts s :
  event_hub_inv (hub p) -> 0 <= counter p -> counter p + zlen acts <= u64_max ->
  run (system_start p h0 w) acts = Some s ->
  let cap := Z.to_nat (Hubs.capacity (hub p)) in
  NoDup (map sequence (inserted (notes s) ++ omap numbered (calls s)))
  /\ Forall (fun n => counter p < n <= counter (proc s)) (map sequence (inserted (notes s) ++ omap numbered (calls s)))
  /\ events (hub (proc s)) = last_n cap (events (hub p) ++ inserted (notes s))
  /\ (forall pre r post, inserted (notes s) = pre ++ r :: post ->
        record_key r ∉ map record_key (last_n cap (events (hub p) ++ pre))).
Proof.
  intros Hh Hc Hm Hr cap.
  assert (Hring : ring_ok (counter p) (events (hub p)) (Hubs.capacity (hub p)) (system_start p h0 w)).
  { split; cbn; [done|done| |by intros [] ? ?|constructor|constructor|lia]. rewrite app_nil_r, last_n_all; [done|].
    destruct Hh as [_ Hh _ _]. unfold zlen in Hh. lia. }
  destruct (run_ring_ok acts _ _ _ (system_start p h0 w) s Hc Hm Hring Hr) as [_ _ R3 R4 R5 R6 _]. done.
Qed.

(** C12: progress.  Whatever state the service is in, if no more logs come, the tasks come
    to rest after a bounded number of steps however they are scheduled, the bounded batch
    channel included: as long as something is left to do some task can move, and each move
    leaves less.  At rest and not stopped, every event of the ring was found without a
    market, was held back, or is in a published batch, each exactly once. *)
Theorem service_settles p h0 w acts s rest s' :
  1 <= batch_capacity -> batch_open p = true -> batch_tx p = [] -> queued (storage_tx p) = [] ->
  run (system_start p h0 w) acts = Some s -> Forall internal rest -> run s rest = Some s' ->
  (length rest <= work s)%nat
  /\ (settled s' \/ exists a s'', internal a /\ exec s' a = Some s'')
  /\ (settled s' -> stopping s' = false ->
       inserted (notes s') ≡ₚ omap (fun f => match f with Unenriched r | Held r => Some r | _ => None end) (fates (notes s'))
                              ++ concat (map snd (batches (notes s')))).
Proof.
  intros Hcap Ho Hb Hq Hr Hi Hrest.
  assert (Hall : run (system_start p h0 w) (acts ++ rest) = Some s').
  { by rewrite run_app, Hr. }
  split; [|split].
  - clear -Hi Hrest. revert s Hrest. induction rest as [|a rest IH]; intros s Hrest; [cbn; lia|]. apply Forall_cons in Hi as [Ha Hi].
    cbn in Hrest. destruct (exec s a) as [s1|] eqn:E; [|done]. apply exec_work in E; [|done]. specialize (IH Hi s1 Hrest). cbn. lia.
  - apply internal_enabled; [done|]. by apply (run_channel_ok p h0 w (acts ++ rest)).
  - intros (S1 & S2 & _) Hstop. destruct (run_accounted h0 p w _ s' Hb Hq Hall) as [_ A2 _ A4 _ _].
    destruct (run_channel_ok p h0 w _ s' Ho Hall) as [C1 C2]. specialize (C2 Hstop). rewrite A2, S1. cbn.
    destruct (batching s') as [[e|]|? ?|? ?|]; try done; [|destruct C1; congruence]. cbn in A4. rewrite S2, app_nil_r in A4. rewrite <- A4.
    clear -C2. induction C2 as [|f fs Hf _ IH]; [done|]. destruct f as [| |r|r|r|r]; cbn; [done|done| | | |done]; rewrite IH; [done|done|].
    apply Permutation_middle.
Qed.
End Accounting.

(** ** Runs *)

Module SystemRuns.
#[local] Instance codec : EthCodec := Events.sample_codec.
#[local] Instance queue : Mpsc StorageCommand := list_mpsc StorageCommand.
#[local] Instance numbers : WireNumbers := sample_numbers.
#[local] Instance wal : WalCodec := Storage.sample_codec.
Definition len (_ : EventRecord) : Z := 10.
Definition out (h : FrameHub) (b : Z * list EventRecord) : FrameHub :=
  publish_batch WireFrame.Sample.encode_batch WireFrame.Sample.zstd_encode WireFrame.Sample.config (fun _ => 1700) h b.
Definition hub0 : FrameHub := resuming_after 4 5.
Definition writer0 : Writer := {| journal := journal_open None; writer_cursor := 0; writer_files := files_with_wal [] |}.
Abbreviation go := (run len out 1 1000 1 10).
Abbreviation begin := (system_start PipelineSample.start hub0 writer0).
Definition sequences (s : System) : list Z * list (list Z) * list Z :=
  (map sequence (inserted (notes s)), map (fun b => map sequence (snd b)) (batches (notes s)), map last_sequence (Hubs.frames (frame_hub s))).

(** Two logs whose calls run side by side, the batch channel holding one event. *)
Definition side_by_side : list Action :=
  [Deliver (PipelineSample.log 1) 1 "wss[0]"; Deliver (PipelineSample.log 2) 2 "wss[1]"] ++ replicate 14 (Advance 0 7) ++ [Advance 1 7].
Definition to_rest : list Action :=
  [BatcherMoves; Advance 0 7; BatcherMoves; BatcherMoves; BatcherMoves; BatcherMoves; BatcherMoves; WriterReceives; WriterWrites;
   WriterReceives; WriterWrites].
Definition crossed : option System := go begin side_by_side.
Definition rested : option System := go begin (side_by_side ++ to_rest).

(** The events enter the ring in order, but the call of the second one is first at the
    batch channel, and the first one waits for its place: the frames are out of order. *)
Example rings_in_order_frames_not : sequences <$> rested = Some ([6; 7], [[7]; [6]], [7; 6]).
Proof. vm_compute. reflexivity. Qed.

(** A call that finds the channel full can do nothing but wait. *)
Example full_channel_waits : crossed ≫= (fun s => exec len out 1 1000 1 10 s (Advance 0 7)) = None.
Proof. vm_compute. reflexivity. Qed.

Lemma hub_start : event_hub_inv (hub PipelineSample.start).
Proof. exact PipelineSample.hub_ok. Qed.

Lemma every_log_accounted_witness : exists s, rested = Some s /\ map sequence (inserted (notes s)) = [6; 7]
  /\ omap broadcast (fates (notes s)) = concat (map snd (batches (notes s))) ++ in_hand (batching s) ++ batch_tx (proc s).
Proof.
  pose proof rings_in_order_frames_not as Hs. destruct rested as [s|] eqn:E; [|discriminate Hs]. exists s.
  destruct (every_log_accounted len out 1 1000 1 10 PipelineSample.start hub0 writer0 (side_by_side ++ to_rest) s)
    as (_ & _ & _ & _ & A & _); [repeat split; reflexivity|reflexivity|reflexivity|exact E|].
  split; [reflexivity|]. split; [|exact A]. by injection Hs.
Defined.

Lemma concurrent_numbers_witness : exists s, rested = Some s /\ map sequence (inserted (notes s)) = [6; 7]
  /\ NoDup (map sequence (inserted (notes s) ++ omap numbered (calls s))).
Proof.
  pose proof rings_in_order_frames_not as Hs. destruct rested as [s|] eqn:E; [|discriminate Hs]. exists s.
  destruct (concurrent_numbers len out 1 1000 1 10 PipelineSample.start hub0 writer0 (side_by_side ++ to_rest) s hub_start)
    as (A & _); [cbn; lia|vm_compute; congruence|exact E|].
  split; [reflexivity|]. split; [|exact A]. by injection Hs.
Defined.

Lemma crossed_rests : exists s s', crossed = Some s /\ go s to_rest = Some s' /\ rested = Some s'.
Proof.
  pose proof rings_in_order_frames_not as Hs. assert (R : rested = crossed ≫= (fun s => go s to_rest)) by exact (run_app len out 1 1000 1 10 begin side_by_side to_rest).
  rewrite R in *. destruct crossed as [s|]; [|discriminate Hs]. exists s. cbn [mbind option_bind] in *.
  destruct (go s to_rest) as [s'|]; [|discriminate Hs]. exists s'. split_and!; reflexivity.
Qed.

Lemma service_settles_witness : exists s s', crossed = Some s /\ go s to_rest = Some s' /\ (length to_rest <= work s)%nat
  /\ map sequence (inserted (notes s')) = [6; 7].
Proof.
  destruct crossed_rests as (s & s' & E & E' & R). exists s, s'.
  destruct (service_settles len out 1 1000 1 10 PipelineSample.start hub0 writer0 side_by_side s to_rest s') as (A & _);
    [lia|reflexivity|reflexivity|reflexivity|exact E|repeat constructor|exact E'|].
  split; [exact E|]. split; [exact E'|]. split; [exact A|]. pose proof rings_in_order_frames_not as Hs. rewrite R in Hs. by injection Hs.
Defined.
End SystemRuns.
