(* ===== verification/Durability.v ===== *)
(** * Durability: what the journal holds while everything runs ([System])

    The writer compacts the journal to the ring it sees at that moment, while commands for
    newer events are still on their way to it.  Here: which events of the ring can be missing
    from the file at any moment, for any interleaving, and a run in which the compaction makes
    the file's tail repeat events. *)
From S2P Require Import Prelude Model WireFrame Channel Events Calldata Hubs Category Catalog Forfeit Pipeline Storage System Accounting.

Section Durability.
Context `{EthCodec} `{Mpsc StorageCommand} `{WireNumbers} `{WalCodec}.
Variable event_len : EventRecord -> Z.
Variable publish : FrameHub -> Z * list EventRecord -> FrameHub.
Variables (batch_max_events batch_max_bytes : Z).
Variables (batch_capacity event_ring_capacity : Z).
#[local] Abbreviation exec := (exec event_len publish batch_max_events batch_max_bytes batch_capacity event_ring_capacity).
#[local] Abbreviation run := (run event_len publish batch_max_events batch_max_bytes batch_capacity event_ring_capacity).

(** What the file and the buffer hold, as records. *)
Definition journal_log (j : Journal) (log : list EventRecord) : Prop :=
  Forall storable_record log /\ on_disk j ++ buffered j = WAL_MAGIC ++ frames log.

(** An event is in the log as far as a restart can tell. *)
Definition on_record (r : EventRecord) (log : list EventRecord) : Prop := persisted_view r ∈ map persisted_view log.

Lemma on_record_elem r log : r ∈ log -> on_record r log.
Proof. intros Hr. apply list_elem_of_fmap. by exists r. Qed.
Lemma on_record_app r log log' : on_record r log -> on_record r (log ++ log').
Proof. unfold on_record. rewrite map_app. intros Hr. apply elem_of_app. by left. Qed.

(** One command on the log: appended, or everything replaced by the ring. *)
Lemma writer_step_log cap w c h log : journal_log (journal w) log -> Forall storable_record (events h) ->
  (forall r, c = StoreEvent r -> storable_record r) ->
  exists log', journal_log (journal (writer_step cap w (writer_event_of c h))) log'
    /\ (log' = events h \/ log' = log ++ opt_list (stored_record c)).
Proof.
  intros [Hl Hd] Hring Hc. destruct c as [r|block]; cbn [writer_event_of writer_step journal stored_record opt_list].
  - specialize (Hc r eq_refl). pose proof Hc as (_ & _ & Hsize).
    assert (Ha : journal_log (snd (journal_append r (journal w))) (log ++ [r])).
    { unfold journal_append. cbv zeta. replace (MAX_WAL_RECORD <? _) with false by lia. cbn [snd]. split; cbn [on_disk buffered].
      - apply Forall_app. split; [done|]. by constructor.
      - rewrite app_assoc, Hd, frames_app, <- app_assoc. unfold frames at 2. cbn. by rewrite app_nil_r. }
    destruct (_ <? records _); [|exists (log ++ [r]); auto]. exists (events h). split; [|by left].
    split; [done|]. cbn. by rewrite app_nil_r.
  - exists log. rewrite app_nil_r. split; [done|by right].
Qed.

Lemma flush_log cap w log : journal_log (journal w) log -> journal_log (journal (writer_step cap w FlushTick)) log.
Proof. intros [Hl Hd]. split; [done|]. cbn. by rewrite app_nil_r. Qed.

(** *** Commands and the ring *)

Lemma exec_notes s a s' : exec s a = Some s' -> exists ns, notes s' = notes s ++ ns.
Proof.
  intros He. destruct a as [raw at_ src|i now|block|cat f| | | | | | |]; cbn in He.
  - destruct (deliver raw at_ src (proc s)) as [r p]. injection He as <-. by eexists.
  - destruct (calls s !! i); [|done]. cbn in He. destruct (call_step _ _ _ _) as [[[r p] ns]|]; [|done]. injection He as <-. by eexists.
  - destruct (send_storage _ _) as [p ns]. injection He as <-. by eexists.
  - injection He as <-. by eexists.
  - destruct (batcher_step _ _ _ _) as [[[b q] [o|]]|]; [| |done]; injection He as <-; by eexists.
  - destruct (writing s), (recv (storage_tx (proc s))) as [[cmd rx]|]; try done. injection He as <-. by eexists.
  - destruct (writing s); try done. injection He as <-. by eexists.
  - destruct (writing s); try done. injection He as <-. by eexists.
  - injection He as <-. exists []. cbn. by rewrite app_nil_r.
  - destruct (batching s) as [[]| | |], (stopping s); try done. injection He as <-. by eexists.
  - destruct (writing s), (stopping s); try done. injection He as <-. by eexists.
Qed.

Lemma taken_inserted h0 s r : accounted publish h0 s -> StoreEvent r ∈ taken_commands (notes s) -> r ∈ inserted (notes s).
Proof.
  intros [_ _ A3 _ _ (lost & A6 & _)] Hr. rewrite A3. apply elem_of_app. right. rewrite A6, !omap_app. apply elem_of_app. left.
  apply elem_of_app. left. apply list_elem_of_omap. by exists (StoreEvent r).
Qed.

(** ** The invariant *)

Record durable (old : list EventRecord) (s : System) (log : list EventRecord) : Prop := {
  du_log : journal_log (journal (writer s)) log;
  du_covers : forall r, r ∈ events (hub (proc s)) -> r ∈ old \/ StoreEvent r ∈ taken_commands (notes s) ->
    on_record r log \/ writing s = Holding (StoreEvent r);
  du_held : forall c, writing s = Holding c -> c ∈ taken_commands (notes s) }.

Lemma last_n_elem {A} n (l : list A) x : x ∈ last_n n l -> x ∈ l.
Proof. unfold last_n. intros Hx. rewrite <- (take_drop (length l - n) l). apply elem_of_app. by right. Qed.

Lemma call_step_hub now c p r p' ns x : event_hub_inv (hub p) -> call_step batch_capacity now c p = Some (r, p', ns) ->
  x ∈ events (hub p') -> x ∈ events (hub p) \/ inserted ns = [x].
Proof.
  intros Hh Hs Hx. apply call_step_ring in Hs as [(Hs & _)|(rc & E1 & E2 & E3 & _)]; [rewrite Hs in Hx; by left|].
  pose proof (insert_event_spec rc (hub p) Hh) as Hi. rewrite E2 in Hi. destruct (contains _ _); [done|]. injection Hi as Hi.
  rewrite Hi in Hx. cbn in Hx. apply last_n_elem, elem_of_app in Hx as [Hx|Hx]; [by left|].
  apply list_elem_of_singleton in Hx as ->. by right.
Qed.

Lemma exec_durable c0 old cap h0 s a s' log :
  exec s a = Some s' -> accounted publish h0 s -> ring_ok c0 old cap s -> ring_ok c0 old cap s' ->
  Forall (fun r => sequence r <= c0) old -> Forall storable_record old -> Forall storable_record (inserted (notes s')) ->
  durable old s log -> exists log', durable old s' log'.
Proof.
  intros He Ha Hr Hr' Hold Hso Hst [D1 D2 D3].
  destruct a as [raw at_ src|i now|block|cat f| | | | | | |].
  - cbn in He. unfold deliver in He. exists log.
    destruct (decode_signal_log _ _ _ _) as [e|e]; injection He as <-; split; notes_simpl; auto.
  - cbn in He. destruct (calls s !! i) as [c|] eqn:Ei; [|done]. cbn in He.
    destruct (call_step _ now c (proc s)) as [[[r p'] ns]|] eqn:Ec; [|done]. injection He as <-. exists log.
    pose proof (sb_taken _ _ _ _ _ (call_step_balance _ _ _ _ _ _ _ Ec)) as Ht. pose proof (ended_notes r) as (Q1 & _ & _ & _ & Q5 & _).
    split; cbn [writer proc notes writing with_calls]; [done| |].
    + intros x Hx Hsrc. rewrite !pick_app, Ht, Q5, !app_nil_r in Hsrc.
      apply (call_step_hub now c (proc s) r p' ns x (ro_hub _ _ _ _ Hr) Ec) in Hx as [Hx|Hx]; [auto|]. exfalso.
      pose proof (ro_nodup _ _ _ _ Hr') as Hnd. pose proof (ro_range _ _ _ _ Hr') as Hrg. cbn [notes calls with_calls] in Hnd, Hrg.
      rewrite !pick_app, Hx, Q1, app_nil_r, map_app in Hnd, Hrg. apply NoDup_app in Hnd as (Hnd & _). apply Forall_app in Hrg as [Hrg _].
      rewrite map_app in Hnd, Hrg. destruct Hsrc as [Hsrc|Hsrc].
      * apply Forall_app in Hrg as [_ Hrg]. apply Forall_inv in Hrg. rewrite Forall_forall in Hold. apply Hold in Hsrc. lia.
      * apply NoDup_app in Hnd as (_ & Hnd & _). apply (Hnd (sequence x)); [|by left]. apply list_elem_of_fmap. exists x.
        split; [done|]. by eapply taken_inserted.
    + intros cmd Hw. rewrite !pick_app. apply elem_of_app. left. auto.
  - cbn in He. pose proof (send_storage_spec (Checkpoint block) (proc s)) as Hp. destruct (send_storage _ _) as [p1 ns1]. injection He as <-.
    exists log. destruct Hp as (_ & _ & E1 & _ & [(-> & _)|(-> & _)]); split; notes_simpl; rewrite ?E1; auto.
  - cbn in He. injection He as <-. exists log. split; notes_simpl; auto.
  - cbn in He. destruct (batcher_step _ _ _ _) as [[[b q] out]|]; [|done]. cbn in He. exists log.
    destruct out; injection He as <-; split; notes_simpl; auto.
  - cbn in He. destruct (writing s) eqn:Ew; try done. destruct (recv (storage_tx (proc s))) as [[cmd rx]|]; [|done]. injection He as <-.
    exists log. split; notes_simpl; [done| |].
    + intros r Hx [Ho|Ht]; [destruct (D2 r Hx (or_introl Ho)); [by left|done]|]. apply elem_of_app in Ht as [Ht|Ht].
      * destruct (D2 r Hx (or_intror Ht)); [by left|done].
      * apply list_elem_of_singleton in Ht as <-. by right.
    + intros c [= ->]. apply elem_of_app. right. by left.
  - cbn in He. destruct (writing s) as [|c|] eqn:Ew; try done. injection He as <-. cbn [notes with_writer] in Hst.
    rewrite app_nil_r in Hst.
    assert (Hring : Forall storable_record (events (hub (proc s)))).
    { rewrite (ro_events _ _ _ _ Hr). unfold last_n. apply Forall_drop. by apply Forall_app. }
    destruct (writer_step_log event_ring_capacity (writer s) c (hub (proc s)) log D1 Hring) as (log' & L1 & L2).
    { intros r ->. rewrite Forall_forall in Hst. apply Hst. eapply taken_inserted; [done|]. by apply D3. }
    exists log'. split; notes_simpl; [done| |done]. intros r Hx Hsrc. left. destruct L2 as [->| ->]; [by apply on_record_elem|].
    destruct (D2 r Hx Hsrc) as [Hon|[= ->]]; [by apply on_record_app|]. apply on_record_elem, elem_of_app. right. by left.
  - cbn in He. destruct (writing s) eqn:Ew; try done. injection He as <-. exists log. split; notes_simpl; [by apply (flush_log event_ring_capacity)| |done].
    intros r Hx Hsrc. destruct (D2 r Hx Hsrc); [by left|done].
  - cbn in He. injection He as <-. by exists log.
  - cbn in He. destruct (batching s) as [[]| | |], (stopping s); try done. injection He as <-. exists log. split; notes_simpl; auto.
  - cbn in He. destruct (writing s) eqn:Ew; try done. destruct (stopping s); [|done]. injection He as <-. exists log.
    split; notes_simpl; [by apply (flush_log event_ring_capacity)| |done]. intros r Hx Hsrc. destruct (D2 r Hx Hsrc); [by left|done].
Qed.

Lemma run_durable c0 old cap h0 acts : forall s log s', run s acts = Some s' -> 0 <= c0 -> counter (proc s) + zlen acts <= u64_max ->
  accounted publish h0 s -> ring_ok c0 old cap s ->
  Forall (fun r => sequence r <= c0) old -> Forall storable_record old -> Forall storable_record (inserted (notes s')) ->
  durable old s log -> accounted publish h0 s' /\ exists log', durable old s' log'.
Proof.
  induction acts as [|a acts IH]; intros s log s' Hrun Hc Hm Ha Hr Hold Hso Hst Hd; [injection Hrun as <-; eauto|].
  cbn in Hrun. destruct (exec s a) as [s1|] eqn:E; [|done]. rewrite zlen_cons in Hm. pose proof (zlen_nonneg acts).
  edestruct exec_ring_ok as [Hr1 Hle]; [exact E|exact Hc|lia|exact Hr|].
  assert (Hst1 : Forall storable_record (inserted (notes s1))).
  { assert (Hp : exists ns, notes s' = notes s1 ++ ns).
    { clear -Hrun. revert s1 Hrun. induction acts as [|a acts IH]; intros s1 Hrun; [injection Hrun as <-; exists []; by rewrite app_nil_r|].
      cbn in Hrun. destruct (exec s1 a) as [s2|] eqn:E; [|done]. apply exec_notes in E as [n1 E]. destruct (IH s2 Hrun) as [n2 ->].
      exists (n1 ++ n2). by rewrite E, app_assoc. }
    destruct Hp as [ns Hp]. rewrite Hp, pick_app in Hst. by apply Forall_app in Hst as [Hst _]. }
  destruct (exec_durable c0 old cap h0 s a s1 log E Ha Hr Hr1 Hold Hso Hst1 Hd) as [log1 Hd1].
  eapply (IH s1 log1 s' Hrun); [done|lia|by eapply exec_accounted|done..].
Qed.

(** C34: the journal covers the ring.  At every moment of every interleaving the file and
    the writer's buffer are a journal that a restart reads back whole, and every event of
    the ring is in it, unless its command is in the writer's hand, in its queue or not sent
    yet, was dropped because the queue was full, or was still queued when the writer
    stopped; compaction, which takes the ring as it is at that moment, loses none. *)
Theorem journal_covers_ring p h0 log0 cur files acts s :
  event_hub_inv (hub p) -> 0 <= counter p -> counter p + zlen acts <= u64_max -> batch_tx p = [] -> queued (storage_tx p) = [] ->
  Forall storable_record log0 -> Forall storable_record (events (hub p)) ->
  Forall (fun r => sequence r <= counter p /\ on_record r log0) (events (hub p)) ->
  run (system_start p h0 {| journal := journal_open (Some (WAL_MAGIC ++ frames log0)); writer_cursor := cur; writer_files := files |}) acts = Some s ->
  Forall storable_record (inserted (notes s)) ->
  exists log, journal_log (journal (writer s)) log
  /\ (forall n, zlen log <= n ->
        load_events n (files_with_wal (on_disk (journal_flush (journal (writer s))))) = Ok (map persisted_view log))
  /\ (forall r, r ∈ events (hub (proc s)) ->
        on_record r log \/ writing s = Holding (StoreEvent r) \/ StoreEvent r ∈ queued (storage_tx (proc s)) \/ AtStore r ∈ calls s
        \/ StoreEvent r ∈ dropped_commands (notes s)
        \/ (writing s = WriterStopped /\ StoreEvent r ∈ queued_commands (notes s) /\ StoreEvent r ∉ taken_commands (notes s))).
Proof.
  intros Hh Hc Hm Hb Hq Hl0 Hso Hold Hrun Hst.
  set (w := {| journal := _; writer_cursor := cur; writer_files := files |}) in *.
  assert (Hr0 : ring_ok (counter p) (events (hub p)) (Hubs.capacity (hub p)) (system_start p h0 w)).
  { split; cbn; [done|done| |by intros [] ? ?|constructor|constructor|lia]. rewrite app_nil_r, last_n_all; [done|].
    destruct Hh as [_ Hh _ _]. unfold zlen in Hh. lia. }
  assert (Hd0 : durable (events (hub p)) (system_start p h0 w) log0).
  { split; [|intros r Hr _; left|done].
    - split; [done|]. cbn. by rewrite app_nil_r.
    - rewrite Forall_forall in Hold. by apply Hold. }
  edestruct (run_durable (counter p) (events (hub p)) (Hubs.capacity (hub p)) h0 acts (system_start p h0 w) log0 s Hrun) as [Ha [log [D1 D2 D3]]];
    [done|done|by apply accounted_start|exact Hr0| |done|done|exact Hd0|].
  { eapply Forall_impl; [exact Hold|]. by intros r [? _]. }
  exists log. split; [done|]. split.
  - intros n Hn. destruct D1 as [Hl Hd]. unfold journal_flush. cbn [on_disk]. rewrite Hd, load_frames by done. rewrite last_n_all; [done|].
    rewrite length_map. unfold zlen in Hn. lia.
  - intros r Hr. destruct Ha as [_ _ A3 _ _ (lost & L1 & L2)].
    pose proof (run_ring_ok event_len publish batch_max_events batch_max_bytes batch_capacity event_ring_capacity acts
                  (counter p) (events (hub p)) (Hubs.capacity (hub p)) (system_start p h0 w) s Hc Hm Hr0 Hrun) as Hrs.
    pose proof Hr as Hring. rewrite (ro_events _ _ _ _ Hrs) in Hring. apply last_n_elem, elem_of_app in Hring as [Hring|Hring].
    { destruct (D2 r Hr (or_introl Hring)); auto. }
    pose proof (ro_nodup _ _ _ _ Hrs) as Hnd. rewrite map_app in Hnd. apply NoDup_app in Hnd as (Hnd & _). apply NoDup_fmap_1 in Hnd.
    rewrite A3 in Hring, Hnd. rewrite L1, !omap_app in Hnd.
    apply elem_of_app in Hring as [Hring|Hring]; apply list_elem_of_omap in Hring as (c & Hc' & Hu);
      (destruct c; try done); injection Hu as ->; [by right; right; right; left|].
    apply elem_of_app in Hc' as [Hc'|Hc']; [|by right; right; right; right; left]. pose proof Hc' as Hq'. rewrite L1 in Hq'.
    apply elem_of_app in Hq' as [Ht|Hq']; [destruct (D2 r Hr (or_intror Ht)); auto|].
    apply elem_of_app in Hq' as [Hq'|Hq']; [|by right; right; left].
    destruct (writing s); [by rewrite L2 in Hq'; apply elem_of_nil in Hq'..|]. right; right; right; right; right.
    split; [done|]. split; [done|]. intros Ht. apply NoDup_app in Hnd as (_ & _ & Hnd). apply NoDup_app in Hnd as (Hnd & _ & _).
    apply NoDup_app in Hnd as (_ & Hnd & _). apply (Hnd r).
    + apply list_elem_of_omap. by exists (StoreEvent r).
    + apply elem_of_app. left. apply list_elem_of_omap. by exists (StoreEvent r).
Qed.
End Durability.

(** ** Runs *)

Module DurabilityRuns.
#[local] Instance codec : EthCodec := Events.sample_codec.
#[local] Instance queue : Mpsc StorageCommand := list_mpsc StorageCommand.
#[local] Instance numbers : WireNumbers := sample_numbers.
#[local] Instance wal : WalCodec := Storage.sample_codec.
Definition start : Processor :=
  let p := PipelineSample.start in
  {| config := config p; catalog := catalog p; hub := event_hub_new 2; forfeit := forfeit p; counter := 5; window := [];
     stats := stats_default; storage_tx := chan_new 10; batch_tx := []; batch_open := true |}.
Abbreviation go := (run SystemRuns.len SystemRuns.out 1 1000 10 2).
Abbreviation begin :=
  (system_start start SystemRuns.hub0
     {| journal := journal_open (Some (WAL_MAGIC ++ frames [])); writer_cursor := 0; writer_files := files_with_wal [] |}).
(** One call from its log to its return, and the writer's part of it. *)
Definition one (i : Z) : list Action := Deliver (PipelineSample.log i) i "wss[0]" :: replicate 8 (Advance 0 7).
Definition write : list Action := [WriterReceives; WriterWrites].
Definition in_file (s : System) : option (list Z) :=
  (map sequence) <$> result_ok (load_events 2 (files_with_wal (on_disk (journal (writer s))))).

(** A ring of two events, six events in it before the writer gets to the first: the fifth
    command makes it compact the file to the ring, which is the fifth and the sixth event,
    and then the sixth command appends the sixth event again.  Everything is written, but
    a restart reads the last two records, which are the sixth event twice. *)
Definition busy : list Action := one 1 ++ one 2 ++ one 3 ++ one 4 ++ one 5 ++ one 6 ++ concat (replicate 6 write) ++ [WriterFlushes].
Example compaction_repeats_the_tail :
  (fun s => (map sequence (events (hub (proc s))), zlen (queued (storage_tx (proc s))), in_file s)) <$> go begin busy
  = Some ([10; 11], 0, Some [11; 11]).
Proof. vm_compute. reflexivity. Qed.

(** After a restart the ring has forgotten the fifth event: the back-fill that brings it
    again gets a new number for it and broadcasts it a second time. *)
Example fifth_event_accepted_again :
  (fun s => let '(_, _, h) := recover forfeit_disabled (default [] (result_ok (load_events 2 (files_with_wal (on_disk (journal (writer s)))))))
                                (event_hub_new 2) in
            let p := {| config := config start; catalog := catalog start; hub := h; forfeit := forfeit start; counter := 11; window := [];
                        stats := stats_default; storage_tx := storage_tx start; batch_tx := []; batch_open := true |} in
            map sequence (batch_tx (process (PipelineSample.log 5) 9 "backfill" 9 p))) <$> go begin busy
  = Some [12].
Proof. vm_compute. reflexivity. Qed.

(** The first event. *)
Definition first_record : EventRecord :=
  {| sequence := 6; event := call_event Calldata.Sample.call (replicate 32 xdd) 1 1;
     enrichment := resolve (anc_market_id (ancillary (event_request (call_event Calldata.Sample.call (replicate 32 xdd) 1 1))))
                     (req_condition_id (event_request (call_event Calldata.Sample.call (replicate 32 xdd) 1 1))) (catalog start);
     price_outcome := event_outcome (call_event Calldata.Sample.call (replicate 32 xdd) 1 1) |}.
Example first_inserted : (fun s => inserted (notes s)) <$> go begin (one 1 ++ write) = Some [first_record].
Proof. vm_compute. reflexivity. Qed.
Lemma first_storable : storable_record first_record.
Proof.
  split; [|split; [|apply Z.leb_le; vm_compute; reflexivity]].
  - split; [vm_compute; reflexivity..|]. intros m Hm. vm_compute in Hm. injection Hm as <-. split; [reflexivity|constructor].
  - assert (Hb : forall lo x hi, (lo <=? x) && (x <? hi) = true -> lo <= x < hi) by (intros; lia).
    constructor; try (apply Hb; vm_compute; reflexivity).
    change (pb.tag_ids (to_proto first_record)) with (@nil Z). constructor.
Qed.

Lemma ring_start : event_hub_inv (hub start).
Proof. split; cbn; [lia|done|constructor|done]. Qed.

Lemma journal_covers_ring_witness : exists s log, go begin (one 1 ++ write) = Some s /\ journal_log (journal (writer s)) log
  /\ load_events (zlen log) (files_with_wal (on_disk (journal_flush (journal (writer s))))) = Ok (map persisted_view log).
Proof.
  pose proof first_inserted as Hi. destruct (go begin (one 1 ++ write)) as [s|] eqn:E; [|discriminate Hi]. injection Hi as Hi.
  assert (Hst : Forall storable_record (inserted (notes s))) by (rewrite Hi; constructor; [exact first_storable|constructor]).
  assert (Hc : 0 <= counter start) by (cbn; lia).
  assert (Hm : counter start + zlen (one 1 ++ write) <= u64_max) by (vm_compute; congruence).
  pose proof (journal_covers_ring SystemRuns.len SystemRuns.out 1 1000 10 2 start SystemRuns.hub0 [] 0 (files_with_wal []) (one 1 ++ write) s
    ring_start Hc Hm eq_refl eq_refl) as Hj.
  destruct Hj as (log & L1 & L2 & _); [constructor|constructor|constructor|exact E|exact Hst|].
  exists s, log. split; [reflexivity|]. split; [exact L1|]. by apply L2.
Defined.
End DurabilityRuns.
