(* ===== verification/Config.v ===== *)
(** * Config: the settings of the three programs ([src/config.rs], [src/edge/mod.rs],
    [src/console/mod.rs])

    The environment is a function from names to texts.  Parsing follows the standard
    library's [FromStr]; the url crate is an interface.  A [Duration] is its milliseconds. *)
From S2P Require Import Prelude Model WireFrame Events Category Forfeit Pipeline.

(** ** Socket addresses ([SocketAddr::from_str]) *)

Inductive IpAddr := V4 (octets : list Z) | V6 (segments : list Z) (scope_id : Z).
Record SocketAddr := { ip : IpAddr; port : Z }.

(** A parser consumes a prefix; one that fails consumes nothing. *)
Definition P (A : Type) := string -> option (A * string).
Definition read_given (c : ascii) : P unit := fun s =>
  match s with String a r => if Ascii.eqb a c then Some (tt, r) else None | EmptyString => None end.
Fixpoint take_digits (radix : Z) (s : string) : list Z * string :=
  match s with
  | EmptyString => ([], EmptyString)
  | String c r => match digit_val radix c with
                  | Some d => let '(ds, rest) := take_digits radix r in (d :: ds, rest)
                  | None => ([], s)
                  end
  end.
Definition digits_value (radix : Z) (ds : list Z) : Z := foldl (fun acc d => acc * radix + d) 0 ds.
Definition read_number (radix max : Z) (max_digits : option nat) (zero_prefix : bool) : P Z := fun s =>
  let '(ds, rest) := take_digits radix s in
  let v := digits_value radix ds in
  if bool_decide (ds = []) then None
  else if match max_digits with Some m => bool_decide (m < length ds)%nat | None => false end then None
  else if negb zero_prefix && bool_decide (head ds = Some 0) && bool_decide (1 < length ds)%nat then None
  else if v <=? max then Some (v, rest) else None.
Definition read_separator {A} (sep : ascii) (first : bool) (inner : P A) : P A := fun s =>
  if first then inner s else '(_, s) ← read_given sep s; inner s.

Definition read_octet (first : bool) : P Z := read_separator "." first (read_number 10 255 (Some 3%nat) false).
Definition read_ipv4 : P (Z * Z * Z * Z) := fun s =>
  '(a, s) ← read_octet true s; '(b, s) ← read_octet false s;
  '(c, s) ← read_octet false s; '(d, s) ← read_octet false s; Some ((a, b, c, d), s).

(** At most [n] groups; the flag tells that they end in an embedded IPv4 address. *)
Fixpoint read_groups (n : nat) (first : bool) (s : string) : list Z * bool * string :=
  match n with
  | O => ([], false, s)
  | S n' =>
      match (if (1 <=? n')%nat then read_separator ":" first read_ipv4 s else None) with
      | Some ((a, b, c, d), rest) => ([a * 256 + b; c * 256 + d], true, rest)
      | None =>
          match read_separator ":" first (read_number 16 65535 (Some 4%nat) true) s with
          | Some (g, rest) => let '(gs, v4, rest) := read_groups n' false rest in (g :: gs, v4, rest)
          | None => ([], false, s)
          end
      end
  end.
Definition read_ipv6 : P (list Z) := fun s =>
  let '(head, head_v4, s) := read_groups 8 true s in
  if bool_decide (length head = 8%nat) then Some (head, s)
  else if head_v4 then None
  else '(_, s) ← read_given ":" s; '(_, s) ← read_given ":" s;
       let '(tail, _, s) := read_groups (8 - (length head + 1)) true s in
       Some (head ++ replicate (8 - length head - length tail) 0 ++ tail, s).

Definition read_port : P Z := fun s => '(_, s) ← read_given ":" s; read_number 10 65535 None true s.
Definition read_socket_v4 : P SocketAddr := fun s =>
  '((a, b, c, d), s) ← read_ipv4 s; '(p, s) ← read_port s; Some ({| ip := V4 [a; b; c; d]; port := p |}, s).
Definition read_socket_v6 : P SocketAddr := fun s =>
  '(_, s) ← read_given "[" s; '(gs, s) ← read_ipv6 s;
  let '(scope, s) := match ('(_, s) ← read_given "%" s; read_number 10 (2 ^ 32 - 1) None true s) with
                     | Some (n, s) => (n, s) | None => (0, s) end in
  '(_, s) ← read_given "]" s; '(p, s) ← read_port s; Some ({| ip := V6 gs scope; port := p |}, s).
Definition socket_addr_from_str (s : string) : option SocketAddr :=
  match (match read_socket_v4 s with Some x => Some x | None => read_socket_v6 s end) with
  | Some (a, EmptyString) => Some a
  | _ => None
  end.

(** ** Variables *)

Definition Env := string -> option string.
Inductive ConfigError := MissingWss | Missing (key : string) | Invalid (key value : string).

(** Durations in milliseconds *)
Definition from_secs (s : Z) : Z := s * 1000.
Definition from_millis (ms : Z) : Z := ms.
Definition as_micros (ms : Z) : Z := ms * 1000.

(** [str::trim_end_matches(c)] *)
Fixpoint trim_end_char (c : ascii) (s : string) : string :=
  match s with
  | EmptyString => EmptyString
  | String a r => match trim_end_char c r with
                  | EmptyString => if Ascii.eqb a c then EmptyString else String a EmptyString
                  | r => String a r
                  end
  end.
(** [str::replacen(pat, to, 1)] *)
Fixpoint replace_first (pat to s : string) : string :=
  match strip_prefix pat s with
  | Some r => to +:+ r
  | None => match s with String a r => String a (replace_first pat to r) | EmptyString => EmptyString end
  end.
Definition or_else {A} (a b : option A) : option A := match a with Some _ => a | None => b end.

Section Variables_.
Context (env : Env).

Definition nonempty (key : string) : option string :=
  v ← env key; let v := trim v in if String.eqb v "" then None else Some v.
Definition parse {T} (from_str : string -> option T) (key default_ : string) : result ConfigError T :=
  let value := default default_ (nonempty key) in ok_or (Invalid key value) (from_str value).
Definition optional_parse {T} (from_str : string -> option T) (key : string) : result ConfigError (option T) :=
  match nonempty key with
  | None => Ok None
  | Some value => match from_str value with Some v => Ok (Some v) | None => Err (Invalid key value) end
  end.
(** The texts [parse_bool] takes, letter case aside. *)
Definition bool_of (value : string) : option bool :=
  let v := to_ascii_lower value in
  if bool_decide (v ∈ ["1"; "true"; "yes"; "on"]%string) then Some true
  else if bool_decide (v ∈ ["0"; "false"; "no"; "off"]%string) then Some false else None.
Definition parse_bool (key : string) (default_ : bool) : result ConfigError bool :=
  match nonempty key with
  | None => Ok default_
  | Some value => ok_or (Invalid key value) (bool_of value)
  end.
Definition required_any (primary fallback : string) : result ConfigError string :=
  ok_or MissingWss (or_else (nonempty primary) (nonempty fallback)).
(** A comma-separated list without blanks and empty parts. *)
Definition comma_list (raw : string) : list string :=
  List.filter (fun v => negb (String.eqb v "")) (map trim (split_on "," raw)).
End Variables_.

(** ** The url and hex crates *)

Class UrlCrate := {
  Url : Type;
  url_parse : string -> option Url;
  url_scheme : Url -> string;
  url_set_scheme : string -> Url -> option Url;
  url_to_string : Url -> string;
  (** One special scheme can replace another. *)
  url_set_scheme_special u s :
    url_scheme u ∈ ["http"; "https"; "ws"; "wss"]%string -> s ∈ ["http"; "https"; "ws"; "wss"]%string ->
    exists u', url_set_scheme s u = Some u' /\ url_scheme u' = s }.

Section Parsers.
Context `{UrlCrate} `{EthCodec}.

Definition redacted : ConfigError := Invalid "WSS_RPC" "<redacted>".
Definition derive_http_url (wss : string) : result ConfigError string :=
  url ← ok_or redacted (url_parse wss);
  scheme ← (if String.eqb (url_scheme url) "wss" then Ok "https"
            else if String.eqb (url_scheme url) "ws" then Ok "http" else Err redacted)%string;
  url ← ok_or redacted (url_set_scheme scheme url);
  Ok (url_to_string url).

Definition parse_fixed_hex (n : nat) (key value : string) : result ConfigError bytes :=
  let raw := default value (or_else (strip_prefix "0x" value) (strip_prefix "0X" value)) in
  decoded ← ok_or (Invalid key value) (hex_decode raw);
  if bool_decide (length decoded = n) then Ok decoded else Err (Invalid key value).

(** [collect::<Result<Vec<_>, _>>()]: the first failure. *)
Fixpoint parse_each {A B E} (f : A -> result E B) (l : list A) : result E (list B) :=
  match l with
  | [] => Ok []
  | x :: l => y ← f x; ys ← parse_each f l; Ok (y :: ys)
  end.
End Parsers.

(** ** The service ([Config::from_env]) *)

(** The fields in the source's order. *)
Record Config := {
  api_addr : SocketAddr;
  polygon_wss_url : string;
  wss_rpc_urls : list string;
  polygon_rpc_url : string;
  contract_addresses : list string;
  contract_address_bytes : list bytes;
  data_dir : string;
  start_block : option Z;
  initial_backfill_days : Z;
  backfill_batch_blocks : Z;
  live_buffer : Z;
  event_ring_capacity : Z;
  frame_ring_capacity : Z;
  batch_max_events : Z;
  batch_max_bytes : Z;
  zstd_threshold : Z;
  max_decompressed_bytes : Z;
  gamma_base_url : string;
  gamma_refresh_interval : Z;
  gamma_new_market_interval : Z;
  closed_market_lookback_days : Z;
  catalog_reconcile_interval : Z;
  require_market_id : bool;
  ws_write_timeout : Z;
  dashboard_token : option string;
  forfeit_feed_url : option string;
  forfeit_feed_token : option string;
  forfeit_feed_backfill : Z;
  forfeit_block_ttl : Z }.

(** The URLs in order without repetition. *)
Definition dedup (urls : list string) : list string :=
  foldl (fun acc url => if bool_decide (url ∈ acc) then acc else acc ++ [url]) [] urls.

Section FromEnv.
Context `{UrlCrate} `{EthCodec} (env : Env).

Definition extra_wss_urls : list string := from_option comma_list [] (nonempty env "WSS_RPC_LIST").
Definition primary_wss_url : result ConfigError string :=
  match extra_wss_urls with first :: _ => Ok first | [] => required_any env "WSS_RPC" "POLYGON_WSS_URL" end.
Definition all_wss_urls (primary : string) : list string :=
  let urls := dedup (extra_wss_urls ++ option_list (or_else (nonempty env "WSS_RPC") (nonempty env "POLYGON_WSS_URL"))) in
  match urls with [] => [primary] | _ => urls end.
Definition http_url (primary : string) : result ConfigError string :=
  match or_else (nonempty env "HTTP_RPC") (nonempty env "POLYGON_RPC_URL") with
  | Some value => Ok value
  | None => derive_http_url primary
  end.

(** [usize] is 64 bits wide; [.max(1) * n] wraps. *)
Definition from_env : result ConfigError Config :=
  polygon_wss_url ← primary_wss_url;
  let wss_rpc_urls := all_wss_urls polygon_wss_url in
  polygon_rpc_url ← http_url polygon_wss_url;
  let contract_addresses := comma_list (default "" (nonempty env "UMA_CONTRACT_ADDRESSES")) in
  contract_address_bytes ← parse_each (parse_fixed_hex 20 "UMA_CONTRACT_ADDRESSES") contract_addresses;
  api_addr ← parse env socket_addr_from_str "API_ADDR" "127.0.0.1:8011";
  start_block ← optional_parse env parse_u64 "START_BLOCK";
  initial_backfill_days ← parse env parse_u64 "INITIAL_BACKFILL_DAYS" "7";
  backfill_batch_blocks ← parse env parse_u64 "RPC_BACKFILL_BATCH_BLOCKS" "1000";
  live_buffer ← parse env parse_u64 "RPC_LIVE_BUFFER" "8192";
  event_ring_capacity ← parse env parse_u64 "EVENT_RING_CAPACITY" "10000";
  frame_ring_capacity ← parse env parse_u64 "FRAME_RING_CAPACITY" "2048";
  batch_max_events ← parse env parse_u64 "BATCH_MAX_EVENTS" "64";
  batch_max_bytes ← parse env parse_u64 "BATCH_MAX_BYTES" "32768";
  zstd_threshold ← parse env parse_u64 "ZSTD_THRESHOLD" "4096";
  max_decompressed_bytes ← parse env parse_u64 "MAX_DECOMPRESSED_BYTES" "262144";
  refresh_s ← parse env parse_u64 "GAMMA_REFRESH_INTERVAL_SECONDS" "60";
  new_market_s ← parse env parse_u64 "GAMMA_NEW_MARKET_INTERVAL_SECONDS" "10";
  closed_market_lookback_days ← parse env parse_u64 "CLOSED_MARKET_LOOKBACK_DAYS" "3";
  reconcile_h ← parse env parse_u64 "CATALOG_RECONCILE_INTERVAL_HOURS" "6";
  require_market_id ← parse_bool env "REQUIRE_MARKET_ID" true;
  write_ms ← parse env parse_u64 "WS_WRITE_TIMEOUT_MS" "5000";
  forfeit_feed_backfill ← parse env parse_u64 "FORFEIT_FEED_BACKFILL" "5000";
  ttl_days ← parse env parse_u64 "FORFEIT_BLOCK_TTL_DAYS" "30";
  Ok {| api_addr := api_addr;
        polygon_wss_url := polygon_wss_url;
        wss_rpc_urls := wss_rpc_urls;
        polygon_rpc_url := polygon_rpc_url;
        contract_addresses := contract_addresses;
        contract_address_bytes := contract_address_bytes;
        data_dir := default "./.cache" (nonempty env "DATA_DIR");
        start_block := start_block;
        initial_backfill_days := initial_backfill_days;
        backfill_batch_blocks := backfill_batch_blocks;
        live_buffer := live_buffer;
        event_ring_capacity := event_ring_capacity;
        frame_ring_capacity := frame_ring_capacity;
        batch_max_events := batch_max_events;
        batch_max_bytes := batch_max_bytes;
        zstd_threshold := zstd_threshold;
        max_decompressed_bytes := max_decompressed_bytes;
        gamma_base_url := trim_end_char "/" (default "https://gamma-api.polymarket.com" (nonempty env "GAMMA_BASE_URL"));
        gamma_refresh_interval := from_secs (Z.max refresh_s 1);
        gamma_new_market_interval := from_secs (Z.max new_market_s 1);
        closed_market_lookback_days := closed_market_lookback_days;
        catalog_reconcile_interval := from_secs (u64_mul (Z.max reconcile_h 1) 3600);
        require_market_id := require_market_id;
        ws_write_timeout := from_millis write_ms;
        dashboard_token := nonempty env "DASHBOARD_TOKEN";
        forfeit_feed_url := nonempty env "FORFEIT_FEED_URL";
        forfeit_feed_token := nonempty env "FORFEIT_FEED_TOKEN";
        forfeit_feed_backfill := forfeit_feed_backfill;
        forfeit_block_ttl := from_secs (u64_mul (Z.max ttl_days 1) 86400) |}.
End FromEnv.

(** What the components are given. *)
Definition wire_config (c : Config) : WireConfig :=
  {| WireFrame.zstd_threshold := zstd_threshold c; WireFrame.max_decompressed_bytes := max_decompressed_bytes c |}.
Definition proc_config (c : Config) : ProcConfig :=
  {| Pipeline.contract_address_bytes := contract_address_bytes c; Pipeline.require_market_id := require_market_id c |}.
(** [ForfeitBlocklist::from_config] *)
Definition forfeit_from_config `{EthCodec} (c : Config) (file : option Snapshot) (now : Z) : ForfeitBlocklist :=
  match forfeit_feed_url c with
  | None => forfeit_disabled
  | Some _ => load file now (forfeit_empty true (as_micros (forfeit_block_ttl c) mod 2 ^ 64))
  end.

(** ** The edge ([EdgeConfig::from_env]) and the console ([ConsoleConfig::from_env]) *)

Record EdgeSettings := {
  listen_addr : SocketAddr;
  upstream_url : string;
  console_url : option string;
  console_token : string;
  node_id : string;
  advertise_host : string;
  advertise_port : Z;
  advertise_tls : bool;
  client_queue : Z;
  ring_frames : Z;
  max_clients : Z;
  admin_token : string;
  static_client_tokens : list string;
  drain_batch : Z;
  drain_interval : Z;
  drain_timeout : Z;
  heartbeat_interval : Z }.

Definition parse_u16 (s : string) : option Z := from_str_radix 10 (2 ^ 16 - 1) s.

(** [hostname]: the contents of [/etc/hostname], when readable. *)
Definition edge_from_env (env : Env) (hostname : option string) : result ConfigError EdgeSettings :=
  listen_addr ← parse env socket_addr_from_str "EDGE_LISTEN_ADDR" "0.0.0.0:8012";
  node_id ← ok_or (Missing "EDGE_NODE_ID")
    (or_else (nonempty env "EDGE_NODE_ID")
             (s ← hostname; let s := trim s in if String.eqb s "" then None else Some s));
  advertise_port ← optional_parse env parse_u16 "EDGE_ADVERTISE_PORT";
  advertise_tls ← parse_bool env "EDGE_ADVERTISE_TLS" false;
  client_queue ← parse env parse_u64 "EDGE_CLIENT_QUEUE" "128";
  ring_frames ← parse env parse_u64 "EDGE_RING_FRAMES" "4096";
  max_clients ← parse env parse_u64 "EDGE_MAX_CLIENTS" "1000";
  drain_batch ← parse env parse_u64 "EDGE_DRAIN_BATCH" "20";
  drain_ms ← parse env parse_u64 "EDGE_DRAIN_INTERVAL_MS" "2000";
  timeout_s ← parse env parse_u64 "EDGE_DRAIN_TIMEOUT_SECONDS" "600";
  heartbeat_s ← parse env parse_u64 "EDGE_HEARTBEAT_INTERVAL_SECONDS" "5";
  Ok {| listen_addr := listen_addr;
        upstream_url := default "ws://43.131.1.194:8011/uma/v1/ws" (nonempty env "EDGE_UPSTREAM_URL");
        console_url := trim_end_char "/" <$> nonempty env "EDGE_CONSOLE_URL";
        console_token := default "" (nonempty env "EDGE_CONSOLE_TOKEN");
        node_id := node_id;
        advertise_host := default "" (nonempty env "EDGE_ADVERTISE_HOST");
        advertise_port := default (port listen_addr) advertise_port;
        advertise_tls := advertise_tls;
        client_queue := client_queue;
        ring_frames := ring_frames;
        max_clients := max_clients;
        admin_token := default "" (nonempty env "EDGE_ADMIN_TOKEN");
        static_client_tokens := from_option comma_list [] (nonempty env "EDGE_CLIENT_TOKENS");
        drain_batch := drain_batch;
        drain_interval := from_millis drain_ms;
        drain_timeout := from_secs timeout_s;
        heartbeat_interval := from_secs heartbeat_s |}.

Record ConsoleSettings := {
  console_listen_addr : SocketAddr;
  node_token : string;
  console_admin_token : string;
  panel_token : string;
  console_data_dir : string;
  stale_after : Z;
  list_ttl : Z;
  upstream_http : string;
  upstream_ws : string;
  upstream_dashboard_token : option string;
  upstream_poll : Z;
  llms_cache : Z;
  alert_webhook : option string;
  alert_panel_url : option string;
  alert_interval : Z }.

(** The feed's address from the service's. *)
Definition ws_of_http (http : string) : string :=
  replace_first "http://" "ws://" (replace_first "https://" "wss://" (trim_end_char "/" http)) +:+ "/uma/v1/ws".

Definition console_from_env (env : Env) : result ConfigError ConsoleSettings :=
  listen ← parse env socket_addr_from_str "CONSOLE_LISTEN_ADDR" "0.0.0.0:8013";
  node_token ← ok_or (Missing "CONSOLE_NODE_TOKEN") (nonempty env "CONSOLE_NODE_TOKEN");
  admin ← ok_or (Missing "CONSOLE_ADMIN_TOKEN") (nonempty env "CONSOLE_ADMIN_TOKEN");
  panel_token ← ok_or (Missing "CONSOLE_PANEL_TOKEN") (nonempty env "CONSOLE_PANEL_TOKEN");
  data_dir ← parse env (@Some string) "CONSOLE_DATA_DIR" "/var/lib/uma-console";
  stale_s ← parse env parse_u64 "CONSOLE_STALE_AFTER_SECONDS" "15";
  ttl_s ← parse env parse_u64 "CONSOLE_LIST_TTL_SECONDS" "30";
  let http := default "http://43.131.1.194:8011" (nonempty env "CONSOLE_UPSTREAM_HTTP") in
  poll_s ← parse env parse_u64 "CONSOLE_UPSTREAM_POLL_SECONDS" "3";
  llms_s ← parse env parse_u64 "CONSOLE_LLMS_CACHE_SECONDS" "300";
  alert_s ← parse env parse_u64 "CONSOLE_ALERT_INTERVAL_SECONDS" "15";
  Ok {| console_listen_addr := listen;
        node_token := node_token;
        console_admin_token := admin;
        panel_token := panel_token;
        console_data_dir := data_dir;
        stale_after := from_secs stale_s;
        list_ttl := from_secs ttl_s;
        upstream_http := trim_end_char "/" http;
        upstream_ws := default (ws_of_http http) (nonempty env "CONSOLE_UPSTREAM_WS");
        upstream_dashboard_token := nonempty env "CONSOLE_UPSTREAM_DASHBOARD_TOKEN";
        upstream_poll := from_secs poll_s;
        llms_cache := from_secs llms_s;
        alert_webhook := nonempty env "CONSOLE_ALERT_WEBHOOK";
        alert_panel_url := nonempty env "CONSOLE_ALERT_PANEL_URL";
        alert_interval := from_secs (Z.max alert_s 1) |}.

(** ** Which environments start a program *)

Definition succeeds {E A} (r : result E A) : Prop := match r with Ok _ => True | Err _ => False end.
(** A variable with the texts it may have. *)
Definition Var : Type := string * (string -> bool).
Definition ok_with {T} (from_str : string -> option T) (s : string) : bool := match from_str s with Some _ => true | None => false end.
Definition accepted (env : Env) (v : Var) : Prop :=
  match nonempty env (fst v) with Some s => snd v s = true | None => True end.
(** The variable [e] is about has a text it must not have, and [e] quotes it. *)
Definition blames (env : Env) (vars : list Var) (e : ConfigError) : Prop :=
  exists v s, v ∈ vars /\ nonempty env (fst v) = Some s /\ snd v s = false /\ e = Invalid (fst v) s.

Lemma blames_later env v vars e : blames env vars e -> blames env (v :: vars) e.
Proof. intros (w & s & Hw & H). exists w, s. split; [by right|done]. Qed.

Section Steps.
Context (env : Env).

Lemma parse_ok_iff {T} (f : string -> option T) k d v : parse env f k d = Ok v <-> f (default d (nonempty env k)) = Some v.
Proof. unfold parse, ok_or. destruct (f _); split; congruence. Qed.

Lemma parse_accepted {T} (f : string -> option T) k d : is_Some (f d) ->
  succeeds (parse env f k d) <-> accepted env (k, ok_with f).
Proof.
  intros [x Hd]. unfold parse, ok_or, accepted, ok_with. cbn [fst snd].
  destruct (nonempty env k) as [s|]; cbn; [|by rewrite Hd]. by destruct (f s).
Qed.
Lemma parse_blames {T} (f : string -> option T) k d vars e : is_Some (f d) ->
  parse env f k d = Err e -> blames env ((k, ok_with f) :: vars) e.
Proof.
  intros [x Hd]. unfold parse, ok_or. destruct (nonempty env k) as [s|] eqn:En; cbn; [|by rewrite Hd].
  destruct (f s) eqn:Ef; [done|]. intros [= <-]. exists (k, ok_with f), s. unfold ok_with. cbn [fst snd]. rewrite Ef.
  split; [by left|done].
Qed.
Lemma optional_parse_accepted {T} (f : string -> option T) k :
  succeeds (optional_parse env f k) <-> accepted env (k, ok_with f).
Proof. unfold optional_parse, accepted, ok_with. cbn [fst snd]. destruct (nonempty env k) as [s|]; [|done]. by destruct (f s). Qed.
Lemma optional_parse_blames {T} (f : string -> option T) k vars e :
  optional_parse env f k = Err e -> blames env ((k, ok_with f) :: vars) e.
Proof.
  unfold optional_parse. destruct (nonempty env k) as [s|] eqn:En; [|done]. destruct (f s) eqn:Ef; [done|]. intros [= <-].
  exists (k, ok_with f), s. unfold ok_with. cbn [fst snd]. rewrite Ef. split; [by left|done].
Qed.
Lemma parse_bool_accepted k d : succeeds (parse_bool env k d) <-> accepted env (k, ok_with bool_of).
Proof. unfold parse_bool, accepted, ok_with, ok_or. cbn [fst snd]. destruct (nonempty env k) as [s|]; [|done]. by destruct (bool_of s). Qed.
Lemma parse_bool_blames k d vars e : parse_bool env k d = Err e -> blames env ((k, ok_with bool_of) :: vars) e.
Proof.
  unfold parse_bool. destruct (nonempty env k) as [s|] eqn:En; [|done]. unfold ok_or. destruct (bool_of s) eqn:Ef; [done|].
  intros [= <-]. exists (k, ok_with bool_of), s. unfold ok_with. cbn [fst snd]. rewrite Ef. split; [by left|done].
Qed.

(** A chain of steps: what its first one needs, and what the rest needs whatever the
    first gives. *)
Lemma chain_ok {E A B} (m : result E A) (f : A -> result E B) (v : Prop) (rest : Prop) :
  (succeeds m <-> v) -> (forall a, succeeds (f a) <-> rest) -> succeeds (a ← m; f a) <-> v /\ rest.
Proof. intros Hm Hf. destruct m as [a|e]; cbn; [rewrite (Hf a)|]; cbn in Hm; tauto. Qed.
Lemma chain_err {A B} (m : result ConfigError A) (f : A -> result ConfigError B) v vars e :
  (m = Err e -> blames env (v :: vars) e) -> (forall a, f a = Err e -> blames env vars e) ->
  (a ← m; f a) = Err e -> blames env (v :: vars) e.
Proof. intros Hm Hf. destruct m as [a|e']; cbn; [intros H; by eapply blames_later, Hf|intros [= ->]; by apply Hm]. Qed.
Lemma chain_inv {E A B} (m : result E A) (f : A -> result E B) b : (a ← m; f a) = Ok b -> exists a, m = Ok a /\ f a = Ok b.
Proof. destruct m; [by eauto|done]. Qed.
End Steps.

Ltac chain_ok :=
  lazymatch goal with
  | |- succeeds (Ok _) <-> _ => cbn; rewrite Forall_nil; tauto
  | |- _ <-> Forall _ _ =>
      rewrite Forall_cons; apply chain_ok;
      [first [apply parse_accepted; vm_compute; eexists; reflexivity | apply optional_parse_accepted | apply parse_bool_accepted]|intros ?; chain_ok]
  end.
Ltac chain_err :=
  first [by intros [=]
  | apply chain_err;
    [first [apply parse_blames; vm_compute; eexists; reflexivity | apply optional_parse_blames | apply parse_bool_blames]
    |intros ?; chain_err]].
(** The steps of a chain that ended well. *)
Ltac chain_inv H :=
  repeat (let a := fresh "v" in let Ha := fresh "Hv" in apply chain_inv in H as (a & Ha & H)).

(** The variables of the service that are parsed, in their order. *)
Definition service_vars : list Var :=
  ("API_ADDR", ok_with socket_addr_from_str)
  :: map (fun k => (k, ok_with parse_u64))
       ["START_BLOCK"; "INITIAL_BACKFILL_DAYS"; "RPC_BACKFILL_BATCH_BLOCKS"; "RPC_LIVE_BUFFER"; "EVENT_RING_CAPACITY";
        "FRAME_RING_CAPACITY"; "BATCH_MAX_EVENTS"; "BATCH_MAX_BYTES"; "ZSTD_THRESHOLD"; "MAX_DECOMPRESSED_BYTES";
        "GAMMA_REFRESH_INTERVAL_SECONDS"; "GAMMA_NEW_MARKET_INTERVAL_SECONDS"; "CLOSED_MARKET_LOOKBACK_DAYS";
        "CATALOG_RECONCILE_INTERVAL_HOURS"]
  ++ [("REQUIRE_MARKET_ID", ok_with bool_of)]
  ++ map (fun k => (k, ok_with parse_u64)) ["WS_WRITE_TIMEOUT_MS"; "FORFEIT_FEED_BACKFILL"; "FORFEIT_BLOCK_TTL_DAYS"].
Definition edge_vars : list Var :=
  [("EDGE_ADVERTISE_PORT", ok_with parse_u16); ("EDGE_ADVERTISE_TLS", ok_with bool_of)]
  ++ map (fun k => (k, ok_with parse_u64))
       ["EDGE_CLIENT_QUEUE"; "EDGE_RING_FRAMES"; "EDGE_MAX_CLIENTS"; "EDGE_DRAIN_BATCH"; "EDGE_DRAIN_INTERVAL_MS";
        "EDGE_DRAIN_TIMEOUT_SECONDS"; "EDGE_HEARTBEAT_INTERVAL_SECONDS"].

Lemma dedup_spec urls : forall acc, NoDup acc ->
  let out := foldl (fun acc url => if bool_decide (url ∈ acc) then acc else acc ++ [url]) acc urls in
  NoDup out /\ (exists more, out = acc ++ more) /\ (forall u : string, u ∈ out <-> u ∈ acc \/ u ∈ urls).
Proof.
  induction urls as [|u urls IH]; intros acc Hnd; cbn [foldl].
  - split; [done|]. split; [exists []; by rewrite app_nil_r|]. intros u. rewrite elem_of_nil. tauto.
  - case_bool_decide as Hu.
    + destruct (IH acc Hnd) as (H1 & H2 & H3). split; [done|]. split; [done|]. intros x. rewrite H3, elem_of_cons. intuition (subst; auto).
    + destruct (IH (acc ++ [u])) as (H1 & (m & H2) & H3).
      { apply NoDup_app. split; [done|]. split; [by intros x Hx ->%list_elem_of_singleton|apply NoDup_singleton]. }
      split; [done|]. split; [exists (u :: m); rewrite H2; by rewrite <- app_assoc|]. intros x.
      rewrite H3, elem_of_app, list_elem_of_singleton, elem_of_cons. tauto.
Qed.

Section Service.
Context `{UrlCrate} `{EthCodec} (env : Env).
#[local] Abbreviation contracts := (comma_list (default "" (nonempty env "UMA_CONTRACT_ADDRESSES")%string)).
#[local] Abbreviation contract := (parse_fixed_hex 20 "UMA_CONTRACT_ADDRESSES").

Lemma parse_each_ok {A B E} (f : A -> result E B) l : succeeds (parse_each f l) <-> Forall (fun x => succeeds (f x)) l.
Proof.
  induction l as [|x l IH]; cbn; [by rewrite Forall_nil|]. rewrite Forall_cons. apply chain_ok; [done|].
  intros y. rewrite <- IH. by destruct (parse_each f l).
Qed.
Lemma parse_each_err {A B E} (f : A -> result E B) l e : parse_each f l = Err e -> exists x, x ∈ l /\ f x = Err e.
Proof.
  induction l as [|x l IH]; cbn; [done|]. destruct (f x) as [y|e'] eqn:Ef; cbn; [|intros [= ->]; exists x; by split; [left|]].
  destruct (parse_each f l) as [ys|e'] eqn:Ep; cbn; [done|]. intros [= ->]. destruct (IH eq_refl) as (z & ? & ?).
  exists z. by split; [right|].
Qed.
Lemma parse_each_inv {A B E} (f : A -> result E B) l ys : parse_each f l = Ok ys -> Forall2 (fun x y => f x = Ok y) l ys.
Proof.
  revert ys. induction l as [|x l IH]; intros ys; cbn; [by intros [= <-]; constructor|].
  intros Hp. apply chain_inv in Hp as (y & Hy & Hp). apply chain_inv in Hp as (ys' & Hys & [= <-]). constructor; [done|by apply IH].
Qed.
Lemma parse_fixed_hex_length n k s b : parse_fixed_hex n k s = Ok b -> length b = n.
Proof.
  unfold parse_fixed_hex. intros Hp. apply chain_inv in Hp as (d & _ & Hp).
  destruct (bool_decide _) eqn:E; [|done]. injection Hp as <-. by apply bool_decide_eq_true in E.
Qed.

Lemma parse_fixed_hex_error n k s e : parse_fixed_hex n k s = Err e -> e = Invalid k s.
Proof.
  unfold parse_fixed_hex, ok_or. cbv zeta. destruct (hex_decode _); cbn; [|by intros [= <-]].
  destruct (bool_decide _); [done|by intros [= <-]].
Qed.
Lemma derive_http_url_error wss e : derive_http_url wss = Err e -> e = redacted.
Proof.
  unfold derive_http_url, ok_or. destruct (url_parse wss) as [u|]; cbn; [|by intros [= <-]].
  destruct (String.eqb _ "wss"); [|destruct (String.eqb _ "ws")]; cbn; [| |by intros [= <-]];
    (destruct (url_set_scheme _ u); cbn; [done|by intros [= <-]]).
Qed.

(** The service starts exactly in an environment that names a WebSocket endpoint and
    either names an HTTP endpoint or has one derivable from it, whose contract addresses
    are twenty bytes of hex, and whose every other parsed variable is unset or has a text
    of its type. *)
Theorem service_starts_iff :
  succeeds (from_env env) <->
  (exists wss, primary_wss_url env = Ok wss /\ succeeds (http_url env wss))
  /\ Forall (fun a => succeeds (contract a)) contracts /\ Forall (accepted env) service_vars.
Proof.
  unfold from_env. destruct (primary_wss_url env) as [wss|e]; cbn [mbind result_bind].
  2: { split; [done|]. intros ((? & ? & _) & _). discriminate. }
  assert (Hw : (exists w, Ok (E := ConfigError) wss = Ok w /\ succeeds (http_url env w)) <-> succeeds (http_url env wss)).
  { split; [by intros (w & [= <-] & ?)|by exists wss]. }
  rewrite Hw. apply chain_ok; [done|]. intros http. apply chain_ok; [apply parse_each_ok|]. intros bytes.
  unfold service_vars. cbn [map app]. chain_ok.
Qed.

(** What a refused start reports.  The error is the missing endpoint, when no variable
    gives one; or the fixed text [<redacted>] for an endpoint no HTTP endpoint derives
    from; or it names a variable that has a text it must not have, and quotes that text.
    The endpoints, which carry API keys, are never quoted, nor is any token. *)
Theorem service_error_names_variable e :
  from_env env = Err e ->
  (e = MissingWss /\ extra_wss_urls env = [] /\ nonempty env "WSS_RPC" = None /\ nonempty env "POLYGON_WSS_URL" = None)
  \/ (e = redacted /\ nonempty env "HTTP_RPC" = None /\ nonempty env "POLYGON_RPC_URL" = None)
  \/ (exists a, a ∈ contracts /\ e = Invalid "UMA_CONTRACT_ADDRESSES" a /\ ~ succeeds (contract a))
  \/ blames env service_vars e.
Proof.
  unfold from_env, primary_wss_url, required_any. intros He.
  destruct (match extra_wss_urls env with [] => _ | _ => _ end) as [wss|e'] eqn:Ew.
  2: { left. injection He as ->. destruct (extra_wss_urls env); [|done]. unfold ok_or, or_else in Ew.
    destruct (nonempty env "WSS_RPC"); [done|]. destruct (nonempty env "POLYGON_WSS_URL"); [done|]. by injection Ew as <-. }
  right. cbn [mbind result_bind] in He. destruct (http_url env wss) as [http|e'] eqn:Eh.
  2: { left. injection He as ->. unfold http_url, or_else in Eh.
    destruct (nonempty env "HTTP_RPC"); [done|]. destruct (nonempty env "POLYGON_RPC_URL"); [done|].
    split; [|done]. by apply derive_http_url_error in Eh. }
  right. cbn [mbind result_bind] in He. destruct (parse_each contract contracts) as [bytes|e'] eqn:Ec.
  2: { left. injection He as ->. destruct (parse_each_err _ _ _ Ec) as (a & Ha & Hf). exists a.
    split; [done|]. split; [by apply parse_fixed_hex_error in Hf|rewrite Hf; by intros []]. }
  right. cbn [mbind result_bind] in He. revert He. unfold service_vars. cbn [map app]. chain_err.
Qed.

Lemma nonempty_ne k v : nonempty env k = Some v -> v <> EmptyString.
Proof. unfold nonempty. destruct (env k) as [t|]; [|done]. cbn. destruct (String.eqb_spec (trim t) ""); [done|]. by intros [= <-]. Qed.
Lemma comma_list_ne raw : EmptyString ∉ comma_list raw.
Proof.
  unfold comma_list. rewrite list_elem_of_In, filter_In. intros [_ Hn]. discriminate Hn.
Qed.

Definition known_urls : list string :=
  extra_wss_urls env ++ option_list (or_else (nonempty env "WSS_RPC") (nonempty env "POLYGON_WSS_URL")).
Lemma known_urls_ne u : u ∈ known_urls -> u <> EmptyString.
Proof.
  unfold known_urls, or_else, extra_wss_urls. rewrite elem_of_app. intros [Hu|Hu].
  - destruct (nonempty env "WSS_RPC_LIST"); cbn in Hu; [|by apply elem_of_nil in Hu]. intros ->. by apply comma_list_ne in Hu.
  - destruct (nonempty env "WSS_RPC") eqn:E1; [|destruct (nonempty env "POLYGON_WSS_URL") eqn:E2]; cbn in Hu;
      [apply list_elem_of_singleton in Hu; subst; by eapply nonempty_ne..|by apply elem_of_nil in Hu].
Qed.

(** The endpoints: the primary one first, each once, exactly those the variables give. *)
Lemma all_wss_urls_spec wss : primary_wss_url env = Ok wss ->
  NoDup (all_wss_urls env wss) /\ head (all_wss_urls env wss) = Some wss
  /\ (forall u, u ∈ all_wss_urls env wss <-> u ∈ known_urls) /\ EmptyString ∉ all_wss_urls env wss.
Proof.
  intros Hp. assert (Hk : head known_urls = Some wss).
  { unfold known_urls. unfold primary_wss_url, required_any, ok_or in Hp. destruct (extra_wss_urls env); [|by injection Hp as ->].
    cbn [app]. destruct (or_else _ _); [by injection Hp as ->|done]. }
  assert (Hall : all_wss_urls env wss = dedup known_urls).
  { unfold all_wss_urls. fold known_urls. destruct (dedup known_urls) eqn:Ed; [|done]. exfalso.
    destruct (dedup_spec known_urls [] NoDup_nil_2) as (_ & _ & Hin). unfold dedup in Ed. rewrite Ed in Hin.
    destruct known_urls as [|x l]; [done|]. assert (x ∈ @nil string) by (apply Hin; right; by left). by apply elem_of_nil in H1. }
  rewrite Hall. destruct (dedup_spec known_urls [] NoDup_nil_2) as (Hnd & _ & Hin). fold (dedup known_urls) in Hnd, Hin.
  assert (Hin' : forall u, u ∈ dedup known_urls <-> u ∈ known_urls) by (intros u; rewrite Hin, elem_of_nil; tauto).
  split; [done|]. split; [|split; [done|]].
  - unfold dedup. destruct known_urls as [|x l]; [done|]. injection Hk as ->. cbn [foldl].
    rewrite bool_decide_eq_false_2 by (rewrite elem_of_nil; tauto). cbn [app].
    destruct (dedup_spec l [wss] (NoDup_singleton _)) as (_ & (m & ->) & _). done.
  - rewrite Hin'. intros He. by apply known_urls_ne in He.
Qed.

Lemma parse_u64_ok k d v : parse env parse_u64 k d = Ok v -> u64_ok v.
Proof. intros Hv%parse_ok_iff. apply from_str_radix_nonneg in Hv; unfold u64_ok, u64_max in *; lia. Qed.

Definition numbers_ok (c : Config) : Prop :=
  Forall u64_ok [initial_backfill_days c; backfill_batch_blocks c; live_buffer c; event_ring_capacity c; frame_ring_capacity c;
                 batch_max_events c; batch_max_bytes c; zstd_threshold c; max_decompressed_bytes c; closed_market_lookback_days c;
                 ws_write_timeout c; forfeit_feed_backfill c].

(** C38: what every started service can rely on.  There is an endpoint, the primary one is
    the first, none is empty and none is dialled twice; there are as many decoded
    contract addresses as given ones, each of twenty bytes; the numbers fit their machine
    width; the periods of the refresh and of the new-market watch are at least a second;
    and so is that of the reconciliation unless its hours times 3600 leave 64 bits. *)
Theorem config_invariant c :
  from_env env = Ok c ->
  head (wss_rpc_urls c) = Some (polygon_wss_url c) /\ NoDup (wss_rpc_urls c) /\ (EmptyString ∉ wss_rpc_urls c)
  /\ length (contract_address_bytes c) = length (contract_addresses c)
  /\ Forall (fun b => length b = 20%nat) (contract_address_bytes c)
  /\ numbers_ok c
  /\ from_secs 1 <= gamma_refresh_interval c /\ from_secs 1 <= gamma_new_market_interval c
  /\ (exists hours, parse env parse_u64 "CATALOG_RECONCILE_INTERVAL_HOURS" "6" = Ok hours
        /\ (hours <= u64_max / 3600 -> catalog_reconcile_interval c = from_secs (3600 * Z.max hours 1))).
Proof.
  unfold from_env. intros Hc. apply chain_inv in Hc as (wss & Hw & Hc). apply chain_inv in Hc as (http & _ & Hc).
  apply chain_inv in Hc as (bytes & Hb & Hc). apply parse_each_inv in Hb. chain_inv Hc. injection Hc as <-.
  destruct (all_wss_urls_spec wss Hw) as (Hnd & Hh & _ & Hne). cbn.
  split; [done|]. split; [done|]. split; [done|]. split; [by symmetry; eapply Forall2_length|].
  split; [clear -Hb; induction Hb as [|a b l l' Hab _ IH]; constructor; [by eapply parse_fixed_hex_length|done]|].
  split; [unfold numbers_ok; cbn; repeat (apply Forall_cons; split; [by eapply parse_u64_ok|]); apply Forall_nil_2|].
  unfold from_secs. split; [lia|]. split; [lia|].
  match goal with Hh : parse _ _ "CATALOG_RECONCILE_INTERVAL_HOURS" _ = Ok ?h |- _ => exists h; split; [exact Hh|apply parse_u64_ok in Hh] end.
  unfold u64_ok, u64_max in *. intros Hle. change ((2 ^ 64 - 1) / 3600) with 5124095576030431 in Hle.
  unfold u64_mul. rewrite Z.mod_small by lia. lia.
Qed.
End Service.

Lemma ok_or_ok {E A} (e : E) (o : option A) : succeeds (ok_or e o) <-> is_Some o.
Proof. rewrite is_Some_alt. by destruct o. Qed.

(** The edge needs a listen address, a name of its own and its numbers; the console its
    three secrets. *)
Theorem edge_starts_iff env hostname :
  succeeds (edge_from_env env hostname) <->
  accepted env ("EDGE_LISTEN_ADDR", ok_with socket_addr_from_str)
  /\ is_Some (or_else (nonempty env "EDGE_NODE_ID") (s ← hostname; let s := trim s in if String.eqb s "" then None else Some s))
  /\ Forall (accepted env) edge_vars.
Proof.
  unfold edge_from_env, edge_vars. cbn [map app]. apply chain_ok; [apply parse_accepted; vm_compute; by eexists|]. intros listen.
  apply chain_ok; [apply ok_or_ok|]. intros id. chain_ok.
Qed.

Definition console_vars : list Var :=
  ("CONSOLE_DATA_DIR", ok_with (@Some string))
  :: map (fun k => (k, ok_with parse_u64))
       ["CONSOLE_STALE_AFTER_SECONDS"; "CONSOLE_LIST_TTL_SECONDS"; "CONSOLE_UPSTREAM_POLL_SECONDS"; "CONSOLE_LLMS_CACHE_SECONDS";
        "CONSOLE_ALERT_INTERVAL_SECONDS"].
Theorem console_starts_iff env :
  succeeds (console_from_env env) <->
  accepted env ("CONSOLE_LISTEN_ADDR", ok_with socket_addr_from_str)
  /\ is_Some (nonempty env "CONSOLE_NODE_TOKEN") /\ is_Some (nonempty env "CONSOLE_ADMIN_TOKEN")
  /\ is_Some (nonempty env "CONSOLE_PANEL_TOKEN") /\ Forall (accepted env) console_vars.
Proof.
  unfold console_from_env, console_vars. cbn [map].
  apply chain_ok; [apply parse_accepted; vm_compute; by eexists|]. intros listen.
  apply chain_ok; [apply ok_or_ok|]. intros node. apply chain_ok; [apply ok_or_ok|]. intros admin.
  apply chain_ok; [apply ok_or_ok|]. intros panel. chain_ok.
Qed.

(** ** Reading an address back *)

Definition digits_text (ds : list Z) (rest : string) : string := foldr (fun d s => String (digit_char d) s) rest ds.

(** The digits [fmt_radix] writes: no leading zero, and few. *)
Lemma fmt_radix_digits radix fuel z : 2 <= radix <= 36 -> 0 <= z < 2 ^ Z.of_nat fuel -> fuel <> O ->
  exists ds, (forall acc, fmt_radix_fuel fuel radix z acc = digits_text ds acc) /\ Forall (fun d => 0 <= d < radix) ds
    /\ digits_value radix ds = z /\ ds <> [] /\ (head ds = Some 0 -> length ds = 1%nat)
    /\ (forall n : nat, z < radix ^ Z.of_nat n -> n <> O -> (length ds <= n)%nat).
Proof.
  intros Hr. revert z. induction fuel as [|fuel IH]; intros z Hz Hf; [done|]. clear Hf.
  pose proof (Z.mod_pos_bound z radix ltac:(lia)). pose proof (Z.div_mod z radix ltac:(lia)).
  cbn [fmt_radix_fuel]. destruct (z <? radix) eqn:E.
  - rewrite Z.mod_small by lia. exists [z]. split; [done|]. split; [repeat constructor; lia|]. split; [unfold digits_value; cbn; lia|].
    split; [done|]. split; [done|]. intros n _ Hn. cbn. lia.
  - assert (0 < z / radix) by (apply Z.div_str_pos; lia).
    assert (Hlt : z / radix < 2 ^ Z.of_nat fuel).
    { rewrite Nat2Z.inj_succ, Z.pow_succ_r in Hz by lia. apply Z.div_lt_upper_bound; nia. }
    assert (Hf : fuel <> O) by (intros ->; cbn in Hlt; lia).
    destruct (IH (z / radix) ltac:(lia) Hf) as (ds & Ht & Hd & Hv & Hne & Hh & Hl).
    exists (ds ++ [z mod radix]). split; [intros acc; rewrite Ht; unfold digits_text; by rewrite foldr_app|].
    split; [apply Forall_app; split; [done|repeat constructor; lia]|].
    unfold digits_value in *. split; [rewrite foldl_app, Hv; cbn; lia|]. split; [by destruct ds|].
    split.
    + destruct ds as [|d ds]; [done|]. cbn. intros [= ->]. exfalso. specialize (Hh eq_refl).
      destruct ds; [cbn in Hv; lia|done].
    + intros [|n] Hn Hn0; [done|]. rewrite length_app. cbn [length].
      rewrite Nat2Z.inj_succ, Z.pow_succ_r in Hn by lia.
      assert (z / radix < radix ^ Z.of_nat n) by (apply Z.div_lt_upper_bound; lia).
      destruct n as [|n]; [cbn in *; lia|]. specialize (Hl (S n) ltac:(done) ltac:(done)). lia.
Qed.

Lemma take_digits_text radix ds rest : radix <= 36 -> Forall (fun d => 0 <= d < radix) ds ->
  (match rest with String c _ => digit_val radix c = None | EmptyString => True end) ->
  take_digits radix (digits_text ds rest) = (ds, rest).
Proof.
  intros Hr Hd Hrest. induction Hd as [|d ds Hd _ IH]; cbn.
  - destruct rest as [|c r]; [done|]. cbn. by rewrite Hrest.
  - rewrite digit_val_char by done. fold (digits_text ds rest). by rewrite IH.
Qed.

(** A number is read back in front of anything but a digit. *)
Lemma read_number_fmt radix max md zp z rest : 2 <= radix <= 36 -> 0 <= z <= max ->
  (match md with Some m => m <> O /\ z < radix ^ Z.of_nat m | None => True end) ->
  (match rest with String c _ => digit_val radix c = None | EmptyString => True end) ->
  read_number radix max md zp (fmt_radix radix z +:+ rest) = Some (z, rest).
Proof.
  intros Hr Hz Hm Hrest. unfold fmt_radix.
  destruct (fmt_radix_digits radix (S (Z.to_nat (Z.log2 z))) z Hr) as (ds & Ht & Hd & Hv & Hne & Hh & Hl); [|done|].
  { rewrite Nat2Z.inj_succ, Z2Nat.id by apply Z.log2_nonneg. destruct (Z.eq_dec z 0) as [->|]; [cbn; lia|].
    pose proof (Z.log2_spec z ltac:(lia)). lia. }
  assert (Ha : digits_text ds "" +:+ rest = digits_text ds rest).
  { clear. induction ds as [|d ds IH]; [done|].
    change (String (digit_char d) (digits_text ds "" +:+ rest) = String (digit_char d) (digits_text ds rest)). by rewrite IH. }
  rewrite Ht, Ha. unfold read_number. rewrite take_digits_text by (done || lia). cbn zeta. rewrite Hv.
  rewrite bool_decide_eq_false_2 by done.
  replace (match md with Some m => _ | None => false end) with false.
  2: { destruct md as [m|]; [|done]. symmetry. apply bool_decide_eq_false_2. destruct Hm as [Hm0 Hm]. specialize (Hl m Hm Hm0). lia. }
  replace (negb zp && _ && _) with false; [by replace (z <=? max) with true by lia|].
  symmetry. destruct (decide (head ds = Some 0)) as [E|E]; [|rewrite (bool_decide_eq_false_2 _ E); by destruct zp].
  rewrite (Hh E). by destruct zp, (bool_decide _).
Qed.

Lemma read_given_app c s : read_given c (String c EmptyString +:+ s) = Some (tt, s).
Proof. change (read_given c (String c s) = Some (tt, s)). cbn. by rewrite Ascii.eqb_refl. Qed.

(** [Display] of an IPv4 socket address *)
Definition fmt_v4 (a b c d p : Z) : string :=
  fmt_u64 a +:+ ("." +:+ (fmt_u64 b +:+ ("." +:+ (fmt_u64 c +:+ ("." +:+ (fmt_u64 d +:+ (":" +:+ fmt_u64 p))))))).

(** An IPv4 listen address that was printed is read back as it was. *)
Theorem socket_addr_roundtrip a b c d p :
  Forall (fun x => 0 <= x < 256) [a; b; c; d] -> 0 <= p < 65536 ->
  socket_addr_from_str (fmt_v4 a b c d p) = Some {| ip := V4 [a; b; c; d]; port := p |}.
Proof.
  intros Ho Hp. rewrite !Forall_cons in Ho. destruct Ho as (Ha & Hb & Hc & Hd & _).
  unfold socket_addr_from_str, read_socket_v4, read_ipv4, read_octet, read_separator, fmt_v4, fmt_u64, read_port.
  assert (Hoct : forall x rest, 0 <= x < 256 -> (match rest with String e _ => digit_val 10 e = None | EmptyString => True end) ->
    read_number 10 255 (Some 3%nat) false (fmt_radix 10 x +:+ rest) = Some (x, rest)).
  { intros x rest Hx Hrest. apply read_number_fmt; [lia|lia|split; [done|cbn; lia]|done]. }
  do 3 (rewrite Hoct by done; cbn [mbind option_bind]; rewrite read_given_app; cbn [mbind option_bind]).
  rewrite Hoct by done. cbn [mbind option_bind]. rewrite read_given_app. cbn [mbind option_bind].
  rewrite <- (str_app_nil_r (fmt_radix 10 p)), read_number_fmt by (done || lia). done.
Qed.

(** ** Runs *)

Module ConfigRuns.
#[local] Instance codec : EthCodec := sample_codec.
(** A URL as its scheme and the rest. *)
#[local] Instance url : UrlCrate.
Proof.
  refine {| Url := string * string; url_parse := split_once ":"; url_scheme := fst;
            url_set_scheme s u := Some (s, snd u); url_to_string u := fst u +:+ ":" +:+ snd u |}.
  intros u s _ _. by eexists.
Defined.

Definition env_of (vars : list (string * string)) : Env := fun k => snd <$> find (fun p => String.eqb (fst p) k) vars.
Definition vars : list (string * string) :=
  [("WSS_RPC", " wss://a/key "); ("WSS_RPC_LIST", "wss://b, ,wss://a/key,wss://b");
   ("UMA_CONTRACT_ADDRESSES", "0x0102030405060708090a0b0c0d0e0f1011121314")].
(** The value of a successful start. *)
Definition started (vars : list (string * string)) : option Config := result_ok (from_env (env_of vars)).

(** One variable is enough; the HTTP endpoint is derived from it. *)
Example one_variable_starts :
  polygon_rpc_url <$> started [("WSS_RPC", "wss://a/key")] = Some "https://a/key"
  /\ (fun c => (frame_ring_capacity c, gamma_base_url c, api_addr c)) <$> started [("WSS_RPC", "wss://a/key")]
     = Some (2048, "https://gamma-api.polymarket.com", {| ip := V4 [127; 0; 0; 1]; port := 8011 |}).
Proof. split; by vm_compute. Qed.

Example addresses_parse :
  socket_addr_from_str "[::ffff:1.2.3.4]:80" = Some {| ip := V6 [0; 0; 0; 0; 0; 65535; 258; 772] 0; port := 80 |}
  /\ socket_addr_from_str "[fe80::1%3]:080" = Some {| ip := V6 [65152; 0; 0; 0; 0; 0; 0; 1] 3; port := 80 |}
  /\ socket_addr_from_str "127.0.0.01:80" = None /\ socket_addr_from_str "256.0.0.1:80" = None
  /\ socket_addr_from_str "1.2.3.4:65536" = None /\ socket_addr_from_str "localhost:80" = None.
Proof. repeat split; by vm_compute. Qed.

Lemma config_invariant_witness :
  exists c, started vars = Some c /\ wss_rpc_urls c = ["wss://b"; "wss://a/key"] /\ NoDup (wss_rpc_urls c)
    /\ Forall (fun b => length b = 20%nat) (contract_address_bytes c).
Proof.
  destruct (from_env (env_of vars)) as [c|e] eqn:E; [|vm_compute in E; discriminate].
  destruct (config_invariant (env_of vars) c E) as (_ & Hnd & _ & _ & Hb & _).
  exists c. unfold started. rewrite E. split; [reflexivity|]. split; [vm_compute in E; injection E as <-; reflexivity|]. by split.
Defined.

Definition bad_vars : list (string * string) := [("WSS_RPC", "wss://a/key"); ("BATCH_MAX_BYTES", "32k")].
Lemma service_error_names_variable_witness :
  from_env (env_of bad_vars) = Err (Invalid "BATCH_MAX_BYTES" "32k")
  /\ blames (env_of bad_vars) service_vars (Invalid "BATCH_MAX_BYTES" "32k").
Proof.
  assert (E : from_env (env_of bad_vars) = Err (Invalid "BATCH_MAX_BYTES" "32k")) by (vm_compute; reflexivity).
  split; [exact E|]. destruct (service_error_names_variable (env_of bad_vars) _ E) as [[Hx _]|[[Hx _]|[(a & _ & Hx & _)|Hb]]];
    [discriminate..|exact Hb].
Defined.

Lemma socket_addr_roundtrip_witness :
  fmt_v4 0 0 0 0 8012 = "0.0.0.0:8012" /\ socket_addr_from_str (fmt_v4 0 0 0 0 8012) = Some {| ip := V4 [0; 0; 0; 0]; port := 8012 |}.
Proof. split; [vm_compute; reflexivity|]. apply socket_addr_roundtrip; [repeat constructor; lia|lia]. Defined.

(** The product of the hours and 3600 wraps: the period of the reconciliation is zero,
    for which [tokio::time::interval] panics. *)
Example reconcile_hours_wrap :
  catalog_reconcile_interval <$> started [("WSS_RPC", "wss://a"); ("CATALOG_RECONCILE_INTERVAL_HOURS", "1152921504606846976")] = Some 0.
Proof. by vm_compute. Qed.
(** The same with the days a forfeited match stays listed: a limit of zero means none. *)
Example ttl_days_wrap :
  (fun c => ttl_us (forfeit_from_config c None 0)) <$>
    started [("WSS_RPC", "wss://a"); ("FORFEIT_FEED_URL", "ws://f"); ("FORFEIT_BLOCK_TTL_DAYS", "144115188075855872")] = Some 0.
Proof. by vm_compute. Qed.
(** The console's poll period has no lower bound. *)
Example console_poll_zero :
  (fun c => (upstream_poll c, alert_interval c)) <$> result_ok (console_from_env (env_of
     [("CONSOLE_NODE_TOKEN", "n"); ("CONSOLE_ADMIN_TOKEN", "a"); ("CONSOLE_PANEL_TOKEN", "p");
      ("CONSOLE_UPSTREAM_POLL_SECONDS", "0"); ("CONSOLE_ALERT_INTERVAL_SECONDS", "0")])) = Some (0, 1000).
Proof. by vm_compute. Qed.
Example console_ws_follows_http :
  ws_of_http "https://h:1/" = "wss://h:1/uma/v1/ws" /\ ws_of_http "http://h:1" = "ws://h:1/uma/v1/ws".
Proof. split; by vm_compute. Qed.
End ConfigRuns.
