(* ===== verification/ForfeitFeed.v ===== *)
(** * ForfeitFeed: keeping the blocklist fed and on disk ([src/forfeit.rs])

    The two tasks that [run_forfeit_feed] runs, the subscription to forfeit-feed with its
    reconnection and the saver that expires and saves the list, and the pipeline's calls,
    as one system over the list: an action is what one of them does between two locks,
    waits or notifications, and a schedule is any sequence of actions.  What the socket
    yields comes with the actions; the protobuf decoder is a parameter. *)
From S2P Require Import Prelude Model Events Calldata Uint256 Forfeit.

(** ** The subscription *)

Record FeedStatus := {
  connected : bool;
  connects : Z;
  frames : Z;
  last_frame_at_us : Z;
  server_last_sequence : Z;
  last_error : option (Z * string) }.
Definition feed_status_new : FeedStatus :=
  {| connected := false; connects := 0; frames := 0; last_frame_at_us := 0; server_last_sequence := 0; last_error := None |}.

Definition on_connected (f : FeedStatus) : FeedStatus :=
  {| connected := true; connects := u64_add (connects f) 1; frames := frames f; last_frame_at_us := last_frame_at_us f;
     server_last_sequence := server_last_sequence f; last_error := last_error f |}.
(** The connection is down and its error is kept with the time. *)
Definition set_error (now : Z) (e : string) (f : FeedStatus) : FeedStatus :=
  {| connected := false; connects := connects f; frames := frames f; last_frame_at_us := last_frame_at_us f;
     server_last_sequence := server_last_sequence f; last_error := Some (now, e) |}.
Definition saw_message (now : Z) (f : FeedStatus) : FeedStatus :=
  {| connected := connected f; connects := connects f; frames := frames f; last_frame_at_us := now;
     server_last_sequence := server_last_sequence f; last_error := last_error f |}.
Definition count_frame (server : Z) (f : FeedStatus) : FeedStatus :=
  {| connected := connected f; connects := connects f; frames := u64_add (frames f) 1; last_frame_at_us := last_frame_at_us f;
     server_last_sequence := server; last_error := last_error f |}.

Inductive frame_body := Hello (last_sequence : Z) | Event (e : pb_ForfeitEvent).

Inductive feed_item :=
| Shutdown
| ReadTimeout
| ServerGone
| ReadError (e : string)
| Binary (payload : bytes)
| PingFrame (pong : result string unit)
| CloseFrame
| OtherFrame.

Definition feed_url (base : string) (backfill : Z) (token : option string) : string :=
  base +:+ (if has_char "?" base then "&" else "?") +:+ "backfill=" +:+ fmt_u64 backfill
  +:+ match token with Some t => "&token=" +:+ t | None => "" end.

Section ForfeitFeed.
Context `{EthCodec} `{ForfeitNumbers}.
(** [pb::ForfeitFrame::decode]: the outer [None] is a decode error. *)
Variable decode : bytes -> option (option frame_body).

(** ** The tasks *)

(** Where the subscription is: at the top of its loop, in [connect_async], waiting for a
    message, before each of the three parts of [apply], with a session that ended in an
    error, asleep, or done. *)
Inductive FeedPc :=
| Looping
| Dialing
| Reading
| Applying (e : pb_ForfeitEvent)
| Indexing (changed : bool) (ids : list bytes) (entry : Entry)
| Notifying
| Failing (error : string)
| Backing
| FeedStopped.
Record FeedTask := { feed_pc : FeedPc; url : string; backoff_s : Z; feed : FeedStatus }.

(** Where [run_saver] is: in its [select!], in [prune] before the index or the
    notification, in the second's sleep, told to stop, with a snapshot it is writing (the
    [last] before it ends), or done. *)
Inductive SaverPc :=
| Selecting
| Rebuilding (ix : gmap bytes Entry)
| Pruned
| Pausing
| Stopping
| Writing (snapshot : Snapshot) (last : bool)
| SaverEnded.

(** The list, the tasks, the pipeline's [record_blocked] calls before their notification,
    and the file. *)
Record Blocklist := { memory : ForfeitBlocklist; feed_task : FeedTask; saver_task : SaverPc; calls : nat; disk : option Snapshot }.
Definition with_memory (l : ForfeitBlocklist) (s : Blocklist) : Blocklist :=
  {| memory := l; feed_task := feed_task s; saver_task := saver_task s; calls := calls s; disk := disk s |}.
Definition with_feed (pc : FeedPc) (backoff : Z) (f : FeedStatus) (s : Blocklist) : Blocklist :=
  {| memory := memory s; feed_task := {| feed_pc := pc; url := url (feed_task s); backoff_s := backoff; feed := f |};
     saver_task := saver_task s; calls := calls s; disk := disk s |}.
Definition at_feed (pc : FeedPc) (s : Blocklist) : Blocklist := with_feed pc (backoff_s (feed_task s)) (feed (feed_task s)) s.
Definition at_saver (pc : SaverPc) (s : Blocklist) : Blocklist :=
  {| memory := memory s; feed_task := feed_task s; saver_task := pc; calls := calls s; disk := disk s |}.
Definition with_calls (n : nat) (s : Blocklist) : Blocklist :=
  {| memory := memory s; feed_task := feed_task s; saver_task := saver_task s; calls := n; disk := disk s |}.

(** [run_forfeit_feed] with [FORFEIT_FEED_URL] set to [base]: the two tasks begin.  Without
    the setting it returns, and the list is the disabled one. *)
Definition run_forfeit_feed (base : string) (backfill : Z) (token : option string) (file : option Snapshot) (l : ForfeitBlocklist) : Blocklist :=
  {| memory := l; saver_task := Selecting; calls := 0; disk := file;
     feed_task := {| feed_pc := Looping; url := feed_url base backfill token; backoff_s := 1; feed := feed_status_new |} |}.

Inductive list_action :=
| FeedLoops (shutdown : bool)
| FeedDials (outcome : result string unit)
| FeedReceives (now : Z) (i : feed_item)
| FeedMerges (now : Z)
| FeedIndexes
| FeedNotifies
| FeedFails (now elapsed_ms : Z)
| FeedWakes
| SaverPrunes (now : Z)
| SaverRebuilds
| SaverNotifies
| SaverWakes
| SaverStops
| SaverSnapshots
| SaverWrites (written : bool)
| PipelineBlocks (r : EventRecord) (m : Z) (now : Z)
| PipelineNotifies.

(** What one message does to the counters, and where it leaves the session. *)
Definition on_binary (payload : bytes) (f : FeedStatus) : FeedPc * FeedStatus :=
  match decode payload with
  | None | Some None => (Reading, count_frame (server_last_sequence f) f)
  | Some (Some (Hello n)) => (Reading, count_frame n f)
  | Some (Some (Event e)) => (Applying e, count_frame (Z.max (server_last_sequence f) (fe_sequence e)) f)
  end.
Definition feed_session (now : Z) (i : feed_item) (f : FeedStatus) : FeedPc * FeedStatus :=
  match i with
  | Shutdown => (FeedStopped, f)
  | ReadTimeout => (Failing "read timeout", f)
  | ServerGone => (Failing "closed by server", f)
  | ReadError e => (Failing ("read: " +:+ e), f)
  | Binary payload => on_binary payload (saw_message now f)
  | PingFrame (Ok _) | OtherFrame => (Reading, saw_message now f)
  | PingFrame (Err e) => (Failing ("pong: " +:+ e), saw_message now f)
  | CloseFrame => (Failing "server sent close", saw_message now f)
  end.

(** One action of the subscription; [None] where it is not the next it can do. *)
Definition feed_step (a : list_action) (s : Blocklist) : option Blocklist :=
  let t := feed_task s in
  match feed_pc t, a with
  | Looping, FeedLoops shutdown => Some (at_feed (if shutdown then FeedStopped else Dialing) s)
  | Dialing, FeedDials (Ok _) => Some (with_feed Reading (backoff_s t) (on_connected (feed t)) s)
  | Dialing, FeedDials (Err e) => Some (at_feed (Failing e) s)
  | Reading, FeedReceives now i => let '(pc, f) := feed_session now i (feed t) in Some (with_feed pc (backoff_s t) f s)
  | Applying e, FeedMerges now =>
      let '(changed, ids, entry, l) := apply_state e now (memory s) in
      let pc := match ids with [] => if changed then Notifying else Reading | _ => Indexing changed ids entry end in
      Some (at_feed pc (with_memory l s))
  | Indexing changed ids entry, FeedIndexes =>
      Some (at_feed (if changed then Notifying else Reading) (with_memory (apply_index ids entry (memory s)) s))
  | Notifying, FeedNotifies => Some (at_feed Reading (with_memory (notify_one (memory s)) s))
  | Failing e, FeedFails now elapsed_ms =>
      Some (with_feed Backing (if 30000 <? elapsed_ms then 1 else backoff_s t) (set_error now e (feed t)) s)
  | Backing, FeedWakes => Some (with_feed Looping (Z.min (backoff_s t * 2) 30) (feed t) s)
  | _, _ => None
  end.

(** One action of [run_saver] and [save].  [SaverWrites written] is the end of the atomic
    write, which may fail. *)
Definition saver_step (a : list_action) (s : Blocklist) : option Blocklist :=
  match saver_task s, a with
  | Selecting, SaverPrunes now =>
      let '(_, rebuilt, l) := prune_state now (memory s) in
      Some (at_saver (match rebuilt with Some ix => Rebuilding ix | None => Selecting end) (with_memory l s))
  | Rebuilding ix, SaverRebuilds => Some (at_saver Pruned (with_memory (with_index ix (memory s)) s))
  | Pruned, SaverNotifies => Some (at_saver Selecting (with_memory (notify_one (memory s)) s))
  | Selecting, SaverWakes =>
      if dirty (memory s) then Some (at_saver Pausing (with_memory (with_dirty false (memory s)) s)) else None
  | Selecting, SaverStops => Some (at_saver Stopping s)
  | Pausing, SaverSnapshots => Some (at_saver (Writing (snapshot_of (memory s)) false) s)
  | Stopping, SaverSnapshots => Some (at_saver (Writing (snapshot_of (memory s)) true) s)
  | Writing snapshot last, SaverWrites written =>
      Some {| memory := memory s; feed_task := feed_task s; saver_task := if last then SaverEnded else Selecting; calls := calls s;
              disk := if written then Some snapshot else disk s |}
  | _, _ => None
  end.

(** [record_blocked] as the pipeline calls it, from any number of tasks. *)
Definition pipeline_step (a : list_action) (s : Blocklist) : option Blocklist :=
  match a with
  | PipelineBlocks r m now => Some (with_calls (S (calls s)) (with_memory (record_state r m now (memory s)) s))
  | PipelineNotifies => match calls s with
                        | O => None
                        | S n => Some (with_calls n (with_memory (notify_one (memory s)) s))
                        end
  | _ => None
  end.

Definition list_step (s : Blocklist) (a : list_action) : option Blocklist :=
  match a with
  | FeedLoops _ | FeedDials _ | FeedReceives _ _ | FeedMerges _ | FeedIndexes | FeedNotifies | FeedFails _ _ | FeedWakes => feed_step a s
  | SaverPrunes _ | SaverRebuilds | SaverNotifies | SaverWakes | SaverStops | SaverSnapshots | SaverWrites _ => saver_step a s
  | PipelineBlocks _ _ _ | PipelineNotifies => pipeline_step a s
  end.
Fixpoint list_run (s : Blocklist) (acts : list list_action) : option Blocklist :=
  match acts with [] => Some s | a :: acts => s' ← list_step s a; list_run s' acts end.

(** ** Overlapping calls *)

(** A call of [apply] or [prune] that has released the state and not yet written the index. *)
Definition merging (s : Blocklist) : bool := match feed_pc (feed_task s) with Indexing _ _ _ => true | _ => false end.
Definition rebuilding (s : Blocklist) : bool := match saver_task s with Rebuilding _ => true | _ => false end.
(** No state of the run has both. *)
Fixpoint apart (s : Blocklist) (acts : list list_action) : bool :=
  negb (merging s && rebuilding s)
  && match acts with
     | [] => true
     | a :: acts => match list_step s a with Some s' => apart s' acts | None => true end
     end.

(** ** The list as a document *)

(** Each match with when it was learned of and the conditions it was reported with. *)
Abbreviation Listing := (gmap Z (Z * gset bytes)).
Inductive list_event := Learned (e : pb_ForfeitEvent) (now : Z) | Expired (now : Z).

(** The conditions an event names, alone or with a market. *)
Definition named (e : pb_ForfeitEvent) : gset bytes :=
  list_to_set (filter (fun c => length c = 32%nat) (map fm_condition_id (fe_markets e) ++ fe_condition_ids e)).
(** A match lives for the term from when it was learned of, for ever without a term. *)
Definition lives (ttl now added : Z) : Prop := ttl = 0 \/ now < u64_sat_add added ttl.
#[local] Instance lives_dec ttl now added : Decision (lives ttl now added).
Proof. unfold lives. apply _. Defined.

Definition listing_step (ttl : Z) (t : Listing) (ev : list_event) : Listing :=
  match ev with
  | Learned e now => let '(added, cs) := default (now, ∅) (t !! fe_match_id e) in <[fe_match_id e := (added, cs ∪ named e)]> t
  | Expired now => filter (fun p => lives ttl now (fst (snd p))) t
  end.

(** The events of a schedule: each one received, at the time it is merged, and the
    saver's prunes. *)
Definition event_of (i : feed_item) : option pb_ForfeitEvent :=
  match i with
  | Binary payload => match decode payload with Some (Some (Event e)) => Some e | _ => None end
  | _ => None
  end.
Fixpoint history (received : option pb_ForfeitEvent) (acts : list list_action) : list list_event :=
  match acts with
  | [] => []
  | FeedReceives _ i :: acts => history (event_of i) acts
  | FeedMerges now :: acts => match received with Some e => [Learned e now] | None => [] end ++ history None acts
  | SaverPrunes now :: acts => Expired now :: history received acts
  | _ :: acts => history received acts
  end.

(** The list a file holds, as [load] reads it before it prunes. *)
Definition file_matches (file : option Snapshot) : gmap Z BlockedMatch :=
  match file with
  | Some f => if snap_version f =? SNAPSHOT_VERSION then foldl (fun t m => <[bx_match_id m := m]> t) ∅ (snap_matches f) else ∅
  | None => ∅
  end.
Definition conditions (b : BlockedMatch) : gset bytes := list_to_set (omap market_id_bytes (bx_markets b)).
Definition listing (ms : gmap Z BlockedMatch) : Listing := (fun b => (bx_added_at_us b, conditions b)) <$> ms.

(** ** The index and the matches *)

(** The index once the call between its locks, if there is one, has written it. *)
Definition settled_index (s : Blocklist) : gmap bytes Entry :=
  match feed_pc (feed_task s), saver_task s with
  | Indexing _ ids entry, _ => foldl (index_insert entry) (index (memory s)) ids
  | _, Rebuilding ix => ix
  | _, _ => index (memory s)
  end.
Definition settled (s : Blocklist) : Prop := indexed (matches (memory s)) (settled_index s).

Lemma settled_at_rest s : merging s = false -> rebuilding s = false -> settled s -> forfeit_inv (memory s).
Proof. unfold merging, rebuilding, settled, settled_index. by destruct (feed_pc _), (saver_task s). Qed.

Lemma feed_step_settled a s s' : merging s && rebuilding s = false -> merging s' && rebuilding s' = false ->
  feed_step a s = Some s' -> settled s -> settled s'.
Proof.
  unfold merging, rebuilding, settled, settled_index, feed_step. intros Hap0 Hap Ha Hi.
  destruct (feed_pc (feed_task s)) as [| | |e|changed ids entry| |e| |], a; try done.
  - injection Ha as <-. by destruct shutdown.
  - destruct outcome; by injection Ha as <-.
  - destruct (feed_session _ _ _) as [pc f] eqn:Ef. injection Ha as <-. cbn in *.
    destruct i as [| | |?|payload|[?|?]| |]; cbn in Ef; try (injection Ef as <- _; exact Hi).
    unfold on_binary in Ef. destruct (decode payload) as [[[?|?]|]|]; injection Ef as <- _; exact Hi.
  - pose proof (apply_state_indexed e now (memory s) _ Hi) as Hs. destruct (apply_state e now (memory s)) as [[[changed ids] entry] l].
    destruct Hs as [Hx Hs]. injection Ha as <-. cbn in *. rewrite Hx.
    destruct ids as [|id ids]; [destruct changed; exact Hs|]. destruct (saver_task s); done.
  - injection Ha as <-. cbn in *. by destruct changed, (saver_task s).
  - by injection Ha as <-.
  - by injection Ha as <-.
  - by injection Ha as <-.
Qed.

Lemma saver_step_settled a s s' : merging s && rebuilding s = false -> merging s' && rebuilding s' = false ->
  saver_step a s = Some s' -> settled s -> settled s'.
Proof.
  unfold merging, rebuilding, settled, settled_index, saver_step. intros Hap0 Hap Ha Hi.
  destruct (saver_task s) as [|ix| | | |snapshot last|], a; try done.
  - pose proof (prune_state_matches now (memory s)) as Hm. pose proof (prune_state_keys now (memory s) (ix_key _ _ Hi)) as Hk.
    destruct (prune_state now (memory s)) as [[removed [ix|]] l]; destruct Hm as [Ei Hm]; injection Ha as <-; cbn in *.
    + destruct (feed_pc (feed_task s)); try done; rewrite Hm; by apply build_index_indexed.
    + by rewrite Ei, Hm.
  - destruct (dirty (memory s)); [|done]. by injection Ha as <-.
  - by injection Ha as <-.
  - injection Ha as <-. cbn in *. by destruct (feed_pc (feed_task s)).
  - by injection Ha as <-.
  - injection Ha as <-. exact Hi.
  - injection Ha as <-. exact Hi.
  - injection Ha as <-. by destruct last.
Qed.

Lemma pipeline_step_settled a s s' : pipeline_step a s = Some s' -> settled s -> settled s'.
Proof.
  unfold settled, settled_index. intros Ha Hi. destruct a; try done; cbn [pipeline_step] in Ha; [|destruct (calls s); [done|]]; injection Ha as <-; [|done].
  by apply (record_state_indexed r m now (memory s)).
Qed.

Lemma list_run_settled acts : forall s s', apart s acts = true -> list_run s acts = Some s' -> settled s -> settled s'.
Proof.
  induction acts as [|a acts IH]; intros s s' Hap Hr Hi; [by injection Hr as <-|]. cbn [list_run apart] in *.
  destruct (list_step s a) as [s1|] eqn:Ea; [|done]. apply andb_true_iff in Hap as [Hs Hap]. apply negb_true_iff in Hs.
  apply (IH s1 s' Hap Hr). assert (Hs1 : merging s1 && rebuilding s1 = false).
  { destruct acts; cbn [apart] in Hap; by apply andb_true_iff in Hap as [?%negb_true_iff _]. }
  destruct a; cbn [list_step] in Ea; (by apply feed_step_settled in Ea) || (by apply saver_step_settled in Ea) || by apply pipeline_step_settled in Ea.
Qed.

(** ** The matches and the history *)

Lemma conditions_spec b c : c ∈ conditions b <-> lists b c.
Proof. unfold conditions. rewrite elem_of_list_to_set, list_elem_of_omap. done. Qed.

Lemma event_markets_named known e c : c ∈ snd (event_markets known e) -> c ∈ named e.
Proof.
  unfold named. rewrite elem_of_list_to_set, list_elem_of_filter.
  assert (Hm : forall l acc, c ∈ snd (foldl (add_market known) acc l) -> c ∈ snd acc \/ (length c = 32%nat /\ c ∈ map fm_condition_id l)).
  { induction l as [|m l IH]; intros acc Hc; [by left|]. cbn [foldl map] in *. apply IH in Hc as [Hc|[? ?]]; [|right; split; [done|by right]].
    unfold add_market in Hc. destruct (negb _) eqn:E; [by left|]. destruct (bool_decide _); [by left|].
    apply elem_of_app in Hc as [Hc|Hc]; [by left|]. apply list_elem_of_singleton in Hc as ->. right. split; [|by left].
    by apply negb_false_iff, Nat.eqb_eq in E. }
  assert (Hi : forall l acc, c ∈ snd (foldl (add_condition known) acc l) -> c ∈ snd acc \/ (length c = 32%nat /\ c ∈ l)).
  { induction l as [|x l IH]; intros acc Hc; [by left|]. cbn [foldl] in *. apply IH in Hc as [Hc|[? ?]]; [|right; split; [done|by right]].
    unfold add_condition in Hc. destruct (negb _) eqn:E; [by left|]. destruct (_ || _); [by left|].
    apply elem_of_app in Hc as [Hc|Hc]; [by left|]. apply list_elem_of_singleton in Hc as ->. right. split; [|by left].
    by apply negb_false_iff, Nat.eqb_eq in E. }
  unfold event_markets. intros Hc. apply Hi in Hc as [Hc|[? ?]]; [apply Hm in Hc as [Hc|[? ?]]; [by apply not_elem_of_nil in Hc|]|];
    (split; [done|]); apply elem_of_app; auto.
Qed.

(** The merge of an event adds the conditions it names. *)
Lemma merge_conditions e now is_new b : let '(b', _, _) := merge_match e now is_new b in
  conditions b' = conditions b ∪ named e /\ bx_added_at_us b' = bx_added_at_us b.
Proof.
  pose proof (merge_match_markets e now is_new b) as Hl. unfold merge_match in *. cbv zeta in *.
  set (known := list_to_set (map bm_condition_id (bx_markets b))) in *.
  assert (Hn := event_markets_named known e). assert (Hcov := event_markets_covers known e).
  destruct (event_markets known e) as [added ids]. cbn [fst snd] in *. destruct Hl as (Hl & _ & _). split; [|done].
  apply set_eq. intros c. rewrite elem_of_union, !conditions_spec, Hl. split; [intros [?|?]; auto|]. intros [?|Hc]; [by left|].
  unfold named in Hc. apply elem_of_list_to_set, list_elem_of_filter in Hc as [H32 Hc].
  destruct (Hcov c Hc H32) as [Hk|?]; [left|by right]. apply elem_of_list_to_set, list_elem_of_fmap in Hk as (m & Hm & Hin).
  exists m. split; [done|]. by apply market_id_bytes_hex.
Qed.

Lemma apply_state_listing e now l : let '(_, _, _, l') := apply_state e now l in
  ttl_us l' = ttl_us l /\ listing (matches l') = listing_step (ttl_us l) (listing (matches l)) (Learned e now).
Proof.
  unfold apply_state. cbv zeta. set (old := default (new_match e now) (matches l !! fe_match_id e)).
  pose proof (merge_conditions e now (bool_decide (matches l !! fe_match_id e = None)) old) as Hm.
  destruct (merge_match e now _ old) as [[b ids] changed]. destruct Hm as [Hc Ha]. split; [done|]. cbn [with_matches matches listing_step].
  unfold listing. rewrite fmap_insert, Hc, Ha, lookup_fmap.
  assert (Hd : default (now, ∅) ((fun b => (bx_added_at_us b, conditions b)) <$> matches l !! fe_match_id e) = (bx_added_at_us old, conditions old)).
  { unfold old. by destruct (matches l !! fe_match_id e). }
  by rewrite Hd.
Qed.

Lemma prune_state_listing now l : let '(_, _, l') := prune_state now l in
  ttl_us l' = ttl_us l /\ listing (matches l') = listing_step (ttl_us l) (listing (matches l)) (Expired now).
Proof.
  unfold prune_state. cbv zeta. cbn [listing_step]. destruct (Z.eqb_spec (ttl_us l) 0) as [Hz|Hz]; (split; [done|]).
  - symmetry. apply map_filter_id. intros id p _. by left.
  - cbn [with_matches matches]. unfold listing. rewrite map_filter_fmap. f_equal. apply map_filter_ext. intros id b _. unfold lives. cbn. tauto.
Qed.

Definition applying (s : Blocklist) : option pb_ForfeitEvent := match feed_pc (feed_task s) with Applying e => Some e | _ => None end.

(** One action's events, and what they do to the matches, whatever else is going on. *)
Definition follows (a : list_action) (s s' : Blocklist) : Prop :=
  exists evs, (forall acts, history (applying s) (a :: acts) = evs ++ history (applying s') acts)
    /\ ttl_us (memory s') = ttl_us (memory s) /\ enabled (memory s') = enabled (memory s)
    /\ listing (matches (memory s')) = foldl (listing_step (ttl_us (memory s))) (listing (matches (memory s))) evs
    /\ (keyed (matches (memory s)) -> keyed (matches (memory s'))).

Lemma follows_same a s s' : (forall acts, history (applying s) (a :: acts) = history (applying s') acts) ->
  ttl_us (memory s') = ttl_us (memory s) -> enabled (memory s') = enabled (memory s) ->
  listing (matches (memory s')) = listing (matches (memory s)) ->
  (keyed (matches (memory s)) -> keyed (matches (memory s'))) -> follows a s s'.
Proof. intros Hh Ht He Hl Hk. by exists []. Qed.

Lemma feed_step_follows a s s' : feed_step a s = Some s' -> follows a s s'.
Proof.
  unfold feed_step. destruct (feed_pc (feed_task s)) as [| | |e|changed ids entry| |e| |] eqn:Epc, a; try done; intros Ha.
  - injection Ha as <-. apply follows_same; try done. intros acts. unfold applying. rewrite Epc. by destruct shutdown.
  - destruct outcome; injection Ha as <-; apply follows_same; try done; intros acts; unfold applying; by rewrite Epc.
  - destruct (feed_session _ _ _) as [pc f] eqn:Ef. injection Ha as <-. apply follows_same; try done. intros acts. cbn [history]. f_equal.
    unfold applying, event_of. cbn. destruct i as [| | |?|payload|[?|?]| |]; cbn in Ef; try (by injection Ef as <- _).
    unfold on_binary in Ef. by destruct (decode payload) as [[[?|?]|]|]; injection Ef as <- _.
  - pose proof (apply_state_listing e now (memory s)) as Hl. pose proof (apply_state_keys e now (memory s)) as Hk.
    assert (He : enabled (snd (apply_state e now (memory s))) = enabled (memory s)).
    { unfold apply_state. cbv zeta. by destruct (merge_match _ _ _ _) as [[b ids] changed]. }
    destruct (apply_state e now (memory s)) as [[[changed ids] entry] l]. destruct Hl as [Ht Hl]. injection Ha as <-.
    exists [Learned e now]. split_and!; try done. intros acts. unfold applying. rewrite Epc. cbn. by destruct ids, changed.
  - injection Ha as <-. apply follows_same; try done. intros acts. unfold applying. rewrite Epc. by destruct changed.
  - injection Ha as <-. apply follows_same; try done. intros acts. unfold applying. by rewrite Epc.
  - injection Ha as <-. apply follows_same; try done. intros acts. unfold applying. by rewrite Epc.
  - injection Ha as <-. apply follows_same; try done. intros acts. unfold applying. by rewrite Epc.
Qed.

Lemma saver_step_follows a s s' : saver_step a s = Some s' -> follows a s s'.
Proof.
  unfold saver_step. destruct (saver_task s) as [|ix| | | |snapshot last|], a; try done; intros Ha.
  - pose proof (prune_state_listing now (memory s)) as Hl. pose proof (prune_state_keys now (memory s)) as Hk.
    assert (He : enabled (snd (prune_state now (memory s))) = enabled (memory s)) by (unfold prune_state; by destruct (_ =? 0)).
    destruct (prune_state now (memory s)) as [[removed rebuilt] l]. destruct Hl as [Ht Hl]. injection Ha as <-. by exists [Expired now].
  - destruct (dirty (memory s)); [|done]. injection Ha as <-. by apply follows_same.
  - injection Ha as <-. by apply follows_same.
  - injection Ha as <-. by apply follows_same.
  - injection Ha as <-. by apply follows_same.
  - injection Ha as <-. by apply follows_same.
  - injection Ha as <-. by apply follows_same.
  - injection Ha as <-. by apply follows_same.
Qed.

Lemma record_state_listing r m now l : listing (matches (record_state r m now l)) = listing (matches l).
Proof.
  unfold record_state, listing. cbv zeta. cbn [matches]. apply map_eq. intros id. rewrite !lookup_fmap.
  destruct (decide (id = m)) as [->|]; [rewrite lookup_alter_eq; by destruct (matches l !! m)|by rewrite lookup_alter_ne].
Qed.
Lemma pipeline_step_follows a s s' : pipeline_step a s = Some s' -> follows a s s'.
Proof.
  destruct a; try done; cbn [pipeline_step]; intros Ha; [|destruct (calls s); [done|]]; injection Ha as <-; apply follows_same; try done.
  - apply record_state_listing.
  - intros Hk id b Hb. unfold record_state in Hb. cbn in Hb. apply lookup_alter_Some in Hb as [(-> & x & Hx & ->)|[_ Hb]]; [|by apply Hk].
    cbn. by apply Hk.
Qed.

Lemma list_step_follows a s s' : list_step s a = Some s' -> follows a s s'.
Proof. destruct a; first [apply feed_step_follows|apply saver_step_follows|apply pipeline_step_follows]. Qed.

Lemma list_run_follows acts : forall s s', list_run s acts = Some s' ->
  ttl_us (memory s') = ttl_us (memory s) /\ enabled (memory s') = enabled (memory s)
  /\ listing (matches (memory s')) = foldl (listing_step (ttl_us (memory s))) (listing (matches (memory s))) (history (applying s) acts)
  /\ (keyed (matches (memory s)) -> keyed (matches (memory s'))).
Proof.
  induction acts as [|a acts IH]; intros s s' Hr; [by injection Hr as <-|]. cbn [list_run] in Hr.
  destruct (list_step s a) as [s1|] eqn:Ea; [|done]. apply list_step_follows in Ea as (evs & Hh & Ht & He & Hl & Hk).
  destruct (IH s1 s' Hr) as (Ht' & He' & Hl' & Hk'). rewrite Hh, foldl_app, <- Hl, Ht', He', Hl', Ht, He. split_and!; try done. auto.
Qed.

Lemma list_run_app acts acts' s : list_run s (acts ++ acts') = s' ← list_run s acts; list_run s' acts'.
Proof. revert s. induction acts as [|a acts IH]; intros s; [done|]. cbn. destruct (list_step s a); [apply IH|done]. Qed.

(** ** The list and the file *)

(** What a reload brings back, before it prunes, and what the list has of it. *)
Definition read_back (file : option Snapshot) : gmap Z BlockedMatch * list BlockedEvent * Z :=
  (file_matches file,
   match file with Some f => if snap_version f =? SNAPSHOT_VERSION then snap_recent_blocked f else [] | None => [] end,
   match file with Some f => if snap_version f =? SNAPSHOT_VERSION then snap_blocked_events_total f else 0 | None => 0 end).
Definition contents (l : ForfeitBlocklist) : gmap Z BlockedMatch * list BlockedEvent * Z :=
  (matches l, recent_blocked l, blocked_events_total l).

(** A change has been made and the saver not yet told of it, or told and not woken. *)
Definition told (s : Blocklist) : bool :=
  dirty (memory s) || negb (calls s =? 0)%nat
  || match feed_pc (feed_task s) with Indexing changed _ _ => changed | Notifying => true | _ => false end.
(** The saver waits or has ended, and every change was its to see. *)
Definition rests (s : Blocklist) : bool := match saver_task s with Selecting | SaverEnded => negb (told s) | _ => false end.

(** Whether the last save that ended was written. *)
Definition last_write (acts : list list_action) : option bool :=
  foldl (fun w a => match a with SaverWrites written => Some written | _ => w end) None acts.
Definition no_write (acts : list list_action) : Prop := Forall (fun a => match a with SaverWrites _ => False | _ => True end) acts.

(** A restart from the file, at any time: the matches of the list that have not expired
    are blocked, nothing else is, and the counts are the list's. *)
Definition restores (ttl : Z) (file : option Snapshot) (l : ForfeitBlocklist) : Prop :=
  forall later, let l' := load file later (forfeit_empty true ttl) in
  (forall c, is_Some (lookup_match c l') <-> exists id b, matches l !! id = Some b /\ lists b c /\ lives ttl later (bx_added_at_us b))
  /\ matches l' = filter (fun p => lives ttl later (bx_added_at_us (snd p))) (matches l)
  /\ recent_blocked l' = recent_blocked l /\ blocked_events_total l' = blocked_events_total l.

Lemma prune_state_rest now l : let '(_, _, l') := prune_state now l in
  (ttl_us l', enabled l', recent_blocked l', blocked_events_total l', dirty l')
  = (ttl_us l, enabled l, recent_blocked l, blocked_events_total l, dirty l).
Proof. unfold prune_state. cbv zeta. by destruct (_ =? 0). Qed.

Lemma prune_spec now l : let l' := snd (prune now l) in
  matches l' = filter (fun p => lives (ttl_us l) now (bx_added_at_us (snd p))) (matches l)
  /\ (ttl_us l', enabled l', recent_blocked l', blocked_events_total l') = (ttl_us l, enabled l, recent_blocked l, blocked_events_total l)
  /\ (dirty l' = true \/ matches l' = matches l).
Proof.
  pose proof (prune_state_matches now l) as Hm. pose proof (prune_state_rest now l) as Hr. unfold prune.
  assert (Hf : matches (snd (prune_state now l)) = filter (fun p => lives (ttl_us l) now (bx_added_at_us (snd p))) (matches l)).
  { unfold prune_state. cbv zeta. destruct (Z.eqb_spec (ttl_us l) 0) as [Hz|Hz].
    - symmetry. apply map_filter_id. intros id p _. by left.
    - apply map_filter_ext. intros id b _. unfold lives. cbn. tauto. }
  destruct (prune_state now l) as [[removed [ix|]] l']; destruct Hm as [_ Hm]; injection Hr as Et Ee Er Eb Ed; cbn in *;
    (split; [done|]); (split; [by rewrite Et, Ee, Er, Eb|]); auto.
Qed.

Lemma load_spec file now on ttl : let l' := load file now (forfeit_empty on ttl) in
  matches l' = filter (fun p => lives ttl now (bx_added_at_us (snd p))) (file_matches file)
  /\ (ttl_us l', enabled l') = (ttl, on) /\ (recent_blocked l', blocked_events_total l') = (snd (fst (read_back file)), snd (read_back file))
  /\ (dirty l' = true \/ matches l' = file_matches file).
Proof.
  assert (Hnone : matches (forfeit_empty on ttl) = filter (fun p : Z * BlockedMatch => lives ttl now (bx_added_at_us (snd p))) ∅) by by rewrite map_filter_empty.
  unfold load, read_back, file_matches. destruct file as [f|]; [|split_and!; auto]. destruct (Z.eqb_spec (snap_version f) SNAPSHOT_VERSION); cbn [negb]; [|split_and!; auto].
  cbv zeta. match goal with |- context [prune now ?l] => set (l0 := l) end. destruct (prune_spec now l0) as (Hm & Hr & Hd).
  injection Hr as -> -> -> ->. split_and!; [exact Hm|done|done|exact Hd].
Qed.

Lemma read_back_restores ttl file l : read_back file = contents l -> restores ttl file l.
Proof.
  intros Hb later. injection Hb as Hm Hr Ht. cbn zeta. destruct (load_spec file later true ttl) as (Lm & Le & Lr & _).
  injection Le as _ Le. injection Lr as Lr Lt. rewrite Hm in Lm. cbn [read_back fst snd] in Lr, Lt. rewrite Hr in Lr. rewrite Ht in Lt. split_and!; try done.
  intros c. pose proof (load_inv file later _ (forfeit_empty_inv true ttl)) as [_ I2 I3].
  unfold lookup_match, option_map. rewrite Le. cbn [negb]. split.
  - intros [x Hx]. destruct (index _ !! c) as [e|] eqn:E; [|done]. destruct (I2 c e E) as (b & Hb & Hl). rewrite Lm in Hb.
    apply map_lookup_filter_Some in Hb as [Hb Hv]. by exists (match_id e), b.
  - intros (id & b & Hb & Hl & Hv). destruct (I3 id b c) as [e ->]; [by rewrite Lm; apply map_lookup_filter_Some|done|by eexists].
Qed.

Lemma rebuild_lookup ms id : forall t : gmap Z BlockedMatch,
  (exists b, b ∈ ms /\ bx_match_id b = id /\ foldl (fun t m => <[bx_match_id m := m]> t) t ms !! id = Some b)
  \/ ((forall b, b ∈ ms -> bx_match_id b <> id) /\ foldl (fun t m => <[bx_match_id m := m]> t) t ms !! id = t !! id).
Proof.
  induction ms as [|m ms IH]; intros t; cbn [foldl]; [right; split; [by intros b Hb%not_elem_of_nil|done]|].
  destruct (IH (<[bx_match_id m := m]> t)) as [(b & Hb & Hk & E)|[Hno E]]; [left; exists b; by split; [right|]|].
  destruct (decide (bx_match_id m = id)) as [Hm|Hm].
  - left. exists m. split; [by left|]. split; [done|]. by rewrite E, <- Hm, lookup_insert_eq.
  - right. split; [|by rewrite E, lookup_insert_ne]. intros b [->|Hb]%elem_of_cons; [done|by apply Hno].
Qed.

(** The snapshot of a list brings it back. *)
Lemma read_back_snapshot l : keyed (matches l) -> read_back (Some (snapshot_of l)) = contents l.
Proof.
  intros Hk. unfold read_back, contents, file_matches, snapshot_of. cbn. f_equal. f_equal.
  apply map_eq. intros id. destruct (rebuild_lookup (matches_in_order (matches l)) id ∅) as [(b & Hb & Hid & ->)|[Hno ->]].
  - apply matches_in_order_elem in Hb as [id' Hb]. assert (Hb' := Hk _ _ Hb). congruence.
  - rewrite lookup_empty. destruct (matches l !! id) as [b|] eqn:E; [|done]. exfalso. apply (Hno b); [|by apply Hk].
    apply matches_in_order_elem. by exists id.
Qed.

Lemma merge_match_unchanged e now b b' ids : merge_match e now false b = (b', ids, false) -> b' = b.
Proof.
  unfold merge_match. cbv zeta. destruct (event_markets _ e) as [added ids0] eqn:Em. intros [= <- <- Hch].
  apply orb_false_iff in Hch as [Hch Hids]. apply orb_false_iff in Hch as [Hch Hsl]. apply orb_false_iff in Hch as [Hch Hst].
  apply orb_false_iff in Hch as [Hga Hse]. cbn [orb] in Hga. rewrite Hids, Hsl, Hst, Hga, Hse. cbn [orb].
  assert (added = []) as ->.
  { destruct (event_markets_ok (list_to_set (map bm_condition_id (bx_markets b))) e) as [_ P2]. rewrite Em in P2. cbn [fst snd] in P2.
    apply negb_false_iff, Nat.eqb_eq, nil_length_inv in Hids. subst ids0. destruct added as [|m l]; [done|].
    destruct (P2 m) as (c & Hc & _); [by left|]. by apply not_elem_of_nil in Hc. }
  rewrite app_nil_r. by destruct b.
Qed.

(** A merge that reports no change makes none that a reload would see. *)
Lemma apply_state_unchanged e now l : let '(changed, _, _, l') := apply_state e now l in
  dirty l' = dirty l /\ (changed = false -> contents l' = contents l).
Proof.
  unfold apply_state. cbv zeta. destruct (matches l !! fe_match_id e) as [b|] eqn:E.
  - rewrite bool_decide_false by done. change (default (new_match e now) (Some b)) with b. destruct (merge_match e now false b) as [[b' ids] ch] eqn:Em.
    split; [done|]. intros ->. apply merge_match_unchanged in Em as ->. unfold contents. cbn. by rewrite insert_id.
  - rewrite bool_decide_true by done. unfold merge_match. cbv zeta. by destruct (event_markets _ e).
Qed.

(** What the saver owes at each place. *)
Definition saver_ok (w : option bool) (s : Blocklist) : Prop :=
  match saver_task s with
  | Writing snapshot _ => told s = true \/ read_back (Some snapshot) = contents (memory s)
  | Selecting | SaverEnded => w <> Some false -> told s = true \/ read_back (disk s) = contents (memory s)
  | Rebuilding _ | Pruned | Pausing | Stopping => True
  end.

Lemma saver_ok_others w s s' : saver_task s' = saver_task s -> disk s' = disk s ->
  (told s' = true \/ (contents (memory s') = contents (memory s) /\ told s' = told s)) -> saver_ok w s -> saver_ok w s'.
Proof.
  unfold saver_ok. intros -> -> Hc. destruct (saver_task s); [intros Hs Hw|..|intros Hs|intros Hs Hw]; try done;
    (destruct Hc as [?|[-> ->]]; [by left|auto]).
Qed.

Lemma feed_step_told a s s' : feed_step a s = Some s' ->
  saver_task s' = saver_task s /\ disk s' = disk s /\ (told s' = true \/ (contents (memory s') = contents (memory s) /\ told s' = told s)).
Proof.
  unfold feed_step, told. destruct (feed_pc (feed_task s)) as [| | |e|changed ids entry| |e| |] eqn:Epc, a; try done; intros Ha.
  - injection Ha as <-. split_and!; try done. right. by destruct shutdown.
  - destruct outcome; injection Ha as <-; split_and!; try done; by right.
  - destruct (feed_session _ _ _) as [pc f] eqn:Ef. injection Ha as <-. split_and!; try done. right. split; [done|]. cbn. f_equal.
    destruct i as [| | |?|payload|[?|?]| |]; cbn in Ef; try (by injection Ef as <- _).
    unfold on_binary in Ef. by destruct (decode payload) as [[[?|?]|]|]; injection Ef as <- _.
  - pose proof (apply_state_unchanged e now (memory s)) as Hu. destruct (apply_state e now (memory s)) as [[[changed ids] entry] l].
    destruct Hu as [Hd Hu]. injection Ha as <-. split_and!; try done. cbn. destruct changed.
    + left. rewrite orb_true_iff. right. by destruct ids.
    + right. split; [by apply Hu|]. rewrite Hd. f_equal. by destruct ids.
  - injection Ha as <-. split_and!; try done. right. split; [done|]. cbn. f_equal. by destruct changed.
  - injection Ha as <-. split_and!; try done. by left.
  - injection Ha as <-. split_and!; try done. by right.
  - injection Ha as <-. split_and!; try done. by right.
Qed.

Lemma pipeline_step_told a s s' : pipeline_step a s = Some s' -> saver_task s' = saver_task s /\ disk s' = disk s /\ told s' = true.
Proof.
  unfold told. destruct a; try done; cbn [pipeline_step]; intros Ha; [|destruct (calls s); [done|]]; injection Ha as <-; split_and!; try done.
  cbn. by rewrite orb_true_r.
Qed.

Lemma saver_step_ok w a s s' : keyed (matches (memory s)) -> saver_step a s = Some s' -> saver_ok w s ->
  saver_ok (match a with SaverWrites written => Some written | _ => w end) s'.
Proof.
  intros Hk. unfold saver_step, saver_ok. destruct (saver_task s) as [|ix| | | |snapshot last|], a; try done; intros Ha Hi.
  - pose proof (prune_state_matches now (memory s)) as Hm. pose proof (prune_state_rest now (memory s)) as Hr.
    destruct (prune_state now (memory s)) as [[removed [ix|]] l]; destruct Hm as [_ Hm]; injection Ha as <-; [done|]. cbn. intros Hw.
    injection Hr as _ _ Er Eb Ed. destruct (Hi Hw) as [Ht|Hf]; [left; unfold told in *; cbn; by rewrite Ed|right].
    rewrite Hf. unfold contents. cbn. by rewrite Hm, Er, Eb.
  - destruct (dirty (memory s)); [|done]. by injection Ha as <-.
  - by injection Ha as <-.
  - by injection Ha as <-.
  - injection Ha as <-. cbn. intros _. left. unfold told. cbn. done.
  - injection Ha as <-. right. by apply read_back_snapshot.
  - injection Ha as <-. right. by apply read_back_snapshot.
  - injection Ha as <-. cbn. destruct written; [|by destruct last]. destruct last; intros _; exact Hi.
Qed.

Lemma list_run_ok acts : forall w s s', keyed (matches (memory s)) -> list_run s acts = Some s' -> saver_ok w s ->
  saver_ok (foldl (fun w a => match a with SaverWrites written => Some written | _ => w end) w acts) s'.
Proof.
  induction acts as [|a acts IH]; intros w s s' Hk Hr Hi; [by injection Hr as <-|]. cbn [list_run] in Hr. cbn [foldl].
  destruct (list_step s a) as [s1|] eqn:Ea; [|done]. apply (IH _ s1); [|done|].
  - destruct (list_step_follows a s s1 Ea) as (evs & _ & _ & _ & _ & Hk'). auto.
  - destruct a; cbn [list_step] in Ea; (by apply (saver_step_ok w) in Ea)
      || (apply feed_step_told in Ea as (Es & Ed & Ht); by eapply saver_ok_others)
      || (apply pipeline_step_told in Ea as (Es & Ed & Ht); eapply saver_ok_others; [done|done|by left|done]).
Qed.

(** ** From a start *)

Section Started.
Variables (base : string) (backfill : Z) (token : option string) (file : option Snapshot) (now ttl : Z).
(** [from_config] reads the file, then the tasks begin. *)
Definition started : Blocklist := run_forfeit_feed base backfill token file (load file now (forfeit_empty true ttl)).

Lemma started_follows acts s : list_run started acts = Some s ->
  enabled (memory s) = true /\ keyed (matches (memory s))
  /\ listing (matches (memory s))
     = foldl (listing_step ttl) (listing_step ttl (listing (file_matches file)) (Expired now)) (history None acts).
Proof.
  intros Hr. apply list_run_follows in Hr as (_ & He & Hl & Hk). destruct (load_spec file now true ttl) as (Lm & Le & _).
  injection Le as Lt Le. cbn [started run_forfeit_feed memory] in *. rewrite Lt, Lm in Hl. split_and!.
  - by rewrite He.
  - apply Hk, (ix_key _ _ (load_inv file now _ (forfeit_empty_inv true ttl))).
  - rewrite Hl. cbn [listing_step]. unfold listing. by rewrite map_filter_fmap.
Qed.
Lemma started_settled : settled started.
Proof. apply (load_inv file now _ (forfeit_empty_inv true ttl)). Qed.

Lemma lookup_listed l c : enabled l = true -> forfeit_inv l ->
  (is_Some (lookup_match c l) <-> exists id b, matches l !! id = Some b /\ lists b c)
  /\ forall id, lookup_match c l = Some id -> exists b, matches l !! id = Some b /\ lists b c.
Proof.
  intros He [_ I2 I3]. unfold lookup_match, option_map. rewrite He. cbn [negb]. split; [split|].
  - intros [x Hx]. destruct (index l !! c) as [e|] eqn:E; [|done]. destruct (I2 c e E) as (b & Hb & Hl). by exists (match_id e), b.
  - intros (id & b & Hb & Hl). destruct (I3 id b c Hb Hl) as [e ->]. by eexists.
  - intros id Hx. destruct (index l !! c) as [e|] eqn:E; [|done]. injection Hx as <-. by apply I2.
Qed.

(** A prune that removes a match, with no merge before its index, makes the index that of
    the matches, whatever it was. *)
Lemma prune_settles s t s1 : keyed (matches (memory s)) -> list_run s [SaverPrunes t; SaverRebuilds] = Some s1 -> merging s1 = false -> settled s1.
Proof.
  intros Hk Hr. cbn [list_run list_step] in Hr. apply bind_Some in Hr as (s0 & Hp & Hr). apply bind_Some in Hr as (s2 & Hx & [= ->]).
  unfold saver_step in Hp. destruct (saver_task s); try done. pose proof (prune_state_matches t (memory s)) as Hm.
  pose proof (prune_state_keys t (memory s) Hk) as Hk'. destruct (prune_state t (memory s)) as [[removed rebuilt] l]. destruct Hm as [_ Hm].
  injection Hp as <-. destruct rebuilt as [ix|]; [|done]. cbn in Hx, Hk'. injection Hx as <-. subst ix.
  unfold settled, settled_index, merging. cbn. destruct (feed_pc (feed_task s)); try done; intros _; by apply build_index_indexed.
Qed.

(** C36: what the feed blocks.  From any file, over any connections with their failures,
    replays and undecodable frames, with the saver's prunes at any times and events in any
    order: the list is the file's unexpired matches, with each event received adding the
    conditions it names to its match (a new one dated by its merge) and each prune dropping
    the matches a term old, in the order they take the list's lock.  As long as no merge
    and no prune are both between the list's lock and the index's, a condition is blocked
    between calls exactly when a match of that list has it. *)
Theorem feed_blocks_exactly acts s : list_run started acts = Some s ->
  let t := foldl (listing_step ttl) (listing_step ttl (listing (file_matches file)) (Expired now)) (history None acts) in
  listing (matches (memory s)) = t
  /\ (apart started acts = true -> merging s = false -> rebuilding s = false -> forall c,
       is_Some (lookup_match c (memory s)) <-> exists m added cs, t !! m = Some (added, cs) /\ c ∈ cs).
Proof.
  intros Hr t. destruct (started_follows acts s Hr) as (He & _ & Hl). fold t in Hl. split; [done|]. intros Hap Hm Hb c.
  rewrite (proj1 (lookup_listed _ c He (settled_at_rest s Hm Hb (list_run_settled _ _ _ Hap Hr started_settled)))), <- Hl. split.
  - intros (id & b & Hid & Hc). exists id, (bx_added_at_us b), (conditions b). split; [unfold listing; by rewrite lookup_fmap, Hid|by apply conditions_spec].
  - intros (id & added & cs & Hid & Hc). unfold listing in Hid. rewrite lookup_fmap in Hid. destruct (matches (memory s) !! id) as [b|] eqn:E; [|done].
    injection Hid as <- <-. exists id, b. split; [done|]. by apply conditions_spec.
Qed.

(** C37: nothing is lost by a restart.  Every save that is written, the last one of a stop
    included, is of the list as it was when its snapshot was taken: a restart from the file
    blocks, at any time, exactly the conditions of that list's matches that have not
    expired, with its counts.  And when the saver waits, with every change notified and seen
    by it, and the last save it did was written, that list is the present one.  A save
    that fails is not tried again, so its changes wait for the next one. *)
Theorem saved_list_restored acts s : list_run started acts = Some s ->
  (rests s = true -> last_write acts <> Some false -> restores ttl (disk s) (memory s))
  /\ (forall acts1 acts2 s1, acts = acts1 ++ SaverSnapshots :: acts2 ++ [SaverWrites true] -> no_write acts2 ->
       list_run started acts1 = Some s1 -> restores ttl (disk s) (memory s1)).
Proof.
  intros Hr. assert (Hk0 : keyed (matches (memory started))) by apply (ix_key _ _ (load_inv file now _ (forfeit_empty_inv true ttl))). split.
  - intros Hrest Hw. apply read_back_restores. assert (H0' : saver_ok None started).
    { intros _. destruct (load_spec file now true ttl) as (_ & _ & Lr & [Ld|Lm]); [left; unfold told; cbn; by rewrite Ld|right].
      injection Lr as Lr Lt. unfold contents. cbn [started run_forfeit_feed memory disk]. by rewrite Lm, Lr, Lt. }
    pose proof (list_run_ok acts None started s Hk0 Hr H0') as Hok. unfold rests in Hrest. unfold saver_ok in Hok.
    destruct (saver_task s); try done; apply negb_true_iff in Hrest; destruct (Hok Hw); congruence.
  - intros acts1 acts2 s1 -> Hn Hr1. apply read_back_restores. rewrite list_run_app, Hr1 in Hr. cbn [mbind option_bind] in Hr. cbn [list_run] in Hr.
    destruct (started_follows acts1 s1 Hr1) as (_ & Hk & _).
    assert (Hs : forall s2, list_step s1 SaverSnapshots = Some s2 -> exists last, saver_task s2 = Writing (snapshot_of (memory s1)) last).
    { intros s2. cbn [list_step]. unfold saver_step. destruct (saver_task s1); try done; intros [= <-]; [by exists false|by exists true]. }
    apply bind_Some in Hr as (s2 & Hx & Hr). apply Hs in Hx as [last E2]. clear Hs.
    revert s2 E2 Hr Hn. induction acts2 as [|a acts2 IH]; intros s2 E2 Hr Hn.
    + cbn [app list_run list_step] in Hr. unfold saver_step in Hr. rewrite E2 in Hr. injection Hr as <-. by apply read_back_snapshot.
    + apply Forall_cons in Hn as [Ha Hn]. cbn [app list_run] in Hr. destruct (list_step s2 a) as [s3|] eqn:Ea; [|done]. apply (IH s3); [|done|done].
      rewrite <- E2. destruct a; cbn [list_step] in Ea; try done;
        first [by apply feed_step_told in Ea as (-> & _)|by apply pipeline_step_told in Ea as (-> & _)|by unfold saver_step in Ea; rewrite E2 in Ea].
Qed.

(** C39: the hot path's index.  From a start, and again from any prune that removes a
    match with no merge in between, through every interleaving of merges, prunes, saves and
    blocked events in which no merge and no prune are both between the list's lock and the
    index's: between calls a condition is blocked exactly when a match on the list names
    it, and the match it is attributed to is on the list and names it. *)
Theorem forfeit_index_exact acts1 acts2 s1 s c :
  list_run started acts1 = Some s1 -> acts1 = [] \/ (merging s1 = false /\ exists acts t, acts1 = acts ++ [SaverPrunes t; SaverRebuilds]) ->
  list_run s1 acts2 = Some s -> apart s1 acts2 = true -> merging s = false -> rebuilding s = false ->
  (is_Some (lookup_match c (memory s)) <-> exists id b, matches (memory s) !! id = Some b /\ lists b c)
  /\ forall id, lookup_match c (memory s) = Some id -> exists b, matches (memory s) !! id = Some b /\ lists b c.
Proof.
  intros Hr1 Hfresh Hr Hap Hm Hb. assert (Hs1 : settled s1).
  { destruct Hfresh as [->|(Hm1 & acts & t & ->)]; [injection Hr1 as <-; apply started_settled|].
    rewrite list_run_app in Hr1. apply bind_Some in Hr1 as (s0 & Hr0 & Hr1). destruct (started_follows acts s0 Hr0) as (_ & Hk & _).
    by apply (prune_settles s0 t s1). }
  assert (He : enabled (memory s) = true).
  { apply (started_follows (acts1 ++ acts2)). by rewrite list_run_app, Hr1. }
  apply lookup_listed; [done|]. apply settled_at_rest; [done|done|]. by eapply list_run_settled.
Qed.
End Started.
End ForfeitFeed.

Module FeedRuns.
#[local] Instance codec : EthCodec := sample_codec.
#[local] Instance numbers : ForfeitNumbers := {| LookupStatus_try_from := fun _ => None |}.
Definition cond (i : Z) : bytes := replicate 32 (byte_of i).
Definition event (seq match_ : Z) (c : bytes) : pb_ForfeitEvent :=
  {| fe_sequence := seq; fe_match_id := match_; fe_game := ""; fe_league := ""; fe_match_name := ""; fe_team_a := ""; fe_team_b := "";
     fe_winner := ""; fe_forfeited_game_number := 0; fe_pm_event_slug := ""; fe_lookup_status := 0; fe_detect_at_us := 0;
     fe_markets := []; fe_condition_ids := [c] |}.
(** Frames of one byte: 0 is a hello, the rest the event of that number, ten to a match. *)
Definition decode (payload : bytes) : option (option frame_body) :=
  match payload with
  | [b] => let n := byte_val b in Some (Some (if n =? 0 then Hello 9 else Event (event n (n / 10) (cond n))))
  | _ => None
  end.
Abbreviation first_run := (started "ws://feed" 100 None None 0 1000).
Abbreviation run := (list_run decode).
Definition receives (t n : Z) : list_action := FeedReceives t (Binary [byte_of n]).
(** An event with a new condition, from its frame to the notification. *)
Definition event_taken (t n : Z) : list list_action := [receives t n; FeedMerges t; FeedIndexes; FeedNotifies].
Definition dials : list list_action := [FeedLoops false; FeedDials (Ok tt)].

(** The first connection drops after an event and a frame that does not decode, the second
    dial fails, the third replays the event and goes on; the saver expires its match,
    and an event for another one follows. *)
Definition rounds : list list_action :=
  dials ++ [receives 1 0; FeedReceives 2 (Binary [])] ++ event_taken 3 1 ++ [FeedReceives 4 CloseFrame; FeedFails 5 5; FeedWakes]
  ++ [FeedLoops false; FeedDials (Err "connect timeout"%string); FeedFails 6 15000; FeedWakes]
  ++ dials ++ [receives 7 1; FeedMerges 7; SaverPrunes 1500; SaverRebuilds; SaverNotifies] ++ event_taken 1600 12.
Definition after (s : Blocklist) (acts : list list_action) : Blocklist := default s (run s acts).

Example delays_double :
  option_map (fun s => backoff_s (feed_task s)) (run first_run rounds) = Some 4
  /\ option_map (fun s => connects (feed (feed_task s))) (run first_run rounds) = Some 2.
Proof. vm_compute. done. Qed.

Definition rounds_listing : gmap Z (Z * gset bytes) :=
  foldl (listing_step 1000) (listing_step 1000 (listing (file_matches None)) (Expired 0)) (history decode None rounds).
Lemma feed_blocks_exactly_witness : is_Some (lookup_match (cond 12) (memory (after first_run rounds))).
Proof.
  assert (E : run first_run rounds = Some (after first_run rounds)) by (vm_compute; reflexivity).
  destruct (feed_blocks_exactly decode "ws://feed" 100 None None 0 1000 rounds _ E) as [_ Hb].
  apply (Hb ltac:(vm_compute; reflexivity) ltac:(vm_compute; reflexivity) ltac:(vm_compute; reflexivity)).
  assert (Hc : bool_decide (cond 12 ∈ from_option snd ∅ (rounds_listing !! 1)) = true) by (vm_compute; reflexivity).
  apply bool_decide_eq_true in Hc. change (exists m added cs, rounds_listing !! m = Some (added, cs) /\ cond 12 ∈ cs).
  destruct (rounds_listing !! 1) as [[added cs]|] eqn:Et; [exact (ex_intro _ 1 (ex_intro _ added (ex_intro _ cs (conj Et Hc))))|destruct (not_elem_of_empty _ Hc)].
Defined.
Example expired_conditions_unblocked : lookup_match (cond 1) (memory (after first_run rounds)) = None.
Proof. vm_compute. reflexivity. Qed.

(** An event is saved while another one comes in; the saver is told of it, and is stopped
    while a third is merged, which its last snapshot has. *)
Definition saved : list list_action :=
  dials ++ event_taken 10 1 ++ [SaverWakes; SaverSnapshots] ++ event_taken 11 2 ++ [SaverWrites true; SaverWakes; SaverSnapshots; SaverWrites true].
Definition stopped : list list_action := [SaverStops; receives 12 3; FeedMerges 12].
Lemma saved_list_restored_witness :
  restores 1000 (disk (after first_run saved)) (memory (after first_run saved))
  /\ restores 1000 (disk (after first_run (saved ++ stopped ++ SaverSnapshots :: [FeedIndexes] ++ [SaverWrites true])))
       (memory (after first_run (saved ++ stopped))).
Proof.
  split.
  - assert (E : run first_run saved = Some (after first_run saved)) by (vm_compute; reflexivity).
    apply (saved_list_restored decode "ws://feed" 100 None None 0 1000 saved _ E); [vm_compute; reflexivity|by vm_compute].
  - set (acts := saved ++ _). assert (E : run first_run acts = Some (after first_run acts)) by (vm_compute; reflexivity).
    apply (proj2 (saved_list_restored decode "ws://feed" 100 None None 0 1000 acts _ E) (saved ++ stopped) [FeedIndexes]);
      [reflexivity|repeat constructor|vm_compute; reflexivity].
Defined.

(** A save that fails is not tried again: the permit is already consumed, so the change
    stays unsaved until there is another one, and a crash before that loses it. *)
Example failed_save_not_retried :
  let s := after first_run (dials ++ event_taken 10 1 ++ [SaverWakes; SaverSnapshots; SaverWrites false]) in
  rests s = true /\ disk s = None /\ lookup_match (cond 1) (memory s) = Some 0
  /\ lookup_match (cond 1) (load (disk s) 20 (forfeit_empty true 1000)) = None.
Proof. vm_compute. done. Qed.

(** An event merged while a prune is between its locks: the index the prune built without
    it overwrites the one it was added to.  The match stays on the list and is not blocked,
    and a replay of the event finds it known and changes nothing. *)
Definition crossed : list list_action :=
  dials ++ event_taken 10 1 ++ [SaverPrunes 1500] ++ [receives 1500 12; FeedMerges 1500; FeedIndexes] ++ [SaverRebuilds; FeedNotifies; SaverNotifies].
Example overlap_unblocks :
  let s := after first_run (crossed ++ [receives 1600 12; FeedMerges 1600]) in
  fmap bx_markets (matches (memory s) !! 1)
  = Some [{| bm_condition_id := hex_prefixed (cond 12); bm_sports_market_type := ""; bm_game_number := 0; bm_question := ""; bm_is_forfeited_market := false |}]
  /\ merging s = false /\ rebuilding s = false /\ lookup_match (cond 12) (memory s) = None.
Proof. vm_compute. done. Qed.
(** An event for a match that expires between its two parts: the condition stays blocked
    though no match has it. *)
Example overlap_stays_blocked :
  let s := after first_run (dials ++ event_taken 10 1 ++ [receives 1500 2; FeedMerges 1500; SaverPrunes 1500; SaverRebuilds; FeedIndexes; FeedNotifies]) in
  matches (memory s) = ∅ /\ merging s = false /\ rebuilding s = false /\ lookup_match (cond 2) (memory s) = Some 0.
Proof. vm_compute. done. Qed.

(** The next prune that removes something puts the index right again. *)
Definition healed : list list_action := crossed ++ [SaverPrunes 2600; SaverRebuilds].
Definition later : list list_action := [SaverNotifies] ++ event_taken 2700 25.
Lemma forfeit_index_exact_witness : is_Some (lookup_match (cond 25) (memory (after (after first_run healed) later))).
Proof.
  assert (E1 : run first_run healed = Some (after first_run healed)) by (vm_compute; reflexivity).
  assert (Hf : healed = [] \/ (merging (after first_run healed) = false /\ exists acts t, healed = acts ++ [SaverPrunes t; SaverRebuilds])).
  { right. split; [vm_compute; reflexivity|by exists crossed, 2600]. }
  assert (E2 : run (after first_run healed) later = Some (after (after first_run healed) later)) by (vm_compute; reflexivity).
  apply (proj1 (forfeit_index_exact decode "ws://feed" 100 None None 0 1000 healed later _ _ (cond 25) E1 Hf E2
    ltac:(vm_compute; reflexivity) ltac:(vm_compute; reflexivity) ltac:(vm_compute; reflexivity))).
  destruct (matches (memory (after (after first_run healed) later)) !! 2) as [b|] eqn:E; [|vm_compute in E; discriminate].
  exists 2, b. split; [exact E|]. vm_compute in E. injection E as <-. eexists. split; [left|vm_compute; reflexivity].
Defined.
End FeedRuns.
