(* ===== verification/CatalogSync.v ===== *)
(** * CatalogSync: the tasks that keep the catalog current and on disk ([src/enrichment.rs])

    The incremental pass over active and recently closed markets, the reconciliation, the
    watch for new markets, and the order in which catalog and cursors reach the disk.
    Gamma's answers are the responses the walks of [Catalog] consume; serde_json is an
    interface. *)
From S2P Require Import Prelude Model Events Category Uint256 Calendar Catalog Storage.

(** ** Requests *)

Inductive KeysetOrder := UpdatedAtDesc | IdDesc.
Definition keyset_query (cursor : option string) (order : KeysetOrder) (closed : bool) : list (string * string) :=
  [("limit", "100"); ("closed", if closed then "true" else "false"); ("include_tag", "true")]%string
  ++ match order with UpdatedAtDesc => [("order", "updatedAt")] | IdDesc => [("order", "id")] end%string
  ++ [("ascending", "false")]%string
  ++ match cursor with Some c => [("after_cursor"%string, c)] | None => [] end.

(** What the HTTP client reports: no response, or a status, the body's length ([None] when
    reading it fails) and what it parses to. *)
Inductive gamma_reply := NoResponse | GammaReply (status : Z) (body_len : option Z) (page : option GammaPage).
Definition get_json (r : gamma_reply) : result EnrichmentError GammaPage :=
  match r with
  | NoResponse => Err EnrichHttp
  | GammaReply status len page =>
      if negb ((200 <=? status) && (status <? 300)) then Err (EnrichStatus status)
      else match len with
           | None => Err EnrichHttp
           | Some n => if 16 * 2 ^ 20 <? n then Err EnrichOversized
                       else match page with Some p => Ok p | None => Err EnrichJson end
           end
  end.

(** ** Cursors *)

Class CursorJson := {
  cursor_to_string : EnrichmentCursor -> string;
  cursor_from_string : string -> option EnrichmentCursor;
  cursor_from_to c : cursor_from_string (cursor_to_string c) = Some c;
  cursor_text c : trim (cursor_to_string c) = cursor_to_string c /\ cursor_to_string c <> EmptyString }.

#[global] Instance EnrichmentCursor_eq_dec : EqDecision EnrichmentCursor.
Proof. solve_decision. Defined.

Record CursorPair := { active : option EnrichmentCursor; closed : option EnrichmentCursor }.

Section Sync.
Context `{EthCodec} `{TextEngine} `{WireNumbers} `{CursorJson}.
Context (rules : CompiledRules).
#[local] Abbreviation responses := (list (result EnrichmentError GammaPage)).

Definition load_stream (text : option string) : result EnrichmentError (option EnrichmentCursor) :=
  match text with
  | None => Ok None
  | Some t => match cursor_from_string t with Some c => Ok (Some c) | None => Err EnrichJson end
  end.
Definition load_pair (f : Files) : result EnrichmentError CursorPair :=
  a ← load_stream (load_enrichment_cursor f);
  c ← load_stream (load_closed_market_cursor f);
  Ok {| active := a; closed := c |}.

(** ** One pass *)

(** [usize::MAX] pages *)
Definition ALL_PAGES : Z := 2 ^ 64 - 1.

(** The two walks with the responses each gets; an error of either ends the pass, but what
    was upserted stays. *)
Definition sync_both (now_secs days : Z) (cur : CursorPair) (ra rc : responses) (cat : Catalog)
  : option (result EnrichmentError (Z * option EnrichmentCursor * option EnrichmentCursor) * Catalog) :=
  '(r, cat) ← sync_incremental rules cat (active cur) None ALL_PAGES ra;
  match r with
  | Err e => Some (Err e, cat)
  | Ok (changed_active, next_active) =>
      '(r, cat) ← sync_incremental rules cat (closed cur) (Some (lookback_boundary_date now_secs days)) ALL_PAGES rc;
      Some (match r with
            | Err e => Err e
            | Ok (changed_closed, next_closed) => Ok (changed_active + changed_closed, next_active, next_closed)
            end, cat)
  end.

(** [reconcile_full]: no cursors, and none come out. *)
Definition reconcile_full (now_secs days : Z) (ra rc : responses) (cat : Catalog) : option (result EnrichmentError Z * Catalog) :=
  '(r, cat) ← sync_both now_secs days {| active := None; closed := None |} ra rc cat;
  Some (match r with Ok (n, _, _) => Ok n | Err e => Err e end, cat).

(** ** Persistence *)

Inductive write := WriteCatalog (ms : list MarketEnrichment) | WriteActive (c : string) | WriteClosed (c : string).
Definition do_write (w : write) (f : Files) : result EnrichmentError unit * Files :=
  match w with
  | WriteCatalog ms => match save_catalog ms f with (Ok _, f) => (Ok tt, f) | (Err _, f) => (Err EnrichStorage, f) end
  | WriteActive c => (Ok tt, save_enrichment_cursor c f)
  | WriteClosed c => (Ok tt, save_closed_market_cursor c f)
  end.
Fixpoint run_writes (ws : list write) (f : Files) : result EnrichmentError unit * Files :=
  match ws with
  | [] => (Ok tt, f)
  | w :: ws => match do_write w f with (Ok _, f) => run_writes ws f | (Err e, f) => (Err e, f) end
  end.

(** [persist_catalog]: the catalog, then the cursors there are. *)
Definition opt_write (w : string -> write) (c : option EnrichmentCursor) : list write :=
  match c with Some c => [w (cursor_to_string c)] | None => [] end.
Definition persist_writes (cat : Catalog) (a c : option EnrichmentCursor) : list write :=
  WriteCatalog (catalog_snapshot cat) :: opt_write WriteActive a ++ opt_write WriteClosed c.
Definition persist_catalog (cat : Catalog) (a c : option EnrichmentCursor) (f : Files) : result EnrichmentError unit * Files :=
  run_writes (persist_writes cat a c) f.

(** ** The tasks *)

(** A tick of [run_catalog_sync] up to the writes it decides on. *)
Definition sync_pass (now_secs days : Z) (f : Files) (ra rc : responses) (cat : Catalog) : option (list write * Catalog) :=
  match load_pair f with
  | Err _ => Some ([], cat)
  | Ok cur =>
      '(r, cat) ← sync_both now_secs days cur ra rc cat;
      Some (match r with
            | Ok (changed, na, nc) =>
                if (0 <? changed) || negb (bool_decide (na = active cur)) || negb (bool_decide (nc = closed cur))
                then persist_writes cat na nc else []
            | Err _ => []
            end, cat)
  end.
Definition catalog_sync_tick (now_secs days : Z) (ra rc : responses) (s : Catalog * Files) : option (Catalog * Files) :=
  '(ws, cat) ← sync_pass now_secs days (snd s) ra rc (fst s);
  Some (cat, snd (run_writes ws (snd s))).

(** [sync_catalog_before_uma] always writes, and an error ends the start-up. *)
Definition sync_catalog_before_uma (now_secs days : Z) (ra rc : responses) (s : Catalog * Files)
  : option (result EnrichmentError Z * (Catalog * Files)) :=
  match load_pair (snd s) with
  | Err e => Some (Err e, s)
  | Ok cur =>
      '(r, cat) ← sync_both now_secs days cur ra rc (fst s);
      Some (match r with
            | Err e => (Err e, (cat, snd s))
            | Ok (changed, na, nc) =>
                match persist_catalog cat na nc (snd s) with
                | (Ok _, f) => (Ok changed, (cat, f))
                | (Err e, f) => (Err e, (cat, f))
                end
            end)
  end.

(** A tick of [run_catalog_reconcile]: its writes leave the cursors alone. *)
Definition reconcile_pass (now_secs days : Z) (ra rc : responses) (cat : Catalog) : option (list write * Catalog) :=
  '(r, cat) ← reconcile_full now_secs days ra rc cat;
  Some (match r with Ok n => if 0 <? n then persist_writes cat None None else [] | Err _ => [] end, cat).

Definition NEW_MARKET_MAX_PAGES : Z := 5.
(** A tick of [run_new_market_watch]: the catalog in memory, and how many were added. *)
Definition new_market_tick (added_total : Z) (rs : responses) (cat : Catalog) : option (Z * Catalog) :=
  '(r, cat) ← sync_newest_markets rules cat NEW_MARKET_MAX_PAGES rs;
  Some (match r with Ok n => u64_add added_total n | Err _ => added_total end, cat).

(** ** What a crash leaves *)

Lemma save_catalog_files ms f : Forall storable ms -> zlen ms < 2 ^ 32 ->
  exists f', save_catalog ms f = (Ok tt, f') /\ fst (load_catalog f') = Ok (merge_sort id_le ms)
    /\ enrichment_cursor f' = enrichment_cursor f /\ closed_cursor f' = closed_cursor f.
Proof.
  intros Hs Hl. assert (Hs' : Forall storable (merge_sort id_le ms)) by (by rewrite merge_sort_Permutation).
  assert (Hl' : zlen (merge_sort id_le ms) < 2 ^ 32) by (unfold zlen; by rewrite merge_sort_Permutation).
  destruct (write_markets_ok _ Hs') as (b & Hb & Hr). unfold save_catalog. cbv zeta. rewrite Hb. eexists. split; [done|].
  split; [|done]. unfold load_catalog. cbn [catalog_bin]. rewrite read_exact_app by done.
  rewrite decide_False by (intros [|]; discriminate). rewrite decide_True by done.
  unfold read_u32. rewrite read_uint_app by (pose proof (zlen_nonneg (merge_sort id_le ms)); cbn; lia). cbn [mbind result_bind].
  unfold zlen. rewrite Nat2Z.id. rewrite <- (app_nil_r b). by rewrite Hr.
Qed.

Lemma load_saved c : load_cursor (Some (cursor_to_string c)) = Some (cursor_to_string c).
Proof.
  unfold load_cursor. cbn [mbind option_bind]. destruct (cursor_text c) as [-> Hne].
  by destruct (String.eqb_spec (cursor_to_string c) "").
Qed.

Lemma load_stream_saved c : load_stream (load_cursor (Some (cursor_to_string c))) = Ok (Some c).
Proof. by rewrite load_saved; cbn; rewrite cursor_from_to. Qed.

(** One of two writes of a cursor has been reached or not. *)
Lemma run_take_writes cat a c f f1 k :
  save_catalog (catalog_snapshot cat) f = (Ok tt, f1) ->
  enrichment_cursor f1 = enrichment_cursor f -> closed_cursor f1 = closed_cursor f ->
  let f' := snd (run_writes (take k (persist_writes cat a c)) f) in
  (f' = f /\ k = 0%nat) \/
  (catalog_bin f' = catalog_bin f1
   /\ (enrichment_cursor f' = enrichment_cursor f \/ exists x, a = Some x /\ enrichment_cursor f' = Some (cursor_to_string x))
   /\ (closed_cursor f' = closed_cursor f \/ exists x, c = Some x /\ closed_cursor f' = Some (cursor_to_string x))).
Proof.
  intros Hs Ha Hc. destruct k as [|k]; [by left|]. right. unfold persist_writes. cbn [take run_writes do_write]. rewrite Hs.
  destruct a as [x|], c as [y|]; destruct k as [|[|k]]; cbn [opt_write app take run_writes do_write snd]; rewrite ?take_nil; cbn;
    repeat split; rewrite ?Ha, ?Hc; first [done | left; done | right; eexists; split; reflexivity].
Qed.

(** What is on disk after the first [k] writes: each cursor is the one that was there or the
    one of the pass, and if any is the pass's, the file holds the pass's catalog. *)
Definition catalog_first (ws : list write) (f : Files) (cur next : CursorPair) (cat' : Catalog) (k : nat) : Prop :=
  let f' := snd (run_writes (take k ws) f) in
  exists cur', load_pair f' = Ok cur'
    /\ (active cur' = active cur \/ active cur' = active next) /\ (closed cur' = closed cur \/ closed cur' = closed next)
    /\ (cur' = cur \/ fst (load_catalog f') = Ok (merge_sort id_le (catalog_snapshot cat'))).
Definition or_else (c d : option EnrichmentCursor) : option EnrichmentCursor := match c with Some _ => c | None => d end.
Definition all_written (ws : list write) (f : Files) (cur next : CursorPair) (cat' : Catalog) : Prop :=
  fst (run_writes ws f) = Ok tt
  /\ load_pair (snd (run_writes ws f)) = Ok {| active := or_else (active next) (active cur); closed := or_else (closed next) (closed cur) |}
  /\ fst (load_catalog (snd (run_writes ws f))) = Ok (merge_sort id_le (catalog_snapshot cat')).

Lemma persist_writes_safe f cat na nc cur : load_pair f = Ok cur ->
  Forall storable (catalog_snapshot cat) -> zlen (catalog_snapshot cat) < 2 ^ 32 ->
  let next := {| active := na; closed := nc |} in
  (forall k, catalog_first (persist_writes cat na nc) f cur next cat k) /\ all_written (persist_writes cat na nc) f cur next cat.
Proof.
  intros Hcur Hst Hlen. cbn zeta. destruct (save_catalog_files (catalog_snapshot cat) f Hst Hlen) as (f1 & Hs & Hload & He & Hc).
  assert (Hload' : forall f', catalog_bin f' = catalog_bin f1 -> fst (load_catalog f') = Ok (merge_sort id_le (catalog_snapshot cat))).
  { intros f' E. rewrite <- Hload. unfold load_catalog. rewrite E. destruct (catalog_bin f1) as [b|]; [|done].
    destruct (read_exact 8 b) as [[m r]|]; [|done]. by destruct (decide _), (decide (m = CATALOG_MAGIC)). }
  unfold load_pair in Hcur. destruct (load_stream (load_enrichment_cursor f)) as [a0|] eqn:Ea; [|done]. cbn [mbind result_bind] in Hcur.
  destruct (load_stream (load_closed_market_cursor f)) as [c0|] eqn:Ec; [|done]. injection Hcur as <-.
  unfold load_enrichment_cursor in Ea. unfold load_closed_market_cursor in Ec. split.
  - intros k. unfold catalog_first. cbn zeta. cbn [active closed]. destruct (run_take_writes cat na nc f f1 k Hs He Hc) as [[-> _]|(Hb & Hae & Hce)].
    + unfold load_pair, load_enrichment_cursor, load_closed_market_cursor. rewrite Ea, Ec. cbn [mbind result_bind].
      eexists. split; [done|]. split; [by left|]. split; [by left|]. by left.
    + set (f' := snd _) in *. unfold load_pair, load_enrichment_cursor, load_closed_market_cursor.
      destruct Hae as [->|(x & -> & ->)], Hce as [->|(y & -> & ->)]; rewrite ?load_stream_saved, ?Ea, ?Ec; cbn [mbind result_bind];
        (eexists; split; [done|]; cbn [active closed]; split; [by (left + right)|]; split; [by (left + right)|]; right; by apply Hload').
  - unfold all_written, persist_writes. cbn [run_writes do_write]. rewrite Hs.
    destruct na as [x|], nc as [y|]; cbn [opt_write app run_writes do_write fst snd or_else active closed];
      unfold load_pair, load_enrichment_cursor, load_closed_market_cursor; cbn [enrichment_cursor closed_cursor save_enrichment_cursor save_closed_market_cursor];
      rewrite ?He, ?Hc, ?load_stream_saved, ?Ea, ?Ec; (split; [done|]; split; [done|]; by apply Hload').
Qed.

(** C35: the catalog reaches the disk before the cursors, and the cursors are those of the
    walks.  A pass walks the active markets from the active cursor, then the closed ones from
    the closed cursor and the look-back's first day.  If a walk fails, nothing is written.
    Otherwise something is written exactly if a row or a cursor changed, and wherever a crash
    cuts the writes off, the active cursor on disk is the one that was there or that of the
    active walk, the closed one likewise, and if any is a walk's the file holds the catalog
    as both walks left it; all writes together put all of them there. *)
Theorem catalog_before_cursor now_secs days f ra rc cat ws cat' cur :
  sync_pass now_secs days f ra rc cat = Some (ws, cat') -> load_pair f = Ok cur ->
  Forall storable (catalog_snapshot cat') -> zlen (catalog_snapshot cat') < 2 ^ 32 ->
  let active_walk := sync_incremental rules cat (active cur) None ALL_PAGES ra in
  let closed_walk cat1 := sync_incremental rules cat1 (closed cur) (Some (lookback_boundary_date now_secs days)) ALL_PAGES rc in
  (ws = [] /\ ((exists e, active_walk = Some (Err e, cat'))
                \/ exists a cat1 e, active_walk = Some (Ok a, cat1) /\ closed_walk cat1 = Some (Err e, cat')))
  \/ exists n_active next_active cat1 n_closed next_closed,
       active_walk = Some (Ok (n_active, next_active), cat1) /\ closed_walk cat1 = Some (Ok (n_closed, next_closed), cat')
       /\ (ws = [] <-> n_active + n_closed <= 0 /\ next_active = active cur /\ next_closed = closed cur)
       /\ (forall k, catalog_first ws f cur {| active := next_active; closed := next_closed |} cat' k)
       /\ (ws <> [] -> all_written ws f cur {| active := next_active; closed := next_closed |} cat').
Proof.
  intros Hp Hcur Hst Hlen active_walk closed_walk. unfold sync_pass in Hp. rewrite Hcur in Hp.
  apply bind_Some in Hp as ([r cat2] & Hb & Hp). injection Hp as Hws ->. unfold sync_both in Hb.
  apply bind_Some in Hb as ([ra' cat1] & Ha & Hb). destruct ra' as [[n_active next_active]|e].
  2: { injection Hb as <- <-. left. split; [done|]. left. by exists e. }
  apply bind_Some in Hb as ([rc' cat3] & Hc & Hb). injection Hb as <- ->. destruct rc' as [[n_closed next_closed]|e].
  2: { left. split; [done|]. right. by exists (n_active, next_active), cat1, e. }
  right. exists n_active, next_active, cat1, n_closed, next_closed. split; [done|]. split; [done|].
  destruct (persist_writes_safe f cat' next_active next_closed cur Hcur Hst Hlen) as [Hk Hall].
  destruct (Z.ltb_spec 0 (n_active + n_closed)) as [Hn|Hn]; cbn [orb] in Hws.
  { subst ws. split; [split; [done|lia]|]. split; [done|]. by intros _. }
  destruct (bool_decide_reflect (next_active = active cur)) as [Ea|Ea]; cbn [negb orb] in Hws.
  2: { subst ws. split; [split; [done|by intros (_ & ? & _)]|]. split; [done|]. by intros _. }
  destruct (bool_decide_reflect (next_closed = closed cur)) as [Ec|Ec]; cbn [negb orb] in Hws; subst ws.
  2: { split; [split; [done|by intros (_ & _ & ?)]|]. split; [done|]. by intros _. }
  split; [done|]. split; [|done]. intros k. unfold catalog_first. rewrite take_nil. cbn. exists cur. auto.
Qed.
End Sync.

(** ** Runs *)

Module SyncRuns.
#[local] Instance codec : EthCodec := Events.sample_codec.
#[local] Instance engine : TextEngine := sample_engine.
#[local] Instance numbers : WireNumbers := sample_numbers.

(** A text for cursors: a brace, the bits of the cursor's code, a brace. *)
Fixpoint bits (p : positive) : string :=
  match p with xH => "}" | xO p => String "0" (bits p) | xI p => String "1" (bits p) end.
Fixpoint unbits (s : string) : option positive :=
  match s with
  | String "}" EmptyString => Some xH
  | String "0" s => xO <$> unbits s
  | String "1" s => xI <$> unbits s
  | _ => None
  end.
Lemma unbits_bits p : unbits (bits p) = Some p.
Proof. induction p as [p IH|p IH|]; cbn; [by rewrite IH..|done]. Qed.
Lemma bits_last p : exists s, bytes_of_str (bits p) = s ++ [x7d].
Proof.
  induction p as [p [s IH]|p [s IH]|]; [exists (x31 :: s)|exists (x30 :: s)|by exists []].
  - change (x31 :: bytes_of_str (bits p) = x31 :: s ++ [x7d]). by rewrite IH.
  - change (x30 :: bytes_of_str (bits p) = x30 :: s ++ [x7d]). by rewrite IH.
Qed.

Definition to_text (c : EnrichmentCursor) : string := String "{" (bits (encode (cursor_updated_at c, cursor_market_id c))).
Definition of_text (s : string) : option EnrichmentCursor :=
  match s with
  | String "{" s => p ← unbits s; '(a, b) ← decode p; Some {| cursor_updated_at := a; cursor_market_id := b |}
  | _ => None
  end.
Lemma of_to_text c : of_text (to_text c) = Some c.
Proof. unfold of_text, to_text. rewrite unbits_bits. cbn [mbind option_bind]. rewrite decode_encode. by destruct c. Qed.
Lemma trim_bytes_braced s : trim_bytes (x7b :: s ++ [x7d]) = x7b :: s ++ [x7d].
Proof.
  unfold trim_bytes. cbn [length trim_front]. change (strip_any white_space (x7b :: s ++ [x7d])) with (@None bytes). cbv iota.
  assert (Hr : rev (x7b :: s ++ [x7d]) = x7d :: rev s ++ [x7b]) by (by rewrite app_comm_cons, rev_app_distr).
  rewrite Hr. cbn [length trim_front].
  change (strip_any (map (@rev _) white_space) (x7d :: rev s ++ [x7b])) with (@None bytes). cbv iota. by rewrite <- Hr, rev_involutive.
Qed.
Lemma trim_to_text c : trim (to_text c) = to_text c.
Proof.
  unfold trim, to_text. generalize (encode (cursor_updated_at c, cursor_market_id c)). intros p. destruct (bits_last p) as [s Hs].
  assert (Hb : bytes_of_str (String "{" (bits p)) = x7b :: s ++ [x7d]) by (rewrite <- Hs; reflexivity).
  by rewrite Hb, trim_bytes_braced, <- Hb, str_of_bytes_of_str.
Qed.
#[local] Instance json : CursorJson.
Proof.
  refine {| cursor_to_string := to_text; cursor_from_string := of_text; cursor_from_to := of_to_text |}.
  intros c. split; [apply trim_to_text|done].
Defined.

Definition no_files : Files := {| catalog_bin := None; events_wal := None; enrichment_cursor := None; closed_cursor := None; uma_cursor := None |}.
Definition rules := CatalogSample.rules.
Definition market (id : Z) (at_ : string) : GammaMarket := CatalogSample.raw (fmt_u64 id) at_ (replicate 32 (byte_of id)).
Definition page (ms : list GammaMarket) : result EnrichmentError GammaPage := Ok {| markets := ms; next_cursor := "" |}.
Definition now : Z := 1790000000.
Definition one_pass : option (list write * Catalog) :=
  sync_pass rules now 7 no_files [page [market 9 "2026-10-02"; market 8 "2026-10-01"]] [page []] catalog_empty.
Definition pass_writes : list write := Eval vm_compute in default [] (fst <$> one_pass).
Definition pass_catalog : Catalog := Eval vm_compute in default catalog_empty (snd <$> one_pass).

Definition pass_rows : list MarketEnrichment := Eval vm_compute in catalog_snapshot pass_catalog.
Lemma pass_rows_storable : Forall storable (catalog_snapshot pass_catalog).
Proof.
  assert (E : catalog_snapshot pass_catalog = pass_rows) by (by vm_compute). rewrite E. unfold pass_rows.
  repeat constructor; cbn; lia.
Qed.

(** A pass over two active markets: the catalog is written, then the active cursor. *)
Lemma catalog_before_cursor_witness :
  length pass_writes = 2%nat
  /\ load_pair (snd (run_writes pass_writes no_files))
     = Ok {| active := Some {| cursor_updated_at := "2026-10-02"; cursor_market_id := 9 |}; closed := None |}
  /\ fst (load_catalog (snd (run_writes pass_writes no_files))) = Ok (merge_sort id_le (catalog_snapshot pass_catalog)).
Proof.
  split; [by vm_compute|].
  destruct (catalog_before_cursor rules now 7 no_files [page [market 9 "2026-10-02"; market 8 "2026-10-01"]] [page []] catalog_empty
              pass_writes pass_catalog {| active := None; closed := None |}) as [[Hno _]|(n & a & cat1 & m & c & Ha & Hc & _ & _ & Hall)].
  - by vm_compute.
  - by vm_compute.
  - exact pass_rows_storable.
  - by vm_compute.
  - discriminate Hno.
  - split; [by vm_compute|]. destruct Hall as (_ & _ & Hload); [discriminate|exact Hload].
Defined.

(** A market listed without its condition under a newer one: once the newer one is in the
    catalog the watch stops at it, and the older one is not looked at again. *)
Definition page1 : list (result EnrichmentError GammaPage) :=
  [page [market 105 "2026-10-02"; CatalogSample.raw "104" "2026-10-02" []]].
Definition page2 : list (result EnrichmentError GammaPage) := [page [market 105 "2026-10-02"; market 104 "2026-10-02"]].
Example skipped_market_not_seen_again :
  exists cat1, new_market_tick rules 0 page1 catalog_empty = Some (1, cat1) /\ get_by_market_id 104 cat1 = None
    /\ new_market_tick rules 1 page2 cat1 = Some (1, cat1).
Proof. eexists. split; [vm_compute; reflexivity|]. split; by vm_compute. Qed.

(** The writes of a reconciliation that took its snapshot earlier, after those of a pass:
    the cursor on disk is the pass's, the catalog is without the pass's market. *)
Definition stale_writes : list write := persist_writes catalog_empty None None.
Example older_snapshot_over_newer :
  load_pair (snd (run_writes (pass_writes ++ stale_writes) no_files))
    = Ok {| active := Some {| cursor_updated_at := "2026-10-02"; cursor_market_id := 9 |}; closed := None |}
  /\ fst (load_catalog (snd (run_writes (pass_writes ++ stale_writes) no_files))) = Ok [].
Proof. split; by vm_compute. Qed.
End SyncRuns.
