(* ===== verification/Startup.v ===== *)
(** * Startup: the service from its files to its first event ([src/main.rs],
    [src/bin/mempool-uma.rs])

    [boot] is [run] up to the spawning of the tasks: what each store gives, what ends the
    start and what only degrades it.  Gamma's answers are the responses of the first
    synchronisation; the statistics and the blocklist file are what their JSON parses to. *)
From S2P Require Import Prelude Model WireFrame Channel Events Calldata Hubs Category Uint256 Calendar Catalog Forfeit Pipeline Storage CatalogSync Config.

(** ** The statistics that survive a restart *)

Record EnrichmentStatsSnapshot := { snap_hits : Z; snap_hits_via_market_id : Z; snap_misses : Z }.
Definition EnrichmentStatsSnapshot_default : EnrichmentStatsSnapshot :=
  {| snap_hits := 0; snap_hits_via_market_id := 0; snap_misses := 0 |}.
#[global] Instance EnrichmentStatsSnapshot_eq_dec : EqDecision EnrichmentStatsSnapshot.
Proof. solve_decision. Defined.

(** The file: absent, not parsing, or a snapshot. *)
Definition StatsFile : Type := option (option EnrichmentStatsSnapshot).
Definition load_enrichment_stats (file : StatsFile) : result StorageError (option EnrichmentStatsSnapshot) :=
  match file with
  | None => Ok None
  | Some None => Err (StorageFormat "enrichment stats")
  | Some (Some s) => Ok (Some s)
  end.
Definition stats_snapshot (s : Stats) : EnrichmentStatsSnapshot :=
  {| snap_hits := enrichment_hits s; snap_hits_via_market_id := enrichment_hits_via_market_id s; snap_misses := enrichment_misses s |}.
(** [saves]: whether the write succeeds. *)
Definition persist_enrichment_stats (s : Stats) (saves : bool) (previous : EnrichmentStatsSnapshot) (file : StatsFile)
  : EnrichmentStatsSnapshot * StatsFile :=
  let current := stats_snapshot s in
  if bool_decide (current = previous) then (previous, file)
  else (current, if saves then Some (Some current) else file).

(** The counters a start takes over; all others begin at zero. *)
Definition restore_stats (snap : option EnrichmentStatsSnapshot) (latest : Z) : Stats :=
  let s := default EnrichmentStatsSnapshot_default snap in
  {| rpc_logs_received := 0; last_upstream_received_at_us := 0; decode_errors := 0; duplicates := 0;
     enrichment_hits := snap_hits s; enrichment_hits_via_market_id := snap_hits_via_market_id s;
     enrichment_misses := snap_misses s; enrichment_recent_hits := 0; enrichment_recent_total := 0; events_decoded := 0;
     latest_block := latest; storage_queue_dropped := 0; source_race := ∅ |}.

(** ** The start *)

Record Disk := { d_files : Files; d_stats : StatsFile; d_forfeit : option Snapshot }.
Inductive BootError := BootStorage (e : StorageError) | BootSync (e : EnrichmentError).

Section Boot.
Context `{EthCodec} `{TextEngine} `{WireNumbers} `{WalCodec} `{CursorJson} `{Mpsc StorageCommand}.
Context (rules : CompiledRules) (cfg : Config) (now_secs now_us : Z).
#[local] Abbreviation responses := (list (result EnrichmentError GammaPage)).

Record Started := { st_processor : Processor; st_frames : FrameHub; st_forfeit : ForfeitBlocklist }.

Definition started (initial : Z) (cat : Catalog) (hub : EventHub) (fb : ForfeitBlocklist) (frames : FrameHub) (s : Stats) : Started :=
  {| st_processor := {| config := proc_config cfg; catalog := cat; hub := hub; forfeit := fb; counter := initial; window := [];
                        stats := s; storage_tx := chan_new (Z.max (live_buffer cfg) 1); batch_tx := []; batch_open := true |};
     st_frames := frames; st_forfeit := fb |}.

(** [run] of [main.rs]; [None] when the responses run out. *)
Definition boot (ra rc : responses) (d : Disk) : option (result BootError Started * Files) :=
  match load_catalog (d_files d) with
  | (Err e, f) => Some (Err (BootStorage e), f)
  | (Ok rows, f) =>
      let fb := forfeit_from_config cfg (d_forfeit d) now_us in
      let recovered := default [] (result_ok (load_events (event_ring_capacity cfg) f)) in
      let '(initial, last, hub) := recover fb recovered (event_hub_new (event_ring_capacity cfg)) in
      let frames := resuming_after (frame_ring_capacity cfg) last in
      match load_enrichment_stats (d_stats d) with
      | Err e => Some (Err (BootStorage e), f)
      | Ok snap =>
          '(r, (cat, f)) ← sync_catalog_before_uma rules now_secs (closed_market_lookback_days cfg) ra rc (catalog_new rows, f);
          Some (match r with
                | Err e => (Err (BootSync e), f)
                | Ok _ =>
                    match load_uma_cursor f with
                    | Err e => (Err (BootStorage e), f)
                    | Ok cursor => (Ok (started initial cat hub fb frames (restore_stats snap (default 0 cursor))), f)
                    end
                end)
      end
  end.

(** [run] of [mempool-uma]: no block cursor, and a broadcast floor that knows no
    blocklist. *)
Definition boot_mempool (ra rc : responses) (d : Disk) : option (result BootError Started * Files) :=
  match load_catalog (d_files d) with
  | (Err e, f) => Some (Err (BootStorage e), f)
  | (Ok rows, f) =>
      let recovered := default [] (result_ok (load_events (event_ring_capacity cfg) f)) in
      let '(initial, last, hub) := recover forfeit_disabled recovered (event_hub_new (event_ring_capacity cfg)) in
      let frames := resuming_after (frame_ring_capacity cfg) last in
      match load_enrichment_stats (d_stats d) with
      | Err e => Some (Err (BootStorage e), f)
      | Ok snap =>
          '(r, (cat, f)) ← sync_catalog_before_uma rules now_secs (closed_market_lookback_days cfg) ra rc (catalog_new rows, f);
          Some (match r with
                | Err e => (Err (BootSync e), f)
                | Ok _ => (Ok (started initial cat hub (forfeit_from_config cfg (d_forfeit d) now_us) frames (restore_stats snap 0)), f)
                end)
      end
  end.

(** [run_storage_writer] from its start to a stop: the commands received so far, then the
    last flush.  What is still queued at the stop stays there. *)
Definition run_storage_writer (evs : list writer_event) (files : Files) : Writer :=
  let cursor := match load_uma_cursor files with Ok (Some c) => c | _ => 0 end in
  writer_step (event_ring_capacity cfg)
    (foldl (writer_step (event_ring_capacity cfg))
       {| journal := journal_open (events_wal files); writer_cursor := cursor; writer_files := files |} evs)
    FlushTick.

(** ** What a start needs *)

Definition with_wal (w : option bytes) (f : Files) : Files :=
  {| catalog_bin := catalog_bin f; events_wal := w; enrichment_cursor := enrichment_cursor f; closed_cursor := closed_cursor f;
     uma_cursor := uma_cursor f |}.
Definition disk_with_wal (w : option bytes) (d : Disk) : Disk :=
  {| d_files := with_wal w (d_files d); d_stats := d_stats d; d_forfeit := d_forfeit d |}.
(** How a start ended, without what it holds. *)
Definition boot_outcome (r : option (result BootError Started * Files)) : option (option BootError) :=
  match r with Some (Ok _, _) => Some None | Some (Err e, _) => Some (Some e) | None => None end.

Lemma load_catalog_wal w f : load_catalog (with_wal w f) = (fst (load_catalog f), with_wal w (snd (load_catalog f))).
Proof.
  unfold load_catalog. cbn [catalog_bin with_wal]. destruct (catalog_bin f) as [b|]; [|done].
  destruct (read_exact 8 b) as [[m r]|]; [|done]. destruct (decide _); [done|]. by destruct (decide (m = CATALOG_MAGIC)).
Qed.
Lemma load_catalog_keeps_wal f : events_wal (snd (load_catalog f)) = events_wal f.
Proof.
  unfold load_catalog. destruct (catalog_bin f) as [b|]; [|done].
  destruct (read_exact 8 b) as [[m r]|]; [|done]. destruct (decide _); [done|]. by destruct (decide (m = CATALOG_MAGIC)).
Qed.
Lemma do_write_wal w x f : do_write x (with_wal w f) = (fst (do_write x f), with_wal w (snd (do_write x f))).
Proof. destruct x; cbn; [|done..]. unfold save_catalog. cbv zeta. by destruct (write_markets _). Qed.
Lemma run_writes_wal w xs : forall f, run_writes xs (with_wal w f) = (fst (run_writes xs f), with_wal w (snd (run_writes xs f))).
Proof.
  induction xs as [|x xs IH]; intros f; [done|]. cbn [run_writes]. rewrite do_write_wal.
  destruct (do_write x f) as [[u|e] f']; [apply IH|done].
Qed.
Lemma sync_wal days ra rc w cat f :
  sync_catalog_before_uma rules now_secs days ra rc (cat, with_wal w f)
  = (fun o => (fst o, (fst (snd o), with_wal w (snd (snd o))))) <$> sync_catalog_before_uma rules now_secs days ra rc (cat, f).
Proof.
  unfold sync_catalog_before_uma. cbn [fst snd]. change (load_pair (with_wal w f)) with (load_pair f).
  destruct (load_pair f) as [cur|e]; [|done].
  destruct (sync_both _ _ _ _ _ _ _) as [[[[[changed na] nc]|e] cat']|]; [|done|done]. cbn [mbind option_bind].
  unfold persist_catalog. rewrite run_writes_wal. by destruct (run_writes _ f) as [[u|e] f'].
Qed.

(** An unreadable journal is not fatal.  Whether the service starts, and with which
    error it does not, depends on the other files and on Gamma alone: replacing the
    journal by any bytes, or removing it, changes nothing about it. *)
Theorem boot_survives_any_journal ra rc w d :
  boot_outcome (boot ra rc (disk_with_wal w d)) = boot_outcome (boot ra rc d).
Proof.
  unfold boot. cbn [d_files d_stats d_forfeit disk_with_wal]. rewrite load_catalog_wal.
  destruct (load_catalog (d_files d)) as [[rows|e] f]; cbn [fst snd]; [|done].
  destruct (recover _ (default [] (result_ok (load_events _ (with_wal w f)))) _) as [[i l] h].
  destruct (recover _ _ _) as [[i' l'] h'].
  destruct (load_enrichment_stats (d_stats d)) as [snap|e]; [|done]. rewrite sync_wal.
  destruct (sync_catalog_before_uma _ _ _ _ _ _) as [[[n|e] [cat f']]|]; cbn; [|done|done].
  change (load_uma_cursor (with_wal w f')) with (load_uma_cursor f'). by destruct (load_uma_cursor f').
Qed.

(** ** A restart *)

(** Whether the process before broadcast the record, as far as the blocklist tells. *)
Definition was_broadcast (fb : ForfeitBlocklist) (r : EventRecord) : bool :=
  bool_decide (is_Some (enrichment r))
  && negb (blocked_before (resolved_condition_id r) (upstream_received_at_us (event_chain (event r))) fb).

Lemma was_broadcast_persisted fb r : was_broadcast fb (persisted_view r) = was_broadcast fb r.
Proof.
  unfold was_broadcast. rewrite persisted_view_cid. f_equal.
  - unfold persisted_view. cbn. by destruct (enrichment r).
  - by destruct r as [? [?|?] ? ?].
Qed.

(** The recovered numbers: the greatest, and the greatest of the broadcast records. *)
Lemma recover_spec fb rs : forall i0 l0 h0,
  let '(i, l, _) := foldl (recover_one fb) (i0, l0, h0) rs in
  (i0 <= i /\ forall r, r ∈ rs -> sequence r <= i)
  /\ (l0 <= l /\ (forall r, r ∈ rs -> was_broadcast fb r = true -> sequence r <= l)
      /\ (l = l0 \/ exists r, r ∈ rs /\ was_broadcast fb r = true /\ sequence r = l)).
Proof.
  induction rs as [|r rs IH]; intros i0 l0 h0; cbn [foldl].
  { split; [split; [lia|by intros ? ?%elem_of_nil]|]. split; [lia|]. split; [by intros ? ?%elem_of_nil|by left]. }
  unfold recover_one at 2. fold (was_broadcast fb r).
  specialize (IH (Z.max i0 (sequence r)) (if was_broadcast fb r then Z.max l0 (sequence r) else l0) (snd (insert_event r h0))).
  destruct (foldl _ _ rs) as [[i l] h]. destruct IH as ([Hi1 Hi2] & Hl1 & Hl2 & Hl3).
  split; [split; [lia|]|split; [|split]].
  - intros x [->|Hx]%elem_of_cons; [lia|by apply Hi2].
  - destruct (was_broadcast fb r); lia.
  - intros x [->|Hx]%elem_of_cons Hb; [rewrite Hb in Hl1; lia|by apply Hl2].
  - destruct Hl3 as [->|(x & Hx & Hb & <-)]; [|right; exists x; split; [by right|done]].
    destruct (was_broadcast fb r) eqn:Eb; [|by left].
    destruct (Z.max_spec l0 (sequence r)) as [[? ->]|[? ->]]; [right; exists r; split; [by left|done]|by left].
Qed.

Lemma elem_of_map_persisted rs x : x ∈ map persisted_view rs <-> exists r, r ∈ rs /\ x = persisted_view r.
Proof. rewrite list_elem_of_fmap. split; intros (r & ? & ?); by exists r. Qed.

(** C32: no client misses an event across a restart without being told.  The process before
    crashed anywhere between two flushes; [kept] are the last records the journal still
    holds wholly.  After the start every number given to one of them is below the next
    one, and a client that comes back with a cursor is answered with all frames published
    since above it, which is all it can have missed of what is kept; or it is refused,
    because a kept record that was broadcast, or a frame the new ring let go of, is newer
    than its cursor. *)
Theorem restart_serves_cursors ra rc d st f rs1 rs2 n fs cur :
  boot ra rc d = Some (Ok st, f) ->
  events_wal (d_files d) = Some (crash n (append_all rs2 (journal_flush (append_all rs1 (journal_open None))))) ->
  Forall storable_record rs1 -> Forall storable_record rs2 -> 0 < cur ->
  let kept := last_n (Z.to_nat (Z.max (event_ring_capacity cfg) 1)) (rs1 ++ take (complete n rs2) rs2) in
  let h := publish_all fs (st_frames st) in
  (forall r, r ∈ kept -> sequence r <= counter (st_processor st))
  /\ match after cur h with
     | Ok got => got = List.filter (newer cur) fs
                 /\ forall r, r ∈ kept -> was_broadcast (st_forfeit st) r = true -> sequence r <= cur
     | Err Lagged => (exists r, r ∈ kept /\ was_broadcast (st_forfeit st) r = true /\ cur < sequence r)
                     \/ exists g gone, g ∈ gone /\ fs = gone ++ Hubs.frames h /\ cur < last_sequence g
     end.
Proof.
  intros Hb Hw H1' H2' Hcur kept h. unfold boot in Hb. pose proof (load_catalog_keeps_wal (d_files d)) as Hk.
  destruct (load_catalog (d_files d)) as [[rows|e] f0]; [|done]. cbn [snd] in Hk.
  assert (Hl : load_events (event_ring_capacity cfg) f0 = Ok (map persisted_view kept)).
  { pose proof (journal_crash_loads rs1 rs2 n (event_ring_capacity cfg) H1' H2') as Hj.
    unfold load_events in *. rewrite Hk, Hw. cbn [events_wal files_with_wal] in Hj. rewrite Hj. f_equal.
    unfold kept, last_n. rewrite length_map. apply skipn_map. }
  rewrite Hl in Hb. cbn [result_ok default] in Hb.
  pose proof (recover_spec (forfeit_from_config cfg (d_forfeit d) now_us) (map persisted_view kept) 0 0
                (event_hub_new (event_ring_capacity cfg))) as Hr.
  unfold recover in Hb. cbn [from_option id] in Hb. destruct (foldl _ _ _) as [[i l] hub0].
  destruct (load_enrichment_stats (d_stats d)) as [snap|e]; [|done].
  destruct (sync_catalog_before_uma _ _ _ _ _ _) as [[[cnt|e] [cat f1]]|]; cbn [mbind option_bind] in Hb; [|done|done].
  destruct (load_uma_cursor f1) as [uc|e]; [|done]. injection Hb as <- _. cbn [st_processor st_frames st_forfeit started counter] in *.
  destruct Hr as ([_ Hi] & _ & Hmax & Hat). split.
  - intros r Hr. apply (Hi (persisted_view r)). apply elem_of_map_persisted. by exists r.
  - pose proof (after_spec _ _ fs h cur (frame_hub_publish_all _ _ fs [] _ (frame_hub_start (frame_ring_capacity cfg) l))) as Ha.
    destruct (after cur h) as [got|[]] eqn:Eg.
    + destruct Ha as [_ Ha]. split; [by apply Ha|]. intros r Hr Hbr.
      assert (sequence r <= l).
      { apply (Hmax (persisted_view r)); [apply elem_of_map_persisted; by exists r|by rewrite was_broadcast_persisted]. }
      assert (l <= cur) by (eapply after_floor; [apply (frame_hub_publish_all _ _ fs [] _ (frame_hub_start (frame_ring_capacity cfg) l))|exact Hcur|exact Eg]). lia.
    + destruct Ha as [_ [Hlt|Hg]]; [left|by right]. destruct Hat as [->|(x & Hx & Hbx & Hs)]; [lia|].
      apply elem_of_map_persisted in Hx as (r & Hr & ->). exists r. rewrite was_broadcast_persisted in Hbx.
      split; [done|]. split; [done|]. by rewrite <- Hs in Hlt.
Qed.
End Boot.

(** ** Runs *)

Module StartupRuns.
#[local] Instance codec : EthCodec := Events.sample_codec.
#[local] Instance engine : TextEngine := sample_engine.
#[local] Instance numbers : WireNumbers := sample_numbers.
#[local] Instance wal_codec : WalCodec := Storage.sample_codec.
#[local] Instance json : CursorJson := SyncRuns.json.
#[local] Instance queue : Mpsc StorageCommand := list_mpsc StorageCommand.

Definition small : {c | ConfigRuns.started [("WSS_RPC", "wss://a/key"); ("EVENT_RING_CAPACITY", "10")] = Some c}.
Proof. eexists. vm_compute. reflexivity. Defined.
Definition cfg : Config := Eval vm_compute in proj1_sig small.
Definition no_page : list (result EnrichmentError GammaPage) := [SyncRuns.page []].
(** One record was flushed, of a second one the crash left [n] bytes. *)
Definition crashed (n : nat) : Disk :=
  {| d_files := files_with_wal (crash n (append_all [sample_record 2] (journal_flush (append_all [sample_record 1] (journal_open None)))));
     d_stats := Some (Some {| snap_hits := 5; snap_hits_via_market_id := 4; snap_misses := 1 |}); d_forfeit := None |}.
#[local] Abbreviation restart n := (boot CatalogSample.rules cfg 1790000000 0 no_page no_page (crashed n)).
Definition restarted (n : nat) : option Started := '(r, _) ← restart n; result_ok r.
Lemma restart_runs : exists st f, restart 7 = Some (Ok st, f).
Proof.
  assert (E : (match restart 7 with Some (Ok _, _) => true | _ => false end) = true) by (vm_compute; reflexivity).
  destruct (restart 7) as [[[st|e] f]|]; [by exists st, f|discriminate E..].
Qed.

Definition flushed : list EventRecord := [sample_record 1].
Definition torn : list EventRecord := [sample_record 2].
Lemma crashed_wal : events_wal (d_files (crashed 7)) = Some (crash 7 (append_all torn (journal_flush (append_all flushed (journal_open None))))).
Proof. reflexivity. Qed.
Lemma kept_one : last_n (Z.to_nat (Z.max (event_ring_capacity cfg) 1)) (flushed ++ take (complete 7 torn) torn) = [sample_record 1].
Proof. vm_compute. reflexivity. Qed.
Lemma flushed_storable : Forall storable_record flushed.
Proof. constructor; [exact sample_one|constructor]. Qed.
Lemma torn_storable : Forall storable_record torn.
Proof. constructor; [exact sample_two|constructor]. Qed.

Lemma restart_serves_cursors_witness :
  exists st f, restart 7 = Some (Ok st, f) /\ (forall r, r ∈ [sample_record 1] -> sequence r <= counter (st_processor st)).
Proof.
  destruct restart_runs as (st & f & E). exists st, f. split; [exact E|].
  rewrite <- kept_one.
  exact (proj1 (restart_serves_cursors CatalogSample.rules cfg 1790000000 0 no_page no_page (crashed 7) st f flushed torn 7 [] 1 E crashed_wal
                  flushed_storable torn_storable eq_refl)).
Defined.

(** The record of the torn tail was broadcast, so a client may hold its number; after the
    restart the number is given again, and the frame with the new event 2 is not among
    the answer to that client. *)
Example lost_number_given_again :
  option_map (fun st => (counter (st_processor st), result_ok (after 2 (publish_all [Sample.wf 2] (st_frames st))))) (restarted 7)
  = Some (1, Some []).
Proof. by vm_compute. Qed.

(** The all-time counters go on. *)
Example counters_resume : option_map (fun st => stats_snapshot (stats (st_processor st))) (restarted 7)
  = Some {| snap_hits := 5; snap_hits_via_market_id := 4; snap_misses := 1 |}.
Proof. by vm_compute. Qed.

(** A stop while the command for event 2, already broadcast, is still queued: the writer
    leaves without it, and the next start counts on from 1. *)
Definition stopped : Disk :=
  {| d_files := files_with_wal (on_disk (journal (run_storage_writer cfg [WriteEvent (sample_record 1) [sample_record 1]] SyncRuns.no_files)));
     d_stats := None; d_forfeit := None |}.
Example queued_event_lost :
  (match boot CatalogSample.rules cfg 1790000000 0 no_page no_page stopped with
   | Some (Ok st, _) => Some (counter (st_processor st))
   | _ => None
   end) = Some 1.
Proof. by vm_compute. Qed.
End StartupRuns.
