(* ===== verification/CatalogTests.v ===== *)
(** * CatalogTests: the tests of [src/storage.rs] and [src/enrichment.rs] on the model

    The functions of the source's test modules under their names, with the shipped rules on
    the verified matcher.  A market is given by the fields serde takes from the test's JSON,
    a mock of Gamma by the pages it answers, one list for the open and one for the closed
    markets, as many as the test sees asked for. *)
From S2P Require Import Prelude Testing Model Events Keccak Category CategoryRegex Uint256 Calendar Catalog Forfeit Pipeline Storage CatalogSync Config Startup.

#[local] Existing Instance ethereum.
#[local] Existing Instance engine.
#[local] Existing Instance sample_numbers.
#[local] Existing Instance SyncRuns.json.

Definition rules : CompiledRules :=
  default {| category_text_rules := []; tag_rules := []; bet_type_groups := [] |} (CompiledRules_parse RULES_JSON).

(** ** [storage.rs] *)

Abbreviation T := (Test Files).
Definition no_files : Files := {| catalog_bin := None; events_wal := None; enrichment_cursor := None; closed_cursor := None; uma_cursor := None |}.
Definition put_catalog (b : bytes) (f : Files) : Files :=
  {| catalog_bin := Some b; events_wal := events_wal f; enrichment_cursor := enrichment_cursor f; closed_cursor := closed_cursor f;
     uma_cursor := uma_cursor f |}.
Definition loads : T (list MarketEnrichment) := r ← calling load_catalog; unwrap r.
Definition saves (ms : list MarketEnrichment) : T unit := r ← calling (save_catalog ms); unwrap r.
Definition cursors_are (a c : option string) : T unit :=
  x ← peek load_enrichment_cursor; assert (eqb x a) ;; y ← peek load_closed_market_cursor; assert (eqb y c).

Definition compact_catalog_round_trip : T unit :=
  let market :=
    {| market_id := 42; condition_id := replicate 32 x01; token_ids := [replicate 32 x02; replicate 32 x03]; tag_ids := [1; 64; 100021];
       category := Category_Sports; bet_type := Bet_Moneyline; neg_risk := true |} in
  saves [market] ;; ms ← loads; assert (eqb ms [market]).

(** Magic, count, and one record: id, condition, no tokens, no tags, and what a format adds. *)
Definition old_file (magic rest : bytes) : bytes :=
  magic ++ be_encode 4 1 ++ be_encode 8 42 ++ replicate 32 x07 ++ be_encode 2 0 ++ be_encode 2 0 ++ rest.
Definition self_heals (file : bytes) : T unit :=
  act (put_catalog file) ;; act (save_enrichment_cursor "stale-watermark") ;; act (save_closed_market_cursor "stale-watermark") ;;
  ms ← loads; assert (eqb ms []) ;; cursors_are None None.

Definition old_catalog_format_self_heals_to_an_empty_catalog_instead_of_hard_failing : T unit := self_heals (old_file CATALOG_MAGIC_V1 []).
Definition v2_catalog_format_self_heals_to_an_empty_catalog_instead_of_hard_failing : T unit :=
  self_heals (old_file CATALOG_MAGIC_V2
    ([byte_of (Category_to_proto Category_Sports)] ++ be_encode 4 (BetType_to_proto Bet_Moneyline))).

(** [format!("{id:02x}").repeat(32)] *)
Definition test_market (id : Z) (updated : string) (tags : list string) (event_tags : list (list string)) : GammaMarket :=
  {| gamma_id := fmt_u64 id; updated_at := updated; gamma_condition_id := hex0x (replicate 32 (byte_of id)); clob_token_ids := [fmt_u64 id];
     gamma_tags := tags; gamma_event_tags := event_tags; gamma_neg_risk := false; sports_market_type := None; question := None |}.
Definition market (id : Z) (updated : string) : GammaMarket := test_market id updated [] [].
Definition answers (ms : list GammaMarket) : list (result EnrichmentError GammaPage) := [Ok {| markets := ms; next_cursor := "" |}].
Definition now_secs : Z := 1790000000.

(** [sync_catalog_before_uma] on a catalog and the files. *)
Definition syncs (days : Z) (ra rc : list GammaMarket) : Test (Catalog * Files) Z := fun s =>
  match sync_catalog_before_uma rules now_secs days (answers ra) (answers rc) s with
  | Some (Ok n, s) => Some (n, s)
  | _ => None
  end.
Definition of_files {A} (t : T A) : Test (Catalog * Files) A := fun s => '(x, f) ← t (snd s); Some (x, (fst s, f)).

Definition boot_sync_recovers_fully_after_a_catalog_format_self_heal : Test (Catalog * Files) unit :=
  let stale := {| cursor_updated_at := "2026-06-01T00:00:00Z"; cursor_market_id := 999 |} in
  let served := [market 1 "2026-01-01T00:00:00Z"] in
  of_files (act (put_catalog (CATALOG_MAGIC_V2 ++ be_encode 4 0)) ;; act (save_enrichment_cursor (cursor_to_string stale))) ;;
  rows ← of_files loads; assert (zlen rows =? 0) ;;
  act (fun s => (catalog_new rows, snd s)) ;;
  syncs 3 served served ;;
  n ← peek (fun s => catalog_len (fst s)); assert (n =? 1).

Definition independent_cursors_round_trip : T unit :=
  act (save_enrichment_cursor "gamma-watermark") ;; act (save_closed_market_cursor "gamma-closed-watermark") ;; act (save_uma_cursor 123) ;;
  cursors_are (Some "gamma-watermark"%string) (Some "gamma-closed-watermark"%string) ;;
  c ← peek load_uma_cursor; c ← unwrap c; assert (eqb c (Some 123)) ;;
  f ← peek (fun f => (enrichment_cursor f, closed_cursor f, uma_cursor f));
  assert (match f with (Some _, Some _, Some _) => true | _ => false end).

Definition counted (hits via misses : Z) : Stats :=
  restore_stats (Some {| snap_hits := hits; snap_hits_via_market_id := via; snap_misses := misses |}) 0.
Definition persists (s : Stats) : Test StatsFile unit :=
  act (fun file => snd (persist_enrichment_stats s true EnrichmentStatsSnapshot_default file)).
Definition stats_are (hits via misses : Z) : Test StatsFile unit :=
  r ← peek load_enrichment_stats; r ← unwrap r; s ← expect r;
  assert (eqb s {| snap_hits := hits; snap_hits_via_market_id := via; snap_misses := misses |}).

Definition enrichment_stats_round_trip_and_default_to_none : Test StatsFile unit :=
  r ← peek load_enrichment_stats; r ← unwrap r; assert (eqb r None) ;; persists (counted 42 40 3) ;; stats_are 42 40 3.

(** ** [enrichment.rs] *)

Definition uint256_decimal_round_trip_for_small_value : Test unit unit :=
  value ← unwrap (parse_uint256 "258"); assert (eqb (drop 30 value) [x01; x02]).

Definition civil_from_days_matches_known_dates : bool :=
  eqb (map civil_from_days [0; 20698; 20695; 11016]) [(1970, 1, 1); (2026, 9, 2); (2026, 8, 30); (2000, 2, 29)].

Definition resolves_neg_risk_market_via_market_id_not_binary_formula : Test unit unit :=
  gamma_condition_id ← unwrap (decode_fixed 32 "0xa50547851bf565603ad7e866d9d2aa2c6c2ee77b2d390e581bf2e8a53b466902" "condition_id");
  let catalog := catalog_new
    [{| market_id := 907474; condition_id := gamma_condition_id; token_ids := [replicate 32 x11]; tag_ids := [7];
        category := Category_Unspecified; bet_type := Bet_Unspecified; neg_risk := true |}] in
  let wrong_derived_condition_id := replicate 32 xab in
  resolved ← expect (resolve (Some 907474) wrong_derived_condition_id catalog);
  assert (eqb (condition_id resolved) gamma_condition_id) ;;
  assert (eqb (resolve None wrong_derived_condition_id catalog) None) ;;
  assert (negb (eqb (resolve None gamma_condition_id catalog) None)).

Definition compacted (raw : GammaMarket) : Test unit MarketEnrichment := unwrap (compact_market rules raw).
Definition classes (m : MarketEnrichment) (id : Z) (c : Category) (b : BetType) (neg : bool) : Test unit unit :=
  assert (market_id m =? id) ;; assert (eqb (category m) c) ;; assert (eqb (bet_type m) b) ;; assert (eqb (neg_risk m) neg).

Definition compacts_and_deduplicates_market_and_event_tags : Test unit unit :=
  market ← compacted
    {| gamma_id := "42"; updated_at := ""; gamma_condition_id := "0x1111111111111111111111111111111111111111111111111111111111111111";
     clob_token_ids := ["1"; "2"]%string; gamma_tags := ["1"]%string;
     gamma_event_tags := [["1"; "64"]]%string; gamma_neg_risk := false; sports_market_type := None;
     question := None |};
  assert (market_id market =? 42) ;; assert (eqb (tag_ids market) [1; 64]) ;; assert (zlen (token_ids market) =? 2).

Definition compact_market_derives_category_and_bet_type_from_real_gamma_response : Test unit unit :=
  market ← compacted
    {| gamma_id := "3931114"; updated_at := ""; gamma_condition_id := "0xd670e99f38952e39ddf04cd4e19c0df4e8fecd7ac5dd63cb3231c14870c528f9";
     clob_token_ids := ["8221408449366099042936974108854776883972296916119694421577391243493411386529"; "16025064474467412105709960145278891958438836213695532074918067345023077403103"]%string; gamma_tags := ["1"; "100639"; "100381"; "678"]%string;
     gamma_event_tags := []%string; gamma_neg_risk := false; sports_market_type := Some "moneyline"%string;
     question := Some "New York Yankees vs. Los Angeles Angels"%string |};
  classes market 3931114 Category_Sports Bet_Moneyline false.

Definition compact_market_derives_crypto_category_and_bet_type_from_real_gamma_response : Test unit unit :=
  market ← compacted
    {| gamma_id := "701502"; updated_at := ""; gamma_condition_id := "0x024b68f77bfc019341ee3db8f57c103334e4b9430bba4746d8c94aafd8b36fee";
     clob_token_ids := ["9894510651052373088408067031031513212801618531203062911959630395716258202132"; "20326394798700413571801660749437036272627203479853632032510011746755865615562"]%string; gamma_tags := ["21"; "235"; "1312"; "102134"; "102536"; "102458"]%string;
     gamma_event_tags := []%string; gamma_neg_risk := false; sports_market_type := None;
     question := Some "Will Bitcoin dip to $45,000 by December 31, 2026?"%string |};
  classes market 701502 Category_Crypto Bet_PriceTarget false.

Definition compact_market_carries_neg_risk_flag_from_real_gamma_response : Test unit unit :=
  market ← compacted
    {| gamma_id := "907474"; updated_at := ""; gamma_condition_id := "0xa50547851bf565603ad7e866d9d2aa2c6c2ee77b2d390e581bf2e8a53b466902";
     clob_token_ids := ["17475510683200848732023427231607713644344302760946880422689479764378729943963"; "82234437478180534939203909772091271039341484839669360098313580187608349272477"]%string; gamma_tags := ["2"]%string;
     gamma_event_tags := []%string; gamma_neg_risk := true; sports_market_type := None;
     question := None |};
  assert (market_id market =? 907474) ;; assert (neg_risk market).

Definition stored_cursor_id : Test (Catalog * Files) Z :=
  c ← peek (fun s => load_enrichment_cursor (snd s)); c ← expect c; c ← expect (cursor_from_string c); mret (cursor_market_id c).
Definition has (id : Z) (b : bool) : Test (Catalog * Files) unit :=
  m ← peek (fun s => get_by_market_id id (fst s)); assert (eqb (bool_decide (is_Some m)) b).
Definition knows (n : Z) : Test (Catalog * Files) unit := k ← peek (fun s => catalog_len (fst s)); assert (k =? n).

Definition startup_sync_persists_cursor_then_only_applies_increment : Test (Catalog * Files) unit :=
  let market id updated := test_market id updated ["2"%string] [["1"; "2"]]%string in
  let first := [market 2 "2026-09-01T00:00:02Z"; market 1 "2026-09-01T00:00:01Z"]%string in
  n ← syncs 7 first first; assert (n =? 2) ;; knows 2 ;;
  c ← stored_cursor_id; assert (c =? 2) ;;
  let second := market 3 "2026-09-01T00:00:03Z"%string :: first in
  n ← syncs 7 second second; assert (n =? 1) ;; knows 3 ;;
  c ← stored_cursor_id; assert (c =? 3).

Definition recently_closed_markets_are_cached_but_old_ones_are_not : Test (Catalog * Files) unit :=
  let today_ts := lookback_boundary_date now_secs 0 +:+ "T12:00:00Z" in
  syncs 3 [market 10 today_ts] [market 20 today_ts; market 30 "2020-01-01T00:00:00Z"] ;;
  has 10 true ;; has 20 true ;; has 30 false.

Definition reconciles (days : Z) (ms : list GammaMarket) : Test (Catalog * Files) Z := fun s =>
  match reconcile_full rules now_secs days (answers ms) (answers ms) (fst s) with
  | Some (Ok n, cat) => Some (n, (cat, snd s))
  | _ => None
  end.

Definition full_reconciliation_recovers_a_market_the_incremental_cursor_has_passed_by : Test (Catalog * Files) unit :=
  let served := [market 10 "2026-01-01T00:00:00Z"] in
  let stale_cursor := {| cursor_updated_at := "2026-06-01T00:00:00Z"; cursor_market_id := 999 |} in
  act (fun s => (fst s, save_enrichment_cursor (cursor_to_string stale_cursor) (snd s))) ;;
  cursors ← peek (fun s => load_pair (snd s)); cursors ← unwrap cursors;
  act (fun s => match sync_both rules now_secs 3 cursors (answers served) (answers served) (fst s) with Some (_, cat) => (cat, snd s) | None => s end) ;;
  has 10 false ;;
  n ← reconciles 3 served; assert (n =? 1) ;; has 10 true ;;
  c ← peek (fun s => load_enrichment_cursor (snd s)); assert (eqb c (Some (cursor_to_string stale_cursor))) ;;
  n ← reconciles 3 served; assert (n =? 0).

(** [testdata/gamma_keyset_newest_by_id_2026-09-28.json] *)
Definition REAL_NEWEST_BY_ID_PAGE : GammaPage :=
  {| markets :=
   [{| gamma_id := "5060739"; updated_at := "2026-09-28T02:25:02.597191Z"; gamma_condition_id := "0x174a52610195a75ccea2e5cc7365a850a0c7290e03325dc64c41706f736c6e84";
       clob_token_ids := ["14556768884035824962144030956540060544387435494486619364553309902389168110099"; "56983026915524625768313901629030489568050534305111990270520832261846985226151"]%string; gamma_tags := ["1"; "64"; "100639"; "100780"]%string;
       gamma_event_tags := [[]]%string; gamma_neg_risk := false; sports_market_type := Some "round_over_under_game_2"%string;
       question := Some "Map 2 Total Rounds: Over/Under 21.5"%string |};
    {| gamma_id := "5060738"; updated_at := "2026-09-28T02:25:02.907997Z"; gamma_condition_id := "0x3c82ef0cd74d3dfee145d4d38cb4471dbff0cd491e18169c020e79c6f0ac97db";
       clob_token_ids := ["23968584434231490450113267788879327309684387938253263335698388500448696586630"; "36575041638765140827760270037298051279999671080898183519435611231404630595435"]%string; gamma_tags := ["1"; "64"; "100639"; "100780"]%string;
       gamma_event_tags := [[]]%string; gamma_neg_risk := false; sports_market_type := Some "round_handicap_game_2"%string;
       question := Some "Map 2 Rounds Handicap: Marsborne (-6.5) vs FarmVille (+6.5)"%string |};
    {| gamma_id := "5060737"; updated_at := "2026-09-28T02:24:48.5333Z"; gamma_condition_id := "0xccab61417a5837876ccac8d6bcfef0776f137756ac1ffd42239cf481e3da7995";
       clob_token_ids := ["46808326133079565498255602145270443293117401610578895715516039795136170650516"; "14212261631232846463350884285444400266555108728590917816994280740252385655344"]%string; gamma_tags := ["102127"; "1312"; "102169"; "101757"; "21"; "818"; "102892"]%string;
       gamma_event_tags := [[]]%string; gamma_neg_risk := false; sports_market_type := None;
       question := Some "Solana Up or Down - September 28, 10:15PM-10:20PM ET"%string |}];
     next_cursor := "lnv-9Tvj0_JU0UhLSBFFVP79c48nYnLf8Mdne1gf08Z7InYiOjEsImsiOiJtYXJrZXRzIiwib2giOiJmYzk0OWE0ZGFjNmIwNzdkMWM4NDdjODcwNjY4OGZiYmQwOTg2ODIxMzllMTlmZjI2YTQzNjY5MWM5NmM4OWYxIiwia2V5cyI6W3sidCI6InN0cmluZyIsInYiOiI1MDYwNzM3In1dfQ" |}.
(** The pass is given one answer and comes to its end with it: it asks once. *)
Definition finds_newest : Test Catalog Z := fun cat =>
  match sync_newest_markets rules cat NEW_MARKET_MAX_PAGES [Ok REAL_NEWEST_BY_ID_PAGE] with Some (Ok n, cat) => Some (n, cat) | _ => None end.

Definition newest_market_watch_adds_only_markets_newer_than_the_catalog : Test Catalog unit :=
  oldest ← expect (last (markets REAL_NEWEST_BY_ID_PAGE)); assert (eqb (gamma_id oldest) "5060737"%string) ;;
  known ← unwrap (compact_market rules oldest);
  act (fun _ => catalog_new [known]) ;;
  m ← peek max_market_id; assert (m =? 5060737) ;;
  added ← finds_newest; assert (added =? 2) ;;
  for_each [5060739; 5060738] (fun id => m ← peek (get_by_market_id id); m ← expect m; assert (zlen (token_ids m) =? 2)) ;;
  m ← peek max_market_id; assert (m =? 5060739) ;;
  let query := keyset_query None IdDesc false in
  assert (forallb (fun p => existsb (fun p' => eqb p' p) query) [("order", "id"); ("ascending", "false"); ("closed", "false")]%string) ;;
  added ← finds_newest; assert (added =? 0).

(** A 502, then the page: both are needed, and no third answer. *)
Definition incremental_sync_retries_a_transiently_failing_page : bool :=
  match sync_incremental rules (catalog_new []) None None 1 [Err (EnrichStatus 502); Ok REAL_NEWEST_BY_ID_PAGE] with
  | Some (Ok (changed, Some _), _) => changed =? 3
  | _ => false
  end
  && match sync_incremental rules (catalog_new []) None None 1 [Err (EnrichStatus 502)] with None => true | Some _ => false end
  && negb (is_transient (EnrichStatus 400)).

Example storage_tests_pass :
  map (fun t => passes t no_files)
    [compact_catalog_round_trip; old_catalog_format_self_heals_to_an_empty_catalog_instead_of_hard_failing;
     v2_catalog_format_self_heals_to_an_empty_catalog_instead_of_hard_failing; independent_cursors_round_trip] = replicate 4 true
  /\ passes boot_sync_recovers_fully_after_a_catalog_format_self_heal (catalog_new [], no_files) = true
  /\ passes enrichment_stats_round_trip_and_default_to_none None = true.
Proof. vm_compute. auto. Qed.

Example enrichment_tests_pass :
  map (fun t => passes t tt)
    [uint256_decimal_round_trip_for_small_value; resolves_neg_risk_market_via_market_id_not_binary_formula;
     compacts_and_deduplicates_market_and_event_tags; compact_market_derives_category_and_bet_type_from_real_gamma_response;
     compact_market_derives_crypto_category_and_bet_type_from_real_gamma_response; compact_market_carries_neg_risk_flag_from_real_gamma_response]
  = replicate 6 true
  /\ map (fun t => passes t (catalog_new [], no_files))
       [startup_sync_persists_cursor_then_only_applies_increment; recently_closed_markets_are_cached_but_old_ones_are_not;
        full_reconciliation_recovers_a_market_the_incremental_cursor_has_passed_by] = replicate 3 true
  /\ passes newest_market_watch_adds_only_markets_newer_than_the_catalog (catalog_new []) = true
  /\ civil_from_days_matches_known_dates && incremental_sync_retries_a_transiently_failing_page = true.
Proof. vm_compute. auto. Qed.
