(* ===== verification/Registry.v ===== *)
(** * Registry: the console's node registry ([src/console/registry.rs])

    Heartbeats come in, a status is derived, the public list and the release of clients
    (by hand or by the automatic balance) are decided.  The clock, the success of a
    write and the order in which a HashMap is walked are inputs; the random order of the
    public list is an arbitrary rearrangement. *)
From S2P Require Import Prelude Float64.

(** ** Data *)

(** edge to console; also the body of the edge's [/edge/healthz]. *)
Record Heartbeat := {
  hb_node_id : string;
  hb_version : string;
  hb_commit : string;
  hb_started_at_ms : Z;
  hb_sent_at_ms : Z;
  hb_advertise_host : string;
  hb_port : Z;
  hb_tls : bool;
  hb_path : string;
  hb_subprotocol : string;
  hb_ready : bool;
  hb_draining : bool;
  hb_upstream_url : string;
  hb_upstream_connected : bool;
  hb_upstream_reconnects_total : Z;
  hb_last_frame_at_ms : Z;
  hb_frames_total : Z;
  hb_bytes_total : Z;
  hb_bad_frames_total : Z;
  hb_last_event_sequence : Z;
  hb_ring_frames : Z;
  hb_ring_capacity : Z;
  hb_upstream_lag_last_us : Z;
  hb_upstream_lag_max_us : Z;
  hb_clients : Z;
  hb_max_clients : Z;
  hb_clients_accepted_total : Z;
  hb_clients_rejected_total : Z;
  hb_rejected_token_total : Z;
  hb_rejected_draining_total : Z;
  hb_rejected_full_total : Z;
  hb_rejected_subprotocol_total : Z;
  hb_rejected_replay_total : Z;
  hb_slow_clients_disconnected_total : Z;
  hb_deliveries_total : Z;
  hb_fanout_last_us : Z;
  hb_fanout_max_us : Z;
  hb_tokens_version : Z;
  hb_clients_by_token : gmap string Z }.

Definition Heartbeat_default : Heartbeat :=
    {| hb_node_id := EmptyString; hb_version := EmptyString; hb_commit :=
     EmptyString; hb_started_at_ms := 0; hb_sent_at_ms := 0; hb_advertise_host := EmptyString; hb_port := 0; hb_tls :=
     false; hb_path := EmptyString; hb_subprotocol := EmptyString; hb_ready := false; hb_draining := false; hb_upstream_url
     := EmptyString; hb_upstream_connected := false; hb_upstream_reconnects_total := 0; hb_last_frame_at_ms := 0;
     hb_frames_total := 0; hb_bytes_total := 0; hb_bad_frames_total := 0; hb_last_event_sequence := 0; hb_ring_frames := 0;
     hb_ring_capacity := 0; hb_upstream_lag_last_us := 0; hb_upstream_lag_max_us := 0; hb_clients := 0; hb_max_clients :=
     0; hb_clients_accepted_total := 0; hb_clients_rejected_total := 0; hb_rejected_token_total := 0;
     hb_rejected_draining_total := 0; hb_rejected_full_total := 0; hb_rejected_subprotocol_total := 0;
     hb_rejected_replay_total := 0; hb_slow_clients_disconnected_total := 0; hb_deliveries_total := 0; hb_fanout_last_us :=
     0; hb_fanout_max_us := 0; hb_tokens_version := 0; hb_clients_by_token := ∅ |}.

Inductive Status := Stale | Relay | Disabled | Draining | NotReady | Full | Serving.
#[global] Instance Status_eq_dec : EqDecision Status.
Proof. solve_decision. Defined.

Record NodeAdmin := { disabled : bool; note : string; relay : bool }.
Definition NodeAdmin_default : NodeAdmin := {| disabled := false; note := ""; relay := false |}.

Record Settings := { auto_balance : bool; release_batch : Z; balance_spread_pct : Z; balance_min_excess : Z }.
Definition Settings_default : Settings :=
  {| auto_balance := true; release_batch := 20; balance_spread_pct := 5; balance_min_excess := 5 |}.

Record NodesFile := { file_nodes : gmap string NodeAdmin; file_settings : Settings }.

Record Node := {
  heartbeat_of : Heartbeat;
  remote_ip : string;
  first_seen_ms : Z;
  last_seen_ms : Z;
  desired_drain : bool;
  pending_release : Z;
  released_total : Z;
  last_release_ms : Z }.

Record NodeView := {
  view_node : Node;
  view_disabled : bool;
  view_relay : bool;
  view_note : string;
  view_status : Status;
  view_url : string;
  view_balance_excess : Z }.

Record PublicNode := { pn_node_id : string; pn_url : string; pn_weight : Z; pn_clients : Z }.
Record NodeList := {
  list_nodes : list PublicNode;
  list_subprotocol : string;
  list_path : string;
  list_ttl_s : Z;
  list_generated_at_ms : Z }.

(** [Registry] with its [Inner]; [disk] is what the last successful write left. *)
Record Registry := {
  stale_after_ms : Z;
  nodes : gmap string Node;
  admin : gmap string NodeAdmin;
  settings : Settings;
  disk : option NodesFile }.

Record HeartbeatOutcome := {
  first_seen : bool;
  restarted : bool;
  out_desired_drain : bool;
  out_release : Z;
  release_reason : string }.

Definition with_nodes (ns : gmap string Node) (r : Registry) : Registry :=
  {| stale_after_ms := stale_after_ms r; nodes := ns; admin := admin r; settings := settings r; disk := disk r |}.
Definition with_admin (a : gmap string NodeAdmin) (r : Registry) : Registry :=
  {| stale_after_ms := stale_after_ms r; nodes := nodes r; admin := a; settings := settings r; disk := disk r |}.

(** [open]: a missing file is the default. *)
Definition open_registry (file : option NodesFile) (stale_after : Z) : Registry :=
  {| stale_after_ms := stale_after; nodes := ∅; admin := default ∅ (file_nodes <$> file);
     settings := default Settings_default (file_settings <$> file); disk := file |}.

Definition admin_of (r : Registry) (id : string) : NodeAdmin := default NodeAdmin_default (admin r !! id).

Definition or_default (value dflt : string) : string := if String.eqb value "" then dflt else value.

Definition node_url (n : Node) : string :=
  let hb := heartbeat_of n in
  let scheme := if hb_tls hb then "wss" else "ws" in
  let host := if String.eqb (hb_advertise_host hb) "" then remote_ip n else hb_advertise_host hb in
  let port := if hb_port hb =? 0 then 8012 else hb_port hb in
  let path := or_default (hb_path hb) "/uma/v1/ws" in
  let host := if has_char ":" host && negb (starts_with "[" host) then "[" +:+ host +:+ "]" else host in
  scheme +:+ "://" +:+ host +:+ ":" +:+ fmt_u64 port +:+ path.

Definition status_of (r : Registry) (n : Node) (a : NodeAdmin) (now : Z) : Status :=
  let hb := heartbeat_of n in
  if stale_after_ms r <? sat_sub now (last_seen_ms n) then Stale
  else if relay a then Relay
  else if disabled a then Disabled
  else if desired_drain n || hb_draining hb then Draining
  else if negb (hb_ready hb) then NotReady
  else if hb_max_clients hb <=? hb_clients hb then Full
  else Serving.

Definition node_status (r : Registry) (now : Z) (n : Node) : Status :=
  status_of r n (admin_of r (hb_node_id (heartbeat_of n))) now.

(** [x as i64] of a [u64] *)
Definition as_i64 (z : Z) : Z := if z <? 2 ^ 63 then z else z - 2 ^ 64.

Section Registry.
(** The nodes in the order the HashMap yields them. *)
Variable values : gmap string Node -> list Node.

(** ** The automatic balance *)

Definition serving (r : Registry) (now : Z) : list Node :=
  List.filter (fun n => bool_decide (node_status r now n = Serving)) (values (nodes r)).

Definition sheddable (r : Registry) (now : Z) : list Node :=
  List.filter (fun n => match node_status r now n with Serving | Full => true | _ => false end) (values (nodes r)).

Definition node_name (n : Node) : string := hb_node_id (heartbeat_of n).
Definition node_clients (n : Node) : Z := hb_clients (heartbeat_of n).

(** [Iterator::min] of the clients *)
Definition min_clients (cs : list Z) : Z :=
  match cs with [] => 0 | c :: cs => foldl Z.min c cs end.

Definition spare (n : Node) : Z := sat_sub (hb_max_clients (heartbeat_of n)) (node_clients n).
Definition others_spare (id : string) (ns : list Node) : Z :=
  foldl u64_add 0 (map spare (List.filter (fun n => negb (String.eqb (node_name n) id)) ns)).

Definition balance_excess (r : Registry) (id : string) (now : Z) : Z :=
  match List.find (fun n => String.eqb (node_name n) id) (sheddable r now) with
  | None => 0
  | Some me =>
      let sv := serving r now in
      let spare := others_spare id sv in
      if spare =? 0 then 0 else
      let emptiest := min_clients (map node_clients sv) in
      let ceiling := f64_mul (f64_of_Z emptiest)
                       (f64_add (f64_of_Z 1) (f64_div (f64_of_Z (balance_spread_pct (settings r))) (f64_of_Z 100))) in
      let excess := f64_floor_i64 (f64_sub (f64_of_Z (node_clients me)) ceiling) in
      let half_gap := as_i64 (sat_sub (node_clients me) emptiest / 2) in
      Z.min (Z.min excess half_gap) (as_i64 spare)
  end.

(** The comparison of [max_by] is [Greater]. *)
Definition busier (a b : Node) : bool :=
  (node_clients b <? node_clients a)
  || ((node_clients a =? node_clients b) && str_ltb (node_name a) (node_name b)).

(** [max_by] keeps the later of two equal elements. *)
Definition max_by {A} (gt : A -> A -> bool) (l : list A) : option A :=
  foldl (fun best x => Some (match best with Some y => if gt y x then y else x | None => x end)) None l.

Definition busiest_sheddable (r : Registry) (now : Z) : option string := node_name <$> max_by busier (sheddable r now).

(** ** Heartbeats *)

Definition count_release (n now : Z) (manual : bool) (nd : Node) : Node :=
  {| heartbeat_of := heartbeat_of nd; remote_ip := remote_ip nd; first_seen_ms := first_seen_ms nd;
     last_seen_ms := last_seen_ms nd; desired_drain := desired_drain nd;
     pending_release := if manual then pending_release nd - n else pending_release nd;
     released_total := u64_add (released_total nd) n; last_release_ms := now |}.

Definition decide_release (id : string) (now : Z) (r : Registry) : Z * string * Registry :=
  let batch := Z.max (release_batch (settings r)) 1 in
  match nodes r !! id with
  | None => (0, EmptyString, r)
  | Some node =>
      if 0 <? pending_release node then
        let n := Z.min (pending_release node) batch in
        (n, "manual", with_nodes (<[id := count_release n now true node]> (nodes r)) r)
      else if negb (auto_balance (settings r)) || desired_drain node then (0, EmptyString, r)
      else if negb (bool_decide (busiest_sheddable r now = Some id)) then (0, EmptyString, r)
      else
        let excess := balance_excess r id now in
        if excess <? as_i64 (balance_min_excess (settings r)) then (0, EmptyString, r)
        else
          let n := Z.min (excess mod 2 ^ 64) batch in
          (n, "auto-balance", with_nodes (<[id := count_release n now false node]> (nodes r)) r)
  end.

(** The node after its fields are taken over; a new [started_at_ms] is a new process. *)
Definition beat (hb : Heartbeat) (ip : string) (now : Z) (old : option Node) : bool * Node :=
  let nd := default {| heartbeat_of := Heartbeat_default; remote_ip := ip; first_seen_ms := now; last_seen_ms := now;
                       desired_drain := false; pending_release := 0; released_total := 0; last_release_ms := 0 |} old in
  let restarted := bool_decide (is_Some old) && negb (hb_started_at_ms (heartbeat_of nd) =? 0)
                   && negb (hb_started_at_ms (heartbeat_of nd) =? hb_started_at_ms hb) in
  (restarted,
   {| heartbeat_of := hb; remote_ip := ip; first_seen_ms := first_seen_ms nd; last_seen_ms := now;
      desired_drain := if restarted then false else desired_drain nd; pending_release := pending_release nd;
      released_total := released_total nd; last_release_ms := last_release_ms nd |}).

Definition calm (nd : Node) : Node :=
  {| heartbeat_of := heartbeat_of nd; remote_ip := remote_ip nd; first_seen_ms := first_seen_ms nd;
     last_seen_ms := last_seen_ms nd; desired_drain := false; pending_release := 0;
     released_total := released_total nd; last_release_ms := last_release_ms nd |}.

Definition heartbeat (hb : Heartbeat) (ip : string) (now : Z) (r : Registry) : HeartbeatOutcome * Registry :=
  let id := hb_node_id hb in
  let old := nodes r !! id in
  let '(restarted, nd) := beat hb ip now old in
  let first := negb (bool_decide (is_Some old)) in
  let r := with_nodes (<[id := nd]> (nodes r)) r in
  if relay (admin_of r id) then
    ({| first_seen := first; restarted := restarted; out_desired_drain := false; out_release := 0; release_reason := "" |},
     with_nodes (<[id := calm nd]> (nodes r)) r)
  else
    let '(n, reason, r) := decide_release id now r in
    ({| first_seen := first; restarted := restarted; out_desired_drain := desired_drain nd; out_release := n;
        release_reason := reason |}, r).

(** ** The lists *)

Definition public_node (n : Node) : PublicNode :=
  {| pn_node_id := node_name n; pn_url := node_url n; pn_weight := Z.max (spare n) 1; pn_clients := node_clients n |}.

Definition list_ceiling (pct : Z) (ns : list PublicNode) : Z :=
  let emptiest := min_clients (map pn_clients ns) in
  u64_add emptiest (u64_mul emptiest pct / 100).

(** [sort_by]'s comparison is not [Greater]. *)
Definition public_le (ceiling : Z) (a b : PublicNode) : bool :=
  match pn_clients a <=? ceiling, pn_clients b <=? ceiling with
  | true, _ => true
  | false, true => false
  | false, false =>
      (pn_clients a <? pn_clients b)
      || ((pn_clients a =? pn_clients b)
          && ((pn_weight b <? pn_weight a)
              || ((pn_weight a =? pn_weight b) && negb (str_ltb (pn_node_id b) (pn_node_id a)))))
  end.

Definition public_list (shuffle : list PublicNode -> list PublicNode) (ttl now : Z) (r : Registry) : NodeList :=
  let ns := map public_node (serving r now) in
  let ceiling := list_ceiling (balance_spread_pct (settings r)) ns in
  {| list_nodes := sort_by (public_le ceiling) (shuffle ns);
     list_subprotocol := match values (nodes r) with n :: _ => or_default (hb_subprotocol (heartbeat_of n)) "uma.pb.v1" | [] => "uma.pb.v1" end;
     list_path := match values (nodes r) with n :: _ => or_default (hb_path (heartbeat_of n)) "/uma/v1/ws" | [] => "/uma/v1/ws" end;
     list_ttl_s := ttl; list_generated_at_ms := now |}.

Definition node_view (r : Registry) (now : Z) (n : Node) : NodeView :=
  let a := admin_of r (node_name n) in
  {| view_node := n; view_disabled := disabled a; view_relay := relay a; view_note := note a;
     view_status := status_of r n a now; view_url := node_url n; view_balance_excess := balance_excess r (node_name n) now |}.

Definition admin_list (now : Z) (r : Registry) : list NodeView :=
  sort_by (fun a b => negb (str_ltb (node_name (view_node b)) (node_name (view_node a)))) (map (node_view r now) (values (nodes r))).

Definition counts (now : Z) (r : Registry) : Z * Z := (zlen (serving r now), Z.of_nat (size (nodes r))).

(** ** Management *)

Definition set_drain (id : string) (on : bool) (r : Registry) : bool * Registry :=
  match nodes r !! id with
  | None => (false, r)
  | Some nd =>
      (true, with_nodes (<[id := {| heartbeat_of := heartbeat_of nd; remote_ip := remote_ip nd; first_seen_ms := first_seen_ms nd;
                                    last_seen_ms := last_seen_ms nd; desired_drain := on; pending_release := pending_release nd;
                                    released_total := released_total nd; last_release_ms := last_release_ms nd |}]> (nodes r)) r)
  end.

Definition request_release (id : string) (count : Z) (r : Registry) : bool * Registry :=
  match nodes r !! id with
  | None => (false, r)
  | Some nd =>
      (true, with_nodes (<[id := {| heartbeat_of := heartbeat_of nd; remote_ip := remote_ip nd; first_seen_ms := first_seen_ms nd;
                                    last_seen_ms := last_seen_ms nd; desired_drain := desired_drain nd; pending_release := count;
                                    released_total := released_total nd; last_release_ms := last_release_ms nd |}]> (nodes r)) r)
  end.

(** [saves] is whether the write succeeds; the memory keeps the change either way. *)
Definition persist (saves : bool) (r : Registry) : result unit unit * Registry :=
  if saves then (Ok tt, {| stale_after_ms := stale_after_ms r; nodes := nodes r; admin := admin r; settings := settings r;
                           disk := Some {| file_nodes := admin r; file_settings := settings r |} |})
  else (Err tt, r).

Definition set_auto_balance (on saves : bool) (r : Registry) : result unit unit * Registry :=
  let s := settings r in
  persist saves {| stale_after_ms := stale_after_ms r; nodes := nodes r; admin := admin r;
                   settings := {| auto_balance := on; release_batch := release_batch s;
                                  balance_spread_pct := balance_spread_pct s; balance_min_excess := balance_min_excess s |};
                   disk := disk r |}.

Definition mutate_admin (id : string) (f : NodeAdmin -> NodeAdmin) (saves : bool) (r : Registry) : result unit bool * Registry :=
  match nodes r !! id, admin r !! id with
  | None, None => (Ok false, r)
  | _, a =>
      let '(res, r) := persist saves (with_admin (<[id := f (default NodeAdmin_default a)]> (admin r)) r) in
      (match res with Ok _ => Ok true | Err e => Err e end, r)
  end.

Definition set_disabled (id : string) (on : bool) : bool -> Registry -> result unit bool * Registry :=
  mutate_admin id (fun a => {| disabled := on; note := note a; relay := relay a |}).
Definition set_relay (id : string) (on : bool) : bool -> Registry -> result unit bool * Registry :=
  mutate_admin id (fun a => {| disabled := if on then disabled a else true; note := note a; relay := on |}).
Definition set_note (id text : string) : bool -> Registry -> result unit bool * Registry :=
  mutate_admin id (fun a => {| disabled := disabled a; note := trim text; relay := relay a |}).
Definition is_relay (id : string) (r : Registry) : bool :=
  match admin r !! id with Some a => relay a | None => false end.

Definition forget (id : string) (saves : bool) (r : Registry) : result unit bool * Registry :=
  let known := bool_decide (is_Some (nodes r !! id)) || bool_decide (is_Some (admin r !! id)) in
  let r := with_admin (delete id (admin r)) (with_nodes (delete id (nodes r)) r) in
  if known then
    let '(res, r) := persist saves r in (match res with Ok _ => Ok true | Err e => Err e end, r)
  else (Ok false, r).

(** ** Invariant *)

Hypothesis values_perm : forall m, values m ≡ₚ map snd (map_to_list m).

(** A node is stored under the name its heartbeat carries, and the counters are [u64]. *)
Record registry_inv (r : Registry) : Prop := {
  inv_names : forall id nd, nodes r !! id = Some nd -> node_name nd = id;
  inv_clients : forall id nd, nodes r !! id = Some nd -> 0 <= node_clients nd < 2 ^ 64;
  inv_pending : forall id nd, nodes r !! id = Some nd -> 0 <= pending_release nd < 2 ^ 64 }.

Lemma values_elem r nd : nd ∈ values (nodes r) <-> exists id, nodes r !! id = Some nd.
Proof.
  rewrite values_perm, list_elem_of_fmap. split.
  - intros ([id n] & -> & Hin). exists id. by apply elem_of_map_to_list.
  - intros [id Hn]. exists (id, nd). split; [done|]. by apply elem_of_map_to_list.
Qed.

Lemma serving_elem r now nd : nd ∈ serving r now <-> (exists id, nodes r !! id = Some nd) /\ node_status r now nd = Serving.
Proof.
  unfold serving. rewrite list_elem_of_In, List.filter_In, <- list_elem_of_In, values_elem, bool_decide_eq_true. tauto.
Qed.

Lemma sheddable_elem r now nd : nd ∈ sheddable r now <->
  (exists id, nodes r !! id = Some nd) /\ (node_status r now nd = Serving \/ node_status r now nd = Full).
Proof.
  unfold sheddable. rewrite list_elem_of_In, List.filter_In, <- list_elem_of_In, values_elem.
  destruct (node_status r now nd); intuition congruence.
Qed.

Lemma min_clients_spec cs : cs <> [] -> min_clients cs ∈ cs /\ forall c, c ∈ cs -> min_clients cs <= c.
Proof.
  destruct cs as [|c0 cs]; [done|]. intros _. cbn [min_clients]. revert c0. induction cs as [|c cs IH]; intros c0; cbn [foldl].
  - split; [by left|]. intros c ->%list_elem_of_singleton. lia.
  - destruct (IH (Z.min c0 c)) as [Hin Hle]. split.
    + apply elem_of_cons in Hin as [E|Hin]; [|by right; right].
      destruct (Z.min_spec c0 c) as [[_ E']|[_ E']]; rewrite E, E'; [by left|by right; left].
    + pose proof (Hle (Z.min c0 c)) as Hm. specialize (Hm ltac:(by left)).
      intros c' [->|[->|Hc']%elem_of_cons]%elem_of_cons; [lia|lia|]. apply Hle. by right.
Qed.

Lemma max_by_spec {A} (gt : A -> A -> bool) l :
  (forall a, gt a a = false) -> (forall a b c, gt a b = false -> gt b c = false -> gt a c = false) ->
  (forall a b, gt a b = true -> gt b a = false) ->
  match max_by gt l with
  | Some m => m ∈ l /\ forall y, y ∈ l -> gt y m = false
  | None => l = []
  end.
Proof.
  intros Hir Htr Has. unfold max_by.
  assert (Hgen : forall l2 l1 m, m ∈ l1 -> (forall y, y ∈ l1 -> gt y m = false) ->
    match foldl (fun best x => Some (match best with Some y => if gt y x then y else x | None => x end)) (Some m) l2 with
    | Some m => m ∈ l1 ++ l2 /\ forall y, y ∈ l1 ++ l2 -> gt y m = false
    | None => False
    end).
  { induction l2 as [|x l2 IH]; intros l1 m Hm Hmax; cbn [foldl]; [by rewrite app_nil_r|].
    change (x :: l2) with ([x] ++ l2). rewrite app_assoc. apply IH.
    - destruct (gt m x); apply elem_of_app; [by left|right; by left].
    - intros y [Hy| ->%list_elem_of_singleton]%elem_of_app; destruct (gt m x) eqn:E; eauto. }
  destruct l as [|x l]; [done|]. cbn [foldl]. specialize (Hgen l [x] x). cbn [app] in Hgen.
  destruct (foldl _ (Some x) l) as [m|]; [apply Hgen|exfalso; apply Hgen]; first [by left|by intros y ->%list_elem_of_singleton].
Qed.

Lemma busier_irrefl a : busier a a = false.
Proof. unfold busier. rewrite Z.ltb_irrefl, str_ltb_irrefl. by rewrite andb_false_r. Qed.

Lemma str_nlt_trans s t u : str_ltb s t = false -> str_ltb t u = false -> str_ltb s u = false.
Proof.
  intros H1 H2. destruct (str_ltb s u) eqn:E; [|done].
  destruct (str_ltb u t) eqn:E2; [by rewrite (str_ltb_trans _ _ _ E E2) in H1|].
  by rewrite (str_ltb_total _ _ H2 E2), E in H1.
Qed.

Lemma busier_ntrans a b c : busier a b = false -> busier b c = false -> busier a c = false.
Proof.
  unfold busier. rewrite !orb_false_iff, !andb_false_iff. intros [H1 H1'] [H2 H2'].
  destruct (Z.ltb_spec (node_clients c) (node_clients a)) as [Hl|Hl]; [lia|]. split; [done|].
  destruct (Z.eqb_spec (node_clients a) (node_clients c)) as [He|]; [right|by left].
  destruct H1' as [|H1']; [lia|]. destruct H2' as [|H2']; [lia|]. by eapply str_nlt_trans.
Qed.

Lemma busier_asym a b : busier a b = true -> busier b a = false.
Proof.
  unfold busier. rewrite orb_true_iff, andb_true_iff, orb_false_iff, andb_false_iff. intros [H|[H1 H2]]; [lia|].
  split; [lia|right]. destruct (str_ltb (node_name b) (node_name a)) eqn:E; [|done].
  pose proof (str_ltb_trans _ _ _ H2 E) as Hx. by rewrite str_ltb_irrefl in Hx.
Qed.

(** The node the balance picks: no sheddable node has more clients, nor as many and a
    smaller name; so it does not depend on the order of the map. *)
Lemma busiest_spec r now id : registry_inv r ->
  busiest_sheddable r now = Some id <->
  exists nd, nodes r !! id = Some nd /\ (node_status r now nd = Serving \/ node_status r now nd = Full)
    /\ forall o, o ∈ sheddable r now -> busier o nd = false.
Proof.
  intros Hinv. unfold busiest_sheddable.
  pose proof (max_by_spec busier (sheddable r now) busier_irrefl busier_ntrans busier_asym) as Hm.
  destruct (max_by busier (sheddable r now)) as [m|]; cbn.
  - destruct Hm as [Hin Hmax]. pose proof Hin as [[k Hk] Hst]%sheddable_elem. pose proof (inv_names r Hinv k m Hk) as Hn. split.
    + intros [= <-]. rewrite Hn. by exists m.
    + intros (nd & Hnd & Hs & Hmax'). f_equal.
      pose proof (inv_names r Hinv id nd Hnd) as Hid.
      assert (Hin' : nd ∈ sheddable r now) by (apply sheddable_elem; eauto).
      pose proof (Hmax nd Hin') as H1. pose proof (Hmax' m Hin) as H2. rewrite <- Hid.
      unfold busier in *. rewrite orb_false_iff, andb_false_iff in H1, H2. destruct H1 as [H1 H1'], H2 as [H2 H2'].
      apply str_ltb_total; [destruct H2' as [|]; [lia|done]|destruct H1' as [|]; [lia|done]].
  - split; [done|]. intros (nd & Hnd & Hs & _). assert (Hin' : nd ∈ sheddable r now) by (apply sheddable_elem; eauto).
    rewrite Hm in Hin'. by apply elem_of_nil in Hin'.
Qed.

(** ** The automatic balance does not overshoot *)

Lemma sum_spare_le ns : forall acc, 0 <= acc ->
  0 <= foldl u64_add acc (map spare ns) <= acc + foldr Z.add 0 (map spare ns).
Proof.
  induction ns as [|n ns IH]; intros acc Ha; cbn [map foldl foldr]; [lia|].
  assert (0 <= spare n) by (unfold spare, sat_sub; lia).
  pose proof (u64_add_range acc (spare n)). destruct (IH (u64_add acc (spare n))) as [I1 I2]; [lia|].
  assert (u64_add acc (spare n) <= acc + spare n) by (apply Z.mod_le; lia). lia.
Qed.

Lemma find_named id nd l : nd ∈ l -> node_name nd = id ->
  (forall a b, a ∈ l -> b ∈ l -> node_name a = node_name b -> a = b) ->
  List.find (fun n => String.eqb (node_name n) id) l = Some nd.
Proof.
  intros Hin Hn Hu. destruct (List.find _ l) as [m|] eqn:E.
  - apply List.find_some in E as [Hm He]. apply list_elem_of_In in Hm. apply String.eqb_eq in He.
    f_equal. apply Hu; [done..|congruence].
  - apply list_elem_of_In in Hin. pose proof (List.find_none _ _ E nd Hin) as Hf. cbn in Hf. by rewrite Hn, String.eqb_refl in Hf.
Qed.

(** What a positive excess means. *)
Lemma balance_excess_bound r id now me : registry_inv r -> nodes r !! id = Some me ->
  0 < balance_excess r id now ->
  (exists target, target ∈ serving r now /\ (forall o, o ∈ serving r now -> node_clients target <= node_clients o)
     /\ node_clients target + balance_excess r id now <= node_clients me - balance_excess r id now)
  /\ balance_excess r id now
     <= foldr Z.add 0 (map spare (List.filter (fun n => negb (String.eqb (node_name n) id)) (serving r now)))
  /\ balance_excess r id now < 2 ^ 63.
Proof.
  intros Hinv Hme. unfold balance_excess.
  destruct (List.find _ (sheddable r now)) as [m|] eqn:Ef; [|lia].
  apply List.find_some in Ef as [Hm He]. apply list_elem_of_In, sheddable_elem in Hm as [[k Hk] _]. apply String.eqb_eq in He.
  rewrite (inv_names r Hinv k m Hk) in He. subst k. assert (m = me) as -> by congruence. cbv zeta.
  pose proof (sum_spare_le (List.filter (fun n => negb (String.eqb (node_name n) id)) (serving r now)) 0 ltac:(lia)) as Hs.
  fold (others_spare id (serving r now)) in Hs. set (sp := others_spare id (serving r now)) in *.
  destruct (Z.eqb_spec sp 0) as [|Hsp]; [lia|].
  assert (Hne : serving r now <> []).
  { intros E. apply Hsp. unfold sp, others_spare. by rewrite E. }
  set (e := min_clients (map node_clients (serving r now))).
  destruct (min_clients_spec (map node_clients (serving r now))) as [Hin Hle]; [by destruct (serving r now)|]. fold e in Hin, Hle.
  apply list_elem_of_fmap in Hin as (t & Ht & Hts). set (x := f64_floor_i64 _).
  pose proof (inv_clients r Hinv id me Hme) as Hc.
  assert (He0 : 0 <= e).
  { rewrite Ht. apply serving_elem in Hts as [[k' Hk'] _]. by apply (inv_clients r Hinv k' t). }
  intros Hpos. unfold as_i64 in *. unfold sat_sub in *.
  assert (Hh : Z.max 0 (node_clients me - e) / 2 < 2 ^ 63) by (apply Z.div_lt_upper_bound; lia).
  replace (Z.max 0 (node_clients me - e) / 2 <? 2 ^ 63) with true in * by lia.
  pose proof (Z.mul_div_le (Z.max 0 (node_clients me - e)) 2 ltac:(lia)) as Hd.
  pose proof (f64_floor_i64_range) as Hr. destruct (sp <? 2 ^ 63) eqn:Esp.
  - split; [|lia]. exists t. split; [done|]. split; [|lia].
    intros o Ho. rewrite <- Ht. apply Hle. apply list_elem_of_fmap. by exists o.
  - assert (sp < 2 ^ 64); [|lia]. unfold sp, others_spare. clear.
    assert (H : forall l a, 0 <= a < 2 ^ 64 -> foldl u64_add a l < 2 ^ 64).
    { induction l as [|b l IH]; intros a Ha; cbn; [lia|]. apply IH, u64_add_range. }
    apply H. lia.
Qed.

(** C22: balance.  A node is asked to release clients by the automatic balance only when
    no other node that can be relieved has more, nothing was requested by hand, and it
    is not being drained; the number is at most a batch, the other serving nodes have
    room for all of it, and even if all of them move to the emptiest serving node that
    node ends with no more clients than this one keeps. *)
Theorem auto_release_no_overshoot id now r n r' :
  registry_inv r -> 0 <= balance_min_excess (settings r) < 2 ^ 63 ->
  decide_release id now r = (n, "auto-balance", r') -> 0 < n ->
  exists me target, nodes r !! id = Some me /\ pending_release me = 0 /\ desired_drain me = false
    /\ auto_balance (settings r) = true
    /\ (forall o, o ∈ sheddable r now -> node_clients o <= node_clients me)
    /\ n <= Z.max (release_batch (settings r)) 1
    /\ n <= foldr Z.add 0 (map spare (List.filter (fun n => negb (String.eqb (node_name n) id)) (serving r now)))
    /\ target ∈ serving r now /\ (forall o, o ∈ serving r now -> node_clients target <= node_clients o)
    /\ node_clients target + n <= node_clients me - n.
Proof.
  intros Hinv Hmin. unfold decide_release. cbv zeta. destruct (nodes r !! id) as [me|] eqn:Hme; [|done].
  pose proof (inv_pending r Hinv id me Hme) as Hp.
  destruct (0 <? pending_release me) eqn:Ep; [done|]. destruct (negb (auto_balance (settings r)) || desired_drain me) eqn:Ea; [done|].
  apply orb_false_iff in Ea as [Ea Ed]. apply negb_false_iff in Ea.
  destruct (bool_decide (busiest_sheddable r now = Some id)) eqn:Eb; [cbn [negb]|done]. apply bool_decide_eq_true in Eb.
  assert (Hm : as_i64 (balance_min_excess (settings r)) = balance_min_excess (settings r)).
  { unfold as_i64. by replace (balance_min_excess (settings r) <? 2 ^ 63) with true by lia. }
  rewrite Hm. destruct (balance_excess r id now <? balance_min_excess (settings r)) eqn:El; [done|]. intros E Hn. injection E as <- <-.
  apply Z.ltb_ge in El. set (x := balance_excess r id now) in *.
  assert (Hx : 0 < x).
  { destruct (Z.eq_dec x 0) as [E0|]; [|lia]. rewrite E0, Z.mod_0_l in Hn by lia. lia. }
  destruct (balance_excess_bound r id now me Hinv Hme Hx) as ((t & Ht & Htl & Hto) & Hsp & H63). fold x in Hto, Hsp, H63.
  rewrite Z.mod_small by lia. apply busiest_spec in Eb as (nd & Hnd & _ & Hmax); [|done]. assert (nd = me) as -> by congruence.
  exists me, t. repeat split; try done; try lia.
  intros o Ho. specialize (Hmax o Ho). unfold busier in Hmax. apply orb_false_iff in Hmax as [Hmax _]. lia.
Qed.

(** ** Heartbeats, branch by branch *)

Definition batch_of (r : Registry) : Z := Z.max (release_batch (settings r)) 1.
Definition pending_of (r : Registry) (id : string) : Z := default 0 (pending_release <$> nodes r !! id).

(** A node that differs from another only in what a heartbeat or a release may change. *)
Lemma insert_inv r id nd : registry_inv r -> node_name nd = id -> 0 <= node_clients nd < 2 ^ 64 ->
  0 <= pending_release nd < 2 ^ 64 -> registry_inv (with_nodes (<[id := nd]> (nodes r)) r).
Proof.
  intros [I1 I2 I3] Hn Hc Hp. split; cbn [nodes with_nodes]; intros k x [[<- <-]|[_ Hk]]%lookup_insert_Some; eauto.
Qed.

Lemma decide_release_spec r id now nd : registry_inv r -> nodes r !! id = Some nd ->
  exists n reason nd', decide_release id now r = (n, reason, with_nodes (<[id := nd']> (nodes r)) r)
    /\ heartbeat_of nd' = heartbeat_of nd /\ remote_ip nd' = remote_ip nd /\ last_seen_ms nd' = last_seen_ms nd
    /\ desired_drain nd' = desired_drain nd
    /\ (0 < pending_release nd -> reason = "manual" /\ n = Z.min (pending_release nd) (batch_of r)
          /\ pending_release nd' = pending_release nd - n)
    /\ (pending_release nd = 0 -> pending_release nd' = 0 /\ reason <> "manual" /\ (n <> 0 -> reason = "auto-balance")).
Proof.
  intros Hinv Hnd. unfold decide_release. cbv zeta. rewrite Hnd.
  assert (Hsame : forall reason, reason <> "manual" -> pending_release nd = 0 -> exists n reason' nd',
    (0, reason, r) = (n, reason', with_nodes (<[id:=nd']> (nodes r)) r)
    /\ heartbeat_of nd' = heartbeat_of nd /\ remote_ip nd' = remote_ip nd /\ last_seen_ms nd' = last_seen_ms nd
    /\ desired_drain nd' = desired_drain nd
    /\ (0 < pending_release nd -> reason' = "manual" /\ n = Z.min (pending_release nd) (batch_of r)
          /\ pending_release nd' = pending_release nd - n)
    /\ (pending_release nd = 0 -> pending_release nd' = 0 /\ reason' <> "manual" /\ (n <> 0 -> reason' = "auto-balance"))).
  { intros reason Hr Hp. exists 0, reason, nd. split; [|split_and!; try done; lia].
    f_equal. unfold with_nodes. rewrite insert_id by done. by destruct r. }
  pose proof (inv_pending r Hinv id nd Hnd) as Hp. destruct (Z.ltb_spec 0 (pending_release nd)) as [Hpos|Hzero].
  { eexists _, _, _. split; [reflexivity|]. cbn [count_release heartbeat_of remote_ip last_seen_ms desired_drain pending_release].
    split_and!; try done; lia. }
  destruct (_ || _); [apply Hsame; [done|lia]|]. destruct (negb _); [apply Hsame; [done|lia]|].
  destruct (_ <? _); [apply Hsame; [done|lia]|].
  eexists _, _, _. split; [reflexivity|]. cbn [count_release heartbeat_of remote_ip last_seen_ms desired_drain pending_release].
  split_and!; try done; lia.
Qed.

(** A heartbeat.  It records what the node reports and nothing about any other node;
    a relay is never drained nor released; a restarted process loses its drain order;
    otherwise the order stands, a manual request is served first, batch by batch, and
    only without one may the balance release clients. *)
Theorem heartbeat_outcome hb ip now r :
  registry_inv r -> 0 <= hb_clients hb < 2 ^ 64 ->
  let id := hb_node_id hb in
  let o := fst (heartbeat hb ip now r) in
  let r' := snd (heartbeat hb ip now r) in
  registry_inv r' /\ admin r' = admin r /\ settings r' = settings r /\ disk r' = disk r
  /\ stale_after_ms r' = stale_after_ms r
  /\ (forall k, k <> id -> nodes r' !! k = nodes r !! k)
  /\ (first_seen o = true <-> nodes r !! id = None)
  /\ exists nd, nodes r' !! id = Some nd /\ heartbeat_of nd = hb /\ remote_ip nd = ip /\ last_seen_ms nd = now
     /\ out_desired_drain o = desired_drain nd
     /\ (restarted o = true -> desired_drain nd = false)
     /\ (relay (admin_of r id) = true -> desired_drain nd = false /\ out_release o = 0 /\ pending_release nd = 0)
     /\ (relay (admin_of r id) = false ->
           (0 < pending_of r id -> release_reason o = "manual" /\ out_release o = Z.min (pending_of r id) (batch_of r)
              /\ pending_release nd = pending_of r id - out_release o)
           /\ (pending_of r id = 0 -> pending_release nd = 0 /\ release_reason o <> "manual"
              /\ (out_release o <> 0 -> release_reason o = "auto-balance"))
           /\ (restarted o = false -> desired_drain nd = match nodes r !! id with Some old => desired_drain old | None => false end)).
Proof.
  intros Hinv Hc id. unfold heartbeat. fold id. unfold beat. cbv zeta. set (old := nodes r !! id).
  set (base := default _ old). set (rs := bool_decide (is_Some old) && _ && _). set (nd := Build_Node hb _ _ _ _ _ _ _).
  set (r1 := with_nodes (<[id := nd]> (nodes r)) r).
  assert (Hpd : pending_release nd = pending_of r id) by (unfold nd, base, pending_of, old; cbn; by destruct (nodes r !! id)).
  assert (Hp : 0 <= pending_of r id < 2 ^ 64).
  { unfold pending_of. destruct (nodes r !! id) as [x|] eqn:E; cbn; [by apply (inv_pending r Hinv id x)|lia]. }
  assert (Hi1 : registry_inv r1) by (apply insert_inv; try done; by rewrite Hpd).
  assert (Hfirst : negb (bool_decide (is_Some old)) = true <-> old = None).
  { destruct old; [rewrite bool_decide_true by done; cbn; by split|rewrite bool_decide_false by (by intros [? ?]); done]. }
  change (relay (admin_of r1 id)) with (relay (admin_of r id)). destruct (relay (admin_of r id)) eqn:Er.
  - cbn [fst snd]. split; [by apply insert_inv|]. repeat (split; [done|]). split.
    { intros k Hk. cbn [nodes with_nodes r1]. by rewrite !lookup_insert_ne by done. }
    split; [done|]. exists (calm nd). cbn [nodes with_nodes]. rewrite lookup_insert_eq. by split_and!.
  - destruct (decide_release_spec r1 id now nd Hi1) as (n & reason & nd' & E & H1 & H2 & H3 & H4 & H5 & H6); [apply lookup_insert_eq|].
    rewrite E. cbn [fst snd]. change (batch_of r1) with (batch_of r) in H5. rewrite Hpd in H5, H6.
    assert (Hpr : 0 <= pending_release nd' < 2 ^ 64).
    { destruct (Z.eq_dec (pending_of r id) 0) as [E0|]; [destruct (H6 E0) as [-> _]; lia|].
      destruct H5 as (_ & -> & ->); [lia|]. unfold batch_of. lia. }
    split; [apply insert_inv; try done; unfold node_name, node_clients; by rewrite H1|]. repeat (split; [done|]). split.
    { intros k Hk. cbn [nodes with_nodes r1]. by rewrite !lookup_insert_ne by done. }
    split; [done|]. exists nd'. cbn [nodes with_nodes out_desired_drain restarted out_release release_reason].
    rewrite lookup_insert_eq. split_and!; try done.
    + intros Hrs. rewrite H4. cbn. by rewrite Hrs.
    + intros _. split; [exact H5|]. split; [exact H6|]. intros Hrs. rewrite H4. cbn. rewrite Hrs. unfold base, old. by destruct (nodes r !! id).
Qed.

(** ** A manual request is carried out *)

Fixpoint beats (hs : list (Heartbeat * string * Z)) (r : Registry) : list (string * HeartbeatOutcome) * Registry :=
  match hs with
  | [] => ([], r)
  | (hb, ip, now) :: hs =>
      let '(o, r) := heartbeat hb ip now r in
      let '(os, r) := beats hs r in ((hb_node_id hb, o) :: os, r)
  end.

(** What node [id] was told to release by hand. *)
Definition told (id : string) (os : list (string * HeartbeatOutcome)) : Z :=
  foldr Z.add 0 (map (fun p => if String.eqb (fst p) id && String.eqb (release_reason (snd p)) "manual"
                               then out_release (snd p) else 0) os).
Definition beats_of (id : string) (hs : list (Heartbeat * string * Z)) : Z :=
  zlen (List.filter (fun h => String.eqb (hb_node_id (fst (fst h))) id) hs).

Lemma beats_pending id hs : forall r, registry_inv r -> relay (admin_of r id) = false ->
  Forall (fun h => 0 <= hb_clients (fst (fst h)) < 2 ^ 64) hs ->
  let '(os, r') := beats hs r in
  told id os = Z.min (pending_of r id) (batch_of r * beats_of id hs) /\ pending_of r' id = pending_of r id - told id os.
Proof.
  induction hs as [|[[hb ip] now] hs IH]; intros r Hinv Hrel Hh; cbn [beats].
  { unfold told, beats_of, zlen. cbn [map foldr List.filter length Z.of_nat].
    unfold pending_of. destruct (nodes r !! id) as [x|] eqn:E; cbn; [pose proof (inv_pending r Hinv id x E)|]; lia. }
  apply Forall_cons in Hh as [Hc Hh]. cbn [fst] in Hc. pose proof (heartbeat_outcome hb ip now r Hinv Hc) as Ho. cbv zeta in Ho.
  destruct (heartbeat hb ip now r) as [o r1]. cbn [fst snd] in Ho.
  destruct Ho as (Hinv1 & Ha & Hs & _ & _ & Hother & _ & nd & Hnd & _ & _ & _ & _ & _ & _ & Hman).
  specialize (IH r1 Hinv1). destruct (beats hs r1) as [os r']. destruct IH as [I1 I2]; [by unfold admin_of in *; rewrite Ha|done|].
  assert (Hb : batch_of r1 = batch_of r) by (unfold batch_of; by rewrite Hs). rewrite Hb in I1.
  assert (Hpn : 0 <= pending_of r id).
  { unfold pending_of. destruct (nodes r !! id) as [x|] eqn:E; cbn; [pose proof (inv_pending r Hinv id x E)|]; lia. }
  pose proof (zlen_nonneg (List.filter (fun h : Heartbeat * string * Z => String.eqb (hb_node_id (fst (fst h))) id) hs)) as Hz.
  fold (beats_of id hs) in Hz. assert (1 <= batch_of r) by (unfold batch_of; lia).
  unfold told. cbn [map foldr fst snd]. fold (told id os). unfold beats_of. cbn [List.filter fst].
  destruct (String.eqb_spec (hb_node_id hb) id) as [He|Hne]; cbn [andb].
  - subst id. rewrite zlen_cons. fold (beats_of (hb_node_id hb) hs). specialize (Hman Hrel). destruct Hman as (M1 & M2 & _).
    assert (Hp1 : pending_of r1 (hb_node_id hb) = pending_release nd) by (unfold pending_of; by rewrite Hnd).
    destruct (Z.eq_dec (pending_of r (hb_node_id hb)) 0) as [E0|].
    + destruct (M2 E0) as (P1 & P2 & _). rewrite (proj2 (String.eqb_neq _ _) P2). nia.
    + destruct M1 as (-> & P2 & P3); [lia|]. rewrite String.eqb_refl. nia.
  - fold (beats_of id hs). assert (Hp1 : pending_of r1 id = pending_of r id) by (unfold pending_of; by rewrite Hother).
    nia.
Qed.

(** C23: a request to release [count] clients of a node that is not a relay is carried out
    exactly: whatever the nodes report in between, after as many of its heartbeats as
    batches are needed it has been told to release [count] in all, and it is never told
    more. *)
Theorem manual_release_completes id count hs r :
  registry_inv r -> is_Some (nodes r !! id) -> relay (admin_of r id) = false -> 0 <= count < 2 ^ 64 ->
  Forall (fun h => 0 <= hb_clients (fst (fst h)) < 2 ^ 64) hs ->
  let '(os, r') := beats hs (snd (request_release id count r)) in
  told id os = Z.min count (batch_of r * beats_of id hs) /\ pending_of r' id = count - told id os
  /\ (count <= batch_of r * beats_of id hs -> told id os = count /\ pending_of r' id = 0).
Proof.
  intros Hinv [nd Hnd] Hrel Hc Hh. unfold request_release. rewrite Hnd. cbn [snd].
  set (r1 := with_nodes _ r).
  assert (Hi : registry_inv r1).
  { pose proof (inv_names r Hinv id nd Hnd). pose proof (inv_clients r Hinv id nd Hnd). by apply insert_inv. }
  assert (Hp : pending_of r1 id = count) by (unfold pending_of; cbn; by rewrite lookup_insert_eq).
  pose proof (beats_pending id hs r1 Hi Hrel Hh) as H. destruct (beats hs r1) as [os r'].
  change (batch_of r1) with (batch_of r) in H. rewrite Hp in H. lia.
Qed.

(** ** The public list *)

Lemma public_le_total c a b : public_le c a b = false -> public_le c b a = true.
Proof.
  unfold public_le. destruct (pn_clients a <=? c), (pn_clients b <=? c); try done.
  rewrite orb_false_iff, andb_false_iff, orb_true_iff, andb_true_iff, orb_true_iff, andb_true_iff. intros [H1 H2].
  destruct (Z.ltb_spec (pn_clients b) (pn_clients a)) as [|Hl]; [by left|]. right.
  destruct H2 as [H2|H2]; [lia|]. apply orb_false_iff in H2 as [H2 H3]. apply andb_false_iff in H3. split; [lia|].
  destruct (Z.ltb_spec (pn_weight a) (pn_weight b)) as [|Hw]; [by left|]. right. split; [lia|].
  destruct H3 as [|H3]; [lia|]. apply negb_false_iff in H3. destruct (str_ltb (pn_node_id a) (pn_node_id b)) eqn:E; [|done].
  pose proof (str_ltb_trans _ _ _ H3 E) as Hx. by rewrite str_ltb_irrefl in Hx.
Qed.

Lemma public_le_trans c x y z : public_le c x y = true -> public_le c y z = true -> public_le c x z = true.
Proof.
  unfold public_le. destruct (pn_clients x <=? c), (pn_clients y <=? c), (pn_clients z <=? c); try done.
  rewrite !orb_true_iff, !andb_true_iff, !orb_true_iff, !andb_true_iff, !negb_true_iff.
  intros [H1|(H1 & [H1'|[H1' H1'']])] [H2|(H2 & [H2'|[H2' H2'']])]; try (left; lia); right; (split; [lia|]);
    try (left; lia). right. split; [lia|]. by eapply str_nlt_trans.
Qed.

Lemma serving_iff r now nd : node_status r now nd = Serving <->
  sat_sub now (last_seen_ms nd) <= stale_after_ms r /\ relay (admin_of r (node_name nd)) = false
  /\ disabled (admin_of r (node_name nd)) = false /\ desired_drain nd = false /\ hb_draining (heartbeat_of nd) = false
  /\ hb_ready (heartbeat_of nd) = true /\ node_clients nd < hb_max_clients (heartbeat_of nd).
Proof.
  unfold node_status, status_of. fold (node_name nd). cbv zeta. fold (node_clients nd).
  destruct (Z.ltb_spec (stale_after_ms r) (sat_sub now (last_seen_ms nd))); [split; [done|lia]|].
  destruct (relay _); [split; [done|intuition congruence]|]. destruct (disabled _); [split; [done|intuition congruence]|].
  destruct (desired_drain nd), (hb_draining _); cbn; try (split; [done|intuition congruence]).
  destruct (hb_ready _); cbn; [|split; [done|intuition congruence]].
  destruct (Z.leb_spec (hb_max_clients (heartbeat_of nd)) (node_clients nd)); [split; [done|lia]|]. split; [|done]. intros _. split_and!; done || lia.
Qed.

(** The public list holds exactly the nodes that are alive, neither relay nor
    disabled nor being drained, ready and not full; whatever the shuffle, the first one
    has at most [spread%] more clients than any of them, the nodes within that margin
    come before all others, and the others follow by ascending load. *)
Theorem public_list_correct shuffle ttl now r :
  registry_inv r -> (forall l, shuffle l ≡ₚ l) -> 0 <= balance_spread_pct (settings r) ->
  (forall n, n ∈ serving r now -> node_clients n * (1 + balance_spread_pct (settings r)) <= u64_max) ->
  let l := list_nodes (public_list shuffle ttl now r) in
  (forall p, p ∈ l <-> exists nd, nodes r !! pn_node_id p = Some nd /\ p = public_node nd /\ node_status r now nd = Serving)
  /\ (forall p rest, l = p :: rest -> forall nd, nd ∈ serving r now ->
        100 * pn_clients p <= (100 + balance_spread_pct (settings r)) * node_clients nd)
  /\ (exists c, StronglySorted (fun a b => pn_clients b <= c -> pn_clients a <= c) l
        /\ StronglySorted (fun a b => c < pn_clients a -> pn_clients a <= pn_clients b) l).
Proof.
  intros Hinv Hsh Hpct Hmax l. set (pct := balance_spread_pct (settings r)) in *.
  set (ns := map public_node (serving r now)). set (c := list_ceiling pct ns).
  assert (Hl : l = sort_by (public_le c) (shuffle ns)) by done.
  assert (Hperm : l ≡ₚ ns) by (by rewrite Hl, sort_by_perm, Hsh).
  assert (Hsort : StronglySorted (fun a b => public_le c a b = true) l).
  { rewrite Hl. apply sort_by_sorted; [apply public_le_total|apply public_le_trans]. }
  assert (Hns : forall p, p ∈ ns <-> exists nd, nodes r !! pn_node_id p = Some nd /\ p = public_node nd /\ node_status r now nd = Serving).
  { intros p. unfold ns. rewrite list_elem_of_fmap. split.
    - intros (nd & -> & [[id Hid] Hst]%serving_elem). exists nd. cbn. by rewrite (inv_names r Hinv id nd Hid).
    - intros (nd & Hid & -> & Hst). exists nd. split; [done|]. apply serving_elem. split; [by eexists|done]. }
  split; [intros p; by rewrite Hperm|]. split.
  - intros p rest El nd Hnd. set (e := min_clients (map pn_clients ns)).
    assert (Hmap : map pn_clients ns = map node_clients (serving r now)) by (unfold ns; rewrite map_map; done).
    destruct (min_clients_spec (map pn_clients ns)) as [Hin Hle]; [rewrite Hmap; by destruct (serving r now); [apply elem_of_nil in Hnd|]|].
    fold e in Hin, Hle. assert (He : e <= node_clients nd) by (apply Hle; rewrite Hmap; apply list_elem_of_fmap; by exists nd).
    rewrite Hmap in Hin. apply list_elem_of_fmap in Hin as (t & Ht & Hts).
    pose proof Hts as [[k Hk] _]%serving_elem. pose proof (inv_clients r Hinv k t Hk) as Hb. pose proof (Hmax t Hts) as Hm.
    assert (Hc : c = e + e * pct / 100).
    { unfold c, list_ceiling. fold e. cbv zeta. unfold u64_mul, u64_max in *.
      rewrite (Z.mod_small (e * pct)) by nia.
      assert (0 <= e * pct / 100 <= e * pct) by (split; [apply Z.div_pos; nia|apply Z.div_le_upper_bound; nia]).
      apply u64_add_small; unfold u64_max; nia. }
    assert (Hp : pn_clients p <= c).
    { assert (Htl : public_node t ∈ l) by (rewrite Hperm; apply list_elem_of_fmap; by exists t).
      rewrite El in Htl, Hsort. apply StronglySorted_inv in Hsort as [_ Hall].
      assert (Htc : pn_clients (public_node t) <= c) by (cbn; rewrite <- Ht, Hc; pose proof (Z.div_pos (e * pct) 100); nia).
      apply elem_of_cons in Htl as [<-|Htl]; [done|].
      rewrite Forall_forall in Hall. specialize (Hall _ Htl). unfold public_le in Hall.
      destruct (Z.leb_spec (pn_clients p) c); [done|]. by replace (pn_clients (public_node t) <=? c) with true in Hall by lia. }
    pose proof (Z.mul_div_le (e * pct) 100 ltac:(lia)). nia.
  - exists c. split.
    all: clear -Hsort; induction Hsort as [|a l Hs IH Ha]; constructor; try done; eapply Forall_impl; [exact Ha|]; intros b Hab;
      unfold public_le in Hab; cbn beta in Hab; destruct (Z.leb_spec (pn_clients a) c), (Z.leb_spec (pn_clients b) c); try lia; try done.
Qed.

(** ** What survives a restart of the console *)

Inductive admin_op :=
| OpAutoBalance (on : bool)
| OpDisabled (id : string) (on : bool)
| OpRelay (id : string) (on : bool)
| OpNote (id text : string)
| OpForget (id : string).

Definition admin_run (op : admin_op) (saves : bool) (r : Registry) : result unit bool * Registry :=
  match op with
  | OpAutoBalance on => let '(res, r) := set_auto_balance on saves r in (match res with Ok _ => Ok true | Err e => Err e end, r)
  | OpDisabled id on => set_disabled id on saves r
  | OpRelay id on => set_relay id on saves r
  | OpNote id text => set_note id text saves r
  | OpForget id => forget id saves r
  end.

(** Management survives a restart.  After a successful change the file holds the
    management bits and the settings in memory, so a console that starts from it has
    them; an operation on an unknown node changes nothing; a failed write keeps the
    file. *)
Theorem admin_persists op saves r :
  let '(res, r') := admin_run op saves r in
  match res with
  | Ok true => admin (open_registry (disk r') (stale_after_ms r)) = admin r'
               /\ settings (open_registry (disk r') (stale_after_ms r)) = settings r'
  | Ok false => r' = r
  | Err _ => disk r' = disk r /\ saves = false
  end.
Proof.
  assert (Hp : forall r0, let '(res, r') := persist saves r0 in
    match res with
    | Ok _ => disk r' = Some {| file_nodes := admin r'; file_settings := settings r' |}
    | Err _ => r' = r0 /\ saves = false
    end) by (intros r0; unfold persist; by destruct saves).
  assert (Hm : forall id f, let '(res, r') := mutate_admin id f saves r in
    match res with
    | Ok true => disk r' = Some {| file_nodes := admin r'; file_settings := settings r' |}
    | Ok false => r' = r
    | Err _ => disk r' = disk r /\ saves = false
    end).
  { intros id f. unfold mutate_admin. specialize (Hp (with_admin (<[id := f (default NodeAdmin_default (admin r !! id))]> (admin r)) r)).
    destruct (nodes r !! id), (admin r !! id); [| | |done]; destruct (persist _ _) as [[[]|] r'];
      try exact Hp; by destruct Hp as [-> ->]. }
  destruct op as [on|id on|id on|id text|id]; cbn [admin_run].
  - unfold set_auto_balance. cbv zeta. set (r1 := Build_Registry _ _ _ _ _). specialize (Hp r1).
    destruct (persist saves r1) as [[[]|] r']; [by rewrite Hp|]. by destruct Hp as [-> ->].
  - specialize (Hm id (fun a => {| disabled := on; note := note a; relay := relay a |})). unfold set_disabled.
    destruct (mutate_admin _ _ _ _) as [[[]|] r']; [by rewrite Hm|done..].
  - unfold set_relay. specialize (Hm id (fun a => {| disabled := if on then disabled a else true; note := note a; relay := on |})).
    destruct (mutate_admin _ _ _ _) as [[[]|] r']; [by rewrite Hm|done..].
  - unfold set_note. specialize (Hm id (fun a => {| disabled := disabled a; note := trim text; relay := relay a |})).
    destruct (mutate_admin _ _ _ _) as [[[]|] r']; [by rewrite Hm|done..].
  - unfold forget. cbv zeta. set (r1 := with_admin _ _). specialize (Hp r1). destruct (_ || _) eqn:E.
    + destruct (persist saves r1) as [[[]|] r']; [by rewrite Hp|]. by destruct Hp as [-> ->].
    + apply orb_false_iff in E as [E1 E2]. apply bool_decide_eq_false in E1, E2. rewrite <- eq_None_not_Some in E1. rewrite <- eq_None_not_Some in E2.
      unfold r1, with_admin, with_nodes. cbn. rewrite !delete_id by done. by destruct r.
Qed.

(** Unrelaying disables the node, so it does not reach the public list by itself. *)
Lemma unrelay_disables id r r' : set_relay id false true r = (Ok true, r') -> forall nd now,
  node_name nd = id -> node_status r' now nd <> Serving.
Proof.
  unfold set_relay, mutate_admin, persist. intros H nd now Hn [_ [_ [Hd _]]]%serving_iff. revert Hd. rewrite Hn. unfold admin_of.
  destruct (nodes r !! id), (admin r !! id); try discriminate H; injection H as <-; cbn; by rewrite lookup_insert_eq.
Qed.
End Registry.

(** ** Examples *)

Module RegistrySample.
Definition hash_order (m : gmap string Node) : list Node := map snd (map_to_list m).
Definition beat_of (id : string) (clients max : Z) : Heartbeat :=
  {| hb_node_id := id; hb_version := "1"; hb_commit := "c"; hb_started_at_ms := 5; hb_sent_at_ms := 0; hb_advertise_host := "";
     hb_port := 0; hb_tls := true; hb_path := ""; hb_subprotocol := ""; hb_ready := true; hb_draining := false; hb_upstream_url := "";
     hb_upstream_connected := true; hb_upstream_reconnects_total := 0; hb_last_frame_at_ms := 0; hb_frames_total := 0; hb_bytes_total := 0;
     hb_bad_frames_total := 0; hb_last_event_sequence := 0; hb_ring_frames := 0; hb_ring_capacity := 0; hb_upstream_lag_last_us := 0;
     hb_upstream_lag_max_us := 0; hb_clients := clients; hb_max_clients := max; hb_clients_accepted_total := 0;
     hb_clients_rejected_total := 0; hb_rejected_token_total := 0; hb_rejected_draining_total := 0; hb_rejected_full_total := 0;
     hb_rejected_subprotocol_total := 0; hb_rejected_replay_total := 0; hb_slow_clients_disconnected_total := 0;
     hb_deliveries_total := 0; hb_fanout_last_us := 0; hb_fanout_max_us := 0; hb_tokens_version := 0; hb_clients_by_token := ∅ |}.
Definition at_ (r : Registry) (id : string) (clients max now : Z) : Registry :=
  snd (heartbeat hash_order (beat_of id clients max) "10.0.0.1" now r).
Definition empty : Registry := open_registry None 15000.
(** One node with 100 clients, an empty one. *)
Definition two : Registry := at_ (at_ empty "a" 0 1000 1000) "b" 100 1000 2000.

Lemma empty_inv : registry_inv empty.
Proof. split; intros id nd H; cbn in H; by rewrite lookup_empty in H. Qed.
Lemma at_inv r id clients max now : registry_inv r -> 0 <= clients < 2 ^ 64 -> registry_inv (at_ r id clients max now).
Proof.
  intros Hr Hc. exact (proj1 (heartbeat_outcome hash_order (beat_of id clients max) "10.0.0.1" now r Hr Hc)).
Qed.
Lemma at_bound r id clients max now : registry_inv r -> 0 <= clients <= 100 ->
  (forall k nd, nodes r !! k = Some nd -> node_clients nd <= 100) ->
  forall k nd, nodes (at_ r id clients max now) !! k = Some nd -> node_clients nd <= 100.
Proof.
  intros Hr Hc Hb k nd Hk.
  destruct (heartbeat_outcome hash_order (beat_of id clients max) "10.0.0.1" now r Hr) as (_ & _ & _ & _ & _ & Ho & _ & x & Hx & Hh & _);
    [cbn; lia|]. unfold at_ in Hk. cbn [beat_of hb_node_id] in *. destruct (decide (k = id)) as [->|Hne].
  - rewrite Hx in Hk. injection Hk as <-. unfold node_clients. rewrite Hh. cbn. lia.
  - rewrite Ho in Hk by done. by eapply Hb.
Qed.
Lemma two_settings : settings two = Settings_default.
Proof. vm_compute. reflexivity. Qed.
Lemma two_inv : registry_inv two.
Proof. apply at_inv; [|lia]. apply at_inv; [apply empty_inv|lia]. Qed.
Lemma two_bound k nd : nodes two !! k = Some nd -> node_clients nd <= 100.
Proof.
  apply at_bound; [apply at_inv; [apply empty_inv|lia]|lia|]. apply at_bound; [apply empty_inv|lia|].
  intros k' nd' H. cbn in H. by rewrite lookup_empty in H.
Qed.
End RegistrySample.
Import RegistrySample.

(** The balance releases a batch of 20 of the 100 clients; the cap is half the gap. *)
Example balance_example :
  balance_excess hash_order two "b" 3000 = 50 /\ fst (decide_release hash_order "b" 3000 two) = (20, "auto-balance").
Proof. vm_compute. split; reflexivity. Qed.

Example node_url_example :
  node_url {| heartbeat_of := beat_of "a" 0 1; remote_ip := "fe80::1"; first_seen_ms := 0; last_seen_ms := 0; desired_drain := false;
              pending_release := 0; released_total := 0; last_release_ms := 0 |} = "wss://[fe80::1]:8012/uma/v1/ws".
Proof. vm_compute. reflexivity. Qed.

Lemma auto_release_no_overshoot_witness :
  exists me target, nodes two !! "b" = Some me /\ target ∈ serving hash_order two 3000
    /\ node_clients target + 20 <= node_clients me - 20.
Proof.
  pose proof (auto_release_no_overshoot hash_order (fun _ => reflexivity _) "b" 3000 two 20
    (snd (decide_release hash_order "b" 3000 two)) two_inv) as H.
  destruct H as (me & t & H1 & _ & _ & _ & _ & _ & _ & H2 & _ & H3); [rewrite two_settings; cbn; lia| |lia|exists me, t; exact (conj H1 (conj H2 H3))].
  rewrite <- (proj2 balance_example). apply surjective_pairing.
Defined.

(** A restart of a node under a drain order: the order is gone. *)
Lemma heartbeat_outcome_witness :
  let r := snd (set_drain "a" true two) in
  let hb := {| hb_node_id := "a"; hb_version := "2"; hb_commit := "c"; hb_started_at_ms := 6; hb_sent_at_ms := 0; hb_advertise_host := "";
     hb_port := 0; hb_tls := true; hb_path := ""; hb_subprotocol := ""; hb_ready := true; hb_draining := false; hb_upstream_url := "";
     hb_upstream_connected := true; hb_upstream_reconnects_total := 0; hb_last_frame_at_ms := 0; hb_frames_total := 0; hb_bytes_total := 0;
     hb_bad_frames_total := 0; hb_last_event_sequence := 0; hb_ring_frames := 0; hb_ring_capacity := 0; hb_upstream_lag_last_us := 0;
     hb_upstream_lag_max_us := 0; hb_clients := 3; hb_max_clients := 10; hb_clients_accepted_total := 0;
     hb_clients_rejected_total := 0; hb_rejected_token_total := 0; hb_rejected_draining_total := 0; hb_rejected_full_total := 0;
     hb_rejected_subprotocol_total := 0; hb_rejected_replay_total := 0; hb_slow_clients_disconnected_total := 0;
     hb_deliveries_total := 0; hb_fanout_last_us := 0; hb_fanout_max_us := 0; hb_tokens_version := 0; hb_clients_by_token := ∅ |} in
  restarted (fst (heartbeat hash_order hb "10.0.0.2" 4000 r)) = true
  /\ exists nd, nodes (snd (heartbeat hash_order hb "10.0.0.2" 4000 r)) !! "a" = Some nd /\ desired_drain nd = false.
Proof.
  intros r hb. split; [vm_compute; reflexivity|].
  assert (Hi : registry_inv r).
  { assert (exists nd, nodes two !! "a" = Some nd) as [nd Hnd] by (vm_compute; by eexists). unfold r, set_drain. rewrite Hnd.
    pose proof (inv_names two two_inv _ _ Hnd). pose proof (inv_clients two two_inv _ _ Hnd). pose proof (inv_pending two two_inv _ _ Hnd).
    by apply insert_inv; [apply two_inv|..]. }
  destruct (heartbeat_outcome hash_order hb "10.0.0.2" 4000 r Hi) as (_ & _ & _ & _ & _ & _ & _ & nd & Hnd & _ & _ & _ & _ & Hr & _);
    [cbn; lia|]. exists nd. split; [exact Hnd|]. apply Hr. vm_compute. reflexivity.
Defined.

(** 45 clients in batches of 20: three heartbeats. *)
Lemma manual_release_completes_witness :
  let hs := [(beat_of "b" 100 1000, "10.0.0.1", 3000); (beat_of "a" 0 1000, "10.0.0.1", 3100); (beat_of "b" 80 1000, "10.0.0.1", 4000);
             (beat_of "b" 60 1000, "10.0.0.1", 5000)] in
  told "b" (fst (beats hash_order hs (snd (request_release "b" 45 two)))) = 45.
Proof.
  intros hs. pose proof (manual_release_completes hash_order "b" 45 hs two two_inv) as H.
  destruct (beats hash_order hs (snd (request_release "b" 45 two))) as [os r'].
  destruct H as (_ & _ & H); [vm_compute; by eexists|reflexivity|lia|repeat constructor; cbn; lia|].
  apply H. vm_compute. discriminate.
Defined.

(** A list that the shuffle reverses still starts with the empty node. *)
Lemma public_list_correct_witness :
  map pn_node_id (list_nodes (public_list hash_order (@rev PublicNode) 30 3000 two)) = ["a"; "b"]
  /\ forall p, p ∈ list_nodes (public_list hash_order (@rev PublicNode) 30 3000 two) ->
       exists nd, nodes two !! pn_node_id p = Some nd /\ node_status two 3000 nd = Serving.
Proof.
  split; [vm_compute; reflexivity|]. intros p Hp.
  destruct (public_list_correct hash_order (fun _ => reflexivity _) (@rev PublicNode) 30 3000 two two_inv) as (H & _ & _);
    [intros l; symmetry; apply Permutation_rev|rewrite two_settings; cbn; lia| |].
  - intros n Hn. apply (serving_elem hash_order (fun _ => reflexivity _)) in Hn as [[id Hid] _].
    rewrite two_settings. pose proof (two_bound id n Hid). cbn [balance_spread_pct Settings_default]. unfold u64_max. lia.
  - apply H in Hp as (nd & H1 & _ & H2). exists nd. exact (conj H1 H2).
Defined.
