(* ===== verification/RegistryTests.v ===== *)
(** * RegistryTests: the tests of [src/console/registry.rs] on the model

    The functions of the source's test module under their names; a test directory is what the
    model calls the disk, and the clock stands where the test does not wait. *)
From S2P Require Import Prelude Testing Float64 Registry.

Definition values (m : gmap string Node) : list Node := map snd (map_to_list m).
Abbreviation T := (Test Registry).

Definition hb (id : string) (clients : Z) : Heartbeat :=
  let d := Heartbeat_default in
  {| hb_node_id := id; hb_version := ""; hb_commit := ""; hb_started_at_ms := 1; hb_sent_at_ms := 0; hb_advertise_host := ""; hb_port := 8012;
     hb_tls := false; hb_path := ""; hb_subprotocol := ""; hb_ready := true; hb_draining := false; hb_upstream_url := "";
     hb_upstream_connected := false; hb_upstream_reconnects_total := 0; hb_last_frame_at_ms := 0; hb_frames_total := 0; hb_bytes_total := 0;
     hb_bad_frames_total := 0; hb_last_event_sequence := 0; hb_ring_frames := 0; hb_ring_capacity := 0; hb_upstream_lag_last_us := 0;
     hb_upstream_lag_max_us := 0; hb_clients := clients; hb_max_clients := 100; hb_clients_accepted_total := 0;
     hb_clients_rejected_total := 0; hb_rejected_token_total := 0; hb_rejected_draining_total := 0; hb_rejected_full_total := 0;
     hb_rejected_subprotocol_total := 0; hb_rejected_replay_total := 0; hb_slow_clients_disconnected_total := 0; hb_deliveries_total := 0;
     hb_fanout_last_us := 0; hb_fanout_max_us := 0; hb_tokens_version := 0; hb_clients_by_token := ∅ |}.
(** [Heartbeat { .., ..h }] of the fields the tests change. *)
Record Changes := { c_ready : bool; c_draining : bool; c_max : Z; c_started : Z; c_host : string; c_tls : bool; c_port : Z; c_path : string }.
Definition same : Changes :=
  {| c_ready := true; c_draining := false; c_max := 100; c_started := 1; c_host := ""; c_tls := false; c_port := 8012; c_path := "" |}.
Definition changed (c : Changes) (h : Heartbeat) : Heartbeat :=
  {| hb_node_id := hb_node_id h; hb_version := ""; hb_commit := ""; hb_started_at_ms := c_started c; hb_sent_at_ms := 0;
     hb_advertise_host := c_host c; hb_port := c_port c;
     hb_tls := c_tls c; hb_path := c_path c; hb_subprotocol := ""; hb_ready := c_ready c; hb_draining := c_draining c; hb_upstream_url := "";
     hb_upstream_connected := false; hb_upstream_reconnects_total := 0; hb_last_frame_at_ms := 0; hb_frames_total := 0; hb_bytes_total := 0;
     hb_bad_frames_total := 0; hb_last_event_sequence := 0; hb_ring_frames := 0; hb_ring_capacity := 0; hb_upstream_lag_last_us := 0;
     hb_upstream_lag_max_us := 0; hb_clients := hb_clients h; hb_max_clients := c_max c; hb_clients_accepted_total := 0;
     hb_clients_rejected_total := 0; hb_rejected_token_total := 0; hb_rejected_draining_total := 0; hb_rejected_full_total := 0;
     hb_rejected_subprotocol_total := 0; hb_rejected_replay_total := 0; hb_slow_clients_disconnected_total := 0; hb_deliveries_total := 0;
     hb_fanout_last_us := 0; hb_fanout_max_us := 0; hb_tokens_version := 0; hb_clients_by_token := ∅ |}.
Definition with_max (m : Z) (h : Heartbeat) : Heartbeat := changed {| c_ready := true; c_draining := false; c_max := m; c_started := 1; c_host := ""; c_tls := false; c_port := 8012; c_path := "" |} h.
Definition unready (m : Z) (h : Heartbeat) : Heartbeat := changed {| c_ready := false; c_draining := false; c_max := m; c_started := 1; c_host := ""; c_tls := false; c_port := 8012; c_path := "" |} h.

Definition now : Z := 1000.
Definition registry : Registry := open_registry None 15000.
Definition beats (h : Heartbeat) (ip : string) : T HeartbeatOutcome := calling (heartbeat values h ip now).
Definition public (shuffle : list PublicNode -> list PublicNode) (ttl : Z) : T NodeList := peek (public_list values shuffle ttl now).
Definition admin_views : T (list NodeView) := peek (admin_list values now).
Definition first_view : T NodeView := vs ← admin_views; expect (head vs).
Definition view_named (id : string) : T NodeView := vs ← admin_views; expect (List.find (fun v => String.eqb (node_name (view_node v)) id) vs).
Definition reopen (stale_after : Z) : T unit := act (fun r => open_registry (Registry.disk r) stale_after).
Definition ids (l : NodeList) : list string := map pn_node_id (list_nodes l).
Definition ok_bool (f : bool -> Registry -> result unit bool * Registry) : T bool := r ← calling (f true); unwrap r.

Definition list_filters_and_sorts_by_spare_capacity : T unit :=
  beats (hb "busy" 90) "10.0.0.1" ;; beats (hb "idle" 10) "10.0.0.2" ;; beats (hb "full" 100) "10.0.0.3" ;;
  beats (unready 100 (hb "notready" 0)) "10.0.0.4" ;;
  beats (changed {| c_ready := true; c_draining := true; c_max := 100; c_started := 1; c_host := ""; c_tls := false; c_port := 8012; c_path := "" |}
           (hb "draining" 0)) "10.0.0.5" ;;
  l ← public id 30;
  assert (eqb (ids l) ["idle"; "busy"]%string) ;;
  n ← expect (head (list_nodes l));
  assert (pn_weight n =? 90) ;; assert (String.eqb (pn_url n) "ws://10.0.0.2:8012/uma/v1/ws") ;; assert (list_ttl_s l =? 30).

Definition status_priority_and_url : T unit :=
  beats (hb "a" 0) "1.1.1.1" ;; ok_bool (set_disabled "a" true) ;; calling (set_drain "a" true) ;;
  v ← first_view; assert (eqb (view_status v) Disabled) ;;
  ok_bool (set_disabled "a" false) ;;
  v ← first_view; assert (eqb (view_status v) Draining) ;;
  l ← public id 1; assert (eqb (ids l) []) ;;
  beats (changed {| c_ready := true; c_draining := false; c_max := 100; c_started := 1; c_host := "edge.example.com"; c_tls := true; c_port := 443;
                    c_path := "/custom" |} (hb "a" 0)) "1.1.1.1" ;;
  v ← first_view; assert (String.eqb (view_url v) "wss://edge.example.com:443/custom").

Definition relay_is_never_listed_drained_or_released_and_survives_restart : T unit :=
  beats (hb "master" 0) "10.0.0.1" ;; beats (hb "edge" 50) "10.0.0.2" ;;
  b ← ok_bool (set_relay "master" true); assert b ;;
  b ← ok_bool (set_relay "ghost" true); assert (negb b) ;;
  ok_bool (set_disabled "master" false) ;; calling (set_drain "master" true) ;; calling (request_release "master" 10) ;;
  o ← beats (hb "master" 0) "10.0.0.1";
  assert (negb (out_desired_drain o)) ;; assert (out_release o =? 0) ;;
  l ← public id 1; assert (eqb (ids l) ["edge"%string]) ;;
  v ← view_named "master"; assert (eqb (view_status v) Relay) ;; assert (view_relay v) ;;
  m ← peek (is_relay "master"); e ← peek (is_relay "edge"); assert (m && negb e) ;;
  reopen 15000 ;;
  beats (hb "master" 0) "10.0.0.1" ;;
  v ← first_view; assert (eqb (view_status v) Relay) ;;
  ok_bool (set_relay "master" false) ;;
  v ← first_view; assert (eqb (view_status v) Disabled) ;;
  l ← public id 1; assert (eqb (ids l) []).

(** The test waits two milliseconds. *)
Definition stale_never_listed : T unit :=
  act (fun _ => open_registry None 0) ;;
  beats (hb "a" 0) "1.1.1.1" ;;
  l ← peek (public_list values id 1 (now + 2)); assert (eqb (ids l) []) ;;
  vs ← peek (admin_list values (now + 2)); v ← expect (head vs); assert (eqb (view_status v) Stale).

Definition restart_clears_desired_drain : T unit :=
  beats (hb "a" 0) "1.1.1.1" ;; calling (set_drain "a" true) ;;
  o ← beats (hb "a" 0) "1.1.1.1"; assert (out_desired_drain o && negb (restarted o)) ;;
  o ← beats (changed {| c_ready := true; c_draining := false; c_max := 100; c_started := 2; c_host := ""; c_tls := false; c_port := 8012;
                        c_path := "" |} (hb "a" 0)) "1.1.1.1";
  assert (restarted o) ;; assert (negb (out_desired_drain o)) ;;
  v ← first_view; assert (eqb (view_status v) Serving).

Definition manual_release_is_batched_through_heartbeats : T unit :=
  let hb id clients := with_max 1000 (hb id clients) in
  beats (hb "a"%string 500) "1.1.1.1" ;;
  b ← calling (request_release "a" 45); assert b ;; b ← calling (request_release "ghost" 1); assert (negb b) ;;
  o ← beats (hb "a"%string 500) "1.1.1.1"; assert (eqb (out_release o, release_reason o) (20, "manual"%string)) ;;
  o ← beats (hb "a"%string 480) "1.1.1.1"; assert (out_release o =? 20) ;;
  o ← beats (hb "a"%string 460) "1.1.1.1"; assert (out_release o =? 5) ;;
  v ← first_view; assert (released_total (view_node v) =? 45) ;; assert (pending_release (view_node v) =? 0).

Definition releases (h : Heartbeat) (ip : string) (n : Z) : T unit := o ← beats h ip; assert (out_release o =? n).

Definition auto_balance_releases_only_from_overloaded_nodes_with_room_elsewhere : T unit :=
  let hb id clients := with_max 1000 (hb id clients) in
  beats (hb "idle"%string 0) "1.1.1.2" ;;
  o ← beats (hb "busy"%string 900) "1.1.1.1"; assert (eqb (out_release o, release_reason o) (20, "auto-balance"%string)) ;;
  beats (hb "idle"%string 450) "1.1.1.2" ;; releases (hb "busy"%string 470) "1.1.1.1" 0 ;;
  beats (hb "idle"%string 100) "1.1.1.2" ;; releases (hb "busy"%string 108) "1.1.1.1" 0 ;;
  beats (hb "idle"%string 0) "1.1.1.2" ;; beats (hb "mid"%string 400) "1.1.1.3" ;;
  releases (hb "busy"%string 900) "1.1.1.1" 20 ;; releases (hb "mid"%string 400) "1.1.1.3" 0 ;;
  beats (unready 1000 (hb "mid"%string 400)) "1.1.1.3" ;; beats (with_max 100 (hb "idle"%string 100)) "1.1.1.2" ;;
  releases (hb "busy"%string 900) "1.1.1.1" 0 ;;
  r ← calling (set_auto_balance false true); unwrap r ;;
  beats (hb "idle"%string 0) "1.1.1.2" ;; releases (hb "busy"%string 900) "1.1.1.1" 0 ;;
  s ← peek settings; assert (negb (auto_balance s)) ;;
  calling (request_release "busy" 3) ;; releases (hb "busy"%string 900) "1.1.1.1" 3 ;;
  act (fun _ => registry) ;;
  beats (hb "only"%string 900) "1.1.1.1" ;; releases (hb "only"%string 900) "1.1.1.1" 0.

Definition auto_balance_sheds_from_a_full_node : T unit :=
  let hb id clients := with_max 1000 (hb id clients) in
  beats (hb "idle"%string 260) "1.1.1.2" ;; beats (hb "full"%string 1000) "1.1.1.1" ;;
  v ← view_named "full"; assert (eqb (view_status v) Full) ;;
  o ← beats (hb "full"%string 1000) "1.1.1.1"; assert (eqb (out_release o, release_reason o) (20, "auto-balance"%string)) ;;
  v ← view_named "full"; assert (0 <? view_balance_excess v) ;;
  l ← public id 1; assert (negb (existsb (String.eqb "full") (ids l))) ;;
  beats (hb "idle"%string 1000) "1.1.1.2" ;; releases (hb "full"%string 1000) "1.1.1.1" 0.

(** The test draws two hundred orders; here every order of the nodes is taken. *)
Definition list_randomizes_within_the_spread_band : T unit :=
  let hb id clients := with_max 1000 (hb id clients) in
  for_each [("n0", 200); ("n1", 205); ("n2", 210); ("n3", 500)]%string (fun n => beats (hb n.1 n.2) "1.1.1.1" ;; mret tt) ;;
  r ← peek id;
  let lists := map (fun order => ids (public_list values (fun _ => order) 1 now r)) (permutations (map public_node (serving values r now))) in
  assert (negb (eqb lists [])) ;;
  assert (forallb (fun l => (length l =? 4)%nat && eqb (l !! 3%nat) (Some "n3"%string)) lists) ;;
  assert (length (remove_dups (omap head lists)) =? 3)%nat.

(** One round of heartbeats; what is released goes to the emptiest node. *)
Definition clients_of (id : string) (c : list (string * Z)) : Z := default 0 (snd <$> List.find (fun p => String.eqb p.1 id) c).
Definition move (id : string) (d : Z) (c : list (string * Z)) : list (string * Z) :=
  map (fun p => if String.eqb p.1 id then (p.1, p.2 + d) else p) c.
Definition emptiest (c : list (string * Z)) : string :=
  default ""%string (fst <$> head (sort_by (fun a b => (a.2 <? b.2) || ((a.2 =? b.2) && negb (str_ltb b.1 a.1))) c)).
Definition spread (c : list (string * Z)) : Z * Z := (foldr Z.max 0 (map snd c), min_clients (map snd c)).
Definition converged (c : list (string * Z)) : bool :=
  negb (f64_ltb (f64_mul (f64_of_Z (spread c).2) (f64_lit 105 100)) (f64_of_Z (spread c).1)).
Fixpoint round (todo c : list (string * Z)) : T (list (string * Z)) :=
  match todo with
  | [] => mret c
  | (id, n) :: todo =>
      o ← beats (with_max 1000 (hb id n)) "1.1.1.1";
      if 0 <? out_release o then
        assert (String.eqb (release_reason o) "auto-balance") ;;
        round todo (move (emptiest c) (out_release o) (move id (- out_release o) c))
      else round todo c
  end.
Fixpoint rounds (fuel : nat) (c : list (string * Z)) : T (list (string * Z)) :=
  match fuel with
  | O => fun _ => None
  | S fuel => c ← round c c; if converged c then mret c else rounds fuel c
  end.
Definition auto_balance_converges_a_freshly_restarted_node_to_within_the_spread : T unit :=
  let clients := [("fresh", 20); ("node0", 380); ("node1", 380); ("node2", 380); ("node3", 380); ("node4", 380); ("node5", 380); ("node6", 380);
                  ("node7", 380)]%string in
  assert (negb (converged clients)) ;;
  c ← rounds 200 clients;
  assert (foldr Z.add 0 (map snd c) =? 8 * 380 + 20) ;; assert (300 <=? clients_of "fresh" c).

Definition admin_bits_persist_but_drain_does_not : T unit :=
  beats (hb "a" 0) "1.1.1.1" ;; ok_bool (set_disabled "a" true) ;; ok_bool (set_note "a" " hk-1 ") ;; calling (set_drain "a" true) ;;
  b ← ok_bool (set_disabled "ghost" true); assert (negb b) ;;
  reopen 15000 ;;
  beats (hb "a" 0) "1.1.1.1" ;;
  v ← first_view; assert (view_disabled v) ;; assert (String.eqb (view_note v) "hk-1") ;; assert (negb (desired_drain (view_node v))) ;;
  b ← ok_bool (forget "a"); assert b ;;
  vs ← admin_views; assert (length vs =? 0)%nat ;;
  reopen 15000 ;;
  beats (hb "a" 0) "1.1.1.1" ;;
  v ← first_view; assert (negb (view_disabled v)).

Example registry_tests_pass : forallb (fun t => passes t registry)
  [list_filters_and_sorts_by_spare_capacity; status_priority_and_url; relay_is_never_listed_drained_or_released_and_survives_restart;
   stale_never_listed; restart_clears_desired_drain; manual_release_is_batched_through_heartbeats;
   auto_balance_releases_only_from_overloaded_nodes_with_room_elsewhere; auto_balance_sheds_from_a_full_node;
   list_randomizes_within_the_spread_band; auto_balance_converges_a_freshly_restarted_node_to_within_the_spread;
   admin_bits_persist_but_drain_does_not] = true.
Proof. vm_compute. reflexivity. Qed.
