(* ===== verification/Store.v ===== *)
(** * Store: the console's JSON files ([src/console/store.rs])

    [save_json] and [load_json] over a directory of named files, with every moment at which
    the process can die and every call that can fail.  serde_json is an interface with the law
    that it reads what it wrote.  [Registry] and [Tokens] take from here that a file holds the
    state before or after a change, whole. *)
From S2P Require Import Prelude Channel EdgeHub Tokens EdgeServer Registry.

(** ** Paths and files *)

(** Files by their path, the last component of which is what [with_extension] changes. *)
Abbreviation Files := (gmap string bytes).

(** [Path::with_extension] on a path whose last component is a file name: what follows the
    last point of that component is replaced, unless the point is its first character. *)
Fixpoint rsplit_once (c : ascii) (s : string) : option (string * string) :=
  match s with
  | EmptyString => None
  | String a r => match rsplit_once c r with
                  | Some (p, q) => Some (String a p, q)
                  | None => if Ascii.eqb a c then Some (EmptyString, r) else None
                  end
  end.
Definition no_stem (stem : string) : bool :=
  match rsplit_once "/" stem with Some (_, name) => String.eqb name "" | None => String.eqb stem "" end.
Definition with_extension (ext path : string) : string :=
  match rsplit_once "." path with
  | Some (stem, old) => if has_char "/" old || no_stem stem then path +:+ "." +:+ ext else stem +:+ "." +:+ ext
  | None => path +:+ "." +:+ ext
  end.
Definition tmp_of (path : string) : string := with_extension "json.tmp" path.

(** [serde_json::to_vec_pretty] and [from_slice]. *)
Class JsonCodec (A : Type) := {
  to_vec_pretty : A -> option bytes;
  from_slice : bytes -> option A;
  from_to_vec a b : to_vec_pretty a = Some b -> from_slice b = Some a }.

Inductive IoError := DirError | JsonError | WriteError | RenameError | ReadError.

(** ** Saving *)

(** How far a call gets: a call of the system fails, or the process dies. [n] is how much of
    the body is in the temporary file by then. *)
Inductive SaveEnd :=
| DirFails
| WriteFails (n : nat)
| RenameFails
| DiesBeforeWrite
| DiesWriting (n : nat)
| DiesBeforeRename
| Renames.

Section Store.
Context {A : Type} `{JsonCodec A}.

(** The files then, and what the caller is told, if it still lives. *)
Definition save_json (path : string) (value : A) (how : SaveEnd) (fs : Files) : Files * option (result IoError unit) :=
  match how with
  | DirFails => (fs, Some (Err DirError))
  | _ =>
      match to_vec_pretty value with
      | None => (fs, Some (Err JsonError))
      | Some body =>
          match how with
          | DirFails | DiesBeforeWrite => (fs, None)
          | WriteFails n => (<[tmp_of path := take n body]> fs, Some (Err WriteError))
          | DiesWriting n => (<[tmp_of path := take n body]> fs, None)
          | RenameFails => (<[tmp_of path := body]> fs, Some (Err RenameError))
          | DiesBeforeRename => (<[tmp_of path := body]> fs, None)
          | Renames => (<[path := body]> (delete (tmp_of path) fs), Some (Ok tt))
          end
      end
  end.

(** [readable]: whether the file system lets the file be read. *)
Definition load_json (path : string) (readable : bool) (fs : Files) : result IoError (option A) :=
  if readable then
    match fs !! path with
    | None => Ok None
    | Some b => match from_slice b with Some a => Ok (Some a) | None => Err JsonError end
    end
  else Err ReadError.

(** ** What a restart finds *)

Lemma rsplit_once_app c s p q : rsplit_once c s = Some (p, q) -> s = p +:+ String c q.
Proof.
  revert p q. induction s as [|a s IH]; intros p q; cbn; [done|]. destruct (rsplit_once c s) as [[p' q']|].
  - intros [= <- <-]. by rewrite (IH p' q' eq_refl).
  - destruct (Ascii.eqb_spec a c) as [->|]; [by intros [= <- <-]|done].
Qed.

(** The temporary file of a [.json] file is another file, and no [.json] file. *)
Lemma rsplit_json stem : rsplit_once "." (stem +:+ ".json") = Some (stem, "json"%string).
Proof. induction stem as [|a s IH]; [done|]. simpl. by rewrite IH. Qed.
Lemma tmp_of_json stem : exists other, tmp_of (stem +:+ ".json") = other +:+ ".json.tmp".
Proof. unfold tmp_of, with_extension. rewrite rsplit_json. cbn [has_char orb]. destruct (_ || _); eauto. Qed.
Lemma str_app_inj_r (p q s : string) : p +:+ s = q +:+ s -> p = q.
Proof.
  intros E. assert (Hl : String.length p = String.length q).
  { apply (f_equal String.length) in E. rewrite !str_length_app in E. lia. }
  revert q E Hl. induction p as [|a p IH]; intros [|b q] E Hl; try done. injection E as -> E. f_equal. apply IH; [done|]. by injection Hl.
Qed.
Lemma json_not_tmp stem other : stem +:+ ".json" <> other +:+ ".json.tmp".
Proof.
  intros E. assert (Hs : (stem +:+ ".jso") +:+ "n" = (other +:+ ".json.tm") +:+ "p") by (rewrite !str_app_assoc; exact E).
  assert (Hl : String.length (stem +:+ ".jso") = String.length (other +:+ ".json.tm")).
  { apply (f_equal String.length) in Hs. rewrite !str_length_app in Hs. rewrite !str_length_app. cbn in *. lia. }
  revert Hs Hl. generalize (stem +:+ ".jso") as p. generalize (other +:+ ".json.tm") as q. clear.
  intros q p. revert q. induction p as [|a p IH]; intros [|b q] E Hl; try done. injection E as -> E. apply (IH q E). by injection Hl.
Qed.

Lemma save_json_spec stem (value : A) how fs body : to_vec_pretty value = Some body ->
  let path := (stem +:+ ".json")%string in
  let '(fs', told) := save_json path value how fs in
  (load_json path true fs' = match how with Renames => Ok (Some value) | _ => load_json path true fs end)
  /\ match told with Some (Ok _) => how = Renames | Some (Err _) => how <> Renames | None => how <> Renames end
  /\ (forall other, other <> stem -> fs' !! (other +:+ ".json") = fs !! (other +:+ ".json")).
Proof.
  intros Hb path. destruct (tmp_of_json stem) as [t Htmp]. fold path in Htmp.
  assert (Hne : forall s, tmp_of path <> s +:+ ".json") by (intros s E; rewrite Htmp in E; symmetry in E; by apply json_not_tmp in E).
  assert (Hload : forall b, load_json path true (<[tmp_of path := b]> fs) = load_json path true fs).
  { intros b. unfold load_json. rewrite (lookup_insert_ne fs (tmp_of path) path b); [done|]. apply Hne. }
  destruct how as [|n| | |n| |]; unfold save_json; rewrite ?Hb; (split; [|split; [done|]]); try apply Hload; try done;
    try (intros other _; by rewrite lookup_insert_ne by apply Hne).
  - unfold load_json. rewrite lookup_insert_eq. by rewrite (from_to_vec _ _ Hb).
  - intros other Ho. rewrite lookup_insert_ne.
    + by rewrite lookup_delete_ne by apply Hne.
    + intros E. apply str_app_inj_r in E. done.
Qed.

(** C24: a save is atomic.  Wherever it fails or the process dies in it, what is read back
    is the value before or the new one, whole, and the new one exactly when the file was
    renamed; a caller that is told the save worked has the new value on disk, one that is
    told it failed has the old one; and no other file of the console is touched. *)
Theorem save_json_atomic stem (value : A) how fs body : to_vec_pretty value = Some body ->
  let path := (stem +:+ ".json")%string in
  let '(fs', told) := save_json path value how fs in
  (load_json path true fs' = match how with Renames => Ok (Some value) | _ => load_json path true fs end)
  /\ match told with Some (Ok _) => how = Renames | Some (Err _) => how <> Renames | None => how <> Renames end
  /\ (forall other, other <> stem -> fs' !! (other +:+ ".json") = fs !! (other +:+ ".json")).
Proof. apply save_json_spec. Qed.

(** A leftover temporary file of an earlier death does not matter: the next save ends the
    same. *)
Lemma save_ignores_leftover stem (value : A) body b fs : to_vec_pretty value = Some body ->
  let path := (stem +:+ ".json")%string in
  fst (save_json path value Renames (<[tmp_of path := b]> fs)) = fst (save_json path value Renames fs).
Proof. intros Hb path. unfold save_json. rewrite Hb. cbn [fst]. f_equal. apply map_eq. intros k.
  destruct (decide (k = tmp_of path)) as [->|Hk]; [by rewrite !lookup_delete_eq|].
  by rewrite !lookup_delete_ne, lookup_insert_ne by done.
Qed.
End Store.

(** ** The files behind the token table and the node list *)

Definition saves (how : SaveEnd) : bool := match how with Renames => true | _ => false end.

(** The file read back is what the model calls the disk. *)
Definition on_file {A} `{JsonCodec A} (stem : string) (d : option A) (fs : Files) : Prop :=
  load_json (stem +:+ ".json") true fs = Ok d.

Section Behind.
Context `{JsonCodec TokensFile} `{JsonCodec NodesFile}.
Variables (tokens_stem nodes_stem : string).

Lemma save_on_file {A} `{JsonCodec A} stem (d : option A) value body how fs : to_vec_pretty value = Some body -> on_file stem d fs ->
  on_file stem (if saves how then Some value else d) (fst (save_json (stem +:+ ".json") value how fs)).
Proof.
  intros Hb Hd. unfold on_file in *. pose proof (save_json_spec stem value how fs body Hb) as Hs. cbv zeta in Hs.
  destruct (save_json _ _ _ _) as [fs' told]. destruct Hs as (Hl & _). cbn [fst]. rewrite Hl. by destruct how.
Qed.

(** [TokenStore::mutate], its write ending as [how] says. *)
Definition mutate_on_files (f : list Token -> list Token * bool) (how : SaveEnd) (x : TokenStore * Files) : TokenStore * Files :=
  let s' := snd (mutate f (saves how) (fst x)) in
  (s', if snd (f (tokens (inner (fst x)))) then fst (save_json (tokens_stem +:+ ".json") (inner s') how (snd x)) else snd x).
(** [Registry::persist] of a registry that was changed. *)
Definition persist_on_files (how : SaveEnd) (x : Registry * Files) : Registry * Files :=
  (snd (persist (saves how) (fst x)),
   fst (save_json (nodes_stem +:+ ".json") {| file_nodes := admin (fst x); file_settings := settings (fst x) |} how (snd x))).

(** So the disk of [Tokens] and [Registry] is the file, whatever happens to each write, and a
    restart opens what they say. *)
Lemma tokens_on_file f how s fs : (forall v : TokensFile, is_Some (to_vec_pretty v)) -> on_file tokens_stem (Tokens.disk s) fs ->
  on_file tokens_stem (Tokens.disk (fst (mutate_on_files f how (s, fs)))) (snd (mutate_on_files f how (s, fs))).
Proof.
  intros Hv Hd. unfold mutate_on_files, mutate. cbn [fst snd]. destruct (f (tokens (inner s))) as [ts []]; cbn [fst snd Tokens.disk]; [|done].
  destruct (Hv {| version := u64_add (version (inner s)) 1; tokens := ts |}) as [body Hb].
  pose proof (save_on_file tokens_stem (Tokens.disk s) _ body how fs Hb Hd) as Hs. by destruct (saves how).
Qed.

Lemma registry_on_file how r fs : (forall v : NodesFile, is_Some (to_vec_pretty v)) -> on_file nodes_stem (Registry.disk r) fs ->
  on_file nodes_stem (Registry.disk (fst (persist_on_files how (r, fs)))) (snd (persist_on_files how (r, fs))).
Proof.
  intros Hv Hd. unfold persist_on_files, persist. cbn [fst snd].
  destruct (Hv {| file_nodes := admin r; file_settings := settings r |}) as [body Hb].
  pose proof (save_on_file nodes_stem (Registry.disk r) _ body how fs Hb Hd) as Hs. by destruct (saves how).
Qed.
End Behind.

(** ** A file *)

Module StoreSample.
(** Numbers as their digits. *)
#[local] Instance number_codec : JsonCodec Z.
Proof.
  refine {| to_vec_pretty := fun z => if bool_decide (parse_u64 (fmt_u64 z) = Some z) then Some (bytes_of_str (fmt_u64 z)) else None;
            from_slice := fun b => parse_u64 (str_of_bytes b) |}.
  intros a b. case_bool_decide as E; [|done]. intros [= <-]. by rewrite str_of_bytes_of_str.
Defined.

(** A death in the middle of the write leaves the old value, and half of the new one in a
    file nobody reads. *)
Lemma save_json_atomic_witness :
  let fs := fst (save_json "data/x.json" 12 Renames (∅ : Files)) in
  let fs' := fst (save_json "data/x.json" 4567 (DiesWriting 2) fs) in
  load_json "data/x.json" true fs' = Ok (Some 12) /\ fs' !! "data/x.json.tmp"%string = Some (bytes_of_str "45").
Proof.
  intros fs fs'. split; [|vm_compute; reflexivity].
  assert (Hb : to_vec_pretty 4567 = Some (bytes_of_str "4567")) by (vm_compute; reflexivity).
  pose proof (save_json_atomic "data/x" 4567 (DiesWriting 2) fs _ Hb) as Hs. cbv zeta in Hs.
  destruct (save_json _ 4567 _ fs) as [fs1 told] eqn:E. destruct Hs as [Hl _].
  assert (E1 : fs' = fs1) by done. rewrite E1.
  etransitivity; [exact Hl|]. vm_compute. reflexivity.
Defined.
End StoreSample.
