(* ===== verification/Savers.v ===== *)
(** * Savers: writing beside a file and renaming ([src/storage.rs])

    [save_catalog], [atomic_write] and the journal's [rewrite] all create a temporary file,
    write it in pieces and rename it over the file they replace.  Here a file system has
    names and inodes, a writer its descriptor and position, and any number of writers run
    side by side; a state is also what a killed process leaves behind.  That files are old or
    new, whole, which [Storage], [CatalogSync] and [ForfeitFeed] take for granted, holds as
    long as no two writers share a temporary file. *)
From S2P Require Import Prelude Model WireFrame Channel Events Calldata Hubs Category Catalog Storage EdgeHub Tokens EdgeServer Registry Store.

(** ** Names of temporary files *)

(** [temporary_path]: [.tmp] behind the extension, [bin] if there is none. *)
Definition extension (path : string) : option string :=
  '(stem, old) ← rsplit_once "." path; if has_char "/" old || no_stem stem then None else Some old.
Definition temporary_path (path : string) : string := with_extension (default "bin"%string (extension path) +:+ ".tmp") path.

Example temporary_paths : map temporary_path ["d/catalog.bin"; "d/events.wal"; "d/uma.cursor"; "d.x/noext"; "d/.hidden"]%string
  = ["d/catalog.bin.tmp"; "d/events.wal.tmp"; "d/uma.cursor.tmp"; "d.x/noext.bin.tmp"; "d/.hidden.bin.tmp"]%string.
Proof. reflexivity. Qed.

(** ** A file system *)

Record Fs := { names : gmap string nat; inodes : gmap nat bytes; fresh_inode : nat }.

Definition read_file (path : string) (fs : Fs) : option bytes := i ← names fs !! path; inodes fs !! i.

(** [File::create]: an existing file is emptied. *)
Definition create_file (path : string) (fs : Fs) : nat * Fs :=
  match names fs !! path with
  | Some i => (i, {| names := names fs; inodes := <[i := []]> (inodes fs); fresh_inode := fresh_inode fs |})
  | None => (fresh_inode fs, {| names := <[path := fresh_inode fs]> (names fs); inodes := <[fresh_inode fs := []]> (inodes fs);
                                fresh_inode := S (fresh_inode fs) |})
  end.
(** A write at a position; a gap before it reads as zeros. *)
Definition overwrite (at_ : nat) (b old : bytes) : bytes :=
  take at_ (old ++ replicate (at_ - length old) x00) ++ b ++ drop (at_ + length b) old.
Definition write_inode (i at_ : nat) (b : bytes) (fs : Fs) : Fs :=
  {| names := names fs; inodes := <[i := overwrite at_ b (default [] (inodes fs !! i))]> (inodes fs); fresh_inode := fresh_inode fs |}.
Definition rename_file (from to : string) (fs : Fs) : option Fs :=
  i ← names fs !! from; Some {| names := <[to := i]> (delete from (names fs)); inodes := inodes fs; fresh_inode := fresh_inode fs |}.

(** ** Writers *)

Record Saver := { temp : string; goal : string; content : bytes }.
Inductive Phase := Idle | Writing (fd pos : nat) | Finished (ok : bool).

(** What a writer does next, a write being of [n] bytes at most; or a call of it fails. *)
Inductive Move := Goes (n : nat) | Errs.

Definition saver_step (s : Saver) (m : Move) (p : Phase) (fs : Fs) : Phase * Fs :=
  match p, m with
  | Finished _, _ => (p, fs)
  | _, Errs => (Finished false, fs)
  | Idle, Goes _ => let '(fd, fs) := create_file (temp s) fs in (Writing fd 0, fs)
  | Writing fd pos, Goes n =>
      if (pos <? length (content s))%nat then
        let b := take n (drop pos (content s)) in (Writing fd (pos + length b), write_inode fd pos b fs)
      else match rename_file (temp s) (goal s) fs with Some fs => (Finished true, fs) | None => (Finished false, fs) end
  end.

Fixpoint savers_run (savers : list Saver) (moves : list (nat * Move)) (ps : list Phase) (fs : Fs) : list Phase * Fs :=
  match moves with
  | [] => (ps, fs)
  | (i, m) :: moves =>
      match savers !! i, ps !! i with
      | Some s, Some p => let '(p, fs) := saver_step s m p fs in savers_run savers moves (<[i := p]> ps) fs
      | _, _ => savers_run savers moves ps fs
      end
  end.

Lemma overwrite_append c pos n : (pos <= length c)%nat -> let b := take n (drop pos c) in
  overwrite pos b (take pos c) = take (pos + length b) c /\ (pos + length b <= length c)%nat.
Proof.
  intros Hp b. assert (Hl : length (take pos c) = pos) by (rewrite length_take; lia).
  assert (Hb : (length b <= length c - pos)%nat) by (unfold b; rewrite length_take, length_drop; lia).
  unfold overwrite. rewrite Hl, Nat.sub_diag, app_nil_r, take_take, Nat.min_id, (drop_ge (take pos c)), app_nil_r by lia. split; [|lia].
  unfold b. rewrite length_take, length_drop. rewrite <- (take_drop pos c) at 4.
  rewrite take_app, Hl, take_take, (Nat.min_r _ pos) by lia. f_equal. replace (pos + n `min` (length c - pos) - pos)%nat with (n `min` (length c - pos))%nat by lia.
  destruct (Nat.le_ge_cases n (length c - pos)); [by rewrite Nat.min_l by lia|]. rewrite Nat.min_r by lia.
  by rewrite !take_ge by (rewrite length_drop; lia).
Qed.

Section Savers.
Variable savers : list Saver.
(** No temporary file is another's, or a file that is replaced. *)
Hypothesis temps_distinct : NoDup (map temp savers).
Hypothesis temps_apart : forall s s', s ∈ savers -> s' ∈ savers -> temp s <> goal s'.

(** Every file has its own name. *)
Record fs_ok (fs : Fs) : Prop := {
  own_name : forall p q i, names fs !! p = Some i -> names fs !! q = Some i -> p = q;
  inode_known : forall p i, names fs !! p = Some i -> (i < fresh_inode fs)%nat }.

Record writing_ok (s : Saver) (p : Phase) (fs : Fs) : Prop := {
  wr_fd : forall fd pos, p = Writing fd pos ->
    names fs !! temp s = Some fd /\ inodes fs !! fd = Some (take pos (content s)) /\ (pos <= length (content s))%nat }.

(** What a file may hold: what it held at the start, or all of what a writer that is done
    was given for it. *)
Definition whole (fs0 : Fs) (ps : list Phase) (path : string) (now : option bytes) : Prop :=
  now = read_file path fs0 \/ exists i s, savers !! i = Some s /\ goal s = path /\ ps !! i = Some (Finished true) /\ now = Some (content s).

Record savers_ok (fs0 : Fs) (ps : list Phase) (fs : Fs) : Prop := {
  so_fs : fs_ok fs;
  so_writing : forall i s p, savers !! i = Some s -> ps !! i = Some p -> writing_ok s p fs;
  so_files : forall path, (forall s, s ∈ savers -> temp s <> path) -> whole fs0 ps path (read_file path fs) }.

Lemma temp_inj i j s s' : savers !! i = Some s -> savers !! j = Some s' -> temp s = temp s' -> i = j.
Proof.
  intros Hi Hj E. apply (NoDup_lookup (map temp savers) i j (temp s)); [done| |rewrite E]; rewrite list_lookup_fmap; [by rewrite Hi|by rewrite Hj].
Qed.

(** Writing the inode of one name leaves every other name's content as it was. *)
Lemma inode_unshared fs p i q k b : fs_ok fs -> names fs !! p = Some i -> names fs !! q = Some k -> q <> p ->
  <[i := b]> (inodes fs) !! k = inodes fs !! k.
Proof. intros [F _] Hp Hq Hne. apply lookup_insert_ne. intros ->. by apply Hne, (F q p k). Qed.

Lemma read_unshared fs p i q b n : fs_ok fs -> names fs !! p = Some i -> q <> p ->
  read_file q {| names := names fs; inodes := <[i := b]> (inodes fs); fresh_inode := n |} = read_file q fs.
Proof.
  intros Hok Hp Hne. unfold read_file. cbn. destruct (names fs !! q) as [k|] eqn:Ek; [|done]. cbn. by eapply inode_unshared.
Qed.

(** Only a writer's own step changes what its temporary file is. *)
Lemma step_names i s m p fs0 ps fs : savers !! i = Some s -> ps !! i = Some p -> savers_ok fs0 ps fs ->
  let '(p', fs') := saver_step s m p fs in
  fs_ok fs' /\ writing_ok s p' fs'
  /\ (forall q, q <> temp s -> q <> goal s -> names fs' !! q = names fs !! q /\ read_file q fs' = read_file q fs)
  /\ (forall q fd, names fs !! q = Some fd -> q <> temp s -> inodes fs' !! fd = inodes fs !! fd)
  /\ (read_file (goal s) fs' = read_file (goal s) fs \/ p' = Finished true /\ read_file (goal s) fs' = Some (content s))
  /\ (forall b, p = Finished b -> p' = p).
Proof.
  intros Hs Hp [[F1 F2] Hw _]. destruct (Hw i s p Hs Hp) as [W]. assert (Hin : s ∈ savers) by (by eapply list_elem_of_lookup_2).
  assert (Hsg : temp s <> goal s) by (by apply temps_apart).
  assert (Hsame : fs_ok fs) by (by split).
  destruct p as [|fd pos|ok]; cbn [saver_step].
  - destruct m as [n|]; [|split_and!; first [done|by split; congruence|by left]]. unfold create_file.
    destruct (names fs !! temp s) as [j|] eqn:Ej.
    + split_and!; cbn.
      * by split.
      * split. intros fd pos [= <- <-]. cbn. rewrite Ej, lookup_insert_eq. split_and!; [done|done|lia].
      * intros q Hq _. split; [done|]. by eapply read_unshared.
      * intros q k Hk Hq. by eapply inode_unshared.
      * left. by eapply read_unshared; [| |apply not_eq_sym].
      * done.
    + assert (Hnew : forall q k, names fs !! q = Some k -> k <> fresh_inode fs) by (intros q k Hk; specialize (F2 _ _ Hk); lia).
      split_and!; cbn.
      * split; cbn.
        -- intros p q k. rewrite !lookup_insert_Some. intros [[<- <-]|[? Hpk]] [[<- Eq]|[? Hqk]]; [done|by destruct (Hnew _ _ Hqk)|by destruct (Hnew _ _ Hpk)|by eapply F1].
        -- intros p k. rewrite lookup_insert_Some. intros [[<- <-]|[_ Hk]]; [lia|]. specialize (F2 _ _ Hk). lia.
      * split. intros fd pos [= <- <-]. cbn. rewrite !lookup_insert_eq. split_and!; [done|done|lia].
      * intros q Hq _. rewrite lookup_insert_ne by done. split; [done|]. unfold read_file. cbn. rewrite lookup_insert_ne by done.
        destruct (names fs !! q) as [k|] eqn:Ek; [|done]. cbn. rewrite lookup_insert_ne; [done|]. by apply not_eq_sym, (Hnew q).
      * intros q k Hk _. rewrite lookup_insert_ne; [done|]. by apply not_eq_sym, (Hnew q).
      * left. unfold read_file. cbn. rewrite lookup_insert_ne by done. destruct (names fs !! goal s) as [k|] eqn:Ek; [|done]. cbn.
        rewrite lookup_insert_ne; [done|]. by apply not_eq_sym, (Hnew (goal s)).
      * done.
  - destruct (W fd pos eq_refl) as (W1 & W2 & W3). destruct m as [n|]; [|split_and!; first [done|by split; congruence|by left]].
    destruct (pos <? length (content s))%nat eqn:El.
    + destruct (overwrite_append (content s) pos n W3) as [O1 O2]. cbv zeta. split_and!; cbn.
      * by split.
      * split. intros fd' pos' [= <- <-]. cbn. rewrite lookup_insert_eq, W2. cbn [from_option Datatypes.id]. cbv zeta in O1. rewrite O1. by split_and!.
      * intros q Hq _. split; [done|]. by eapply read_unshared.
      * intros q k Hk Hq. by eapply inode_unshared.
      * left. by eapply read_unshared; [| |apply not_eq_sym].
      * done.
    + apply Nat.ltb_ge in El. unfold rename_file. rewrite W1. cbn. split_and!; cbn.
      * split; cbn.
        -- intros p q k. rewrite !lookup_insert_Some, !lookup_delete_Some.
           intros [[<- <-]|(? & Hp1 & Hpk)] [[<- Eq]|(? & Hq1 & Hqk)]; [done|destruct Hq1; by eapply F1|subst k; destruct Hp1; by eapply F1|by eapply F1].
        -- intros p k. rewrite lookup_insert_Some, lookup_delete_Some. intros [[<- <-]|(_ & _ & Hk)]; by eapply F2.
      * split. congruence.
      * intros q Hq Hg. unfold read_file. cbn. by rewrite !(lookup_insert_ne _ (goal s) q), (lookup_delete_ne _ (temp s) q) by congruence.
      * done.
      * right. split; [done|]. unfold read_file. cbn. rewrite lookup_insert_eq. cbn. rewrite W2. by rewrite take_ge by lia.
      * done.
  - destruct m; split_and!; try done; by left.
Qed.

Lemma step_savers_ok i s m p fs0 ps fs : savers !! i = Some s -> ps !! i = Some p -> savers_ok fs0 ps fs ->
  let '(p', fs') := saver_step s m p fs in savers_ok fs0 (<[i := p']> ps) fs'.
Proof.
  intros Hs Hp Hok. pose proof (step_names i s m p fs0 ps fs Hs Hp Hok) as Hst. destruct (saver_step s m p fs) as [p' fs'].
  destruct Hst as (N1 & N2 & N3 & N4 & N5 & N6). destruct Hok as [_ Hw Hf]. assert (Hin : s ∈ savers) by (by eapply list_elem_of_lookup_2).
  assert (Hi : (i < length ps)%nat) by (by eapply lookup_lt_Some). split; [done| |].
  - intros j s' q Hj Hq. apply list_lookup_insert_Some in Hq as [(<- & <- & _)|(Hne & Hq)]; [rewrite Hs in Hj; by injection Hj as <-|].
    destruct (Hw j s' q Hj Hq) as [W]. split. intros fd pos E. destruct (W fd pos E) as (W1 & W2 & W3).
    assert (Ht : temp s' <> temp s) by (intros Et; apply Hne; symmetry; by eapply temp_inj).
    assert (Hg : temp s' <> goal s) by (apply temps_apart; [by eapply list_elem_of_lookup_2|done]).
    destruct (N3 (temp s') Ht Hg) as [E1 _]. split_and!; [by rewrite E1|rewrite (N4 (temp s') fd W1 Ht); done|done].
  - intros path Hpath. assert (Hkeep : whole fs0 ps path (read_file path fs) -> whole fs0 (<[i := p']> ps) path (read_file path fs)).
    { intros [?|(j & s' & Hj & Hg & Hd & Hc)]; [by left|right]. exists j, s'. split_and!; [done|done| |done].
      destruct (decide (i = j)) as [<-|Hne]; [|by rewrite list_lookup_insert_ne]. rewrite list_lookup_insert_eq by done. f_equal.
      rewrite Hp in Hd. injection Hd as ->. by eapply N6. }
    destruct (decide (path = goal s)) as [->|Hne].
    + destruct N5 as [->|[-> Hc]]; [auto|]. right. exists i, s. rewrite list_lookup_insert_eq by done. done.
    + destruct (N3 path (not_eq_sym (Hpath s Hin)) Hne) as [_ ->]. auto.
Qed.

(** C25: files are replaced whole.  However any number of writers interleave their calls,
    where any of them fails, and wherever the process is killed: a file that is not a
    temporary one holds what it held at the start, or all of what a writer that has finished
    was given for it. *)
Theorem saves_are_whole moves fs0 : fs_ok fs0 ->
  let '(ps, fs) := savers_run savers moves (map (fun _ => Idle) savers) fs0 in
  forall path, (forall s, s ∈ savers -> temp s <> path) -> whole fs0 ps path (read_file path fs).
Proof.
  intros H0. assert (Hok : savers_ok fs0 (map (fun _ => Idle) savers) fs0).
  { split; [done| |by left]. intros i s p Hs Hp. rewrite list_lookup_fmap, Hs in Hp. injection Hp as <-. split. intros. congruence. }
  revert Hok. generalize (map (fun _ : Saver => Idle) savers) as ps. generalize fs0 at 2 3 as fs.
  induction moves as [|[i m] moves IH]; intros fs ps Hok; cbn [savers_run]; [apply Hok|].
  destruct (savers !! i) as [s|] eqn:Es; [|by apply IH]. destruct (ps !! i) as [p|] eqn:Ep; [|by apply IH].
  pose proof (step_savers_ok i s m p fs0 ps fs Es Ep Hok) as Hst. destruct (saver_step s m p fs) as [p' fs']. by apply IH.
Qed.
End Savers.

(** ** Two writers *)

Module SaversSample.
#[local] Instance numbers : WireNumbers := sample_numbers.
Definition market (i : Z) : MarketEnrichment :=
  {| market_id := i; condition_id := replicate 32 x05; token_ids := []; tag_ids := []; category := Category_Other;
     bet_type := Bet_Unspecified; neg_risk := false |}.
Definition catalog_file (ms : list MarketEnrichment) : bytes := default [] (catalog_bin (snd (save_catalog ms (files_with_wal [])))).
Definition saves_catalog (ms : list MarketEnrichment) : Saver :=
  {| temp := temporary_path "d/catalog.bin"; goal := "d/catalog.bin"; content := catalog_file ms |}.
Definition saves_cursor : Saver := {| temp := temporary_path "d/uma.cursor"; goal := "d/uma.cursor"; content := bytes_of_str "12345" |}.
Definition disk0 : Fs :=
  {| names := {["d/catalog.bin"%string := 0%nat]}; inodes := {[0%nat := catalog_file [market 1]]}; fresh_inode := 1 |}.
Definition loaded (fs : Fs) : option (list Z) :=
  match load_catalog {| catalog_bin := read_file "d/catalog.bin" fs; events_wal := None; enrichment_cursor := None; closed_cursor := None; uma_cursor := None |} with
  | (Ok ms, _) => Some (map market_id ms)
  | (Err _, _) => None
  end.
Definition alternate (i j : nat) : list (nat * Move) :=
  [(i, Goes 0); (i, Goes 9); (j, Goes 0); (j, Goes 4); (i, Goes 1000); (i, Goes 0)].

(** The synchronisation pass and the reconciliation write the catalog at the same time: both
    have the same temporary file, and what is renamed is no catalog; the next start fails on
    it. *)
Example shared_temporary_file :
  let two := [saves_catalog [market 1; market 2]; saves_catalog [market 1; market 2; market 3]] in
  let '(ps, fs) := savers_run two (alternate 0 1) [Idle; Idle] disk0 in
  ps !! 0%nat = Some (Finished true) /\ loaded disk0 = Some [1] /\ loaded fs = None.
Proof. vm_compute. done. Qed.

Lemma saves_are_whole_witness :
  let two := [saves_catalog [market 1; market 2]; saves_cursor] in
  let '(ps, fs) := savers_run two (alternate 0 1) (map (fun _ => Idle) two) disk0 in
  whole two disk0 ps "d/catalog.bin" (read_file "d/catalog.bin" fs).
Proof.
  intros two.
  assert (Hnd : NoDup (map temp two)) by (apply (bool_decide_unpack _); vm_compute; exact I).
  assert (Hap : forall s s', s ∈ two -> s' ∈ two -> temp s <> goal s').
  { intros s s' Hs Hs'. repeat (apply elem_of_cons in Hs as [->|Hs]; [|]); [| |by apply not_elem_of_nil in Hs];
      (repeat (apply elem_of_cons in Hs' as [->|Hs']; [|]); [discriminate|discriminate|by apply not_elem_of_nil in Hs']). }
  assert (Hfs : fs_ok disk0).
  { split; cbn.
    - intros p q i. rewrite !lookup_singleton_Some. intros [<- _] [<- _]. done.
    - intros p i. rewrite lookup_singleton_Some. intros [_ <-]. lia. }
  pose proof (saves_are_whole two Hnd Hap (alternate 0 1) disk0 Hfs) as Hw. destruct (savers_run _ _ _ _) as [ps fs]. apply Hw.
  intros s Hs. repeat (apply elem_of_cons in Hs as [->|Hs]; [discriminate|]). by apply not_elem_of_nil in Hs.
Defined.
End SaversSample.
