(* ===== verification/ConsoleServer.v ===== *)
(** * ConsoleServer: the console's HTTP handlers ([src/console/server.rs]) and a
    heartbeat round between an edge and the console ([src/edge/heartbeat.rs])

    A handler is a function of the request and the console's state.  Routing, the JSON
    text and the framework's own rejections (a body that does not parse) are axum's and
    serde's; the success of a file write is an input. *)
From S2P Require Import Prelude Channel Tokens EdgeHub EdgeServer Registry.

(** ** State, requests and replies *)

Record ConsoleConfig := {
  node_token : string;
  console_admin_token : string;
  panel_token : string;
  list_ttl_seconds : Z }.

Record ConsoleState := {
  console_config : ConsoleConfig;
  registry : Registry;
  token_store : TokenStore }.

Definition with_registry (r : Registry) (st : ConsoleState) : ConsoleState :=
  {| console_config := console_config st; registry := r; token_store := token_store st |}.
Definition with_store (s : TokenStore) (st : ConsoleState) : ConsoleState :=
  {| console_config := console_config st; registry := registry st; token_store := s |}.

(** What a call brings besides its own arguments. *)
Record Call := { call_headers : Headers; call_peer : string; call_now : Z; call_saves : bool }.

Record ApiError := { status : Z; message : string }.
Definition bad (m : string) : ApiError := {| status := 400; message := m |}.
Definition not_found (m : string) : ApiError := {| status := 404; message := m |}.
Definition conflict (m : string) : ApiError := {| status := 409; message := m |}.
(** [From<io::Error>] *)
Definition persistence_failed : ApiError := {| status := 500; message := "persistence failed" |}.
Definition unauthorized : ApiError := {| status := 401; message := "unauthorized" |}.
Definition forbidden : ApiError := {| status := 403; message := "invalid or missing token" |}.

Record TokenUsage := { usage_token : TokenView; usage_clients : Z; usage_nodes : gmap string Z }.
Record Health := { serving_nodes : Z; known_nodes : Z }.
Record Panel := {
  panel_nodes : list NodeView;
  panel_tokens : list TokenUsage;
  panel_stale_after_ms : Z;
  panel_settings : Settings;
  panel_console : Health }.

Inductive reply :=
| ReplyOk
| ReplyDirective (d : Directive)
| ReplyNodes (l : list NodeView)
| ReplyPending (id : string) (count : Z)
| ReplySettings (s : Settings)
| ReplyTokens (version : Z) (l : list TokenView)
| ReplyCreated (t : Token) (version : Z)
| ReplyVersion (version : Z)
| ReplyPanel (p : Panel).

Abbreviation answer := (result ApiError reply).

Definition require_bearer (h : Headers) (expected : string) : bool :=
  negb (String.eqb expected "")
  && bool_decide ((v ← authorization h; option_map trim (strip_prefix "Bearer " v)) = Some expected).

(** [require_bearer(..)?] and the rest of the handler *)
Definition guarded (h : Headers) (expected : string) (k : ConsoleState -> answer * ConsoleState) (st : ConsoleState)
  : answer * ConsoleState :=
  if require_bearer h expected then k st else (Err unauthorized, st).

(** [?] on an [io::Result<bool>], then the 404 of an unknown name *)
Definition known_or (msg : string) (ok : ConsoleState -> reply) (res : result unit bool) (st : ConsoleState) : answer * ConsoleState :=
  (match res with
   | Err _ => Err persistence_failed
   | Ok false => Err (not_found msg)
   | Ok true => Ok (ok st)
   end, st).

Section Console.
Variable values : gmap string Node -> list Node.
Variable take_chars : nat -> string -> string.

(** ** Heartbeats *)

Definition directive_of (o : HeartbeatOutcome) (edge_version : Z) (s : TokenStore) : Directive :=
  let '(v, gs) := grants s in
  {| drain := out_desired_drain o; dir_drain_batch := 0; drain_interval_ms := 0; heartbeat_seconds := 0;
     dir_release := out_release o; tokens_version := v;
     dir_tokens := if edge_version =? v then None else Some gs |}.

(** [body] is [None] when the JSON does not parse. *)
Definition heartbeat_handler (c : Call) (body : option Heartbeat) (st : ConsoleState) : answer * ConsoleState :=
  guarded (call_headers c) (node_token (console_config st)) (fun st =>
    match body with
    | None => (Err (bad "invalid heartbeat json"), st)
    | Some hb =>
        if String.eqb (trim (hb_node_id hb)) "" then (Err (bad "node_id is required"), st) else
        let ip := EdgeServer.remote_ip (call_headers c) (call_peer c) in
        let '(o, r) := heartbeat values hb ip (call_now c) (registry st) in
        (Ok (ReplyDirective (directive_of o (hb_tokens_version hb) (token_store st))), with_registry r st)
    end) st.

(** ** Panel *)

(** [usage.entry(token_id).or_default()]: the total and the count per node. *)
Definition add_usage (node : string) (m : gmap string (Z * gmap string Z)) (e : string * Z) : gmap string (Z * gmap string Z) :=
  let '(total, by_node) := default (0, ∅) (m !! fst e) in
  <[fst e := (u64_add total (snd e), <[node := snd e]> by_node)]> m.
Definition usage_of (views : list NodeView) : gmap string (Z * gmap string Z) :=
  foldl (fun m v => foldl (add_usage (node_name (view_node v))) m (map_to_list (hb_clients_by_token (heartbeat_of (view_node v))))) ∅ views.

(** [usage.remove(&token.id).unwrap_or_default()] *)
Fixpoint token_usage (m : gmap string (Z * gmap string Z)) (ts : list TokenView) : list TokenUsage :=
  match ts with
  | [] => []
  | t :: ts =>
      let '(n, by_node) := default (0, ∅) (m !! view_id t) in
      {| usage_token := t; usage_clients := n; usage_nodes := by_node |} :: token_usage (delete (view_id t) m) ts
  end.

Definition healthz (now : Z) (st : ConsoleState) : Health :=
  let '(s, k) := counts values now (registry st) in {| serving_nodes := s; known_nodes := k |}.

Definition panel (c : Call) (token : option string) (st : ConsoleState) : answer * ConsoleState :=
  if bool_decide (token = Some (panel_token (console_config st))) then
    let views := admin_list values (call_now c) (registry st) in
    (Ok (ReplyPanel {| panel_nodes := views;
                       panel_tokens := token_usage (usage_of views) (list_tokens take_chars (token_store st));
                       panel_stale_after_ms := stale_after_ms (registry st);
                       panel_settings := settings (registry st);
                       panel_console := healthz (call_now c) st |}), st)
  else (Err forbidden, st).

(** ** Managing nodes *)

Definition admin_nodes (c : Call) (st : ConsoleState) : answer * ConsoleState :=
  guarded (call_headers c) (console_admin_token (console_config st))
    (fun st => (Ok (ReplyNodes (admin_list values (call_now c) (registry st))), st)) st.

Definition guarded_action (action : string) : bool :=
  existsb (String.eqb action) ["drain"; "undrain"; "disable"; "enable"; "forget"]%string.

(** The operation an action names; [None] is an unknown one. *)
Definition node_action (action id : string) (saves : bool) (r : Registry) : option (result unit bool * Registry) :=
  if String.eqb action "relay" then Some (set_relay id true saves r)
  else if String.eqb action "unrelay" then Some (set_relay id false saves r)
  else if String.eqb action "drain" then Some (let '(k, r) := Registry.set_drain id true r in (Ok k, r))
  else if String.eqb action "undrain" then Some (let '(k, r) := Registry.set_drain id false r in (Ok k, r))
  else if String.eqb action "disable" then Some (set_disabled id true saves r)
  else if String.eqb action "enable" then Some (set_disabled id false saves r)
  else if String.eqb action "forget" then Some (forget id saves r)
  else None.

Definition admin_node_action (c : Call) (id action : string) (st : ConsoleState) : answer * ConsoleState :=
  guarded (call_headers c) (console_admin_token (console_config st)) (fun st =>
    if guarded_action action && is_relay id (registry st) then (Err (conflict "relay node: unrelay first"), st) else
    match node_action action id (call_saves c) (registry st) with
    | None => (Err (bad "unknown action"), st)
    | Some (res, r) => known_or "unknown node" (fun _ => ReplyOk) res (with_registry r st)
    end) st.

Definition admin_node_release (c : Call) (id : string) (count : Z) (st : ConsoleState) : answer * ConsoleState :=
  guarded (call_headers c) (console_admin_token (console_config st)) (fun st =>
    if 100000 <? count then (Err (bad "count too large"), st)
    else if is_relay id (registry st) then (Err (conflict "relay node: unrelay first"), st)
    else let '(k, r) := request_release id count (registry st) in
         known_or "unknown node" (fun _ => ReplyPending id count) (Ok k) (with_registry r st)) st.

Definition admin_balance (c : Call) (st : ConsoleState) : answer * ConsoleState :=
  guarded (call_headers c) (console_admin_token (console_config st))
    (fun st => (Ok (ReplySettings (settings (registry st))), st)) st.

Definition admin_balance_set (c : Call) (on : bool) (st : ConsoleState) : answer * ConsoleState :=
  guarded (call_headers c) (console_admin_token (console_config st)) (fun st =>
    let '(res, r) := set_auto_balance on (call_saves c) (registry st) in
    (match res with Ok _ => Ok (ReplySettings (settings r)) | Err _ => Err persistence_failed end, with_registry r st)) st.

Definition admin_node_note (c : Call) (id text : string) (st : ConsoleState) : answer * ConsoleState :=
  guarded (call_headers c) (console_admin_token (console_config st)) (fun st =>
    let '(res, r) := set_note id text (call_saves c) (registry st) in
    known_or "unknown node" (fun _ => ReplyOk) res (with_registry r st)) st.

(** ** Managing tokens *)

Definition store_version (st : ConsoleState) : Z := version (inner (token_store st)).

Definition admin_tokens (c : Call) (st : ConsoleState) : answer * ConsoleState :=
  guarded (call_headers c) (console_admin_token (console_config st))
    (fun st => (Ok (ReplyTokens (store_version st) (list_tokens take_chars (token_store st))), st)) st.

(** [new_id] and [new_secret] are the random strings. *)
Definition admin_token_create (c : Call) (name new_id new_secret : string) (st : ConsoleState) : answer * ConsoleState :=
  guarded (call_headers c) (console_admin_token (console_config st)) (fun st =>
    if String.eqb (trim name) "" then (Err (bad "name is required"), st) else
    let '(res, s) := create name new_id new_secret (call_now c) (call_saves c) (token_store st) in
    let st := with_store s st in
    (match res with Ok t => Ok (ReplyCreated t (store_version st)) | Err _ => Err persistence_failed end, st)) st.

Definition admin_token_action (c : Call) (id action : string) (st : ConsoleState) : answer * ConsoleState :=
  guarded (call_headers c) (console_admin_token (console_config st)) (fun st =>
    let run on := let '(res, s) := set_enabled id on (call_now c) (call_saves c) (token_store st) in
                  known_or "unknown token" (fun st => ReplyVersion (store_version st)) res (with_store s st) in
    if String.eqb action "enable" then run true
    else if String.eqb action "disable" then run false
    else (Err (bad "unknown action"), st)) st.

Definition admin_token_rename (c : Call) (id name : string) (st : ConsoleState) : answer * ConsoleState :=
  guarded (call_headers c) (console_admin_token (console_config st)) (fun st =>
    let '(res, s) := rename id name (call_now c) (call_saves c) (token_store st) in
    known_or "unknown token" (fun _ => ReplyOk) res (with_store s st)) st.

Definition admin_token_delete (c : Call) (id : string) (st : ConsoleState) : answer * ConsoleState :=
  guarded (call_headers c) (console_admin_token (console_config st)) (fun st =>
    let '(res, s) := delete_token id (call_saves c) (token_store st) in
    known_or "unknown token" (fun st => ReplyVersion (store_version st)) res (with_store s st)) st.

(** The guarded routes. *)
Inductive console_op :=
| OpHeartbeat (body : option Heartbeat)
| OpNodes
| OpNodeAction (id action : string)
| OpNodeRelease (id : string) (count : Z)
| OpBalance
| OpBalanceSet (on : bool)
| OpNodeNote (id text : string)
| OpTokens
| OpTokenCreate (name new_id new_secret : string)
| OpTokenAction (id action : string)
| OpTokenRename (id name : string)
| OpTokenDelete (id : string).

Definition console_run (c : Call) (op : console_op) : ConsoleState -> answer * ConsoleState :=
  match op with
  | OpHeartbeat body => heartbeat_handler c body
  | OpNodes => admin_nodes c
  | OpNodeAction id action => admin_node_action c id action
  | OpNodeRelease id count => admin_node_release c id count
  | OpBalance => admin_balance c
  | OpBalanceSet on => admin_balance_set c on
  | OpNodeNote id text => admin_node_note c id text
  | OpTokens => admin_tokens c
  | OpTokenCreate name i s => admin_token_create c name i s
  | OpTokenAction id action => admin_token_action c id action
  | OpTokenRename id name => admin_token_rename c id name
  | OpTokenDelete id => admin_token_delete c id
  end.

Definition op_secret (op : console_op) (st : ConsoleState) : string :=
  match op with OpHeartbeat _ => node_token (console_config st) | _ => console_admin_token (console_config st) end.

(** ** Access *)

(** Access.  A request without the bearer token of its route — the node token for a
    heartbeat, the admin token for everything else — is answered 401 and changes
    nothing, and when the configured token is empty every request is such. *)
Theorem unauthorized_inert c op st :
  op_secret op st = "" \/ (forall v r, authorization (call_headers c) = Some v -> strip_prefix "Bearer " v = Some r ->
     trim r <> op_secret op st) ->
  console_run c op st = (Err unauthorized, st).
Proof.
  intros H. assert (Hb : require_bearer (call_headers c) (op_secret op st) = false).
  { unfold require_bearer. destruct H as [->|H]; [done|]. apply andb_false_iff. right. apply bool_decide_eq_false.
    intros E. destruct (authorization (call_headers c)) as [v|] eqn:Ea; [|done].
    rewrite option_bind_Some in E. destruct (strip_prefix "Bearer " v) as [r|] eqn:Er; [|done].
    injection E as E. exact (H v r eq_refl Er E). }
  destruct op; cbn [console_run op_secret] in *; unfold heartbeat_handler, admin_nodes, admin_node_action, admin_node_release,
    admin_balance, admin_balance_set, admin_node_note, admin_tokens, admin_token_create, admin_token_action, admin_token_rename,
    admin_token_delete, guarded; by rewrite Hb.
Qed.

(** Relays.  Whoever asks, a relay is never drained, disabled, enabled, forgotten or
    told to release: the admin request is refused with 409 and changes nothing, and the
    directive its heartbeat gets asks for neither. *)
Theorem relay_protected c st id :
  is_relay id (registry st) = true -> require_bearer (call_headers c) (console_admin_token (console_config st)) = true ->
  (forall action, guarded_action action = true ->
     console_run c (OpNodeAction id action) st = (Err (conflict "relay node: unrelay first"), st))
  /\ (forall count, count <= 100000 ->
     console_run c (OpNodeRelease id count) st = (Err (conflict "relay node: unrelay first"), st))
  /\ (forall c' hb d, hb_node_id hb = id -> fst (console_run c' (OpHeartbeat (Some hb)) st) = Ok (ReplyDirective d) ->
     drain d = false /\ dir_release d = 0).
Proof.
  intros Hr Hb. split; [|split].
  - intros action Ha. cbn [console_run]. unfold admin_node_action, guarded. by rewrite Hb, Ha, Hr.
  - intros count Hc. cbn [console_run]. unfold admin_node_release, guarded. rewrite Hb.
    replace (100000 <? count) with false by lia. by rewrite Hr.
  - intros c' hb d Hid. cbn [console_run]. unfold heartbeat_handler, guarded. destruct (require_bearer (call_headers c') (node_token (console_config st))); [|intros E; discriminate E].
    destruct (String.eqb (trim (hb_node_id hb)) ""); [intros E; discriminate E|]. unfold heartbeat. cbv zeta. destruct (beat _ _ _ _) as [rs nd].
    assert (Hrel : relay (admin_of (with_nodes (<[hb_node_id hb := nd]> (nodes (registry st))) (registry st)) (hb_node_id hb)) = true).
    { rewrite Hid. unfold is_relay in Hr. unfold admin_of. cbn [admin with_nodes]. by destruct (admin (registry st) !! id). }
    rewrite Hrel. cbn [fst]. unfold directive_of. destruct (grants _). by intros [= <-].
Qed.

(** ** A round of an edge's heartbeat *)

Context `{Mpsc Frame}.
Variable iter : gmap Z ClientInfo -> list (Z * ClientInfo).
(** The build's version and commit ([env!]). *)
Variables VERSION COMMIT : string.

Definition build_heartbeat (now : Z) (es : EdgeState) : Heartbeat :=
  let s := stats es in
  let h := edge_hub es in
  let '(ring, capacity) := hub_ring_stats h in
  {| hb_node_id := node_id (config es); hb_version := VERSION; hb_commit := COMMIT; hb_started_at_ms := started_at_ms es;
     hb_sent_at_ms := now; hb_advertise_host := advertise_host (config es); hb_port := advertise_port (config es);
     hb_tls := advertise_tls (config es); hb_path := "/uma/v1/ws"; hb_subprotocol := SUBPROTOCOL;
     hb_ready := negb (draining s) && upstream_connected s; hb_draining := draining s; hb_upstream_url := upstream_url (config es);
     hb_upstream_connected := upstream_connected s; hb_upstream_reconnects_total := upstream_reconnects s;
     hb_last_frame_at_ms := last_frame_at_ms s; hb_frames_total := frames_total s; hb_bytes_total := bytes_total s;
     hb_bad_frames_total := bad_frames_total s; hb_last_event_sequence := stat_last_event_sequence s;
     hb_ring_frames := EdgeHub.count ring; hb_ring_capacity := capacity; hb_upstream_lag_last_us := upstream_lag_last_us s;
     hb_upstream_lag_max_us := upstream_lag_max_us s; hb_clients := clients h; hb_max_clients := max_clients (config es);
     hb_clients_accepted_total := clients_accepted s; hb_clients_rejected_total := clients_rejected s;
     hb_rejected_token_total := rejected_token s; hb_rejected_draining_total := rejected_draining s;
     hb_rejected_full_total := rejected_full s; hb_rejected_subprotocol_total := rejected_subprotocol s;
     hb_rejected_replay_total := rejected_replay s; hb_slow_clients_disconnected_total := slow_clients_disconnected h;
     hb_deliveries_total := deliveries h; hb_fanout_last_us := fanout_last_us h; hb_fanout_max_us := fanout_max_us h;
     hb_tokens_version := set_version (auth es); hb_clients_by_token := clients_by_token iter h |}.

(** One pass of [run_heartbeat]: the request may fail before the console ([Unsent]) or
    after it ([Lost]); a refused one is an error too. *)
Inductive delivery := Unsent | Lost | Delivered.

Definition heartbeat_round (c : Call) (dl : delivery) (interval : Z) (cs : ConsoleState) (es : EdgeState)
  : ConsoleState * EdgeState :=
  match dl with
  | Unsent => (cs, es)
  | Lost => (snd (heartbeat_handler c (Some (build_heartbeat (call_now c) es)) cs), es)
  | Delivered =>
      match heartbeat_handler c (Some (build_heartbeat (call_now c) es)) cs with
      | (Ok (ReplyDirective d), cs) => (cs, snd (apply iter d interval es))
      | (_, cs) => (cs, es)
      end
  end.

(** The life of a console and one edge: requests, and rounds of its heartbeat. *)
Inductive cluster_step :=
| StepConsole (c : Call) (op : console_op)
| StepRound (c : Call) (dl : delivery) (interval : Z).

Definition cluster_run1 (s : ConsoleState * EdgeState) (st : cluster_step) : ConsoleState * EdgeState :=
  match st with
  | StepConsole c op => (snd (console_run c op (fst s)), snd s)
  | StepRound c dl interval => heartbeat_round c dl interval (fst s) (snd s)
  end.
Definition cluster_run := foldl cluster_run1.

(** The edge has an older version than the console, or the console's grants; a set that
    was never received has version 0. *)
Definition token_sync (cs : ConsoleState) (a : TokenSet) : Prop :=
  0 <= set_version a <= store_version cs
  /\ (received_from_console a = false -> set_version a = 0)
  /\ (received_from_console a = true -> set_version a = store_version cs -> console a = grant_map (snd (grants (token_store cs)))).

Lemma apply_auth d interval es : auth (snd (apply iter d interval es)) =
  match dir_tokens d with Some gs => snd (replace (tokens_version d) gs (auth es)) | None => auth es end.
Proof.
  unfold apply. cbv zeta.
  set (st1 := match dir_tokens d with Some _ => _ | None => es end).
  assert (H1 : auth st1 = match dir_tokens d with Some gs => snd (replace (tokens_version d) gs (auth es)) | None => auth es end).
  { unfold st1. destruct (dir_tokens d) as [gs|]; [|done]. destruct (replace _ _ _) as [ch a]. by destruct ch. }
  rewrite <- H1. destruct (0 <? dir_release d), (drain d); cbn [with_hub auth edge_hub stats];
    repeat first [done | destruct (negb _) | unfold cancel_drain; cbn [stats with_hub]; destruct (drain_exits _)].
Qed.

(** A handler changes the token table by at most one version, and the version moves
    whenever the grants do. *)
Lemma mutate_version f saves s : 0 <= version (inner s) < u64_max ->
  (forall ts, snd (f ts) = false -> fst (f ts) = ts) ->
  let s' := snd (mutate f saves s) in
  version (inner s') = version (inner s) + 1 \/ inner s' = inner s.
Proof.
  intros Hv Hf. unfold mutate. specialize (Hf (tokens (inner s))). destruct (f (tokens (inner s))) as [ts []]; cbn [fst snd] in *.
  - left. destruct saves; cbn; apply u64_add_small; lia.
  - right. rewrite Hf by done. by destruct s as [[] ?].
Qed.

Lemma update_first_same i g ts : snd (update_first i g ts) = false -> fst (update_first i g ts) = ts.
Proof.
  induction ts as [|t ts IH]; cbn [update_first]; [done|]. destruct (String.eqb (id t) i); [done|].
  destruct (update_first i g ts) as [ts' b]. cbn in *. intros Hb. f_equal. by apply IH.
Qed.

Lemma filter_same {A} (p : A -> bool) l : Nat.eqb (length (List.filter p l)) (length l) = true -> List.filter p l = l.
Proof.
  intros E%Nat.eqb_eq. induction l as [|x l IH]; [done|]. cbn in *. destruct (p x); cbn in *; [f_equal; apply IH; lia|].
  pose proof (List.filter_length_le p l). lia.
Qed.

Lemma console_run_store c op cs : 0 <= store_version cs < u64_max ->
  store_version (snd (console_run c op cs)) = store_version cs + 1
  \/ inner (token_store (snd (console_run c op cs))) = inner (token_store cs).
Proof.
  intros Hv. unfold store_version in *.
  assert (Hm := fun f saves => mutate_version f saves (token_store cs) Hv).
  destruct op; cbn [console_run]; unfold heartbeat_handler, admin_nodes, admin_node_action, admin_node_release,
    admin_balance, admin_balance_set, admin_node_note, admin_tokens, admin_token_create, admin_token_action, admin_token_rename,
    admin_token_delete, guarded; (destruct (require_bearer _ _); [|by right]); try (by right).
  - destruct body as [hb|]; [|by right]. destruct (String.eqb _ _); [by right|]. destruct (heartbeat _ _ _ _ _). by right.
  - destruct (_ && _); [by right|]. destruct (node_action _ _ _ _) as [[res r]|]; by right.
  - destruct (_ <? _); [by right|]. destruct (is_relay _ _); [by right|]. destruct (request_release _ _ _). by right.
  - destruct (set_auto_balance _ _ _). by right.
  - destruct (set_note _ _ _ _). by right.
  - destruct (String.eqb (trim name) ""); [by right|]. unfold create. specialize (Hm (fun ts => (ts ++
      [{| id := new_id; secret := new_secret; name := trim name; enabled := true; created_at_ms := call_now c; updated_at_ms := call_now c |}], true))
      (call_saves c) ltac:(done)). destruct (mutate _ _ _) as [res s']. exact Hm.
  - destruct (String.eqb action "enable"); [|destruct (String.eqb action "disable"); [|by right]].
    + specialize (Hm (update_first id (set_state true (call_now c))) (call_saves c) (update_first_same _ _)).
      unfold set_enabled. destruct (mutate _ _ _) as [res s']. exact Hm.
    + specialize (Hm (update_first id (set_state false (call_now c))) (call_saves c) (update_first_same _ _)).
      unfold set_enabled. destruct (mutate _ _ _) as [res s']. exact Hm.
  - specialize (Hm (update_first id (set_name (trim name) (call_now c))) (call_saves c) (update_first_same _ _)).
    unfold rename. destruct (mutate _ _ _) as [res s']. exact Hm.
  - specialize (Hm (fun ts => let ts' := List.filter (fun t => negb (String.eqb (Tokens.id t) id)) ts in
                    (ts', negb (Nat.eqb (length ts') (length ts)))) (call_saves c)).
    unfold delete_token. destruct (mutate _ _ _) as [res s']. apply Hm.
    intros ts. cbn. intros E%negb_false_iff. by apply filter_same.
Qed.

(** ** The edges follow the token table *)

Lemma round_outcome c dl interval cs es :
  let '(cs', es') := heartbeat_round c dl interval cs es in
  token_store cs' = token_store cs /\ console_config cs' = console_config cs
  /\ (auth es' = auth es \/ auth es' = snd (replace (store_version cs) (snd (grants (token_store cs))) (auth es)))
  /\ (dl = Delivered -> require_bearer (call_headers c) (node_token (console_config cs)) = true ->
       trim (node_id (config es)) <> "" ->
       auth es' = if set_version (auth es) =? store_version cs then auth es
                  else snd (replace (store_version cs) (snd (grants (token_store cs))) (auth es))).
Proof.
  set (hb := build_heartbeat (call_now c) es).
  assert (Hid : hb_node_id hb = node_id (config es)) by (unfold hb, build_heartbeat; by destruct (hub_ring_stats _)).
  assert (Hver : hb_tokens_version hb = set_version (auth es)) by (unfold hb, build_heartbeat; by destruct (hub_ring_stats _)).
  assert (Hh : heartbeat_handler c (Some hb) cs = (Err unauthorized, cs) \/ heartbeat_handler c (Some hb) cs = (Err (bad "node_id is required"), cs)
    \/ exists o r, heartbeat_handler c (Some hb) cs = (Ok (ReplyDirective (directive_of o (set_version (auth es)) (token_store cs))), with_registry r cs)).
  { unfold heartbeat_handler, guarded. destruct (require_bearer _ _); [|by left]. destruct (String.eqb _ _); [by right; left|].
    right. right. rewrite Hver. destruct (heartbeat _ _ _ _ _) as [o r]. by exists o, r. }
  assert (Hok : require_bearer (call_headers c) (node_token (console_config cs)) = true -> trim (node_id (config es)) <> "" ->
    exists o r, heartbeat_handler c (Some hb) cs = (Ok (ReplyDirective (directive_of o (set_version (auth es)) (token_store cs))), with_registry r cs)).
  { intros Hb Hn. unfold heartbeat_handler, guarded. rewrite Hb, Hid. rewrite (proj2 (String.eqb_neq _ _) Hn), Hver.
    destruct (heartbeat _ _ _ _ _) as [o r]. by exists o, r. }
  unfold heartbeat_round. fold hb. destruct dl; [split_and!; try done; by left| |].
  - destruct Hh as [-> |[-> |(o & r & ->)]]; (split_and!; try done; by left).
  - assert (Hd : forall o, auth (snd (apply iter (directive_of o (set_version (auth es)) (token_store cs)) interval es))
      = if set_version (auth es) =? store_version cs then auth es
        else snd (replace (store_version cs) (snd (grants (token_store cs))) (auth es))).
    { intros o. rewrite apply_auth. unfold directive_of, store_version. destruct (grants (token_store cs)) as [v gs] eqn:Eg.
      assert (Hv : v = version (inner (token_store cs))) by (unfold grants in Eg; congruence). rewrite Hv.
      cbn [dir_tokens EdgeServer.tokens_version snd]. by destruct (_ =? _). }
    destruct Hh as [Hh|[Hh|(o & r & Hh)]].
    + rewrite Hh. split_and!; try done; [by left|]. intros _ Hb Hn. destruct (Hok Hb Hn) as (o & r & E). rewrite E in Hh. discriminate Hh.
    + rewrite Hh. split_and!; try done; [by left|]. intros _ Hb Hn. destruct (Hok Hb Hn) as (o & r & E). rewrite E in Hh. discriminate Hh.
    + rewrite Hh. split_and!; [done|done|rewrite Hd; destruct (_ =? _); [by left|by right]|by rewrite Hd].
Qed.

Lemma token_sync_round c dl interval cs es : token_sync cs (auth es) ->
  let '(cs', es') := heartbeat_round c dl interval cs es in token_sync cs' (auth es') /\ token_store cs' = token_store cs.
Proof.
  intros Hs. pose proof (round_outcome c dl interval cs es) as Ho. destruct (heartbeat_round c dl interval cs es) as [cs' es'].
  destruct Ho as (Hst & _ & Ha & _). split; [|done]. unfold token_sync, store_version in *. rewrite Hst. destruct Ha as [-> | ->]; [done|].
  cbn [replace snd set_version received_from_console console]. destruct Hs as (Hv & _ & _). split_and!; try done; lia.
Qed.

Lemma token_sync_console c op cs a : 0 <= store_version cs < u64_max -> token_sync cs a ->
  token_sync (snd (console_run c op cs)) a /\ 0 <= store_version (snd (console_run c op cs)) <= store_version cs + 1.
Proof.
  intros Hv (H1 & H2 & H3). destruct (console_run_store c op cs Hv) as [E|E].
  - unfold token_sync. rewrite E. split; [|lia]. split_and!; [lia..|done|]. intros _ Hx. lia.
  - unfold token_sync, store_version, grants in *. rewrite E. split; [exact (conj H1 (conj H2 H3))|lia].
Qed.

Lemma token_sync_run steps : forall cs es, 0 <= store_version cs -> store_version cs + zlen steps < u64_max -> token_sync cs (auth es) ->
  let '(cs', es') := cluster_run (cs, es) steps in token_sync cs' (auth es').
Proof.
  induction steps as [|st steps IH]; intros cs es Hv Hmax Hs; [exact Hs|].
  rewrite zlen_cons in Hmax. pose proof (zlen_nonneg steps).
  change (cluster_run (cs, es) (st :: steps)) with (cluster_run (cluster_run1 (cs, es) st) steps).
  destruct st as [c op|c dl interval]; cbn [cluster_run1 fst snd].
  - destruct (token_sync_console c op cs (auth es)) as [Hs' Hv']; [lia|done|]. apply IH; [lia..|done].
  - pose proof (token_sync_round c dl interval cs es Hs) as Hr. destruct (heartbeat_round c dl interval cs es) as [cs' es'].
    destruct Hr as [Hs' Hst]. unfold store_version in *. apply IH; by rewrite ?Hst; lia || done.
Qed.

(** An edge that holds the console's grants accepts the secrets of its enabled tokens. *)
Lemma granted_check (a : TokenSet) (st : TokenStore) : NoDup (map secret (List.filter enabled (tokens (inner st)))) ->
  console a = grant_map (snd (grants st)) -> received_from_console a = true ->
  forall sec i, check sec a = Some i <-> sec <> "" /\ exists t, t ∈ tokens (inner st) /\ enabled t = true /\ secret t = sec /\ Tokens.id t = i.
Proof.
  intros Hnd G2 G3 sec i.
  assert (Hnd' : NoDup (map grant_secret (snd (grants st)))) by (unfold grants; cbn [snd]; by rewrite map_map).
  rewrite (check_granted _ _ Hnd' G2 G3). unfold grants. cbn [snd]. split; intros [Hne Hx]; (split; [done|]).
  - destruct Hx as (g & (t & -> & Ht)%list_elem_of_fmap & <- & <-). rewrite list_elem_of_In, List.filter_In, <- list_elem_of_In in Ht.
    exists t. by destruct Ht.
  - destruct Hx as (t & Ht & He & <- & <-). exists {| grant_id := Tokens.id t; grant_secret := secret t |}. split; [|done].
    apply list_elem_of_fmap. exists t. split; [done|]. rewrite list_elem_of_In, List.filter_In, <- list_elem_of_In. done.
Qed.

(** The edges follow the console's token table.  After any requests to the console
    and any heartbeats of an edge, delivered, lost or refused, one delivered heartbeat
    makes the edge accept exactly the secrets of the tokens that are enabled now, each
    for its token's id, whatever the failures of the console's file. *)
Theorem heartbeat_syncs_tokens steps c interval cs0 es0 :
  0 <= store_version cs0 -> store_version cs0 + zlen steps < u64_max -> token_sync cs0 (auth es0) ->
  let cs := fst (cluster_run (cs0, es0) steps) in
  let es := snd (cluster_run (cs0, es0) steps) in
  let es' := snd (heartbeat_round c Delivered interval cs es) in
  require_bearer (call_headers c) (node_token (console_config cs)) = true -> trim (node_id (config es)) <> "" ->
  store_version cs <> 0 -> NoDup (map secret (List.filter enabled (tokens (inner (token_store cs))))) ->
  set_version (auth es') = store_version cs
  /\ forall sec i, check sec (auth es') = Some i <->
       sec <> "" /\ exists t, t ∈ tokens (inner (token_store cs)) /\ enabled t = true /\ secret t = sec /\ Tokens.id t = i.
Proof.
  intros Hv Hmax Hs. pose proof (token_sync_run steps cs0 es0 Hv Hmax Hs) as Hsy. destruct (cluster_run (cs0, es0) steps) as [cs es].
  cbn [fst snd]. pose proof (round_outcome c Delivered interval cs es) as Ho. destruct (heartbeat_round c Delivered interval cs es) as [cs' es'].
  destruct Ho as (_ & _ & _ & Ha). intros Hb Hn Hnz Hnd. specialize (Ha eq_refl Hb Hn). destruct Hsy as (Hle & Hz & Heq).
  assert (Hgot : set_version (auth es') = store_version cs /\ console (auth es') = grant_map (snd (grants (token_store cs)))
                 /\ received_from_console (auth es') = true).
  { rewrite Ha. destruct (Z.eqb_spec (set_version (auth es)) (store_version cs)) as [E|E]; [|done].
    destruct (received_from_console (auth es)) eqn:Er; [by split_and!; auto|]. rewrite Hz in E by done. lia. }
  destruct Hgot as (G1 & G2 & G3). split; [done|]. by apply granted_check.
Qed.

(** ** The panel's token usage *)

Lemma add_usage_entries node l : forall m t, NoDup (map fst l) ->
  foldl (add_usage node) m l !! t =
  match (list_to_map l : gmap string Z) !! t with
  | Some n => let '(total, by_node) := default (0, ∅) (m !! t) in Some (u64_add total n, <[node := n]> by_node)
  | None => m !! t
  end.
Proof.
  induction l as [|[k n] l IH]; intros m t Hnd; cbn [foldl map fst] in *; [done|].
  apply NoDup_cons in Hnd as [Hk Hnd]. rewrite IH by done. cbn [list_to_map fst snd foldr]. unfold add_usage. cbn [fst snd].
  assert (Hnone : (list_to_map l : gmap string Z) !! k = None) by (apply not_elem_of_list_to_map_1; exact Hk).
  destruct (decide (t = k)) as [->|Hne].
  - change (list_to_map ((k, n) :: l)) with (<[k := n]> (list_to_map l : gmap string Z)). rewrite Hnone, lookup_insert_eq.
    destruct (default (0, ∅) (m !! k)) as [total by_node]. by rewrite lookup_insert_eq.
  - change (list_to_map ((k, n) :: l)) with (<[k := n]> (list_to_map l : gmap string Z)). rewrite lookup_insert_ne by done.
    destruct (default (0, ∅) (m !! k)) as [total by_node]. by rewrite lookup_insert_ne.
Qed.

Definition node_uses (v : NodeView) : gmap string Z := hb_clients_by_token (heartbeat_of (view_node v)).

Lemma usage_of_total views t :
  default (0, ∅) (usage_of views !! t)
  = foldl (fun acc v => match node_uses v !! t with
                        | Some n => (u64_add (fst acc) n, <[node_name (view_node v) := n]> (snd acc))
                        | None => acc end) (0, ∅) views.
Proof.
  unfold usage_of. assert (Hg : forall vs m, default (0, ∅)
      (foldl (fun m v => foldl (add_usage (node_name (view_node v))) m (map_to_list (hb_clients_by_token (heartbeat_of (view_node v))))) m vs !! t)
    = foldl (fun acc v => match node_uses v !! t with
                          | Some n => (u64_add (fst acc) n, <[node_name (view_node v) := n]> (snd acc))
                          | None => acc end) (default (0, ∅) (m !! t)) vs).
  { induction vs as [|v vs IH]; intros m; cbn [foldl]; [done|]. rewrite IH. f_equal. unfold node_uses.
    rewrite add_usage_entries by apply NoDup_fst_map_to_list. rewrite list_to_map_to_list.
    destruct (hb_clients_by_token (heartbeat_of (view_node v)) !! t) as [n|]; [|done].
    by destruct (default (0, ∅) (m !! t)) as [total by_node]. }
  rewrite Hg. reflexivity.
Qed.

(** With distinct token ids the panel shows for every token the sum of what the nodes
    report and the count per node. *)
Theorem panel_usage_correct views ts m : NoDup (map view_id ts) ->
  Forall2 (fun t u => usage_token u = t /\ (usage_clients u, usage_nodes u) = default (0, ∅) (m !! view_id t)) ts (token_usage m ts)
  /\ (m = usage_of views -> forall t, default (0, ∅) (m !! t)
        = foldl (fun acc v => match node_uses v !! t with
                              | Some n => (u64_add (fst acc) n, <[node_name (view_node v) := n]> (snd acc))
                              | None => acc end) (0, ∅) views).
Proof.
  intros Hnd. split; [|intros -> t; apply usage_of_total].
  assert (Hg : forall m', (forall t, t ∈ ts -> m' !! view_id t = m !! view_id t) ->
    Forall2 (fun t u => usage_token u = t /\ (usage_clients u, usage_nodes u) = default (0, ∅) (m !! view_id t)) ts (token_usage m' ts)).
  { induction ts as [|t ts IH]; intros m' Hm; cbn [token_usage]; [constructor|].
    cbn [map] in Hnd. apply NoDup_cons in Hnd as [Ht Hnd]. rewrite (Hm t) by (by left).
    destruct (default (0, ∅) (m !! view_id t)) as [n by_node] eqn:E. constructor; [by rewrite E|]. apply IH; [done|].
    intros t' Ht'. rewrite lookup_delete_ne; [apply Hm; by right|]. intros Heq. apply Ht. rewrite Heq. apply list_elem_of_fmap. by exists t'. }
  by apply Hg.
Qed.
End Console.

(** ** Examples *)

Module ConsoleSample.
#[local] Instance mpsc : Mpsc Frame := list_mpsc Frame.
Definition console : ConsoleState :=
  {| console_config := {| node_token := "nt"; console_admin_token := "at"; panel_token := "pt"; list_ttl_seconds := 30 |};
     registry := RegistrySample.two; token_store := Tokens.Sample.store |}.
Definition call (secret : string) : Call :=
  {| call_headers := {| authorization := Some ("Bearer " +:+ secret); sec_websocket_protocol := None; x_forwarded_for := None |};
     call_peer := "10.0.0.9"; call_now := 5000; call_saves := true |}.
Definition first_chars (n : nat) (s : string) : string := String.substring 0 n s.
Definition run := cluster_run RegistrySample.hash_order first_chars (H := mpsc) EdgeHub.Sample.iter "1" "c".
Definition round := heartbeat_round RegistrySample.hash_order (H := mpsc) EdgeHub.Sample.iter "1" "c".
(** A heartbeat, the revocation of bob's token, a heartbeat whose answer is lost. *)
Definition steps : list cluster_step :=
  [StepRound (call "nt") Delivered 5; StepConsole (call "at") (OpTokenAction "b2" "disable"); StepRound (call "nt") Lost 5].
End ConsoleSample.
Import ConsoleSample.

Lemma unauthorized_inert_witness :
  console_run RegistrySample.hash_order first_chars (call "nt") (OpTokenDelete "a1") console = (Err unauthorized, console).
Proof.
  apply unauthorized_inert. right. intros v r [= <-]. cbn. intros [= <-]. vm_compute. discriminate.
Defined.

Lemma relay_protected_witness :
  let st := snd (console_run RegistrySample.hash_order first_chars (call "at") (OpNodeAction "b" "relay") console) in
  console_run RegistrySample.hash_order first_chars (call "at") (OpNodeRelease "b" 7) st
  = (Err (conflict "relay node: unrelay first"), st).
Proof.
  intros st. refine (proj1 (proj2 (relay_protected RegistrySample.hash_order first_chars (call "at") st "b" _ _)) 7 _);
    [vm_compute; reflexivity..|lia].
Defined.

Lemma heartbeat_syncs_tokens_witness :
  let s := run (console, ServerSample.node) steps in
  let es' := snd (round (call "nt") Delivered 5 (fst s) (snd s)) in
  check "hunter2" (auth (snd s)) = Some "b2"%string /\ check "hunter2" (auth es') = None
  /\ set_version (auth es') = store_version (fst s).
Proof.
  intros s es'. split; [vm_compute; reflexivity|]. split; [vm_compute; reflexivity|].
  refine (proj1 (heartbeat_syncs_tokens RegistrySample.hash_order first_chars (H := mpsc) EdgeHub.Sample.iter "1" "c" steps (call "nt") 5
    console ServerSample.node _ _ _ _ _ _ _)).
  - vm_compute. congruence.
  - vm_compute. reflexivity.
  - split; [cbn; lia|]. split; [done|]. intros Hx. discriminate Hx.
  - vm_compute. reflexivity.
  - vm_compute. congruence.
  - vm_compute. congruence.
  - apply (bool_decide_unpack _). vm_compute. exact I.
Defined.

(** A console whose table never changed has version 0 and sends nothing to an edge that
    has none: the static list goes on opening the edge though the console answers. *)
Example untouched_console_keeps_static :
  let cs := {| console_config := console_config console; registry := RegistrySample.empty; token_store := open_store None |} in
  check "pw" (auth (snd (round (call "nt") Delivered 5 cs ServerSample.node))) = Some "env"%string.
Proof. vm_compute. reflexivity. Qed.

(** A revocation whose file write fails reaches the edge with the next version, which the
    file does not have; after a restart of the console the next change gets the same
    version, so the edge is not sent it: here alice's revocation never arrives. *)
Example failed_write_then_restart_hides_a_revocation :
  let failing := {| call_headers := call_headers (call "at"); call_peer := "x"; call_now := 1; call_saves := false |} in
  let s1 := run (console, ServerSample.node)
              [StepConsole failing (OpTokenAction "b2" "disable"); StepRound (call "nt") Delivered 5] in
  let restarted := with_store (open_store (Tokens.disk (token_store (fst s1)))) (fst s1) in
  let s2 := run (restarted, snd s1) [StepConsole (call "at") (OpTokenAction "a1" "disable"); StepRound (call "nt") Delivered 5] in
  check "s3cret" (auth (snd s2)) = Some "a1"%string.
Proof. vm_compute. reflexivity. Qed.
