(* ===== verification/Cluster.v ===== *)
(** * Cluster: a console and its edges with requests in flight ([src/console/server.rs],
      [src/edge/heartbeat.rs])

    Any number of edges post heartbeats; the console's handlers run side by side, each cut at
    the mutexes it takes (the registry's, then the token table's); answers may come late or
    never.  The step relation lets everything happen in every order.  [ConsoleServer] has the
    handlers in one piece; [handler_parts] joins the two. *)
From S2P Require Import Prelude Channel EdgeHub Tokens EdgeServer Registry ConsoleServer.

(** ** Handlers in parts *)

Section Cluster.
Context `{Mpsc Frame}.
Variable values : gmap string Node -> list Node.
Variable take_chars : nat -> string -> string.
Variable iter : gmap Z ClientInfo -> list (Z * ClientInfo).
Variables VERSION COMMIT : string.

(** [heartbeat] up to the registry's answer ... *)
Definition registry_part (c : Call) (body : option Heartbeat) (st : ConsoleState) : result ApiError HeartbeatOutcome * ConsoleState :=
  if require_bearer (call_headers c) (node_token (console_config st)) then
    match body with
    | None => (Err (bad "invalid heartbeat json"), st)
    | Some hb =>
        if String.eqb (trim (hb_node_id hb)) "" then (Err (bad "node_id is required"), st) else
        let '(o, r) := heartbeat values hb (EdgeServer.remote_ip (call_headers c) (call_peer c)) (call_now c) (registry st) in
        (Ok o, with_registry r st)
    end
  else (Err unauthorized, st).
(** ... and the rest, [directive_of].  [admin_node_action] up to its check ... *)
Definition check_part (c : Call) (id action : string) (st : ConsoleState) : option ApiError :=
  if require_bearer (call_headers c) (console_admin_token (console_config st)) then
    if guarded_action action && is_relay id (registry st) then Some (conflict "relay node: unrelay first") else None
  else Some unauthorized.
(** ... and the action. *)
Definition act_part (c : Call) (id action : string) (st : ConsoleState) : answer * ConsoleState :=
  match node_action action id (call_saves c) (registry st) with
  | None => (Err (bad "unknown action"), st)
  | Some (res, r) => known_or "unknown node" (fun _ => ReplyOk) res (with_registry r st)
  end.

Lemma handler_parts c body st : heartbeat_handler values c body st =
  match registry_part c body st with
  | (Err e, st') => (Err e, st')
  | (Ok o, st') => (Ok (ReplyDirective (directive_of o (match body with Some hb => hb_tokens_version hb | None => 0 end) (token_store st'))), st')
  end.
Proof.
  unfold heartbeat_handler, registry_part, guarded. destruct (require_bearer _ _); [|done]. destruct body as [hb|]; [|done].
  destruct (String.eqb _ _); [done|]. by destruct (heartbeat _ _ _ _ _).
Qed.
Lemma action_parts c id action st : admin_node_action c id action st =
  match check_part c id action st with Some e => (Err e, st) | None => act_part c id action st end.
Proof. unfold admin_node_action, check_part, act_part, guarded. destruct (require_bearer _ _); [|done]. by destruct (_ && _). Qed.

(** ** The system *)

(** A heartbeat request of an edge. *)
Inductive Flight :=
| Posted (edge : nat) (c : Call) (hb : Heartbeat)
| Registered (edge : nat) (edge_version : Z) (o : HeartbeatOutcome)
| Replied (edge : nat) (d : Directive)
| Refused (edge : nat).

(** An edge and the request it waits for. *)
Record Member := { edge_state : EdgeState; waits : option nat }.
Record Cluster := {
  members : list Member;
  flights : list Flight;
  checked : list (Call * string * string);
  the_console : ConsoleState }.

Definition with_flight (k : nat) (f : Flight) (cs : ConsoleState) (s : Cluster) : Cluster :=
  {| members := members s; flights := <[k := f]> (flights s); checked := checked s; the_console := cs |}.
Definition with_member (i : nat) (m : Member) (s : Cluster) : Cluster :=
  {| members := <[i := m]> (members s); flights := flights s; checked := checked s; the_console := the_console s |}.
Definition with_console (cs : ConsoleState) (s : Cluster) : Cluster :=
  {| members := members s; flights := flights s; checked := checked s; the_console := cs |}.

Inductive step (s : Cluster) : Cluster -> Prop :=
| Beats i es c : members s !! i = Some {| edge_state := es; waits := None |} ->
    step s {| members := <[i := {| edge_state := es; waits := Some (length (flights s)) |}]> (members s);
              flights := flights s ++ [Posted i c (build_heartbeat iter VERSION COMMIT (call_now c) es)];
              checked := checked s; the_console := the_console s |}
| RegistryPart k i c hb : flights s !! k = Some (Posted i c hb) ->
    step s (let '(r, cs) := registry_part c (Some hb) (the_console s) in
            with_flight k (match r with Ok o => Registered i (hb_tokens_version hb) o | Err _ => Refused i end) cs s)
| TokensPart k i v o : flights s !! k = Some (Registered i v o) ->
    step s (with_flight k (Replied i (directive_of o v (token_store (the_console s)))) (the_console s) s)
| Arrives k i es d interval : flights s !! k = Some (Replied i d) -> members s !! i = Some {| edge_state := es; waits := Some k |} ->
    step s (with_member i {| edge_state := snd (apply iter d interval es); waits := None |} s)
| GivesUp i es k : members s !! i = Some {| edge_state := es; waits := Some k |} ->
    step s (with_member i {| edge_state := es; waits := None |} s)
| Handles c op : step s (with_console (snd (console_run values take_chars c op (the_console s))) s)
| Checks c id action : check_part c id action (the_console s) = None ->
    step s {| members := members s; flights := flights s; checked := checked s ++ [(c, id, action)]; the_console := the_console s |}
| Acts j c id action : checked s !! j = Some (c, id, action) ->
    step s {| members := members s; flights := flights s; checked := delete j (checked s);
              the_console := snd (act_part c id action (the_console s)) |}
| EdgeWorks i es es' w : members s !! i = Some {| edge_state := es; waits := w |} -> auth es' = auth es ->
    step s (with_member i {| edge_state := es'; waits := w |} s).

Inductive reaches (s0 : Cluster) : nat -> Cluster -> Prop :=
| reaches_start : reaches s0 0 s0
| reaches_step n s s' : reaches s0 n s -> step s s' -> reaches s0 (S n) s'.

(** ** What an answer in flight carries *)

(** What is in an answer is the table as it is, or an older one. *)
Definition directive_sync (cs : ConsoleState) (d : Directive) : Prop :=
  0 <= tokens_version d <= store_version cs
  /\ (tokens_version d = store_version cs -> match dir_tokens d with Some gs => gs = snd (grants (token_store cs)) | None => True end).
(** To the edge that waits for it, it is not older than what the edge has. *)
Definition not_older (d : Directive) (a : TokenSet) : Prop :=
  match dir_tokens d with Some _ => set_version a <= tokens_version d | None => tokens_version d = set_version a end.

Definition flight_ok (s : Cluster) (k : nat) (f : Flight) : Prop :=
  match f with
  | Posted i c hb => forall m, members s !! i = Some m -> waits m = Some k -> hb_tokens_version hb = set_version (auth (edge_state m))
  | Registered i v o => forall m, members s !! i = Some m -> waits m = Some k -> v = set_version (auth (edge_state m))
  | Replied i d => directive_sync (the_console s) d
      /\ forall m, members s !! i = Some m -> waits m = Some k -> not_older d (auth (edge_state m))
  | Refused _ => True
  end.

Record synced (s : Cluster) : Prop := {
  sy_members : Forall (fun m => token_sync (the_console s) (auth (edge_state m))) (members s);
  sy_flights : forall k f, flights s !! k = Some f -> flight_ok s k f }.

Lemma built_version now es : hb_tokens_version (build_heartbeat iter VERSION COMMIT now es) = set_version (auth es).
Proof. unfold build_heartbeat. by destruct (hub_ring_stats _). Qed.

(** The registry's part and the node actions leave the tokens alone. *)
Lemma registry_part_store c body st : token_store (snd (registry_part c body st)) = token_store st.
Proof.
  unfold registry_part. destruct (require_bearer _ _); [|done]. destruct body as [hb|]; [|done]. destruct (String.eqb _ _); [done|].
  by destruct (heartbeat _ _ _ _ _).
Qed.
Lemma act_part_store c id action st : token_store (snd (act_part c id action st)) = token_store st.
Proof. unfold act_part. by destruct (node_action _ _ _ _) as [[res r]|]. Qed.

Lemma token_sync_store cs cs' a : token_store cs' = token_store cs -> token_sync cs a -> token_sync cs' a.
Proof. unfold token_sync, store_version. by intros ->. Qed.
Lemma directive_sync_store cs cs' d : token_store cs' = token_store cs -> directive_sync cs d -> directive_sync cs' d.
Proof. unfold directive_sync, store_version. by intros ->. Qed.

Lemma directive_sync_console c op cs d : 0 <= store_version cs < u64_max -> directive_sync cs d ->
  directive_sync (snd (console_run values take_chars c op cs)) d.
Proof.
  intros Hv (H1 & H2). destruct (console_run_store values take_chars c op cs Hv) as [E|E].
  - unfold directive_sync. rewrite E. split; [lia|]. intros. lia.
  - unfold directive_sync, store_version, grants in *. by rewrite E.
Qed.

(** A step changes a member, a flight or the console; the rest stays. *)
Lemma synced_member s i m : synced s -> token_sync (the_console s) (auth (edge_state m)) ->
  (forall k f, flights s !! k = Some f -> waits m = Some k -> exists m0, members s !! i = Some m0 /\ waits m0 = Some k /\ auth (edge_state m) = auth (edge_state m0)) ->
  synced (with_member i m s).
Proof.
  intros [Hm Hf] Ht Hw. split; cbn [with_member members flights the_console].
  - by apply Forall_insert.
  - intros k f Hk. specialize (Hf k f Hk). assert (Hall : forall j m', <[i:=m]> (members s) !! j = Some m' -> waits m' = Some k ->
      exists m0, members s !! j = Some m0 /\ waits m0 = Some k /\ auth (edge_state m') = auth (edge_state m0)).
    { intros j m' Hj Hwm. apply list_lookup_insert_Some in Hj as [(-> & -> & _)|(_ & Hj)]; [by apply (Hw k f)|eauto]. }
    destruct f as [j c hb|j v o|j d|j]; cbn [flight_ok] in *; [| |destruct Hf as [Hd Hf]; split; [done|]|done];
      intros m' Hj Hwm; destruct (Hall j m' Hj Hwm) as (m0 & Hm0 & Hw0 & ->); by apply Hf.
Qed.

Lemma synced_console s cs : synced s -> (forall a, token_sync (the_console s) a -> token_sync cs a) ->
  (forall d, directive_sync (the_console s) d -> directive_sync cs d) -> synced (with_console cs s).
Proof.
  intros [Hm Hf] Ht Hd. split; cbn [with_console members flights the_console].
  - eapply Forall_impl; [exact Hm|]. intros m. apply Ht.
  - intros k f Hk. specialize (Hf k f Hk). destruct f as [j c hb|j v o|j d|j]; cbn [flight_ok] in *; [done|done| |done].
    destruct Hf as [H1 H2]. auto.
Qed.

Lemma synced_flight s k f0 f : synced s -> flights s !! k = Some f0 -> flight_ok (with_flight k f (the_console s) s) k f ->
  synced (with_flight k f (the_console s) s).
Proof.
  intros [Hm Hf] Hk0 Hok. split; [exact Hm|]. intros k' f' Hk. cbn [with_flight flights] in Hk.
  apply list_lookup_insert_Some in Hk as [(<- & <- & _)|(_ & Hk)]; [exact Hok|]. exact (Hf k' f' Hk).
Qed.

Lemma step_synced s s' : step s s' -> 0 <= store_version (the_console s) < u64_max -> synced s ->
  synced s' /\ 0 <= store_version (the_console s') <= store_version (the_console s) + 1.
Proof.
  intros Hs Hv Hsy. pose proof Hsy as [Hm Hf]. destruct Hs as [i es c Hi|k i c hb Hk|k i v o Hk|k i es d interval Hk Hi|i es k Hi|c op|c id action Hc|j c id action Hj|i es es' w Hi Ha].
  - split; [|cbn; lia]. split; cbn [members flights the_console].
    + apply Forall_insert; [done|]. exact (Forall_lookup_1 _ _ _ _ Hm Hi).
    + intros k f Hk. apply lookup_app_Some in Hk as [Hk|[Hlen Hk]].
      * specialize (Hf k f Hk). apply lookup_lt_Some in Hk. assert (Hall : forall j m', <[i:={| edge_state := es; waits := Some (length (flights s)) |}]> (members s) !! j = Some m' ->
          waits m' = Some k -> members s !! j = Some m').
        { intros j m' Hj Hw. apply list_lookup_insert_Some in Hj as [(-> & <- & _)|(_ & Hj)]; [injection Hw as <-; lia|done]. }
        destruct f; cbn [flight_ok members the_console] in *; [| |destruct Hf as [Hd Hf]; split; [done|]|done]; eauto.
      * destruct (k - length (flights s))%nat as [|n] eqn:E; [|done]. injection Hk as <-. cbn [flight_ok members]. intros m Hj Hw.
        rewrite built_version. apply list_lookup_insert_Some in Hj as [(_ & <- & _)|(? & _)]; [done|congruence].
  - pose proof (registry_part_store c (Some hb) (the_console s)) as Hst. destruct (registry_part _ _ _) as [r cs] eqn:E. cbn [snd] in Hst.
    split; [|unfold store_version; cbn; rewrite Hst; unfold store_version in Hv; lia].
    change (synced (with_console cs (with_flight k (match r with Ok o => Registered i (hb_tokens_version hb) o | Err _ => Refused i end) (the_console s) s))).
    apply synced_console; [|intros a; by apply token_sync_store|intros d; by apply directive_sync_store].
    eapply synced_flight; [done|exact Hk|]. specialize (Hf k _ Hk). by destruct r.
  - split; [|cbn; lia]. eapply synced_flight; [done|exact Hk|]. specialize (Hf k _ Hk). cbn [flight_ok members with_flight the_console] in *.
    unfold directive_of, directive_sync, not_older. destruct (grants (token_store (the_console s))) as [v0 gs] eqn:Eg.
    assert (Hv0 : v0 = store_version (the_console s)) by (unfold grants in Eg; injection Eg as <- _; done). cbn [tokens_version dir_tokens snd]. split.
    + split; [lia|]. intros _. by destruct (_ =? _).
    + intros m Hi Hw. specialize (Hf m Hi Hw). destruct (Forall_lookup_1 _ _ _ _ Hm Hi) as (Hle & _). destruct (Z.eqb_spec v v0); [congruence|]. lia.
  - split; [|cbn; lia]. destruct (Hf k _ Hk) as ((D1 & D2) & D3). specialize (D3 _ Hi eq_refl). cbn [edge_state] in D3.
    destruct (Forall_lookup_1 _ _ _ _ Hm Hi) as (T1 & T2 & T3). cbn [edge_state] in *.
    apply synced_member; [done| |by intros ? ? _ [=]]. cbn [edge_state]. unfold not_older in D3. rewrite apply_auth.
    destruct (dir_tokens d) as [gs|]; [|done]. unfold token_sync. cbn [replace snd set_version received_from_console Tokens.console].
    split; [lia|]. split; [done|]. intros _ E. by rewrite (D2 E).
  - split; [|cbn; lia]. apply synced_member; [done| |by intros ? ? _ [=]]. exact (Forall_lookup_1 _ _ _ _ Hm Hi).
  - destruct Hsy as [Hm' Hf']. split.
    + apply synced_console; [done| |].
      * intros a Ht. by apply token_sync_console.
      * intros d. by apply directive_sync_console.
    + cbn [with_console the_console]. assert (Ht : exists a, token_sync (the_console s) a).
      { exists (set_new []). split; [cbn; lia|]. done. }
      destruct Ht as [a Ht]. by apply (token_sync_console values take_chars c op (the_console s) a).
  - split; [|cbn; lia]. by split.
  - pose proof (act_part_store c id action (the_console s)) as Hst. split; [|unfold store_version in *; cbn; rewrite Hst; lia].
    assert (Hy : synced (with_console (snd (act_part c id action (the_console s))) s)).
    { apply synced_console; [done|intros a; by apply token_sync_store|intros d; by apply directive_sync_store]. }
    destruct Hy as [Y1 Y2]. by split.
  - split; [|cbn; lia]. apply synced_member; [done| |].
    + cbn [edge_state]. rewrite Ha. exact (Forall_lookup_1 _ _ _ _ Hm Hi).
    + intros k f _ Hw. eexists. split; [exact Hi|]. split; [exact Hw|exact Ha].
Qed.

Lemma reaches_synced s0 n s : reaches s0 n s -> synced s0 -> 0 <= store_version (the_console s0) ->
  store_version (the_console s0) + Z.of_nat n <= u64_max ->
  synced s /\ 0 <= store_version (the_console s) <= store_version (the_console s0) + Z.of_nat n.
Proof.
  intros Hr Hs H0. induction Hr as [|n s s' Hr IH Hst]; intros Hm; [split; [done|lia]|]. destruct IH as [IHs IHv]; [lia|].
  destruct (step_synced s s' Hst ltac:(lia) IHs). split; [done|lia].
Qed.

(** Edges that have just started, or have what the console's table says. *)
Definition cluster_start (cs : ConsoleState) (es : list EdgeState) : Cluster :=
  {| members := map (fun e => {| edge_state := e; waits := None |}) es; flights := []; checked := []; the_console := cs |}.
Lemma synced_start cs es : Forall (fun e => token_sync cs (auth e)) es -> synced (cluster_start cs es).
Proof. intros He. split; [cbn; by apply Forall_map|]. intros k f Hk. by destruct k. Qed.

(** The token a secret belongs to: the last enabled one that has it, and none for the empty. *)
Definition accepted (sec : string) (table : list Token) : option string :=
  if String.eqb sec "" then None
  else option_map Tokens.id (last (List.filter (fun t => enabled t && String.eqb (secret t) sec) table)).

Lemma grant_map_last sec gs : forall m, foldl add_grant m gs !! sec =
  match last (List.filter (fun g => String.eqb (grant_secret g) sec) gs) with Some g => Some (grant_id g) | None => m !! sec end.
Proof.
  induction gs as [|g gs IH]; intros m; [done|]. cbn [foldl List.filter]. rewrite IH. unfold add_grant.
  destruct (String.eqb_spec (grant_secret g) sec) as [<-|Hne]; [|by rewrite lookup_insert_ne].
  rewrite last_cons. destruct (last _); [done|]. by rewrite lookup_insert_eq.
Qed.

Lemma check_table a st sec : Tokens.console a = grant_map (snd (grants st)) -> received_from_console a = true ->
  check sec a = accepted sec (tokens (inner st)).
Proof.
  intros Hc Hr. unfold check, accepted. rewrite Hc, Hr. cbn [negb andb]. destruct (String.eqb sec ""); [done|].
  unfold grant_map, grants. cbn [snd]. rewrite grant_map_last, lookup_empty.
  assert (E : forall ts, List.filter (fun g => String.eqb (grant_secret g) sec)
              (map (fun t => {| grant_id := Tokens.id t; grant_secret := secret t |}) (List.filter enabled ts))
            = map (fun t => {| grant_id := Tokens.id t; grant_secret := secret t |}) (List.filter (fun t => enabled t && String.eqb (secret t) sec) ts)).
  { induction ts as [|t ts IH]; [done|]. cbn [List.filter]. destruct (enabled t); cbn [andb map List.filter grant_secret]; [|exact IH].
    destruct (String.eqb (secret t) sec); cbn [map]; by rewrite IH. }
  rewrite E, fmap_last. by destruct (last _).
Qed.

(** C21: the edges follow the console's token table, however requests overlap.  Any number of
    edges and of requests to one run of the console, their handlers interleaved, their answers
    late or lost: an answer that reaches the edge that waits for it never takes the edge's
    tokens back to an older version.  If the table has not changed since the handler read it,
    the edge then accepts exactly the secrets of the tokens that are enabled, each for its
    token's id (the last token's, if enabled tokens share a secret), and no longer its static
    list; except that an edge that never got a table keeps what it had, its static list
    included, while the console is at version 0, where its table has never been changed. *)
Theorem edges_follow_tokens cs es n s k i e d interval :
  Forall (fun e => token_sync cs (auth e)) es -> 0 <= store_version cs -> store_version cs + Z.of_nat n <= u64_max ->
  reaches (cluster_start cs es) n s ->
  flights s !! k = Some (Replied i d) -> members s !! i = Some {| edge_state := e; waits := Some k |} ->
  let e' := snd (apply iter d interval e) in
  let table := tokens (inner (token_store (the_console s))) in
  (set_version (auth e) <= set_version (auth e') /\ set_version (auth e') = tokens_version d)
  /\ (tokens_version d = store_version (the_console s) ->
      (received_from_console (auth e') = true /\ forall sec, check sec (auth e') = accepted sec table)
      \/ (store_version (the_console s) = 0 /\ received_from_console (auth e) = false /\ auth e' = auth e)).
Proof.
  intros Hes H0 Hn Hr Hk Hi e' table. destruct (reaches_synced _ n s Hr (synced_start cs es Hes) H0 Hn) as [[Hm Hf] _].
  destruct (Hf k _ Hk) as ((D1 & D2) & D3). specialize (D3 _ Hi eq_refl). destruct (Forall_lookup_1 _ _ _ _ Hm Hi) as (T1 & T2 & T3).
  cbn [edge_state] in *. unfold not_older in D3. unfold e'. rewrite apply_auth. destruct (dir_tokens d) as [gs|].
  - cbn [replace snd set_version]. split; [lia|]. intros Ev. left. split; [done|]. intros sec. apply check_table; [|done]. cbn. by rewrite (D2 Ev).
  - split; [lia|]. intros Ev. destruct (received_from_console (auth e)) eqn:Er.
    + left. split; [done|]. intros sec. apply check_table; [apply T3; [done|lia]|done].
    + right. specialize (T2 eq_refl). split_and!; [lia|done|done].
Qed.

(** A request that nothing disturbs is answered. *)
Lemma undisturbed_round cs es c o cs' : registry_part c (Some (build_heartbeat iter VERSION COMMIT (call_now c) es)) cs = (Ok o, cs') ->
  exists s d, reaches (cluster_start cs [es]) 3 s /\ flights s !! 0%nat = Some (Replied 0 d)
  /\ members s !! 0%nat = Some {| edge_state := es; waits := Some 0%nat |}.
Proof.
  intros Hr. do 2 eexists. split; [|split].
  - eapply reaches_step; [eapply reaches_step; [eapply reaches_step; [apply reaches_start|by eapply (Beats _ 0)]|]|].
    + pose proof (RegistryPart {| members := [{| edge_state := es; waits := Some 0%nat |}]; flights := [Posted 0 c (build_heartbeat iter VERSION COMMIT (call_now c) es)];
                                   checked := []; the_console := cs |} 0 0 c _ eq_refl) as Hp. cbn [the_console] in Hp. rewrite Hr in Hp. exact Hp.
    + by eapply (TokensPart _ 0).
  - done.
  - done.
Qed.
End Cluster.

(** ** Runs *)

Module ClusterSample.
Import ConsoleSample.
#[local] Existing Instance ConsoleSample.mpsc.
#[local] Abbreviation step := (step RegistrySample.hash_order first_chars EdgeHub.Sample.iter "1" "c").
#[local] Abbreviation reaches := (reaches RegistrySample.hash_order first_chars EdgeHub.Sample.iter "1" "c").
#[local] Abbreviation registry_part := (registry_part RegistrySample.hash_order).

(** A node that is made a relay between the check and the removal of another request: it is
    forgotten with the flag, and its next heartbeat registers it as a node for the public. *)
Example forgotten_relay :
  let st0 := snd (registry_part (call "nt") (Some (build_heartbeat EdgeHub.Sample.iter "1" "c" 1 ServerSample.node)) console) in
  let name := node_id (config ServerSample.node) in
  let st1 := snd (console_run RegistrySample.hash_order first_chars (call "at") (OpNodeAction name "relay") st0) in
  let st2 := snd (act_part (call "at") name "forget" st1) in
  let st3 := snd (registry_part (call "nt") (Some (build_heartbeat EdgeHub.Sample.iter "1" "c" 2 ServerSample.node)) st2) in
  check_part (call "at") name "forget" st0 = None /\ is_relay name (registry st1) = true
  /\ is_relay name (registry st3) = false /\ bool_decide (is_Some (nodes (registry st3) !! name)) = true
  /\ is_Some (check_part (call "at") name "forget" st1).
Proof. repeat split; try (vm_compute; reflexivity). vm_compute. eauto. Qed.

(** The heartbeat of an edge with a static list: the answer brings it the console's tokens. *)
Lemma edges_follow_tokens_witness : exists s d,
  reaches (cluster_start console [ServerSample.node]) 3 s /\ flights s !! 0%nat = Some (Replied 0 d)
  /\ let e' := snd (apply EdgeHub.Sample.iter d 5 ServerSample.node) in
     set_version (auth e') = tokens_version d
     /\ (tokens_version d = store_version (the_console s) -> store_version (the_console s) <> 0 ->
         forall sec, check sec (auth e') = accepted sec (tokens (inner (token_store (the_console s))))).
Proof.
  assert (Hok : match fst (registry_part (call "nt") (Some (build_heartbeat EdgeHub.Sample.iter "1" "c" (call_now (call "nt")) ServerSample.node)) console) with
                | Ok _ => true | Err _ => false end = true) by (vm_compute; reflexivity).
  destruct (registry_part (call "nt") _ console) as [[o|e] cs'] eqn:Er; cbn [fst] in Hok; [|discriminate Hok].
  pose proof (undisturbed_round RegistrySample.hash_order first_chars EdgeHub.Sample.iter "1" "c" _ _ _ _ _ Er) as Hr.
  destruct Hr as (s & d & Hr & Hf & Hm). exists s, d. split; [exact Hr|]. split; [exact Hf|].
  destruct (edges_follow_tokens RegistrySample.hash_order first_chars EdgeHub.Sample.iter "1" "c" console [ServerSample.node] 3 s 0 0
              ServerSample.node d 5) as [[_ Hv] Ht]; [| | |exact Hr|exact Hf|exact Hm|].
  - constructor; [|constructor]. split; [cbn; lia|]. split; [done|]. intros Hx. discriminate Hx.
  - vm_compute. congruence.
  - vm_compute. congruence.
  - split; [exact Hv|]. intros Hd Hz. destruct (Ht Hd) as [[_ Hc]|[Hz' _]]; [exact Hc|destruct (Hz Hz')].
Defined.
End ClusterSample.
