(* ===== verification/Routes.v ===== *)
(** * Routes: the HTTP interfaces of the console and the edge ([src/console/server.rs],
      [src/edge/server.rs])

    From a request's method and path to the handler and its answer, with axum's extractors in
    front: path parameters, query, body and the WebSocket upgrade are read before a handler's
    first line.  What comes out is who may do what, over whole requests. *)
From S2P Require Import Prelude Channel EdgeHub Tokens EdgeServer Registry ConsoleServer Cluster.

(** ** Matching a path (axum's router) *)

(** A segment of a route: itself, or a parameter, which is not empty. *)
Definition param (s : string) : option string := if String.eqb s "" then None else Some s.

(** [get] also answers HEAD. *)
Definition answers (allowed method : string) : bool :=
  String.eqb allowed method || (String.eqb allowed "GET" && String.eqb method "HEAD").
Fixpoint by_method {A} (method : string) (table : list (string * A)) : option A :=
  match table with
  | [] => None
  | (m, a) :: table => if answers m method then Some a else by_method method table
  end.

(** ** The console *)

Inductive Endpoint :=
| Index | Healthz | Llms | Proto | PublicNodes
| PostHeartbeat | GetPanel | PanelWs
| AdminNodes | NodeAction (id action : string) | NodeNote (id : string) | NodeRelease (id : string)
| GetBalance | SetBalance
| GetTokens | CreateToken | TokenAction (id action : string) | RenameToken (id : string) | DeleteToken (id : string)
| AlertTest.

(** [router]: the methods of the route a path matches; a fixed segment goes before a
    parameter. *)
Definition admin_routes (segs : list string) : option (list (string * Endpoint)) :=
  match segs with
  | ["nodes"] => Some [("GET", AdminNodes)]
  | ["balance"] => Some [("GET", GetBalance); ("POST", SetBalance)]
  | ["tokens"] => Some [("GET", GetTokens); ("POST", CreateToken)]
  | ["tokens"; id] => id ← param id; Some [("DELETE", DeleteToken id)]
  | ["alerts"; "test"] => Some [("POST", AlertTest)]
  | ["nodes"; id; action] =>
      id ← param id; action ← param action;
      Some (if String.eqb action "note" then [("PUT", NodeNote id)]
            else if String.eqb action "release" then [("POST", NodeRelease id)]
            else [("POST", NodeAction id action)])
  | ["tokens"; id; action] =>
      id ← param id; action ← param action;
      Some (if String.eqb action "name" then [("PUT", RenameToken id)] else [("POST", TokenAction id action)])
  | _ => None
  end%string.
Definition console_routes (path : string) : option (list (string * Endpoint)) :=
  match split_on "/" path with
  | [""; ""] => Some [("GET", Index)]
  | [""; "healthz"] => Some [("GET", Healthz)]
  | [""; "llms.txt"] => Some [("GET", Llms)]
  | [""; "uma.proto"] => Some [("GET", Proto)]
  | [""; "api"; "v1"; "nodes"] => Some [("GET", PublicNodes)]
  | [""; "api"; "v1"; "nodes"; "heartbeat"] => Some [("POST", PostHeartbeat)]
  | [""; "api"; "v1"; "panel"] => Some [("GET", GetPanel)]
  | [""; "api"; "v1"; "panel"; "ws"] => Some [("GET", PanelWs)]
  | "" :: "api" :: "v1" :: "admin" :: segs => admin_routes segs
  | _ => None
  end%string.

(** A request; the query's [token], and whether it asks for a WebSocket. *)
Record Request := {
  req_method : string;
  req_path : string;
  req_token : option string;
  req_upgrade : bool;
  req_body : string;
  req_call : Call }.

Inductive Served :=
| RouteNotFound
| MethodNotAllowed
| Rejected
| Page
| HealthPage (h : Health)
| NodesPage (l : NodeList)
| WebSocket
| AlertSent (ok : bool)
| Answer (a : answer).

Section Routes.
Variable values : gmap string Node -> list Node.
Variable take_chars : nat -> string -> string.
Variable shuffle : list PublicNode -> list PublicNode.
(** Percent-decoding of a path parameter, and the body extractors: [None] is a rejection. *)
Variable decode_param : string -> option string.
Variable body_bytes : string -> option string.
Variable heartbeat_json : string -> option Heartbeat.
Variables (note_json name_json : string -> option string).
Variable count_json : string -> option Z.
Variable enabled_json : string -> option bool.
(** The random strings of a new token; the webhook, if one is configured, and its answer. *)
Variables (new_id new_secret : string) (webhook : option bool).

Definition or_rejected (o : option (answer * ConsoleState)) (st : ConsoleState) : Served * ConsoleState :=
  match o with Some (a, st) => (Answer a, st) | None => (Rejected, st) end.

Definition admin_alert_test (c : Call) (st : ConsoleState) : Served :=
  if require_bearer (call_headers c) (console_admin_token (console_config st)) then
    match webhook with
    | None => Answer (Err (bad "CONSOLE_ALERT_WEBHOOK is not configured"))
    | Some ok => AlertSent ok
    end
  else Answer (Err unauthorized).

Definition panel_ws (r : Request) (st : ConsoleState) : Served :=
  if req_upgrade r then
    if bool_decide (req_token r = Some (panel_token (console_config st))) then WebSocket else Answer (Err forbidden)
  else Rejected.

Definition handle (e : Endpoint) (r : Request) (st : ConsoleState) : Served * ConsoleState :=
  let c := req_call r in
  let run op := console_run values take_chars c op st in
  match e with
  | Index | Llms | Proto => (Page, st)
  | Healthz => (HealthPage (healthz values (call_now c) st), st)
  | PublicNodes => (NodesPage (public_list values shuffle (list_ttl_seconds (console_config st)) (call_now c) (registry st)), st)
  | PostHeartbeat => or_rejected (b ← body_bytes (req_body r); Some (run (OpHeartbeat (heartbeat_json b)))) st
  | GetPanel => or_rejected (Some (panel values take_chars c (req_token r) st)) st
  | PanelWs => (panel_ws r st, st)
  | AdminNodes => or_rejected (Some (run OpNodes)) st
  | NodeAction id action => or_rejected (id ← decode_param id; action ← decode_param action; Some (run (OpNodeAction id action))) st
  | NodeNote id => or_rejected (id ← decode_param id; text ← note_json (req_body r); Some (run (OpNodeNote id text))) st
  | NodeRelease id => or_rejected (id ← decode_param id; n ← count_json (req_body r); Some (run (OpNodeRelease id n))) st
  | GetBalance => or_rejected (Some (run OpBalance)) st
  | SetBalance => or_rejected (on ← enabled_json (req_body r); Some (run (OpBalanceSet on))) st
  | GetTokens => or_rejected (Some (run OpTokens)) st
  | CreateToken => or_rejected (name ← name_json (req_body r); Some (run (OpTokenCreate name new_id new_secret))) st
  | TokenAction id action => or_rejected (id ← decode_param id; action ← decode_param action; Some (run (OpTokenAction id action))) st
  | RenameToken id => or_rejected (id ← decode_param id; name ← name_json (req_body r); Some (run (OpTokenRename id name))) st
  | DeleteToken id => or_rejected (id ← decode_param id; Some (run (OpTokenDelete id))) st
  | AlertTest => (admin_alert_test c st, st)
  end.

Definition serve (r : Request) (st : ConsoleState) : Served * ConsoleState :=
  match console_routes (req_path r) with
  | None => (RouteNotFound, st)
  | Some table => match by_method (req_method r) table with None => (MethodNotAllowed, st) | Some e => handle e r st end
  end.

(** ** Who may do what *)

(** An answer that shows what is not public, or has an effect outside. *)
Definition privileged (a : Served) : bool :=
  match a with Answer (Ok _) | WebSocket | AlertSent _ => true | _ => false end.

Definition bears (c : Call) (secret : string) : bool := require_bearer (call_headers c) secret.

Lemma run_refused c op st : bears c (op_secret op st) = false -> console_run values take_chars c op st = (Err unauthorized, st).
Proof.
  unfold bears, op_secret. intros Hb. destruct op; cbn [console_run]; unfold heartbeat_handler, admin_nodes, admin_node_action, admin_node_release,
    admin_balance, admin_balance_set, admin_node_note, admin_tokens, admin_token_create, admin_token_action, admin_token_rename,
    admin_token_delete, guarded; by rewrite Hb.
Qed.

(** A heartbeat touches nothing but the nodes. *)
Lemma heartbeat_nodes_only hb ip now r : let r' := snd (heartbeat values hb ip now r) in
  admin r' = admin r /\ settings r' = settings r /\ Registry.disk r' = Registry.disk r.
Proof.
  unfold heartbeat. destruct (beat hb ip now _) as [restarted nd]. cbv zeta. destruct (relay _); [done|].
  unfold decide_release. destruct (nodes _ !! _) as [node|]; [|done]. destruct (0 <? _); [done|]. destruct (_ || _); [done|].
  destruct (negb _); [done|]. by destruct (_ <? _).
Qed.

Lemma handle_guarded e r st :
  let c := req_call r in
  let '(a, st') := handle e r st in
  (bears c (console_admin_token (console_config st)) = false ->
     token_store st' = token_store st /\ console_config st' = console_config st /\ admin (registry st') = admin (registry st)
     /\ settings (registry st') = settings (registry st) /\ Registry.disk (registry st') = Registry.disk (registry st)
     /\ (bears c (node_token (console_config st)) = false -> st' = st /\ (privileged a = true -> req_token r = Some (panel_token (console_config st))))).
Proof.
  intros c.
  assert (Hop : forall op, op_secret op st = console_admin_token (console_config st) -> bears c (console_admin_token (console_config st)) = false ->
    console_run values take_chars c op st = (Err unauthorized, st)) by (intros op E Hb; apply run_refused; by rewrite E).
  assert (Hrej : forall o, (forall x, o = Some x -> x = (Err unauthorized, st)) -> fst (or_rejected o st) = Rejected /\ snd (or_rejected o st) = st
    \/ or_rejected o st = (Answer (Err unauthorized), st)).
  { intros [x|] E; [right; cbn; by rewrite (E x eq_refl)|by left]. }
  assert (Hdone : forall (x : Served * ConsoleState), fst x = Rejected /\ snd x = st \/ x = (Answer (Err unauthorized), st) ->
    let '(a, st') := x in token_store st' = token_store st /\ console_config st' = console_config st /\ admin (registry st') = admin (registry st)
     /\ settings (registry st') = settings (registry st) /\ Registry.disk (registry st') = Registry.disk (registry st)
     /\ (bears c (node_token (console_config st)) = false -> st' = st /\ (privileged a = true -> req_token r = Some (panel_token (console_config st))))).
  { intros [a st'] [[E1 E2]|E]; [cbn in E1, E2; subst|injection E as -> ->]; by split_and!. }
  destruct (handle e r st) as [a st'] eqn:E. intros Hb.
  destruct e; cbn [handle] in E; fold c in E;
    try (specialize (Hdone (a, st')); cbn beta iota in Hdone; apply Hdone; rewrite <- E; apply Hrej; intros x;
         repeat match goal with |- (?o ≫= _) = Some x -> _ => destruct o; [cbn [mbind option_bind]|done] end; rewrite Hop by done; by intros [= <-]);
    try (injection E as <- <-; by split_and!).
  - destruct (body_bytes (req_body r)) as [b|]; cbn [mbind option_bind or_rejected] in E; [|injection E as <- <-; by split_and!].
    destruct (bears c (node_token (console_config st))) eqn:En.
    + cbn [console_run] in E. rewrite handler_parts in E. unfold registry_part in E. unfold bears in En. rewrite En in E.
      destruct (heartbeat_json b) as [hb|]; [|injection E as <- <-; by split_and!].
      destruct (String.eqb _ _); [injection E as <- <-; by split_and!|].
      pose proof (heartbeat_nodes_only hb (EdgeServer.remote_ip (call_headers c) (call_peer c)) (call_now c) (registry st)) as Hn.
      destruct (heartbeat _ _ _ _ _) as [o rg]. injection E as <- <-. cbn [snd] in Hn. destruct Hn as (N1 & N2 & N3). by split_and!.
    + rewrite run_refused in E by exact En. injection E as <- <-. by split_and!.
  - unfold panel in E. case_bool_decide as Ht; injection E as <- <-; by split_and!.
  - injection E as <- <-. split_and!; try done. intros _. split; [done|]. unfold panel_ws. destruct (req_upgrade r); [|done]. by case_bool_decide.
  - injection E as <- <-. split_and!; try done. intros _. split; [done|]. unfold admin_alert_test. unfold bears in Hb. by rewrite Hb.
Qed.

(** C28: who may do what.  Whatever the method, path, body and headers of a request to the
    console: without the admin secret the token table, the settings, the nodes' flags and
    the file stay as they are; without the node secret either nothing changes at all and
    nothing but public pages is shown, unless the panel's token is given, which shows the
    panel and still changes nothing. *)
Theorem requests_privileged r st :
  let c := req_call r in
  let '(a, st') := serve r st in
  bears c (console_admin_token (console_config st)) = false ->
     token_store st' = token_store st /\ console_config st' = console_config st /\ admin (registry st') = admin (registry st)
     /\ settings (registry st') = settings (registry st) /\ Registry.disk (registry st') = Registry.disk (registry st)
     /\ (bears c (node_token (console_config st)) = false -> st' = st /\ (privileged a = true -> req_token r = Some (panel_token (console_config st)))).
Proof.
  intros c. unfold serve. destruct (console_routes (req_path r)) as [table|]; [|intros _; by split_and!].
  destruct (by_method (req_method r) table) as [e|]; [|intros _; by split_and!]. apply handle_guarded.
Qed.
End Routes.

(** ** The edge *)

Inductive EdgeEndpoint := EdgeWs | EdgeReady | EdgeHealthz | EdgeClients | EdgeRebalance | EdgeDrain.

Definition edge_routes (path : string) : option (list (string * EdgeEndpoint)) :=
  if String.eqb path "/uma/v1/ws" then Some [("GET"%string, EdgeWs)]
  else if String.eqb path "/edge/ready" then Some [("GET"%string, EdgeReady)]
  else if String.eqb path "/edge/healthz" then Some [("GET"%string, EdgeHealthz)]
  else if String.eqb path "/edge/admin/clients" then Some [("GET"%string, EdgeClients)]
  else if String.eqb path "/edge/admin/rebalance" then Some [("POST"%string, EdgeRebalance)]
  else if String.eqb path "/edge/admin/drain" then Some [("POST"%string, EdgeDrain)]
  else None.

Inductive EdgeServed :=
| EdgeNotFound
| EdgeMethodNotAllowed
| EdgeRejected
| EdgeStatus (status : Z)
| EdgeShake (h : Handshake)
| EdgeHealth (hb : Heartbeat)
| EdgeClientList (l : list (ClientInfo * Z))
| EdgeReleased (n : Z)
| EdgeDraining (clients : Z) (spawned : bool).

Section EdgeRoutes.
Context `{Mpsc Frame}.
Variable iter : gmap Z ClientInfo -> list (Z * ClientInfo).
Variables VERSION COMMIT : string.
(** The body extractor of a release, and the query's [_replay]. *)
Variable rebalance_json : string -> option Z.
Variable replay : option string.

Definition edge_handle (e : EdgeEndpoint) (r : Request) (st : EdgeState) : EdgeServed * EdgeState :=
  let h := call_headers (req_call r) in
  match e with
  | EdgeWs => if req_upgrade r then let '(x, st) := websocket (req_token r) replay h st in (EdgeShake x, st) else (EdgeRejected, st)
  | EdgeReady => (EdgeStatus (if ready st then 200 else 503), st)
  | EdgeHealthz => (EdgeHealth (build_heartbeat iter VERSION COMMIT (call_now (req_call r)) st), st)
  | EdgeClients => (match admin_clients iter h (call_now (req_call r)) st with Ok l => EdgeClientList l | Err s => EdgeStatus s end, st)
  | EdgeRebalance =>
      match rebalance_json (req_body r) with
      | None => (EdgeRejected, st)
      | Some n => match admin_rebalance iter h n st with Ok (k, st) => (EdgeReleased k, st) | Err s => (EdgeStatus s, st) end
      end
  | EdgeDrain => match admin_drain h st with Ok (n, spawn, st) => (EdgeDraining n spawn, st) | Err s => (EdgeStatus s, st) end
  end.

Definition edge_serve (r : Request) (st : EdgeState) : EdgeServed * EdgeState :=
  match edge_routes (req_path r) with
  | None => (EdgeNotFound, st)
  | Some table => match by_method (req_method r) table with None => (EdgeMethodNotAllowed, st) | Some e => edge_handle e r st end
  end.

Lemma websocket_keeps token h st : let '(x, st') := websocket token replay h st in
  edge_hub st' = edge_hub st /\ auth st' = auth st /\ config st' = config st /\ draining (stats st') = draining (stats st)
  /\ match x with Upgrade _ _ => exists secret i, (token = Some secret \/ token = None /\ bearer h = Some secret) /\ check secret (auth st) = Some i | _ => True end.
Proof.
  unfold websocket, reject. cbv zeta. destruct (check _ (auth st)) as [i|] eqn:Ec; [|by split_and!].
  destruct (draining (stats st)) eqn:Ed; [by split_and!|]. destruct (_ <=? _); [by split_and!|]. destruct (negb _); [by split_and!|].
  destruct (parse_replay replay); [|by split_and!]. split_and!; try done. destruct token as [t|]; [by exists t, i; auto|].
  destruct (bearer h) as [t|]; [by exists t, i; auto|]. cbn in Ec. unfold check in Ec. done.
Qed.

(** Without the admin secret a request to the edge releases, drains and lists nobody; an
    upgrade needs a token that is live. *)
Theorem edge_requests_privileged r st :
  let h := call_headers (req_call r) in
  let '(a, st') := edge_serve r st in
  (bool_decide (bearer h = Some (admin_token (config st))) && negb (String.eqb (admin_token (config st)) "")) = false ->
    edge_hub st' = edge_hub st /\ auth st' = auth st /\ draining (stats st') = draining (stats st)
    /\ match a with
       | EdgeClientList _ | EdgeReleased _ | EdgeDraining _ _ => False
       | EdgeShake (Upgrade _ _) => exists secret i, (req_token r = Some secret \/ req_token r = None /\ bearer h = Some secret)
                                                   /\ check secret (auth st) = Some i
       | _ => True
       end.
Proof.
  intros h. unfold edge_serve. destruct (edge_routes (req_path r)) as [table|]; [|intros _; by split_and!].
  destruct (by_method (req_method r) table) as [e|]; [|intros _; by split_and!]. destruct (edge_handle e r st) as [a st'] eqn:E. intros Hb.
  assert (Hadm : require_admin h st = Err 401).
  { unfold require_admin. destruct (String.eqb _ _); [done|]. rewrite andb_true_r in Hb. cbn [orb]. by rewrite Hb. }
  destruct e; cbn [edge_handle] in E; fold h in E.
  - destruct (req_upgrade r); [|injection E as <- <-; by split_and!]. pose proof (websocket_keeps (req_token r) h st) as Hw.
    destruct (websocket _ _ _ _) as [x st1]. injection E as <- <-. destruct Hw as (W1 & W2 & _ & W4 & W5). split_and!; [done..|]. by destruct x.
  - injection E as <- <-. by split_and!.
  - injection E as <- <-. by split_and!.
  - unfold admin_clients in E. rewrite Hadm in E. injection E as <- <-. by split_and!.
  - destruct (rebalance_json _); [|injection E as <- <-; by split_and!]. unfold admin_rebalance in E. rewrite Hadm in E. injection E as <- <-. by split_and!.
  - unfold admin_drain in E. rewrite Hadm in E. injection E as <- <-. by split_and!.
Qed.
End EdgeRoutes.

(** ** Requests *)

Module RoutesSample.
Import ConsoleSample.
Definition request (method path secret : string) : Request :=
  {| req_method := method; req_path := path; req_token := None; req_upgrade := false; req_body := "x"; req_call := call secret |}.
Definition reply_to (r : Request) : Served * ConsoleState :=
  serve RegistrySample.hash_order first_chars (fun l => l) Some Some (fun _ => None) Some Some (fun _ => Some 3) (fun _ => Some true) "id1" "s1" None r console.

(** [note] and [release] are routes of their own, so a POST to the first is no action and a
    PUT to an action is none either. *)
Example fixed_segments_first :
  fst (reply_to (request "POST" "/api/v1/admin/nodes/b/note" "at")) = MethodNotAllowed
  /\ fst (reply_to (request "PUT" "/api/v1/admin/nodes/b/drain" "at")) = MethodNotAllowed
  /\ fst (reply_to (request "POST" "/api/v1/admin/nodes/b/release" "at")) = Answer (Ok (ReplyPending "b" 3))
  /\ fst (reply_to (request "POST" "/api/v1/admin/nodes//drain" "at")) = RouteNotFound
  /\ fst (reply_to (request "HEAD" "/healthz" "")) = fst (reply_to (request "GET" "/healthz" "")).
Proof. repeat split; vm_compute; reflexivity. Qed.

(** The schema is served to everybody too. *)
Example schema_is_public : fst (reply_to (request "GET" "/uma.proto" "")) = Page.
Proof. reflexivity. Qed.

(** A node's secret changes no token. *)
Lemma requests_privileged_witness :
  let '(a, st') := reply_to (request "DELETE" "/api/v1/admin/tokens/a1" "nt") in
  a = Answer (Err unauthorized) /\ token_store st' = token_store console.
Proof.
  pose proof (requests_privileged RegistrySample.hash_order first_chars (fun l => l) Some Some (fun _ => None) Some Some (fun _ => Some 3) (fun _ => Some true)
    "id1" "s1" None (request "DELETE" "/api/v1/admin/tokens/a1" "nt") console) as Hp. cbv zeta in Hp.
  assert (Ha : fst (reply_to (request "DELETE" "/api/v1/admin/tokens/a1" "nt")) = Answer (Err unauthorized)) by (vm_compute; reflexivity).
  unfold reply_to in *. destruct (serve _ _ _ _ _ _ _ _ _ _ _ _ _ _ _) as [a st']. cbn [fst] in Ha. split; [exact Ha|].
  refine (proj1 (Hp _)). vm_compute. reflexivity.
Defined.

(** A token that is revoked between a handshake's check and its session keeps its client: the
    kick comes before the client is there.  The client stays until the next change. *)
Example revoked_during_upgrade :
  let shake := websocket (H := list_mpsc Frame) None None ServerSample.headers ServerSample.node in
  let st1 := snd (apply (H := list_mpsc Frame) EdgeHub.Sample.iter ServerSample.directive 7 (snd shake)) in
  let st2 := snd (session_start (H := list_mpsc Frame) "1.2.3.4" 99 "env" 0 8 st1) in
  fst shake = Upgrade "env" 0 /\ is_live "env" (auth st1) = false
  /\ map (fun c => (client_ip c, token_id c)) (client_list (H := list_mpsc Frame) EdgeHub.Sample.iter (edge_hub st2)) = [("1.2.3.4"%string, Some "env"%string)].
Proof. repeat split; vm_compute; reflexivity. Qed.

(** Handshakes that pass the check side by side all become clients, also beyond the limit. *)
Example admission_overshoots :
  let shake st := fst (websocket (H := list_mpsc Frame) None None ServerSample.headers st) in
  let enter port st := snd (session_start (H := list_mpsc Frame) "1.2.3.4" port "env" 0 8 st) in
  let almost := enter 1 ServerSample.node in
  let after := enter 3 (enter 2 almost) in
  shake almost = Upgrade "env" 0 /\ clients (edge_hub almost) = 2 /\ max_clients (config after) = 3 /\ clients (edge_hub after) = 4.
Proof. repeat split; vm_compute; reflexivity. Qed.
End RoutesSample.
