(* ===== verification/ConsoleFeed.v ===== *)
(** * ConsoleFeed: what the console pulls from the service ([src/console/feed.rs],
    [src/console/upstream.rs])

    The panel's live feed — one WebSocket to the service, its frames rebroadcast to the
    panel's viewers — and the polled status with the contract text.  tokio's broadcast
    channel and the HTTP client are interfaces. *)
From S2P Require Import Prelude.

(** ** The broadcast channel ([tokio::sync::broadcast])

    Documented behaviour: a receiver gets every message sent after it subscribed, in
    order; one that is more than the capacity behind is told that it lagged. *)

Inductive recv_result (A R : Type) := RecvMessage (x : A) (r : R) | RecvLagged | RecvEmpty.
#[global] Arguments RecvMessage {_ _} _ _.
#[global] Arguments RecvLagged {_ _}.
#[global] Arguments RecvEmpty {_ _}.

Class Broadcast (A : Type) := {
  sender : Type;
  receiver : Type;
  bc_channel : Z -> sender;
  bc_send : sender -> A -> sender;
  bc_subscribe : sender -> receiver;
  bc_recv : sender -> receiver -> recv_result A receiver;
  bc_log : sender -> list A;
  bc_capacity : sender -> Z;
  bc_position : receiver -> nat;
  bc_channel_spec n : bc_log (bc_channel n) = [] /\ bc_capacity (bc_channel n) = n;
  bc_send_spec s x : bc_log (bc_send s x) = bc_log s ++ [x] /\ bc_capacity (bc_send s x) = bc_capacity s;
  bc_subscribe_spec s : bc_position (bc_subscribe s) = length (bc_log s);
  bc_recv_spec s r :
    match bc_recv s r with
    | RecvMessage x r' => bc_log s !! bc_position r = Some x /\ bc_position r' = S (bc_position r)
    | RecvLagged => bc_capacity s < zlen (bc_log s) - Z.of_nat (bc_position r)
    | RecvEmpty => (length (bc_log s) <= bc_position r)%nat
    end }.

(** The log itself, for examples. *)
Record log_sender (A : Type) := { ls_log : list A; ls_capacity : Z }.
#[global] Arguments ls_log {_} _.
#[global] Arguments ls_capacity {_} _.
Definition log_broadcast (A : Type) : Broadcast A.
Proof.
  refine {| sender := log_sender A; receiver := nat;
            bc_channel n := {| ls_log := []; ls_capacity := n |};
            bc_send s x := {| ls_log := ls_log s ++ [x]; ls_capacity := ls_capacity s |};
            bc_subscribe s := length (ls_log s);
            bc_recv s r := if ls_capacity s <? zlen (ls_log s) - Z.of_nat r then RecvLagged
                           else match ls_log s !! r with Some x => RecvMessage x (S r) | None => RecvEmpty end;
            bc_log := ls_log; bc_capacity := ls_capacity; bc_position := fun r => r |}; try done.
  intros s r. destruct (ls_capacity s <? zlen (ls_log s) - Z.of_nat r) eqn:E; [by apply Z.ltb_lt in E|]. destruct (ls_log s !! r) as [x|] eqn:El; [done|]. by apply lookup_ge_None in El.
Defined.

(** ** The panel feed *)

Definition RECENT_FRAMES : nat := 48.
Definition WARMUP_SEQUENCES : Z := 60.
Definition BROADCAST_CAPACITY : Z := 256.

Section Feed.
Context `{Broadcast bytes}.

Record Feed := {
  tx : sender;
  recent : list bytes;
  connected : bool;
  frames_total : Z;
  last_frame_at_ms : Z;
  reconnects : Z }.

Definition feed_default : Feed :=
  {| tx := bc_channel BROADCAST_CAPACITY; recent := []; connected := false; frames_total := 0; last_frame_at_ms := 0; reconnects := 0 |}.

Definition set_connected (b : bool) (f : Feed) : Feed :=
  {| tx := tx f; recent := recent f; connected := b; frames_total := frames_total f; last_frame_at_ms := last_frame_at_ms f;
     reconnects := reconnects f |}.

(** Under one lock: the recent frames and a receiver for the later ones. *)
Definition feed_subscribe (f : Feed) : list bytes * receiver := (recent f, bc_subscribe (tx f)).

Definition feed_publish (frame : bytes) (now : Z) (f : Feed) : Feed :=
  {| tx := bc_send (tx f) frame;
     recent := (if Nat.eqb (length (recent f)) RECENT_FRAMES then tail (recent f) else recent f) ++ [frame];
     connected := connected f; frames_total := u64_add (frames_total f) 1; last_frame_at_ms := now; reconnects := reconnects f |}.

(** *** A viewer ([panel_ws_session] in [server.rs]) *)

Record Viewer := { rx : receiver; delivered : list bytes; open : bool }.

(** The session first sends the recent frames. *)
Definition viewer_open (f : Feed) : Viewer :=
  let '(r, rx) := feed_subscribe f in {| rx := rx; delivered := r; open := true |}.

(** [Publish]: the feed gets a frame; [Poll ok]: the session waits for its receiver, the
    send succeeding or not; [Gone]: the browser closes. *)
Inductive viewer_step := Publish (frame : bytes) (now : Z) | Poll (ok : bool) | Gone.

Definition poll (ok : bool) (f : Feed) (v : Viewer) : Viewer :=
  if negb (open v) then v else
  match bc_recv (tx f) (rx v) with
  | RecvMessage x r => if ok then {| rx := r; delivered := delivered v ++ [x]; open := true |}
                       else {| rx := r; delivered := delivered v; open := false |}
  | RecvLagged => {| rx := rx v; delivered := delivered v; open := false |}
  | RecvEmpty => v
  end.

Definition viewer_run1 (s : Feed * Viewer) (st : viewer_step) : Feed * Viewer :=
  match st with
  | Publish frame now => (feed_publish frame now (fst s), snd s)
  | Poll ok => (fst s, poll ok (fst s) (snd s))
  | Gone => (fst s, {| rx := rx (snd s); delivered := delivered (snd s); open := false |})
  end.
Definition viewer_run := foldl viewer_run1.

(** *** The connection to the service *)

Definition dial_url (url : string) (latest : Z) (skip_warmup : bool) : string :=
  if negb skip_warmup && (WARMUP_SEQUENCES <? latest)
  then url +:+ "?after_sequence=" +:+ fmt_u64 (latest - WARMUP_SEQUENCES) else url.

Inductive FeedEnd := CursorRejected | Other (what : string).
Definition CURSOR_REJECTED : Z := 1013.

Inductive feed_event :=
| EvPing (failure : option string)
| EvTimeout
| EvEnd
| EvReadError (e : string)
| EvBinary (frame : bytes) (now : Z)
| EvClose (code : option Z)
| EvOther.

(** [fmt_code] is [{code:?}]. *)
Variable fmt_code : option Z -> string.

(** [None]: the events are used up and the session is still on. *)
Fixpoint session_loop (events : list feed_event) (f : Feed) : option (result FeedEnd unit) * Feed :=
  match events with
  | [] => (None, f)
  | e :: events =>
      match e with
      | EvPing (Some x) => (Some (Err (Other ("ping: " +:+ x))), f)
      | EvPing None | EvOther => session_loop events f
      | EvTimeout => (Some (Err (Other "no message for 60s")), f)
      | EvEnd => (Some (Ok tt), f)
      | EvReadError x => (Some (Err (Other ("read: " +:+ x))), f)
      | EvBinary frame now => session_loop events (feed_publish frame now f)
      | EvClose code => (Some (Err (if bool_decide (code = Some CURSOR_REJECTED) then CursorRejected
                                    else Other ("close " +:+ fmt_code code))), f)
      end
  end.

(** The connection attempt: its error text, or the session. *)
Definition session (connect : result string unit) (events : list feed_event) (f : Feed) : option (result FeedEnd unit) * Feed :=
  match connect with
  | Err e => (Some (Err (Other e)), f)
  | Ok _ => session_loop events (set_connected true f)
  end.

Record FeedLoop := { backoff_s : Z; first : bool; skip_warmup : bool }.
Definition feed_loop_new : FeedLoop := {| backoff_s := 1; first := true; skip_warmup := false |}.

(** One turn of [run_feed] up to the end of its session; the dial it makes is
    [dial_url url latest (skip_warmup l)]. *)
Definition feed_round (connect : result string unit) (events : list feed_event) (elapsed_s : Z) (f : Feed) (l : FeedLoop)
  : option (Feed * FeedLoop) :=
  let f := if first l then f
           else {| tx := tx f; recent := recent f; connected := connected f; frames_total := frames_total f;
                   last_frame_at_ms := last_frame_at_ms f; reconnects := u64_add (reconnects f) 1 |} in
  let grown := if first l then backoff_s l else Z.min (backoff_s l * 2) 15 in
  match session connect events f with
  | (None, _) => None
  | (Some r, f) =>
      Some (set_connected false f,
            {| backoff_s := if 30 <=? elapsed_s then 1 else grown; first := false;
               skip_warmup := match r with Err CursorRejected => true | _ => false end |})
  end.

(** ** Properties of the feed *)

Definition feed_ok (f : Feed) : Prop := recent f = last_n RECENT_FRAMES (bc_log (tx f)).

Lemma feed_publish_ok frame now f : feed_ok f -> feed_ok (feed_publish frame now f).
Proof.
  unfold feed_ok, feed_publish. cbn [recent tx]. intros E. destruct (bc_send_spec (tx f) frame) as [-> _].
  rewrite <- last_n_snoc, <- E. assert (Hl : (length (recent f) <= RECENT_FRAMES)%nat) by (rewrite E, last_n_length; lia).
  unfold last_n. rewrite length_app. cbn [length]. destruct (Nat.eqb_spec (length (recent f)) RECENT_FRAMES) as [El|El].
  - replace (length (recent f) + 1 - RECENT_FRAMES)%nat with 1%nat by lia. by destruct (recent f); [unfold RECENT_FRAMES in El; cbn in El|].
  - by replace (length (recent f) + 1 - RECENT_FRAMES)%nat with 0%nat by lia.
Qed.

Definition published (steps : list viewer_step) : list bytes :=
  omap (fun s => match s with Publish f _ => Some f | _ => None end) steps.

(** A panel viewer.  It receives the last 48 frames and then every later one, once
    and in order, until it is closed; it is closed only by its own connection or when it
    falls more than 256 frames behind — never does a frame go missing in between. *)
Theorem viewer_contiguous f0 steps :
  feed_ok f0 -> bc_capacity (tx f0) = BROADCAST_CAPACITY ->
  let '(f, v) := viewer_run (f0, viewer_open f0) steps in
  exists k, delivered v = last_n RECENT_FRAMES (bc_log (tx f0)) ++ take k (published steps)
    /\ feed_ok f
    /\ (open v = true -> forall ok, open (poll ok f v) = false -> ok = false \/ BROADCAST_CAPACITY < zlen (published steps) - Z.of_nat k)
    /\ (open v = true -> bc_recv (tx f) (rx v) = RecvEmpty -> take k (published steps) = published steps).
Proof.
  intros Hf Hcap.
  assert (Hrun : let '(f, v) := viewer_run (f0, viewer_open f0) steps in
    bc_log (tx f) = bc_log (tx f0) ++ published steps /\ feed_ok f /\ bc_capacity (tx f) = BROADCAST_CAPACITY
    /\ exists k, delivered v = last_n RECENT_FRAMES (bc_log (tx f0)) ++ take k (published steps)
       /\ (open v = true -> bc_position (rx v) = (length (bc_log (tx f0)) + k)%nat /\ (k <= length (published steps))%nat)).
  { induction steps as [|st steps IH] using rev_ind.
    { cbn. rewrite app_nil_r. split_and!; try done. exists 0%nat. cbn. rewrite app_nil_r. split; [exact Hf|]. intros _.
      split; [rewrite bc_subscribe_spec; lia|lia]. }
    unfold viewer_run in *. rewrite foldl_app. cbn [foldl]. destruct (foldl viewer_run1 (f0, viewer_open f0) steps) as [f v].
    destruct IH as (Hl & Hok & Hc & k & Hd & Hp). unfold published. rewrite omap_app. fold (published steps).
    destruct st as [frame now|ok|]; cbn [viewer_run1 fst snd omap list_omap].
    - destruct (bc_send_spec (tx f) frame) as [E1 E2]. split_and!; [cbn; by rewrite E1, Hl, <- app_assoc|by apply feed_publish_ok|cbn; congruence|].
      destruct (decide (k <= length (published steps))%nat) as [Hk|Hk].
      + exists k. rewrite take_app_le by lia. split; [done|]. intros Ho. rewrite length_app. destruct (Hp Ho). lia.
      + exists (length (published steps)). rewrite take_app_le, firstn_all by lia. rewrite take_ge in Hd by lia. split; [done|].
        intros Ho. destruct (Hp Ho). lia.
    - rewrite app_nil_r. split_and!; [done..|]. unfold poll. destruct (open v) eqn:Ho; cbn [negb]; [|exists k; split; [done|by rewrite Ho]].
      destruct (Hp eq_refl) as [Hpos Hk]. pose proof (bc_recv_spec (tx f) (rx v)) as Hr. destruct (bc_recv (tx f) (rx v)) as [x r| |].
      + destruct Hr as [Hx Hr]. rewrite Hl, Hpos, lookup_app_r in Hx by lia. replace (_ + k - _)%nat with k in Hx by lia.
        destruct ok; cbn [delivered open rx]; [|by exists k]. exists (S k). rewrite Hd, <- app_assoc. split.
        * f_equal. by erewrite take_S_r.
        * intros _. apply lookup_lt_Some in Hx. lia.
      + exists k. by split.
      + exists k. split; [done|]. by intros _.
    - rewrite app_nil_r. split_and!; [done..|]. exists k. by split. }
  destruct (viewer_run (f0, viewer_open f0) steps) as [f v]. destruct Hrun as (Hl & Hok & Hc & k & Hd & Hp).
  exists k. split; [done|]. split; [done|]. split; intros Ho; destruct (Hp Ho) as [Hpos Hk]; pose proof (bc_recv_spec (tx f) (rx v)) as Hr.
  - intros ok. unfold poll. rewrite Ho. cbn [negb]. destruct (bc_recv (tx f) (rx v)) as [x r| |].
    + destruct ok; [done|by left].
    + intros _. right. rewrite Hc, Hl, Hpos in Hr. rewrite zlen_app in Hr. unfold zlen in *. lia.
    + by rewrite Ho.
  - intros E. rewrite E, Hl, Hpos, length_app in Hr. apply take_ge. lia.
Qed.

(** The warm-up cursor.  Only a session that ended with 1013 makes the next dial live
    only, and only the next: the one after it asks for history again. *)
Theorem warmup_skipped_once connect events elapsed f l f' l' url latest :
  feed_round connect events elapsed f l = Some (f', l') -> WARMUP_SEQUENCES < latest ->
  (dial_url url latest (skip_warmup l') = url <-> fst (session connect events f) = Some (Err CursorRejected))
  /\ connected f' = false /\ first l' = false /\ (30 <= elapsed -> backoff_s l' = 1).
Proof.
  unfold feed_round. intros Hr Hlat.
  assert (Hfst : forall g, fst (session connect events g) = fst (session connect events f)).
  { intros g. unfold session. destruct connect as [u|e]; [|done].
    assert (Hg : forall es a b, fst (session_loop es a) = fst (session_loop es b)).
    { induction es as [|e es IH]; intros a b; [done|]. destruct e as [[x|]| | |x|frame now|code|]; cbn; try done; apply IH. }
    apply Hg. }
  set (g := if first l then f else _) in Hr. rewrite <- (Hfst g).
  destruct (session connect events g) as [[r|] f1]; [|done]. injection Hr as <- <-. cbn [fst skip_warmup connected set_connected first backoff_s].
  split.
  - unfold dial_url. replace (WARMUP_SEQUENCES <? latest) with true by lia. destruct r as [u|[|x]]; cbn [negb andb]; try done.
    1,2: split; [|done]; intros E; exfalso.
    1,2: apply (f_equal String.length) in E; rewrite !str_length_app in E; cbn in E; lia.
  - split_and!; try done. intros He. by replace (30 <=? elapsed) with true by lia.
Qed.
End Feed.

(** ** The polled status *)

(** What the console reads of a JSON document. *)
Record Json := { json_u64 : string -> option Z; json_bool : string -> option bool }.

Record UpstreamSnapshot := {
  base_url : string;
  fetched_at_ms : Z;
  ok : bool;
  error : option string;
  healthz : option Json;
  dashboard : option Json;
  latest_sequence : Z }.

Definition snapshot_default : UpstreamSnapshot :=
  {| base_url := ""; fetched_at_ms := 0; ok := false; error := None; healthz := None; dashboard := None; latest_sequence := 0 |}.

(** What the HTTP client reports for a GET: no response, or a status with a body that
    is JSON or not. *)
Inductive http_reply := SendFailed (e : string) | Replied (success : bool) (status : string) (body : result string Json).

(** [s.split(p).next()] *)
Fixpoint before (p s : string) : string :=
  if starts_with p s then EmptyString
  else match s with EmptyString => EmptyString | String c s => String c (before p s) end.
Definition redact (url : string) : string := before "?token=" url.

Definition get_json (http : string -> http_reply) (url : string) : result string Json :=
  match http url with
  | SendFailed e => Err (redact url +:+ ": " +:+ e)
  | Replied false status _ => Err (redact url +:+ ": HTTP " +:+ status)
  | Replied true _ (Err e) => Err (redact url +:+ ": " +:+ e)
  | Replied true _ (Ok j) => Ok j
  end.

Definition fetch (http : string -> http_reply) (base : string) (dashboard_token : option string) : result string (Json * option Json) :=
  healthz ← get_json http (base +:+ "/healthz");
  dash ← match dashboard_token with
         | Some token => d ← get_json http (base +:+ "/uma/v1/dashboard-data?token=" +:+ token); Ok (Some d)
         | None => Ok None
         end;
  Ok (healthz, dash).

(** [dashboard.get(f).or_else(healthz.get(f)).and_then(as_u64)]; [has_field] is the presence of
    the field, number or not. *)
Definition latest_of (has_field : Json -> bool) (healthz : Json) (dash : option Json) : Z :=
  let f := "event_ring_latest_sequence"%string in
  default 0
    match dash with
    | Some d => if has_field d then json_u64 d f else if has_field healthz then json_u64 healthz f else None
    | None => if has_field healthz then json_u64 healthz f else None
    end.

(** One tick of [run_upstream_poller]; [now] is read after the fetch. *)
Definition poll_upstream (has_field : Json -> bool) (http : string -> http_reply) (base : string) (dashboard_token : option string)
    (now : Z) (s : UpstreamSnapshot) : UpstreamSnapshot :=
  match fetch http base dashboard_token with
  | Ok (h, d) =>
      {| base_url := base; fetched_at_ms := now; ok := true; error := None; healthz := Some h; dashboard := d;
         latest_sequence := latest_of has_field h d |}
  | Err e =>
      {| base_url := base; fetched_at_ms := fetched_at_ms s; ok := false; error := Some e; healthz := healthz s;
         dashboard := dashboard s; latest_sequence := latest_sequence s |}
  end.

(** The data of the last tick that succeeded. *)
Fixpoint last_success (polls : list ((string -> http_reply) * Z)) (base : string) (token : option string) : option (Json * option Json * Z) :=
  match polls with
  | [] => None
  | (http, now) :: polls =>
      match last_success polls base token with
      | Some r => Some r
      | None => match fetch http base token with Ok (h, d) => Some (h, d, now) | Err _ => None end
      end
  end.

(** The polled status.  Whatever fails, it shows the data and the time of the last
    poll that succeeded — nothing before the first — and [ok] exactly when that was the
    last poll, an error otherwise. *)
Theorem poll_keeps_last_success has_field base token polls http now :
  let s := foldl (fun s p => poll_upstream has_field (fst p) base token (snd p) s) snapshot_default (polls ++ [(http, now)]) in
  match last_success (polls ++ [(http, now)]) base token with
  | Some (h, d, t) => healthz s = Some h /\ dashboard s = d /\ fetched_at_ms s = t /\ latest_sequence s = latest_of has_field h d
  | None => healthz s = None /\ dashboard s = None /\ fetched_at_ms s = 0 /\ latest_sequence s = 0
  end
  /\ match fetch http base token with
     | Ok _ => ok s = true /\ error s = None
     | Err e => ok s = false /\ error s = Some e
     end.
Proof.
  assert (Hsnoc : forall ps p, last_success (ps ++ [p]) base token
    = match fetch (fst p) base token with Ok (h, d) => Some (h, d, snd p) | Err _ => last_success ps base token end).
  { induction ps as [|[hq nq] ps IH]; intros [hp np]; cbn [app last_success]; [done|]. rewrite IH.
    cbn [fst snd]. by destruct (fetch hp base token) as [[h d]|e]. }
  assert (Hdata : forall ps, let s := foldl (fun s p => poll_upstream has_field (fst p) base token (snd p) s) snapshot_default ps in
    match last_success ps base token with
    | Some (h, d, t) => healthz s = Some h /\ dashboard s = d /\ fetched_at_ms s = t /\ latest_sequence s = latest_of has_field h d
    | None => healthz s = None /\ dashboard s = None /\ fetched_at_ms s = 0 /\ latest_sequence s = 0
    end).
  { induction ps as [|p ps IH] using rev_ind; [done|]. cbv zeta in *. rewrite foldl_app, Hsnoc. cbn [foldl].
    set (s := foldl _ _ ps) in *. unfold poll_upstream. by destruct (fetch (fst p) base token) as [[h d]|e]. }
  cbv zeta. split; [apply (Hdata (polls ++ [(http, now)]))|]. rewrite foldl_app. cbn [foldl fst snd].
  set (s := foldl _ _ polls). unfold poll_upstream. by destruct (fetch http base token) as [[h d]|e].
Qed.

(** ** The contract text *)

Record LlmsCache := { llms_fetched_at_ms : Z; llms_body : option string }.

(** [fetched] is what a GET of [{base}/llms.txt] yields, asked for only when the cache
    is too old. *)
Definition llms_text (cluster base : string) (cache_ms now : Z) (fetched : option string) (c : LlmsCache) : string * LlmsCache :=
  let cached := if bool_decide (is_Some (llms_body c)) && (sat_sub now (llms_fetched_at_ms c) <? cache_ms) then llms_body c else None in
  let '(upstream, c) :=
    match cached with
    | Some body => (body, c)
    | None =>
        match fetched with
        | Some body => (body, {| llms_fetched_at_ms := now; llms_body := Some body |})
        | None => (default ("(上游 " +:+ base +:+ "/llms.txt 暂时不可达，稍后重试)" +:+ String "010" "") (llms_body c), c)
        end
    end in
  (cluster +:+ String "010" (String "010" ("---" +:+ String "010" (String "010" upstream))), c).

(** A copy younger than the limit is served without a request, an older one survives a
    failed refresh. *)
Theorem llms_text_serves_copy cluster base cache_ms now fetched c body :
  llms_body c = Some body ->
  (sat_sub now (llms_fetched_at_ms c) < cache_ms -> llms_text cluster base cache_ms now fetched c = llms_text cluster base cache_ms now None c
     /\ snd (llms_text cluster base cache_ms now fetched c) = c)
  /\ llms_body (snd (llms_text cluster base cache_ms now None c)) = Some body
  /\ (cache_ms <= sat_sub now (llms_fetched_at_ms c) -> forall new, fetched = Some new ->
        llms_body (snd (llms_text cluster base cache_ms now fetched c)) = Some new).
Proof.
  intros Hb. unfold llms_text. rewrite Hb. rewrite bool_decide_true by done. cbn [andb].
  destruct (Z.ltb_spec (sat_sub now (llms_fetched_at_ms c)) cache_ms); (split; [intros; try lia; done|split; [done|]]); [lia|].
  by intros _ new ->.
Qed.

(** ** Examples *)

Module FeedSample.
#[local] Instance channel : Broadcast bytes := log_broadcast bytes.
Definition frame (i : Z) : bytes := [byte_of i].
Definition warm : Feed := feed_publish (frame 2) 20 (feed_publish (frame 1) 10 feed_default).
Definition steps : list viewer_step := [Publish (frame 3) 30; Poll true; Publish (frame 4) 40; Publish (frame 5) 50; Poll true].
End FeedSample.
Import FeedSample.

Lemma viewer_contiguous_witness :
  let s := viewer_run (H := channel) (warm, viewer_open warm) steps in
  delivered (snd s) = [frame 1; frame 2; frame 3; frame 4]
  /\ exists k, delivered (snd s) = last_n RECENT_FRAMES (bc_log (tx warm)) ++ take k (published steps).
Proof.
  intros s. split; [vm_compute; reflexivity|].
  pose proof (viewer_contiguous (H := channel) warm steps) as H. unfold s.
  destruct (viewer_run (warm, viewer_open warm) steps) as [f v]. destruct H as (k & Hk & _); [vm_compute; reflexivity..|]. by exists k.
Defined.

(** A rejected cursor, then a session that ends normally. *)
Lemma warmup_skipped_once_witness :
  exists f l, feed_round (H := channel) (fun _ => "") (Ok tt) [EvClose (Some 1013)] 5 warm feed_loop_new = Some (f, l)
    /\ dial_url "ws://x" 1000 (skip_warmup l) = "ws://x".
Proof.
  eexists _, _. split; [reflexivity|].
  apply (warmup_skipped_once (H := channel) (fun _ => "") (Ok tt) [EvClose (Some 1013)] 5 warm feed_loop_new _ _ "ws://x" 1000 eq_refl);
    [unfold WARMUP_SEQUENCES; lia|reflexivity].
Defined.

Example redact_example :
  redact "http://h:8011/uma/v1/dashboard-data?token=secret" = "http://h:8011/uma/v1/dashboard-data".
Proof. vm_compute. reflexivity. Qed.

Lemma llms_text_serves_copy_witness :
  llms_body (snd (llms_text "c" "http://h" 300 1000 None {| llms_fetched_at_ms := 10; llms_body := Some "old" |})) = Some "old"%string.
Proof.
  exact (proj1 (proj2 (llms_text_serves_copy "c" "http://h" 300 1000 None {| llms_fetched_at_ms := 10; llms_body := Some "old" |} "old" eq_refl))).
Defined.
