(* ===== verification/ConsoleTests.v ===== *)
(** * ConsoleTests: further tests of [src/console/] on the model

    The functions of the test modules of [tokens.rs], [store.rs] and [feed.rs] under their
    names.  The random strings of a token and the clock are inputs of the model, a test
    directory is the disk. *)
From S2P Require Import Prelude Testing Channel EdgeHub Tokens EdgeServer Registry Store ConsoleFeed.

(** ** [tokens.rs] *)

Definition take_ascii (n : nat) (s : string) : string := str_of_bytes (take n (bytes_of_str s)).
Definition secret_of (c : ascii) : string := string_of_list_ascii (replicate 48 c).
Abbreviation T := (Test TokenStore).
Definition versions (v : Z) : T unit := n ← peek (fun s => version (inner s)); assert (n =? v).
Definition switch (i : string) (on : bool) : T bool := r ← calling (set_enabled i on 1 true); unwrap r.

Definition lifecycle_persists_and_versions : T unit :=
  versions 0 ;;
  a ← calling (create "alpha" "id-a" (secret_of "a") 1 true); a ← unwrap a;
  b ← calling (create "beta" "id-b" (secret_of "b") 1 true); b ← unwrap b;
  assert (String.length (secret a) =? 48)%nat ;; assert (negb (eqb (secret a) (secret b))) ;;
  versions 2 ;;
  g ← peek grants; assert (zlen (snd g) =? 2) ;;
  r ← switch (id a) false; assert r ;;
  g ← peek grants; assert (fst g =? 3) ;; assert (zlen (snd g) =? 1) ;;
  left ← expect (head (snd g)); assert (eqb (grant_id left) (id b)) ;;
  r ← switch "nope" true; assert (negb r) ;; versions 3 ;;
  act (fun s => open_store (Tokens.disk s)) ;;
  versions 3 ;;
  l ← peek (list_tokens take_ascii);
  assert (zlen l =? 2) ;; assert (forallb (fun t => String.length (prefix t) =? 6)%nat l) ;;
  r ← calling (delete_token (id b) true); r ← unwrap r; assert r ;;
  g ← peek grants; assert (zlen (snd g) =? 0).

(** ** [store.rs] *)

(** Small numbers as bytes between brackets, for serde_json on [Vec<u32>]. *)
Definition numbers_to (l : list Z) : option bytes :=
  if bool_decide (map byte_val (map byte_of l) = l) then Some (x5b :: map byte_of l) else None.
Definition numbers_from (b : bytes) : option (list Z) := match b with x5b :: b => Some (map byte_val b) | _ => None end.
#[local] Instance numbers_json : JsonCodec (list Z).
Proof.
  refine {| to_vec_pretty := numbers_to; from_slice := numbers_from |}.
  intros a b. unfold numbers_to. case_bool_decide as E; [|done]. intros [= <-]. cbn. by rewrite E.
Defined.

Definition roundtrip_and_missing : Test Files unit :=
  let path := "dir/x.json"%string in
  v ← peek (load_json (A := list Z) path true); v ← unwrap v; assert (eqb v None) ;;
  told ← calling (fun fs => let '(fs, told) := save_json path [1; 2; 3] Renames fs in (told, fs));
  told ← expect told; unwrap told ;;
  v ← peek (load_json path true); v ← unwrap v; assert (eqb v (Some [1; 2; 3])) ;;
  left ← peek (fun fs => bool_decide (is_Some (fs !! with_extension "json.tmp" path))); assert (negb left).

(** ** [feed.rs] *)

Definition warm_up_cursor_is_dropped_after_a_rejection : bool :=
  let url := "ws://x/uma/v1/ws"%string in
  eqb (map (fun '(latest, skip) => dial_url url latest skip) [(1000, false); (1000, true); (10, false)])
      [url +:+ "?after_sequence=940"; url; url].

Example console_tests_pass :
  [passes lifecycle_persists_and_versions (open_store None); passes roundtrip_and_missing ∅; warm_up_cursor_is_dropped_after_a_rejection]
  = replicate 3 true.
Proof. vm_compute. reflexivity. Qed.
