(* ===== verification/Alerts.v ===== *)
(** * Alerts: the console's alert engine ([src/console/alerts.rs])

    Each tick the rules are evaluated against the polled status, the node views and the
    panel feed; a condition must hold for a while before it fires and must be gone for a
    while before it is resolved; what is new, due for a reminder or resolved goes out as
    one message.  serde_json values are the interface [Json]; the texts of numbers that are
    floats are parameters. *)
From S2P Require Import Prelude Float64 ConsoleFeed Registry.

Definition MINUTE_MS : Z := 60000.
Definition HOUR_MS : Z := 60 * MINUTE_MS.
Definition SERIES_KEEP_MS : Z := HOUR_MS + 5 * MINUTE_MS.
Definition RETRY_AFTER_FAILURE_MS : Z := 60000.
Definition MAX_PENDING_RESOLVED : nat := 200.

(** ** Data *)

Record AlertRules := {
  upstream_unreachable_s : Z;
  rpc_disconnected_s : Z;
  rpc_sources_degraded_s : Z;
  rpc_reconnects_per_30m : Z;
  upstream_silent_min : Z;
  enrichment_recent_min_pct : f64;
  enrichment_misses_per_1h : Z;
  decode_errors_per_1h : Z;
  slow_clients_per_10m : Z;
  cursor_rejected_per_10m : Z;
  storage_dropped_per_10m : Z;
  catalog_min_markets : Z;
  min_serving_nodes : Z;
  edge_stale_s : Z;
  edge_upstream_down_s : Z;
  edge_sequence_lag : Z;
  edge_sequence_lag_s : Z;
  edge_link_lag_ms : Z;
  edge_link_lag_s : Z;
  edge_accepted_per_1h : Z;
  edge_slow_clients_per_10m : Z;
  edge_bad_frames_per_10m : Z;
  edge_full_pct : Z;
  edge_full_s : Z;
  panel_feed_down_s : Z;
  resolve_after_s : Z;
  repeat_after_min : Z }.

Definition AlertRules_default : AlertRules :=
  {| upstream_unreachable_s := 60; rpc_disconnected_s := 30; rpc_sources_degraded_s := 300; rpc_reconnects_per_30m := 6;
     upstream_silent_min := 20; enrichment_recent_min_pct := f64_lit 950 10; enrichment_misses_per_1h := 30;
     decode_errors_per_1h := 30; slow_clients_per_10m := 3; cursor_rejected_per_10m := 10; storage_dropped_per_10m := 1;
     catalog_min_markets := 200000; min_serving_nodes := 1; edge_stale_s := 30; edge_upstream_down_s := 60;
     edge_sequence_lag := 20; edge_sequence_lag_s := 60; edge_link_lag_ms := 1000; edge_link_lag_s := 60;
     edge_accepted_per_1h := 800; edge_slow_clients_per_10m := 20; edge_bad_frames_per_10m := 1; edge_full_pct := 95;
     edge_full_s := 300; panel_feed_down_s := 300; resolve_after_s := 60; repeat_after_min := 60 |}.

(** [load_rules]: a missing or unreadable file is the default. *)
Definition load_rules (file : result string (option AlertRules)) : AlertRules :=
  match file with Ok (Some r) => r | Ok None | Err _ => AlertRules_default end.

Inductive Severity := Critical | Warning.
#[global] Instance Severity_eq_dec : EqDecision Severity.
Proof. solve_decision. Defined.
Definition severity_rank (s : Severity) : Z := match s with Critical => 0 | Warning => 1 end.
Definition severity_label (s : Severity) : string := match s with Critical => "🔴 严重" | Warning => "🟠 警告" end.

Record Finding := {
  fi_rule : string; fi_title : string; fi_severity : Severity; fi_subject : string; fi_detail : string; hold_ms : Z }.

Record Condition := {
  co_rule : string; co_title : string; co_severity : Severity; co_subject : string; co_detail : string;
  pending_since : Z; firing : bool; notified_ms : option Z; absent_since : option Z }.

Record Resolved := { re_title : string; re_subject : string; lasted_ms : Z }.

Record AlertView := {
  av_rule : string; av_title : string; av_severity : Severity; av_subject : string; av_detail : string;
  since_ms : Z; av_firing : bool }.

Record Inputs := { in_upstream : UpstreamSnapshot; in_nodes : list NodeView; feed_connected : bool }.
Record Notification := { text : string; keys : list string; resolved_count : nat }.

(** ** Counter samples *)

(** Oldest first: the time and the value. *)
Abbreviation Series := (list (Z * Z)).

Fixpoint drop_old (now : Z) (s : Series) : Series :=
  match s with
  | (at_, v) :: rest => if SERIES_KEEP_MS <? sat_sub now at_ then drop_old now rest else s
  | [] => []
  end.
Definition series_push (now value : Z) (s : Series) : Series := drop_old now (s ++ [(now, value)]).

(** A smaller value is a counter that started over. *)
Definition growth (prev value : Z) : Z := if prev <=? value then value - prev else value.

Fixpoint increase_loop (start : Z) (prev : option Z) (total : Z) (s : Series) : Z :=
  match s with
  | [] => total
  | (at_, value) :: s =>
      let total := match prev with
                   | Some p => if start <=? at_ then u64_add total (growth p value) else total
                   | None => total
                   end in
      increase_loop start (Some value) total s
  end.
Definition series_increase (now window_ms : Z) (s : Series) : Z := increase_loop (sat_sub now window_ms) None 0 s.
Definition last_at (s : Series) : Z := match last s with Some (at_, _) => at_ | None => 0 end.

Record Engine := {
  eng_rules : AlertRules;
  series : gmap string Series;
  conditions : gmap string Condition;
  resolved : list Resolved }.

Definition engine_new (r : AlertRules) : Engine :=
  {| eng_rules := r; series := ∅; conditions := ∅; resolved := [] |}.

(** [counter]: without a value nothing is recorded. *)
Definition counter (key : string) (value : option Z) (now window_ms : Z) (s : gmap string Series) : option Z * gmap string Series :=
  match value with
  | None => (None, s)
  | Some v =>
      let x := series_push now v (default [] (s !! key)) in
      (Some (series_increase now window_ms x), <[key := x]> s)
  end.

Definition fmt_duration (ms : Z) : string :=
  let s := ms / 1000 in
  if s <? 60 then fmt_u64 s +:+ "s"
  else if s <? 3600 then fmt_u64 (s / 60) +:+ "m" +:+ fmt_u64 (s mod 60) +:+ "s"
  else fmt_u64 (s / 3600) +:+ "h" +:+ fmt_u64 (s mod 3600 / 60) +:+ "m".

(** ** The rules *)

Class FloatText := { fmt_f64 : f64 -> string; fmt_f64_1 : f64 -> string }.

Section Alerts.
Context `{FloatText}.

(** A check: it may report and it may record samples. *)
Definition check := gmap string Series -> list Finding * gmap string Series.
Definition seq_checks (cs : list check) : check :=
  fun s => foldl (fun acc c => let '(fs, s) := c (snd acc) in (fst acc ++ fs, s)) ([], s) cs.

Definition finding (rule title : string) (sev : Severity) (subject detail : string) (hold_s : Z) : Finding :=
  {| fi_rule := rule; fi_title := title; fi_severity := sev; fi_subject := subject; fi_detail := detail;
     hold_ms := u64_mul hold_s 1000 |}.
(** A check without samples. *)
Definition plain (c : bool) (f : Finding) : check := fun s => (if c then [f] else [], s).
(** A check on a counter's growth [n] over a window. *)
Definition growth_check (key : string) (value : option Z) (now window_ms threshold : Z) (f : Z -> Finding) : check := fun s =>
  let '(n, s) := counter key value now window_ms s in
  (match n with Some n => if threshold <=? n then [f n] else [] | None => [] end, s).

Definition UPSTREAM_RULES : list string :=
  ["rpc_disconnected"; "rpc_sources_degraded"; "rpc_reconnects"; "upstream_silent"; "enrichment_recent_low"; "enrichment_misses";
   "decode_errors"; "slow_clients"; "cursor_rejected"; "storage_dropped"; "catalog_small"]%string.
Definition EDGE_RULES : list string :=
  ["edge_stale"; "edge_upstream_down"; "edge_sequence_lag"; "edge_link_lag"; "edge_churn"; "edge_slow_clients"; "edge_bad_frames";
   "edge_near_full"; "cluster_serving_low"]%string.

Definition upstream_fresh (up : UpstreamSnapshot) : bool := ok up && (0 <? fetched_at_ms up).
(** [dashboard.or(healthz)] of a fresh snapshot *)
Definition upstream_data (up : UpstreamSnapshot) : option Json :=
  if upstream_fresh up then match dashboard up with Some d => Some d | None => healthz up end else None.

(** The rules on the service's counters, in the order of the code; the last three first. *)
Definition loss_checks (r : AlertRules) (now : Z) (data : Json) : list check :=
  let num := json_u64 data in
  [ growth_check "up:ws_cursor_rejected_total" (num "ws_cursor_rejected_total") now (10 * MINUTE_MS) (cursor_rejected_per_10m r)
      (fun n => finding "cursor_rejected" "下游续传游标频繁过期（1013，可能丢帧）" Warning ""
        ("近 10min " +:+ fmt_u64 n +:+ " 次（阈值 " +:+ fmt_u64 (cursor_rejected_per_10m r) +:+ "）") 0);
    growth_check "up:storage_queue_dropped_total" (num "storage_queue_dropped_total") now (10 * MINUTE_MS) (storage_dropped_per_10m r)
      (fun n => finding "storage_dropped" "tinyuma 本地 WAL 写入队列丢弃" Critical "" ("近 10min 丢弃 " +:+ fmt_u64 n +:+ " 条") 0);
    (let markets := default 0 (num "catalog_markets") in
     plain (bool_decide (is_Some (num "catalog_markets")) && (markets <? catalog_min_markets r))
       (finding "catalog_small" "富化缓存市场数异常偏少" Warning ""
          ("缓存 " +:+ fmt_u64 markets +:+ " 个市场（阈值 " +:+ fmt_u64 (catalog_min_markets r) +:+ "）") 300)) ].
Definition upstream_checks (r : AlertRules) (now : Z) (data : Json) : list check :=
  let num := json_u64 data in
  [ plain (bool_decide (json_bool data "rpc_connected" = Some false))
      (finding "rpc_disconnected" "tinyuma 的 Polygon RPC 订阅全部断开" Critical "" "rpc_connected=false" (rpc_disconnected_s r));
    (let '(c, n) := (default 0 (num "rpc_sources_connected"), default 0 (num "rpc_sources_configured")) in
     plain (bool_decide (is_Some (num "rpc_sources_connected")) && bool_decide (is_Some (num "rpc_sources_configured"))
            && (0 <? c) && (c <? n))
       (finding "rpc_sources_degraded" "多路 RPC 有掉线" Warning "" ("在线 " +:+ fmt_u64 c +:+ "/" +:+ fmt_u64 n +:+ " 路")
          (rpc_sources_degraded_s r)));
    growth_check "up:rpc_reconnects_total" (num "rpc_reconnects_total") now (30 * MINUTE_MS) (rpc_reconnects_per_30m r)
      (fun n => finding "rpc_reconnects" "RPC 订阅频繁重连" Warning ""
        ("近 30min 重连 " +:+ fmt_u64 n +:+ " 次（阈值 " +:+ fmt_u64 (rpc_reconnects_per_30m r) +:+ "）") 0);
    (let last_us := default 0 (num "last_upstream_received_at_us") in
     let idle_ms := sat_sub (u64_mul now 1000) last_us / 1000 in
     plain ((0 <? last_us) && (u64_mul (upstream_silent_min r) MINUTE_MS <=? idle_ms))
       (finding "upstream_silent" "长时间没收到链上 UMA 事件" Critical ""
          ("最近一次在 " +:+ fmt_duration idle_ms +:+ " 前（阈值 " +:+ fmt_u64 (upstream_silent_min r) +:+ "min），订阅可能假死") 0));
    (let '(hits, total) := (default 0 (num "enrichment_recent_hits"), default 0 (num "enrichment_recent_total")) in
     let pct := f64_div (f64_mul (f64_of_Z hits) (f64_of_Z 100)) (f64_of_Z total) in
     plain (bool_decide (is_Some (num "enrichment_recent_hits")) && bool_decide (is_Some (num "enrichment_recent_total"))
            && (200 <=? total) && f64_ltb pct (enrichment_recent_min_pct r))
       (finding "enrichment_recent_low" "富化命中率低（未命中的事件不会广播）" Warning ""
          ("近 " +:+ fmt_u64 total +:+ " 条命中 " +:+ fmt_f64_1 pct +:+ "%（阈值 " +:+ fmt_f64 (enrichment_recent_min_pct r) +:+ "%）") 0));
    growth_check "up:enrichment_misses_total" (num "enrichment_misses_total") now HOUR_MS (enrichment_misses_per_1h r)
      (fun n => finding "enrichment_misses" "富化未命中激增" Warning ""
        ("近 1h 未命中 " +:+ fmt_u64 n +:+ " 条（阈值 " +:+ fmt_u64 (enrichment_misses_per_1h r) +:+ "）") 0);
    growth_check "up:decode_errors_total" (num "decode_errors_total") now HOUR_MS (decode_errors_per_1h r)
      (fun n => finding "decode_errors" "链上日志解码失败激增" Warning ""
        ("近 1h 解码失败 " +:+ fmt_u64 n +:+ " 条（阈值 " +:+ fmt_u64 (decode_errors_per_1h r)
         +:+ "），看 journal 里的 discarding undecodable RPC log") 0);
    growth_check "up:slow_clients_dropped_total" (num "slow_clients_dropped_total") now (10 * MINUTE_MS) (slow_clients_per_10m r)
      (fun n => finding "slow_clients" "tinyuma 下游写超时断开" Warning ""
        ("近 10min " +:+ fmt_u64 n +:+ " 次（阈值 " +:+ fmt_u64 (slow_clients_per_10m r) +:+ "），法兰克福→香港链路可能拥塞") 0) ]
  ++ loss_checks r now data.

(** The rules on a node that is neither disabled nor stale. *)
Definition node_checks (r : AlertRules) (now latest : Z) (hb : Heartbeat) : list check :=
  let id := hb_node_id hb in
  let key field := "edge:" +:+ id +:+ ":" +:+ field in
  let lag := sat_sub latest (hb_last_event_sequence hb) in
  [ plain (negb (hb_upstream_connected hb))
      (finding "edge_upstream_down" "edge 与 tinyuma 断开" Critical id
         ("累计重连 " +:+ fmt_u64 (hb_upstream_reconnects_total hb) +:+ " 次") (edge_upstream_down_s r));
    plain ((0 <? latest) && (0 <? hb_last_event_sequence hb) && (edge_sequence_lag r <=? lag))
      (finding "edge_sequence_lag" "edge 事件序号落后" Warning id
         ("落后 " +:+ fmt_u64 lag +:+ " 条（阈值 " +:+ fmt_u64 (edge_sequence_lag r) +:+ "）") (edge_sequence_lag_s r));
    plain ((u64_mul (edge_link_lag_ms r) 1000 <=? hb_upstream_lag_last_us hb)
           && (sat_sub now (hb_last_frame_at_ms hb) <=? 2 * MINUTE_MS))
      (finding "edge_link_lag" "tinyuma→edge 传输延迟高" Warning id
         ("最近一帧 " +:+ fmt_duration (hb_upstream_lag_last_us hb / 1000) +:+ "（阈值 " +:+ fmt_u64 (edge_link_lag_ms r) +:+ "ms）")
         (edge_link_lag_s r));
    growth_check (key "clients_accepted_total"%string) (Some (hb_clients_accepted_total hb)) now HOUR_MS (edge_accepted_per_1h r)
      (fun n => finding "edge_churn" "edge 客户端反复断线重连" Warning id
        ("近 1h 新接入 " +:+ fmt_u64 n +:+ " 个连接，当前在线 " +:+ fmt_u64 (hb_clients hb) +:+ "（阈值 "
         +:+ fmt_u64 (edge_accepted_per_1h r) +:+ "）") 0);
    growth_check (key "slow_clients_disconnected_total"%string) (Some (hb_slow_clients_disconnected_total hb)) now (10 * MINUTE_MS)
      (edge_slow_clients_per_10m r)
      (fun n => finding "edge_slow_clients" "edge 慢客户端被踢" Warning id
        ("近 10min " +:+ fmt_u64 n +:+ " 个（阈值 " +:+ fmt_u64 (edge_slow_clients_per_10m r) +:+ "）") 0);
    growth_check (key "bad_frames_total"%string) (Some (hb_bad_frames_total hb)) now (10 * MINUTE_MS) (edge_bad_frames_per_10m r)
      (fun n => finding "edge_bad_frames" "edge 收到解析失败的帧" Warning id ("近 10min " +:+ fmt_u64 n +:+ " 帧") 0);
    plain ((0 <? hb_max_clients hb) && (u64_mul (hb_max_clients hb) (edge_full_pct r) <=? u64_mul (hb_clients hb) 100))
      (finding "edge_near_full" "edge 接近满员" Warning id
         (fmt_u64 (hb_clients hb) +:+ "/" +:+ fmt_u64 (hb_max_clients hb) +:+ "（阈值 " +:+ fmt_u64 (edge_full_pct r) +:+ "%）")
         (edge_full_s r)) ].

Definition node_check (r : AlertRules) (now latest : Z) (v : NodeView) : check :=
  match view_status v with
  | Disabled => seq_checks []
  | Stale => plain true (finding "edge_stale" "edge 失联（心跳中断）" Critical (node_name (view_node v))
                           ("心跳 " +:+ fmt_duration (sat_sub now (last_seen_ms (view_node v))) +:+ " 没到") (edge_stale_s r))
  | _ => seq_checks (node_checks r now latest (heartbeat_of (view_node v)))
  end.

(** The rules on the cluster and on the console itself. *)
Definition cluster_checks (r : AlertRules) (serving : Z) (connected : bool) : list check :=
  [ plain (serving <? min_serving_nodes r)
      (finding "cluster_serving_low" "服务中的 edge 节点太少" Critical ""
         ("服务中 " +:+ fmt_u64 serving +:+ " 台（阈值 " +:+ fmt_u64 (min_serving_nodes r) +:+ "）") 60);
    plain (negb connected)
      (finding "panel_feed_down" "面板实时转发断开" Warning "" "console → tinyuma 的 ws 未连上（只影响面板，不影响业务下游）"
         (panel_feed_down_s r)) ].

(** [evaluate]: the findings in order, the rules that were looked at, the samples. *)
Definition evaluate (now : Z) (i : Inputs) (r : AlertRules) (s : gmap string Series)
  : list Finding * list string * gmap string Series :=
  let up := in_upstream i in
  let fresh := upstream_fresh up in
  let data := upstream_data up in
  let latest := if fresh then latest_sequence up else 0 in
  let serving := zlen (List.filter (fun v => bool_decide (view_status v = Serving)) (in_nodes i)) in
  let '(fs, s) := seq_checks
    (plain (negb fresh) (finding "tinyuma_unreachable" "console 抓不到 tinyuma" Critical ""
                           (default "console 还没成功抓取过 /healthz"%string (error up)) (upstream_unreachable_s r))
     :: match data with Some d => upstream_checks r now d | None => [] end
     ++ map (node_check r now latest) (in_nodes i)
     ++ cluster_checks r serving (feed_connected i)) s in
  (fs,
   "tinyuma_unreachable"%string :: match data with Some _ => UPSTREAM_RULES | None => [] end ++ EDGE_RULES ++ ["panel_feed_down"%string],
   s).

(** ** A tick of the engine *)

Definition finding_key (f : Finding) : string := fi_rule f +:+ ":" +:+ fi_subject f.

(** A finding meets the condition of its key, if there is one. *)
Definition meet (now : Z) (f : Finding) (c : option Condition) : Condition :=
  let c := default {| co_rule := fi_rule f; co_title := fi_title f; co_severity := fi_severity f; co_subject := fi_subject f;
                      co_detail := ""; pending_since := now; firing := false; notified_ms := None; absent_since := None |} c in
  {| co_rule := co_rule c; co_title := co_title c; co_severity := co_severity c; co_subject := co_subject c;
     co_detail := fi_detail f; pending_since := pending_since c;
     firing := firing c || (hold_ms f <=? sat_sub now (pending_since c)); notified_ms := notified_ms c; absent_since := None |}.

Definition add_finding (now : Z) (m : gmap string Condition) (f : Finding) : gmap string Condition :=
  <[finding_key f := meet now f (m !! finding_key f)]> m.

(** A condition that was looked at and not found; the flag says it is over. *)
Definition absent (now resolve_ms : Z) (c : Condition) : Condition * bool :=
  if negb (firing c) then (c, true)
  else
    let since := default now (absent_since c) in
    ({| co_rule := co_rule c; co_title := co_title c; co_severity := co_severity c; co_subject := co_subject c;
        co_detail := co_detail c; pending_since := pending_since c; firing := firing c; notified_ms := notified_ms c;
        absent_since := Some since |}, resolve_ms <=? sat_sub now since).

(** What a removed condition leaves to report. *)
Definition to_resolved (now : Z) (c : Condition) : option Resolved :=
  if firing c && bool_decide (is_Some (notified_ms c)) then
    Some {| re_title := co_title c; re_subject := co_subject c;
            lasted_ms := sat_sub (default now (absent_since c)) (pending_since c) |}
  else None.

(** The keys of a BTreeMap in its order. *)
Definition ordered {A} (m : gmap string A) : list (string * A) :=
  sort_by (fun a b => negb (str_ltb (fst b) (fst a))) (map_to_list m).

(** Whether a condition is left alone this tick: it was found, or its rule not checked. *)
Definition untouched (present evaluated : list string) (p : string * Condition) : bool :=
  existsb (String.eqb (fst p)) present || negb (existsb (String.eqb (co_rule (snd p))) evaluated).

Definition age (now resolve_ms : Z) (present evaluated : list string) (p : string * Condition) : string * (Condition * bool) :=
  (fst p, if untouched present evaluated p then (snd p, false) else absent now resolve_ms (snd p)).
Definition kept (p : string * (Condition * bool)) : option (string * Condition) :=
  if snd (snd p) then None else Some (fst p, fst (snd p)).
Definition ended (now : Z) (p : string * (Condition * bool)) : option Resolved :=
  if snd (snd p) then to_resolved now (fst (snd p)) else None.

Definition tick_conditions (now resolve_ms : Z) (fs : list Finding) (evaluated : list string) (m : gmap string Condition)
  : gmap string Condition * list Resolved :=
  let aged := map (age now resolve_ms (map finding_key fs) evaluated) (ordered (foldl (add_finding now) m fs)) in
  (list_to_map (omap kept aged), omap (ended now) aged).

Definition observe (now : Z) (i : Inputs) (e : Engine) : Engine :=
  let '(fs, evaluated, s) := evaluate now i (eng_rules e) (series e) in
  let '(m, gone) := tick_conditions now (u64_mul (resolve_after_s (eng_rules e)) 1000) fs evaluated (conditions e) in
  {| eng_rules := eng_rules e;
     series := filter (fun p => sat_sub now (last_at (snd p)) <= SERIES_KEEP_MS) s;
     conditions := m;
     resolved := last_n MAX_PENDING_RESOLVED (resolved e ++ gone) |}.

(** ** Messages *)

Definition due (repeat_ms now : Z) (c : Condition) : bool :=
  firing c && match notified_ms c with Some at_ => repeat_ms <=? sat_sub now at_ | None => false end.
Definition unsent (c : Condition) : bool := firing c && match notified_ms c with None => true | Some _ => false end.

Definition group_key (p : string * Condition) : Z * string := (severity_rank (co_severity (snd p)), co_rule (snd p)).
(** The groups of a BTreeMap keyed by severity and rule, each with its items in order. *)
Definition groups_of (items : list (string * Condition)) : list (list Condition) :=
  let keys := sort_by (fun a b => (fst a <? fst b) || ((fst a =? fst b) && negb (str_ltb (snd b) (snd a)))) (remove_dups (map group_key items)) in
  map (fun k => map snd (List.filter (fun p => bool_decide (group_key p = k)) items)) keys.
Definition count_groups (items : list (string * Condition)) : Z := zlen (remove_dups (map group_key items)).

Definition nl : string := String "010" "".
Definition item_line (now : Z) (c : Condition) : string :=
  let lasted := fmt_duration (sat_sub now (pending_since c)) in
  if String.eqb (co_subject c) "" then nl +:+ "    " +:+ co_detail c +:+ "（已持续 " +:+ lasted +:+ "）"
  else nl +:+ "    " +:+ co_subject c +:+ "：" +:+ co_detail c +:+ "（已持续 " +:+ lasted +:+ "）".
Definition group_text (now : Z) (cs : list Condition) : string :=
  match cs with
  | [] => ""
  | c :: _ => nl +:+ severity_label (co_severity c) +:+ "｜" +:+ co_title c +:+ String.concat "" (map (item_line now) cs)
  end.
Definition append_section (name : string) (items : list (string * Condition)) (now : Z) : string :=
  match items with
  | [] => ""
  | _ => nl +:+ nl +:+ "—— " +:+ name +:+ " ——" +:+ String.concat "" (map (group_text now) (groups_of items))
  end.
Definition resolved_line (r : Resolved) : string :=
  nl +:+ "✅ " +:+ re_title r +:+ (if String.eqb (re_subject r) "" then "" else "：" +:+ re_subject r)
  +:+ "（持续 " +:+ fmt_duration (lasted_ms r) +:+ "）".

Definition fresh_items (e : Engine) : list (string * Condition) := List.filter (fun p => unsent (snd p)) (ordered (conditions e)).
Definition repeat_ms_of (e : Engine) : Z := u64_mul (Z.max (repeat_after_min (eng_rules e)) 1) MINUTE_MS.
Definition repeat_items (now : Z) (e : Engine) : list (string * Condition) :=
  List.filter (fun p => due (repeat_ms_of e) now (snd p)) (ordered (conditions e)).

Definition pending_message (now : Z) (panel_url : option string) (e : Engine) : option Notification :=
  let fresh := fresh_items e in
  let repeat := repeat_items now e in
  match fresh, repeat, resolved e with
  | [], [], [] => None
  | _, _, _ =>
      Some {| text := "【uma 告警】新触发 " +:+ fmt_u64 (count_groups fresh) +:+ " · 仍未恢复 " +:+ fmt_u64 (count_groups repeat)
                +:+ " · 已恢复 " +:+ fmt_u64 (zlen (resolved e))
                +:+ append_section "新触发" fresh now +:+ append_section "仍未恢复（到期提醒）" repeat now
                +:+ match resolved e with [] => "" | rs => nl +:+ nl +:+ "—— 已恢复 ——" +:+ String.concat "" (map resolved_line rs) end
                +:+ match panel_url with Some u => nl +:+ nl +:+ "面板：" +:+ u | None => "" end;
              keys := map fst fresh ++ map fst repeat;
              resolved_count := length (resolved e) |}
  end.

Definition set_notified (now : Z) (c : Condition) : Condition :=
  {| co_rule := co_rule c; co_title := co_title c; co_severity := co_severity c; co_subject := co_subject c;
     co_detail := co_detail c; pending_since := pending_since c; firing := firing c; notified_ms := Some now;
     absent_since := absent_since c |}.

Definition mark_sent (n : Notification) (now : Z) (e : Engine) : Engine :=
  {| eng_rules := eng_rules e; series := series e;
     conditions := foldl (fun m k => alter (set_notified now) k m) (conditions e) (keys n);
     resolved := drop (Nat.min (resolved_count n) (length (resolved e))) (resolved e) |}.

Definition view_of (p : string * Condition) : AlertView :=
  let c := snd p in
  {| av_rule := co_rule c; av_title := co_title c; av_severity := co_severity c; av_subject := co_subject c;
     av_detail := co_detail c; since_ms := pending_since c; av_firing := firing c |}.
Definition view_le (a b : AlertView) : bool :=
  if Bool.eqb (av_firing a) (av_firing b) then
    (severity_rank (av_severity a) <? severity_rank (av_severity b))
    || ((severity_rank (av_severity a) =? severity_rank (av_severity b))
        && (str_ltb (av_rule a) (av_rule b)
            || (String.eqb (av_rule a) (av_rule b) && negb (str_ltb (av_subject b) (av_subject a)))))
  else av_firing a.
Definition views (e : Engine) : list AlertView := sort_by view_le (map view_of (ordered (conditions e))).

(** ** The loop *)

Record Delivery := {
  webhook_configured : bool; sent_total : Z; last_sent_ms : Z; last_error : option string; last_error_ms : Z }.
Record AlertsState := { engine : Engine; delivery : Delivery }.
Definition alerts_new (r : AlertRules) (webhook : bool) : AlertsState :=
  {| engine := engine_new r;
     delivery := {| webhook_configured := webhook; sent_total := 0; last_sent_ms := 0; last_error := None; last_error_ms := 0 |} |}.

Definition retry_blocked (now : Z) (d : Delivery) : bool :=
  (last_sent_ms d <? last_error_ms d) && (sat_sub now (last_error_ms d) <? RETRY_AFTER_FAILURE_MS).

(** One tick of [run_alerts]; [push] is the outcome of the webhook ([send_feishu]).
    Without a webhook the message is only logged.  The result carries the text that
    went out. *)
Definition alert_tick (now : Z) (i : Inputs) (panel_url : option string) (push : result string unit) (st : AlertsState)
  : option string * AlertsState :=
  let d := delivery st in
  let e := observe now i (engine st) in
  match (if retry_blocked now d then None else pending_message now panel_url e) with
  | None => (None, {| engine := e; delivery := d |})
  | Some n =>
      match (if webhook_configured d then push else Ok tt) with
      | Ok _ =>
          (Some (text n),
           {| engine := mark_sent n now e;
              delivery := if webhook_configured d
                          then {| webhook_configured := true; sent_total := u64_add (sent_total d) 1; last_sent_ms := now;
                                  last_error := last_error d; last_error_ms := last_error_ms d |}
                          else d |})
      | Err x =>
          (None, {| engine := e;
                    delivery := {| webhook_configured := webhook_configured d; sent_total := sent_total d;
                                   last_sent_ms := last_sent_ms d; last_error := Some x; last_error_ms := now |} |})
      end
  end.

(** ** Each key is an automaton of its own *)

Lemma ordered_elem {A} (m : gmap string A) k x : (k, x) ∈ ordered m <-> m !! k = Some x.
Proof. unfold ordered. by rewrite sort_by_elem, elem_of_map_to_list. Qed.
Lemma ordered_nodup {A} (m : gmap string A) : NoDup (map fst (ordered m)).
Proof. unfold ordered. rewrite sort_by_perm. apply NoDup_fst_map_to_list. Qed.

(** What a tick does to the condition of one key: the findings of that key, then, if
    there was none and the rule was checked, the ageing. *)
Definition tick_key (now resolve_ms : Z) (fs : list Finding) (checked : Condition -> bool) (c : option Condition) : option Condition :=
  match fs with
  | _ :: _ => foldl (fun c f => Some (meet now f c)) c fs
  | [] => match c with
          | None => None
          | Some c => if checked c then let '(c, over) := absent now resolve_ms c in if over then None else Some c else Some c
          end
  end.

Definition of_key (k : string) (f : Finding) : bool := String.eqb (finding_key f) k.
Definition checked_in (evaluated : list string) (c : Condition) : bool := existsb (String.eqb (co_rule c)) evaluated.

Lemma add_findings_lookup now k fs : forall m,
  foldl (add_finding now) m fs !! k = foldl (fun c f => Some (meet now f c)) (m !! k) (List.filter (of_key k) fs).
Proof.
  induction fs as [|f fs IH]; intros m; cbn [foldl List.filter]; [done|]. rewrite IH. unfold add_finding, of_key at 2.
  destruct (String.eqb_spec (finding_key f) k) as [->|Hne]; cbn [foldl]; [by rewrite lookup_insert_eq|by rewrite lookup_insert_ne].
Qed.

Lemma list_to_map_omap_kept (l : list (string * (Condition * bool))) k : NoDup (map fst l) ->
  (list_to_map (omap (M := list) kept l) : gmap string Condition) !! k
  = match (list_to_map l : gmap string (Condition * bool)) !! k with Some (c, false) => Some c | _ => None end.
Proof.
  induction l as [|[k' [c b]] l IH]; intros Hnd; [done|]. cbn [map fst] in Hnd. apply NoDup_cons in Hnd as [Hk Hnd].
  cbn [omap list_omap kept snd fst list_to_map foldr]. specialize (IH Hnd).
  assert (Hnone : (list_to_map l : gmap string (Condition * bool)) !! k' = None) by (apply not_elem_of_list_to_map_1; exact Hk).
  change (list_to_map ((k', (c, b)) :: l)) with (<[k' := (c, b)]> (list_to_map l : gmap string (Condition * bool))).
  destruct (decide (k = k')) as [->|Hne].
  - rewrite lookup_insert_eq. destruct b; [etransitivity; [exact IH|by rewrite Hnone]|].
    exact (lookup_insert_eq (list_to_map (omap (M := list) kept l) : gmap string Condition) k' c).
  - rewrite lookup_insert_ne by done. destruct b; [exact IH|].
    etransitivity; [exact (lookup_insert_ne (list_to_map (omap (M := list) kept l) : gmap string Condition) k' k c (not_eq_sym Hne))|exact IH].
Qed.

(** The tick of the engine refines the automaton of every key. *)
Lemma tick_refines now resolve_ms fs evaluated m k :
  fst (tick_conditions now resolve_ms fs evaluated m) !! k
  = tick_key now resolve_ms (List.filter (of_key k) fs) (checked_in evaluated) (m !! k).
Proof.
  unfold tick_conditions. cbn [fst]. set (m1 := foldl (add_finding now) m fs).
  assert (Hfst : map fst (map (age now resolve_ms (map finding_key fs) evaluated) (ordered m1)) = map fst (ordered m1)) by (by rewrite map_map).
  assert (Hnd := ordered_nodup m1). rewrite <- Hfst in Hnd. rewrite list_to_map_omap_kept by exact Hnd.
  assert (Hpres : existsb (String.eqb k) (map finding_key fs) = negb (Nat.eqb (length (List.filter (of_key k) fs)) 0)).
  { clear. induction fs as [|f fs IH]; [done|]. cbn [map existsb List.filter]. unfold of_key at 1. rewrite String.eqb_sym, IH.
    by destruct (String.eqb (finding_key f) k). }
  assert (Hm1 := add_findings_lookup now k fs m). fold m1 in Hm1.
  assert (Hlook : (list_to_map (map (age now resolve_ms (map finding_key fs) evaluated) (ordered m1)) : gmap string (Condition * bool)) !! k
    = match m1 !! k with Some c => Some (snd (age now resolve_ms (map finding_key fs) evaluated (k, c))) | None => None end).
  { destruct (m1 !! k) as [c|] eqn:E.
    - apply elem_of_list_to_map_1; [exact Hnd|]. apply list_elem_of_fmap. exists (k, c).
      split; [done|by apply ordered_elem].
    - apply not_elem_of_list_to_map_1. change ((map (age now resolve_ms (map finding_key fs) evaluated) (ordered m1)).*1)
        with (map fst (map (age now resolve_ms (map finding_key fs) evaluated) (ordered m1))). rewrite Hfst. intros Hin.
      apply list_elem_of_fmap in Hin as ([k' c] & -> & Hin). apply ordered_elem in Hin. cbn in E. congruence. }
  rewrite Hlook, Hm1. unfold tick_key, age, untouched. cbn [fst snd]. rewrite Hpres.
  destruct (List.filter (of_key k) fs) as [|f fs'] eqn:Ef; cbn [length Nat.eqb negb orb].
  - cbn [foldl]. destruct (m !! k) as [c|]; [|done]. unfold checked_in. destruct (existsb _ evaluated); cbn [negb snd]; [|done].
    by destruct (absent now resolve_ms c) as [c' []].
  - assert (Hs : forall l c, exists c', foldl (fun c f => Some (meet now f c)) (Some c) l = Some c').
    { induction l as [|x l IH]; intros c; [by exists c|]. apply IH. }
    cbn [foldl]. destruct (Hs fs' (meet now f (m !! k))) as [c' ->]. done.
Qed.

(** ** Runs of the engine *)

(** What one tick looked at: when, what it found, and which rules it checked. *)
Record Look := { look_ms : Z; look_found : list Finding; look_rules : list string }.
Definition look (e : Engine) (t : Z * Inputs) : Look :=
  let '(fs, evaluated, _) := evaluate (fst t) (snd t) (eng_rules e) (series e) in
  {| look_ms := fst t; look_found := fs; look_rules := evaluated |}.
Definition observe_all (ts : list (Z * Inputs)) (e : Engine) : Engine := foldl (fun e t => observe (fst t) (snd t) e) e ts.
Fixpoint looks (ts : list (Z * Inputs)) (e : Engine) : list Look :=
  match ts with [] => [] | t :: ts => look e t :: looks ts (observe (fst t) (snd t) e) end.

Definition resolve_ms_of (r : AlertRules) : Z := u64_mul (resolve_after_s r) 1000.
Definition found (k : string) (l : Look) : Prop := exists f, f ∈ look_found l /\ finding_key f = k.
(** A tick that looked for the condition and did not find it. *)
Definition missed (k : string) (c : Condition) (l : Look) : Prop := ~ found k l /\ checked_in (look_rules l) c = true.

Lemma found_filter k l : found k l <-> List.filter (of_key k) (look_found l) <> [].
Proof.
  unfold found. split.
  - intros (f & Hf & Hk) Hn. assert (Hin : In f (List.filter (of_key k) (look_found l))).
    { apply filter_In. split; [by apply list_elem_of_In|]. unfold of_key. by apply String.eqb_eq. }
    by rewrite Hn in Hin.
  - destruct (List.filter _ _) as [|f fs] eqn:E; [done|]. intros _. exists f.
    assert (Hin : In f (List.filter (of_key k) (look_found l))) by (rewrite E; by left).
    apply filter_In in Hin as [Hin Hk]. split; [by apply list_elem_of_In|by apply String.eqb_eq].
Qed.

Lemma observe_rules now i e : eng_rules (observe now i e) = eng_rules e.
Proof. unfold observe. destruct (evaluate _ _ _ _) as [[fs ev] s]. by destruct (tick_conditions _ _ _ _ _). Qed.
Lemma observe_all_rules ts e : eng_rules (observe_all ts e) = eng_rules e.
Proof. revert e. induction ts as [|t ts IH]; intros e; [done|]. cbn. unfold observe_all in IH. by rewrite IH, observe_rules. Qed.
Lemma looks_snoc ts t e : looks (ts ++ [t]) e = looks ts e ++ [look (observe_all ts e) t].
Proof. revert e. induction ts as [|u ts IH]; intros e; [done|]. cbn [app looks]. by rewrite IH. Qed.
Lemma observe_all_snoc ts t e : observe_all (ts ++ [t]) e = observe (fst t) (snd t) (observe_all ts e).
Proof. unfold observe_all. by rewrite foldl_app. Qed.

(** One tick of the engine, seen from one key. *)
Lemma observe_key now i e k :
  conditions (observe now i e) !! k
  = tick_key now (resolve_ms_of (eng_rules e)) (List.filter (of_key k) (look_found (look e (now, i))))
      (checked_in (look_rules (look e (now, i)))) (conditions e !! k).
Proof.
  unfold observe, look. cbn [fst snd]. destruct (evaluate now i (eng_rules e) (series e)) as [[fs ev] s].
  cbn [look_found look_rules]. rewrite <- (tick_refines now (resolve_ms_of (eng_rules e)) fs ev). unfold resolve_ms_of.
  by destruct (tick_conditions _ _ _ _ _).
Qed.

(** *** The life of a condition *)

(** Held long enough: from [pending_since] to some tick that found the condition with
    its hold over, no tick missed it. *)
Definition held (k : string) (h : list Look) (c : Condition) : Prop :=
  exists pre first mid post f,
    h = pre ++ (first :: mid) ++ post /\ look_ms first = pending_since c /\ found k first
    /\ Forall (fun l => ~ missed k c l) (first :: mid)
    /\ f ∈ look_found (List.last mid first) /\ finding_key f = k
    /\ hold_ms f <= sat_sub (look_ms (List.last mid first)) (pending_since c).
Definition pending_in (k : string) (h : list Look) (c : Condition) : Prop :=
  exists pre first mid, h = pre ++ first :: mid /\ look_ms first = pending_since c /\ found k first
    /\ Forall (fun l => ~ missed k c l) (first :: mid).
Definition gone_in (k : string) (h : list Look) (t : Z) : Prop :=
  exists pre first mid, h = pre ++ first :: mid /\ look_ms first = t /\ Forall (fun l => ~ found k l) (first :: mid).

Record life (k : string) (h : list Look) (c : Condition) : Prop := {
  life_pending : firing c = false -> pending_in k h c;
  life_held : firing c = true -> held k h c;
  life_gone t : absent_since c = Some t -> gone_in k h t }.

Lemma found_dec k l : {found k l} + {~ found k l}.
Proof. destruct (List.filter (of_key k) (look_found l)) eqn:E; [right|left]; rewrite found_filter, E; [by intros Hn|done]. Qed.

(** What any number of findings of a tick make of a condition. *)
Lemma meets_fields now fs : forall c f,
  let c' := foldl (fun c f => Some (meet now f c)) (Some (meet now f c)) fs in
  exists c0, c' = Some c0
    /\ co_rule c0 = co_rule (meet now f c)
    /\ pending_since c0 = pending_since (meet now f c) /\ absent_since c0 = None
    /\ (match c with Some c => firing c | None => false end = true -> firing c0 = true)
    /\ (firing c0 = true -> match c with Some c => firing c | None => false end = true
          \/ exists g, g ∈ f :: fs /\ hold_ms g <= sat_sub now (pending_since c0)).
Proof.
  induction fs as [|g fs IH]; intros c f; cbn [foldl].
  - exists (meet now f c). repeat split; [destruct c as [c|]; cbn; [by intros ->|done]|]. cbn. rewrite orb_true_iff, Z.leb_le. intros [Hf|Hf]; [left; by destruct c|].
    right. exists f. by split; [left|].
  - specialize (IH (Some (meet now f c)) g) as (c0 & Hc & Hr & Hp & Ha & Hmono & Hf). exists c0. cbn [meet default pending_since co_rule] in *.
    repeat split; try done; [intros Hl; apply Hmono; destruct c; [cbn in *; by rewrite Hl|done]|]. intros Hfc. destruct (Hf Hfc) as [Hl|(x & Hx & Hh)].
    + cbn in Hl. rewrite orb_true_iff, Z.leb_le in Hl. destruct Hl as [Hl|Hl]; [left; by destruct c|].
      right. exists f. split; [left|]. by rewrite Hp.
    + right. exists x. split; [by right|done].
Qed.

Lemma missed_rule k c c' l : co_rule c = co_rule c' -> missed k c l -> missed k c' l.
Proof. intros E [Hf Hc]. split; [done|]. unfold checked_in in *. by rewrite <- E. Qed.

Lemma held_snoc k h c c' l : held k h c -> pending_since c' = pending_since c -> co_rule c' = co_rule c -> held k (h ++ [l]) c'.
Proof.
  intros (pre & a & mid & post & f & -> & Ha & Hf & Hm & Hin & Hk & Hh) Hp Hr.
  exists pre, a, mid, (post ++ [l]), f. rewrite Hp. repeat split; try done; [by rewrite <- !app_assoc|].
  eapply Forall_impl; [exact Hm|]. intros x Hx Hmiss. apply Hx. by eapply missed_rule.
Qed.

Lemma pending_snoc k h c c' l : pending_in k h c -> pending_since c' = pending_since c -> co_rule c' = co_rule c ->
  ~ missed k c' l -> pending_in k (h ++ [l]) c'.
Proof.
  intros (pre & a & mid & -> & Ha & Hf & Hm) Hp Hr Hl. exists pre, a, (mid ++ [l]). rewrite Hp.
  repeat split; try done; [by rewrite <- !app_assoc|]. rewrite app_comm_cons. apply Forall_app. split; [|by constructor].
  eapply Forall_impl; [exact Hm|]. intros x Hx Hmiss. apply Hx. by eapply missed_rule.
Qed.

(** A condition that was pending and whose hold is over now was held. *)
Lemma pending_held k h c l f : pending_in k (h ++ [l]) c -> f ∈ look_found l -> finding_key f = k ->
  hold_ms f <= sat_sub (look_ms l) (pending_since c) -> held k (h ++ [l]) c.
Proof.
  intros (pre & a & mid & E & Ha & Hf & Hm) Hin Hk Hh.
  assert (Hlast : List.last mid a = l).
  { assert (E2 := f_equal (fun x => List.last x l) E). cbn beta in E2. rewrite last_last in E2. rewrite E2. clear.
    destruct mid as [|b mid] using rev_ind; [by rewrite last_last|]. by rewrite app_comm_cons, app_assoc, !last_last. }
  exists pre, a, mid, [], f. rewrite app_nil_r, Hlast. by repeat split.
Qed.

Lemma gone_snoc k h t l : gone_in k h t -> ~ found k l -> gone_in k (h ++ [l]) t.
Proof.
  intros (pre & a & mid & -> & Ha & Hm) Hl. exists pre, a, (mid ++ [l]). repeat split; [by rewrite <- !app_assoc|done|].
  rewrite app_comm_cons. apply Forall_app. split; [done|by constructor].
Qed.
Lemma gone_new k h l : ~ found k l -> gone_in k (h ++ [l]) (look_ms l).
Proof. intros Hl. exists h, l, []. repeat split. by constructor. Qed.

Definition life_opt (k : string) (h : list Look) (c : option Condition) : Prop :=
  match c with Some c => life k h c | None => True end.

Lemma life_found k h l f fs c : life_opt k h c -> List.filter (of_key k) (look_found l) = f :: fs ->
  life_opt k (h ++ [l]) (foldl (fun c f => Some (meet (look_ms l) f c)) (Some (meet (look_ms l) f c)) fs).
Proof.
  intros Hlife Efs. destruct (meets_fields (look_ms l) fs c f) as (c0 & -> & Hr & Hp & Ha & Hmono & Hf). cbn [life_opt].
  assert (Hfound : found k l) by (apply found_filter; by rewrite Efs).
  assert (Hg : forall g, g ∈ f :: fs -> g ∈ look_found l /\ finding_key g = k).
  { intros g Hg. rewrite <- Efs in Hg. apply list_elem_of_In, filter_In in Hg as [Hg Hk].
    split; [by apply list_elem_of_In|by apply String.eqb_eq]. }
  assert (Hpend : match c with Some c => firing c = false | None => True end -> pending_in k (h ++ [l]) c0).
  { destruct c as [c|]; intros Hc.
    - apply (pending_snoc k h c c0 l); [by apply (life_pending _ _ _ Hlife)|done|done|by intros [? _]].
    - exists h, l, []. repeat split; [by rewrite Hp|done|]. constructor; [by intros [? _]|done]. }
  split.
  - intros Hfc. apply Hpend. destruct c as [c|]; [|done]. destruct (firing c); [|done]. by rewrite (Hmono eq_refl) in Hfc.
  - intros Hfc. assert (Hc : (exists c1, c = Some c1 /\ firing c1 = true) \/ match c with Some c => firing c = false | None => True end).
    { destruct c as [c|]; [|by right]. destruct (firing c) eqn:E; [left; by exists c|by right]. }
    destruct Hc as [(c1 & -> & Hc1)|Hc]; [apply (held_snoc k h c1); [by apply (life_held _ _ _ Hlife)|done|done]|].
    destruct (Hf Hfc) as [Ht|(g & Hin & Hh)]; [destruct c; [congruence|done]|].
    destruct (Hg g Hin). by apply (pending_held k h c0 l g); [apply Hpend|..].
  - intros t Ht. congruence.
Qed.

Lemma life_missing k h l rm c c' : life k h c -> ~ found k l ->
  (if checked_in (look_rules l) c then let '(c, over) := absent (look_ms l) rm c in if over then None else Some c else Some c) = Some c' ->
  life k (h ++ [l]) c'.
Proof.
  intros Hlife Hn. destruct (checked_in (look_rules l) c) eqn:Ech.
  - unfold absent. destruct (firing c) eqn:Ef; cbn [negb]; [|done]. destruct (rm <=? _); [done|]. intros [= <-].
    split; cbn; [congruence|intros _; by apply (held_snoc k h c); [apply (life_held _ _ _ Hlife)|..]|].
    intros t [= <-]. destruct (absent_since c) as [t|] eqn:Ea; cbn; [by apply gone_snoc; [apply (life_gone _ _ _ Hlife)|]|by apply gone_new].
  - intros [= <-]. split.
    + intros Hf. apply (pending_snoc k h c c l); [by apply (life_pending _ _ _ Hlife)|done|done|]. intros [_ Hc]. congruence.
    + intros Hf. by apply (held_snoc k h c); [apply (life_held _ _ _ Hlife)|..].
    + intros t Ht. by apply gone_snoc; [apply (life_gone _ _ _ Hlife)|].
Qed.

Lemma life_tick k h l rm c : life_opt k h c ->
  life_opt k (h ++ [l]) (tick_key (look_ms l) rm (List.filter (of_key k) (look_found l)) (checked_in (look_rules l)) c).
Proof.
  intros Hlife. unfold tick_key. destruct (List.filter (of_key k) (look_found l)) as [|f fs] eqn:E.
  - assert (Hn : ~ found k l) by (rewrite found_filter, E; by intros Hf). destruct c as [c|]; [|done].
    destruct (if checked_in (look_rules l) c then _ else _) as [c'|] eqn:Ec; [|done]. by eapply life_missing.
  - cbn [foldl]. by apply life_found.
Qed.

Lemma engine_life r ts k : life_opt k (looks ts (engine_new r)) (conditions (observe_all ts (engine_new r)) !! k).
Proof.
  induction ts as [|t ts IH] using rev_ind; [done|]. rewrite looks_snoc, observe_all_snoc, observe_key.
  set (e := observe_all ts (engine_new r)) in *.
  assert (Hms : fst t = look_ms (look e t)) by (unfold look; by destruct (evaluate _ _ _ _) as [[? ?] ?]).
  replace (look e (fst t, snd t)) with (look e t) by (by destruct t). rewrite Hms at 1. by apply life_tick.
Qed.

Lemma meets_hold now fs : forall c f g, g ∈ f :: fs ->
  exists c0, foldl (fun c f => Some (meet now f c)) (Some (meet now f c)) fs = Some c0
    /\ (hold_ms g <= sat_sub now (pending_since c0) -> firing c0 = true).
Proof.
  induction fs as [|h fs IH]; intros c f g Hg.
  - apply list_elem_of_singleton in Hg as ->. eexists. split; [done|]. cbn. intros Hh. rewrite orb_true_iff, Z.leb_le. by right.
  - apply elem_of_cons in Hg as [->|Hg]; [|by apply (IH (Some (meet now f c)) h g)].
    destruct (meets_fields now fs (Some (meet now f c)) h) as (c0 & E & _ & Hp & _ & Hmono & _). exists c0. split; [exact E|].
    rewrite Hp. cbn [meet default pending_since]. intros Hh. apply Hmono. cbn. rewrite orb_true_iff, Z.leb_le. by right.
Qed.

(** C26: the life of an alert.  A condition fires only when it was there for its whole hold,
    with no tick that looked for it and missed it; it does fire at the tick that finds it
    with its hold over; and once firing it goes away only at a tick that checked its rule
    after nothing was found of it for the time [resolve_after_s]. *)
Theorem alert_life r ts now i k :
  let e := observe_all ts (engine_new r) in
  let e' := observe now i e in
  let h := looks (ts ++ [(now, i)]) (engine_new r) in
  (forall c, conditions e' !! k = Some c -> firing c = true -> held k h c)
  /\ (forall f, f ∈ look_found (look e (now, i)) -> finding_key f = k ->
        exists c, conditions e' !! k = Some c /\ (hold_ms f <= sat_sub now (pending_since c) -> firing c = true))
  /\ (forall c, conditions e !! k = Some c -> firing c = true -> conditions e' !! k = None ->
        exists t, gone_in k h t /\ checked_in (look_rules (look e (now, i))) c = true /\ resolve_ms_of r <= sat_sub now t).
Proof.
  cbn zeta. set (e := observe_all ts (engine_new r)).
  assert (He' : observe now i e = observe_all (ts ++ [(now, i)]) (engine_new r)) by by rewrite observe_all_snoc.
  assert (Hms : look_ms (look e (now, i)) = now) by (unfold look; by destruct (evaluate _ _ _ _) as [[? ?] ?]).
  split; [|split].
  - intros c Hc Hf. assert (Hl := engine_life r (ts ++ [(now, i)]) k). rewrite <- He', Hc in Hl. by apply (life_held _ _ _ Hl).
  - intros f Hin Hk. rewrite observe_key. unfold tick_key.
    assert (Hin' : f ∈ List.filter (of_key k) (look_found (look e (now, i)))).
    { apply list_elem_of_In, filter_In. split; [by apply list_elem_of_In|by apply String.eqb_eq]. }
    destruct (List.filter _ _) as [|g fs] eqn:E; [by apply not_elem_of_nil in Hin'|].
    destruct (meets_hold now fs (conditions e !! k) g f Hin') as (c0 & Ec & Hh). exists c0. cbn [foldl]. by rewrite Ec.
  - intros c Hc Hf. rewrite observe_key, Hc. unfold tick_key.
    assert (Hl := engine_life r ts k). fold e in Hl. rewrite Hc in Hl. cbn [life_opt] in Hl.
    destruct (List.filter _ _) as [|g fs] eqn:E; [|destruct (meets_hold now fs (Some c) g g) as (c0 & Ec & _); [left|]; cbn [foldl]; by rewrite Ec].
    assert (Hn : ~ found k (look e (now, i))) by (rewrite found_filter, E; by intros Hn).
    destruct (checked_in _ c) eqn:Ech; [|done]. unfold absent. rewrite Hf. cbn [negb].
    destruct (_ <=? _) eqn:Eover; [|done]. intros _. apply Z.leb_le in Eover. exists (default now (absent_since c)).
    assert (Hr : eng_rules e = r) by (unfold e; by rewrite observe_all_rules). rewrite Hr in Eover. rewrite looks_snoc. fold e.
    repeat split; try done. destruct (absent_since c) as [t|] eqn:Ea; cbn [default];
      [by apply gone_snoc; [apply (life_gone _ _ _ Hl)|]|]. rewrite <- Hms at 2. by apply gone_new.
Qed.

(** ** What has been said *)

Lemma marked_lookup now ks : forall m k,
  foldl (fun m k => alter (set_notified now) k m) m ks !! k
  = if existsb (String.eqb k) ks then set_notified now <$> (m : gmap string Condition) !! k else m !! k.
Proof.
  induction ks as [|k' ks IH]; intros m k; cbn [foldl existsb]; [done|]. rewrite IH.
  destruct (String.eqb_spec k k') as [->|Hne]; cbn [orb].
  - rewrite lookup_alter_eq. destruct (m !! k') as [c|]; cbn; by destruct (existsb _ ks).
  - by rewrite lookup_alter_ne by done.
Qed.

Lemma pending_keys now url e n : pending_message now url e = Some n ->
  keys n = map fst (fresh_items e) ++ map fst (repeat_items now e) /\ resolved_count n = length (resolved e).
Proof. unfold pending_message. by destruct (fresh_items e), (repeat_items now e), (resolved e); intros [= <-]. Qed.

Lemma items_key P e k c : conditions e !! k = Some c -> P c = true ->
  k ∈ map fst (List.filter (fun p => P (snd p)) (ordered (conditions e))).
Proof.
  intros Hc HP. apply (list_elem_of_fmap_2' fst _ (k, c)); [|done]. apply list_elem_of_In, filter_In. split; [|done].
  by apply list_elem_of_In, ordered_elem.
Qed.
Lemma items_nil P e : (forall k c, conditions e !! k = Some c -> P c = false) ->
  List.filter (fun p => P (snd p)) (ordered (conditions e)) = [].
Proof.
  intros Hno. destruct (List.filter _ _) as [|[k c] l] eqn:E; [done|]. exfalso.
  assert (Hin : In (k, c) (List.filter (fun p : string * Condition => P (snd p)) (ordered (conditions e)))) by (rewrite E; by left).
  apply filter_In in Hin as [Hin HP]. apply list_elem_of_In, ordered_elem in Hin. apply Hno in Hin. cbn in HP. congruence.
Qed.
Lemma pending_none now url e : fresh_items e = [] -> repeat_items now e = [] -> resolved e = [] -> pending_message now url e = None.
Proof. intros Hf Hr Hs. unfold pending_message. by rewrite Hf, Hr, Hs. Qed.
Lemma pending_some now url e k c : conditions e !! k = Some c -> unsent c = true ->
  exists n, pending_message now url e = Some n /\ k ∈ keys n.
Proof.
  intros Hc Hu. assert (Hk := items_key unsent e k c Hc Hu). fold (fresh_items e) in Hk.
  unfold pending_message. destruct (fresh_items e) as [|x l] eqn:Ef; [by apply not_elem_of_nil in Hk|].
  destruct (repeat_items now e), (resolved e); eexists; (split; [reflexivity|]); cbn [keys]; apply elem_of_app; by left.
Qed.

Lemma mark_sent_settled now url e n : pending_message now url e = Some n ->
  fresh_items (mark_sent n now e) = [] /\ resolved (mark_sent n now e) = []
  /\ (forall t, sat_sub t now < repeat_ms_of e -> (forall k c, conditions e !! k = Some c -> due (repeat_ms_of e) t c = true -> k ∈ keys n) ->
        repeat_items t (mark_sent n now e) = []).
Proof.
  intros Hn. destruct (pending_keys now url e n Hn) as [Hk Hres]. split; [|split].
  - apply items_nil. intros k c. unfold mark_sent. cbn [conditions]. rewrite marked_lookup.
    destruct (existsb _ (keys n)) eqn:Ex.
    + intros Hc. destruct (conditions e !! k) as [c0|]; [|done]. injection Hc as <-. unfold unsent. cbn. by destruct (firing c0).
    + intros Hc. destruct (unsent c) eqn:Eu; [|done]. exfalso. apply (not_true_iff_false) in Ex. apply Ex, existsb_exists.
      exists k. split; [|apply String.eqb_refl]. rewrite Hk. apply list_elem_of_In, elem_of_app. left. by apply (items_key unsent e k c).
  - unfold mark_sent. cbn [resolved]. rewrite Hres, Nat.min_id. by apply drop_all.
  - intros t Ht Hdue. unfold repeat_items, repeat_ms_of. apply items_nil. intros k c. unfold mark_sent at 1. cbn [conditions]. rewrite marked_lookup.
    change (eng_rules (mark_sent n now e)) with (eng_rules e). fold (repeat_ms_of e).
    destruct (existsb _ (keys n)) eqn:Ex.
    + intros Hc. destruct (conditions e !! k) as [c0|]; [|done]. injection Hc as <-. unfold due. cbn. apply andb_false_intro2, Z.leb_gt. exact Ht.
    + intros Hc. destruct (due (repeat_ms_of e) t c) eqn:Eu; [|done]. exfalso. apply not_true_iff_false in Ex. apply Ex, existsb_exists.
      exists k. split; [|apply String.eqb_refl]. apply list_elem_of_In. by eapply Hdue.
Qed.

Lemma tick_sent now i url push st s st' : alert_tick now i url push st = (Some s, st') ->
  exists n, retry_blocked now (delivery st) = false /\ pending_message now url (observe now i (engine st)) = Some n /\ s = text n
    /\ engine st' = mark_sent n now (observe now i (engine st)).
Proof.
  unfold alert_tick. cbn zeta. destruct (retry_blocked _ _); [done|].
  destruct (pending_message _ _ _) as [n|]; [|done]. destruct (if webhook_configured _ then push else _) as [|x]; [|done].
  intros [= <- <-]. by exists n.
Qed.

(** A tick whose message went out leaves nothing to say: everything firing has been
    said, nothing resolved is left, and until the reminder is due the only conditions
    another message could repeat are the ones said before this tick. *)
Theorem alert_said_once now i url push st s st' : alert_tick now i url push st = (Some s, st') ->
  0 < repeat_ms_of (engine st) ->
  pending_message now url (engine st') = None
  /\ forall t url' n k, sat_sub t now < repeat_ms_of (engine st) -> pending_message t url' (engine st') = Some n -> k ∈ keys n ->
       exists c a, conditions (engine st') !! k = Some c /\ notified_ms c = Some a /\ a < now.
Proof.
  intros Hs Hrep. apply tick_sent in Hs as (n & _ & Hn & _ & He'). set (e := observe now i (engine st)) in *.
  assert (Hr : repeat_ms_of e = repeat_ms_of (engine st)) by (unfold repeat_ms_of, e; by rewrite observe_rules).
  destruct (mark_sent_settled now url e n Hn) as (Hf & Hres & Hrp). rewrite <- He' in Hf, Hres, Hrp. rewrite <- Hr in Hrep |- *. split.
  - apply pending_none; [done| |done]. apply Hrp; [unfold sat_sub; lia|]. intros k c Hc Hd.
    destruct (pending_keys now url e n Hn) as [-> _]. apply elem_of_app. right.
    exact (items_key (due (repeat_ms_of e) now) e k c Hc Hd).
  - intros t url' n' k Ht Hn' Hk. destruct (pending_keys _ _ _ _ Hn') as [Hkeys _]. rewrite Hkeys, Hf in Hk.
    apply list_elem_of_fmap in Hk as ([k0 c] & -> & Hin). apply list_elem_of_In, filter_In in Hin as [Hin Hdue].
    apply list_elem_of_In, ordered_elem in Hin. cbn [fst snd] in *. exists c. unfold due in Hdue.
    assert (Hr' : repeat_ms_of (engine st') = repeat_ms_of e) by by rewrite He'. rewrite Hr' in Hdue.
    destruct (notified_ms c) as [a|]; [|by rewrite andb_false_r in Hdue]. exists a. repeat split; [done|].
    apply andb_true_iff in Hdue as [_ Hdue]. apply Z.leb_le in Hdue. unfold sat_sub in *. lia.
Qed.

(** C27: a message that could not be sent is not lost.  The engine is as if nothing had been
    tried: every alert that was not said yet is in the message any later tick would send,
    the error is recorded, and for a minute no other attempt is made. *)
Theorem failed_push_keeps_alerts now i url x st n : webhook_configured (delivery st) = true ->
  retry_blocked now (delivery st) = false -> pending_message now url (observe now i (engine st)) = Some n ->
  exists st', alert_tick now i url (Err x) st = (None, st') /\ engine st' = observe now i (engine st)
    /\ last_error (delivery st') = Some x
    /\ (forall k c t, conditions (engine st') !! k = Some c -> unsent c = true ->
          exists n', pending_message t url (engine st') = Some n' /\ k ∈ keys n')
    /\ (last_sent_ms (delivery st) < now -> forall t i' push, sat_sub t now < RETRY_AFTER_FAILURE_MS ->
          fst (alert_tick t i' url push st') = None).
Proof.
  intros Hw Hb Hn. unfold alert_tick at 1. cbn zeta. rewrite Hb, Hn, Hw. eexists. split; [reflexivity|]. cbn [engine delivery last_error].
  repeat split; [by intros k c t Hc Hu; apply (pending_some t url _ k c)|].
  intros Hlast t i' push Ht. unfold alert_tick, retry_blocked. cbn zeta. cbn [delivery last_sent_ms last_error_ms].
  replace (last_sent_ms (delivery st) <? now) with true by (symmetry; by apply Z.ltb_lt).
  by replace (sat_sub t now <? RETRY_AFTER_FAILURE_MS) with true by (symmetry; by apply Z.ltb_lt).
Qed.

(** ** Counters *)

(** The growth of a counter between two samples in a row, summed over the pairs that end
    at [start] or later. *)
Definition pair_growth (start : Z) (p : (Z * Z) * (Z * Z)) : Z :=
  let '((_, v0), (at_, v)) := p in if start <=? at_ then growth v0 v else 0.
Definition pairs_growth (start : Z) (s : Series) : Z := foldr Z.add 0 (map (pair_growth start) (combine s (tail s))).
(** The series a history of samples leaves: each pushed when it was taken. *)
Definition pushed (h : Series) : Series := foldl (fun s p => series_push (fst p) (snd p) s) [] h.

Lemma pairs_growth_cons start x y s : pairs_growth start (x :: y :: s) = pair_growth start (x, y) + pairs_growth start (y :: s).
Proof. reflexivity. Qed.

Lemma increase_loop_pairs start s : forall at0 p total, 0 <= total < 2 ^ 64 ->
  increase_loop start (Some p) total s = (total + pairs_growth start ((at0, p) :: s)) mod 2 ^ 64.
Proof.
  induction s as [|[at_ v] s IH]; intros at0 p total Ht; cbn [increase_loop].
  - change (pairs_growth start [(at0, p)]) with 0. rewrite Z.add_0_r. symmetry. by apply Z.mod_small.
  - rewrite (IH at_), pairs_growth_cons by (destruct (start <=? at_); [apply u64_add_range|done]). cbn [pair_growth].
    destruct (start <=? at_); unfold u64_add; [rewrite Zplus_mod_idemp_l|]; f_equal; lia.
Qed.

Lemma series_increase_pairs now window s : series_increase now window s = pairs_growth (sat_sub now window) s mod 2 ^ 64.
Proof.
  unfold series_increase. destruct s as [|[at_ v] s]; [done|]. cbn [increase_loop]. by rewrite (increase_loop_pairs _ _ at_) by lia.
Qed.

Lemma drop_old_again now now' s r : now <= now' -> drop_old now' (drop_old now s ++ r) = drop_old now' (s ++ r).
Proof.
  intros Hle. induction s as [|[at_ v] s IH]; [done|]. cbn [drop_old app]. destruct (Z.ltb_spec SERIES_KEEP_MS (sat_sub now at_)); [|done].
  replace (SERIES_KEEP_MS <? sat_sub now' at_) with true; [exact IH|]. symmetry. apply Z.ltb_lt. unfold sat_sub in *. lia.
Qed.

Lemma pushed_drop h now v : StronglySorted Z.le (map fst (h ++ [(now, v)])) -> pushed (h ++ [(now, v)]) = drop_old now (h ++ [(now, v)]).
Proof.
  revert now v. induction h as [|[t w] h IH] using rev_ind; intros now v Hs; [done|].
  unfold pushed. rewrite foldl_app. fold (pushed (h ++ [(t, w)])). cbn [foldl fst snd]. unfold series_push.
  rewrite map_app in Hs. apply StronglySorted_app in Hs as (Hx & Hs & _). rewrite (IH t w Hs). apply drop_old_again.
  apply (Hx t now); [rewrite map_app; apply elem_of_app; right; by left|by left].
Qed.

(** The dropped samples are no part of a window that starts after the ones kept. *)
Lemma pairs_growth_drop now start h : start <= Z.max 0 now -> now - SERIES_KEEP_MS <= start -> StronglySorted Z.le (map fst h) ->
  drop_old now h = h \/ (exists at_ v, (at_, v) ∈ h /\ now - SERIES_KEEP_MS <= at_ < start) ->
  pairs_growth start (drop_old now h) = pairs_growth start h.
Proof.
  intros Hmax Hkeep. induction h as [|[at_ v] h IH]; intros Hs Hm; [done|].
  destruct Hm as [->|(t & w & Hin & Ht)]; [done|]. cbn [drop_old]. destruct (Z.ltb_spec SERIES_KEEP_MS (sat_sub now at_)) as [Hold|]; [|done].
  apply elem_of_cons in Hin as [[= -> ->]|Hin]; [unfold sat_sub, SERIES_KEEP_MS, HOUR_MS, MINUTE_MS in *; lia|].
  cbn [map fst] in Hs. apply StronglySorted_inv in Hs as [Hs Hfor]. rewrite IH; [|done|right; by exists t, w].
  destruct h as [|[t1 w1] h]; [by apply not_elem_of_nil in Hin|]. rewrite pairs_growth_cons. cbn [pair_growth].
  assert (Ht1 : t1 <= t).
  { apply elem_of_cons in Hin as [[= -> ->]|Hin]; [lia|]. cbn [map fst] in Hs. apply StronglySorted_inv in Hs as [_ Hs].
    rewrite List.Forall_forall in Hs. apply Hs. apply (in_map fst _ (t, w)). by apply list_elem_of_In. }
  replace (start <=? t1) with false by (symmetry; apply Z.leb_gt; lia). lia.
Qed.

(** The growth of a counter over a window is that of the whole history: the pruning of
    the samples changes nothing, as long as nothing was pruned or one of the samples
    kept is older than the window. *)
Theorem series_increase_exact h now v window : let s := h ++ [(now, v)] in
  StronglySorted Z.le (map fst s) -> 0 <= window <= SERIES_KEEP_MS ->
  pushed s = s \/ (exists at_ w, (at_, w) ∈ s /\ now - SERIES_KEEP_MS <= at_ < sat_sub now window) ->
  series_increase now window (pushed s) = pairs_growth (sat_sub now window) s mod 2 ^ 64.
Proof.
  cbn zeta. intros Hs Hw Hm. rewrite series_increase_pairs. f_equal. rewrite (pushed_drop _ _ _ Hs) in Hm |- *.
  apply pairs_growth_drop; unfold sat_sub in *; [lia|lia|done|done].
Qed.

(** ** No data is no recovery *)

Fixpoint before_colon (s : string) : string :=
  match s with String c s => if Ascii.eqb c ":" then "" else String c (before_colon s) | EmptyString => "" end.
Lemma before_colon_app r s : before_colon r = r -> before_colon (r +:+ ":" +:+ s) = r.
Proof.
  induction r as [|c r IH]; [done|]. change (String c r +:+ ":" +:+ s) with (String c (r +:+ ":" +:+ s)). cbn [before_colon].
  destruct (Ascii.eqb c ":"); [done|]. intros [= E]. by rewrite (IH E).
Qed.

Definition keyed (k : string) (c : Condition) : Prop := k = co_rule c +:+ ":" +:+ co_subject c.
Lemma meet_keyed now k f c : finding_key f = k -> match c with Some c => keyed k c | None => True end -> keyed k (meet now f c).
Proof. intros <- Hc. unfold keyed in *. by destruct c. Qed.
Lemma meets_keyed now k fs : forall c, (forall f, f ∈ fs -> finding_key f = k) -> match c with Some c => keyed k c | None => True end ->
  match foldl (fun c f => Some (meet now f c)) c fs with Some c => keyed k c | None => True end.
Proof.
  induction fs as [|f fs IH]; intros c Hk Hc; [done|]. cbn [foldl]. apply IH; [intros g Hg; apply Hk; by right|].
  apply meet_keyed; [apply Hk; by left|done].
Qed.

Lemma engine_keyed r ts k c : conditions (observe_all ts (engine_new r)) !! k = Some c -> keyed k c.
Proof.
  assert (Hinv : match conditions (observe_all ts (engine_new r)) !! k with Some c => keyed k c | None => True end);
    [|intros Hc; by rewrite Hc in Hinv].
  induction ts as [|t ts IH] using rev_ind; [done|]. rewrite observe_all_snoc, observe_key. unfold tick_key.
  destruct (List.filter _ _) as [|f fs] eqn:E.
  - destruct (conditions _ !! k) as [c0|]; [|done]. destruct (checked_in _ c0); [|done]. unfold absent.
    destruct (firing c0); cbn [negb]; [|done]. by destruct (_ <=? _).
  - rewrite <- E. apply meets_keyed; [|done]. intros g Hg. apply list_elem_of_In, filter_In in Hg as [_ Hg]. by apply String.eqb_eq.
Qed.

(** What the checks report, whatever their samples. *)
Definition reports (rules : list string) (c : check) : Prop := forall s, Forall (fun f => fi_rule f ∈ rules) (fst (c s)).

Lemma seq_checks_reports rules cs : Forall (reports rules) cs -> reports rules (seq_checks cs).
Proof.
  intros Hcs s. unfold seq_checks. assert (Hacc : Forall (fun f => fi_rule f ∈ rules) (fst (@nil Finding, s))) by done.
  revert Hacc. generalize (@nil Finding, s). induction Hcs as [|c cs Hc _ IH]; intros acc Hacc; [done|]. cbn [foldl]. apply IH.
  specialize (Hc (snd acc)). destruct (c (snd acc)) as [fs s']. by apply Forall_app.
Qed.
Lemma plain_reports rules b f : fi_rule f ∈ rules -> reports rules (plain b f).
Proof. intros Hf s. unfold plain. destruct b; cbn; by repeat constructor. Qed.
Lemma growth_reports rules key v now w t f : (forall n, fi_rule (f n) ∈ rules) -> reports rules (growth_check key v now w t f).
Proof.
  intros Hf s. unfold growth_check. destruct (counter _ _ _ _ _) as [[n|] s']; cbn [fst]; [|done]. destruct (t <=? n); by repeat constructor.
Qed.
Ltac by_rule := first [apply plain_reports | apply growth_reports; intros ?]; apply (bool_decide_unpack _); reflexivity.

Lemma node_check_reports r now latest v : reports EDGE_RULES (node_check r now latest v).
Proof.
  unfold node_check. destruct (view_status v); try by_rule; try (by intros s); apply seq_checks_reports; unfold node_checks; cbn zeta;
    repeat (constructor; [by_rule|]); constructor.
Qed.

Lemma reports_weaken rules rules' c : rules ⊆ rules' -> reports rules c -> reports rules' c.
Proof. intros Hs Hc s. eapply Forall_impl; [apply Hc|]. intros f Hf. by apply Hs. Qed.

(** Every finding is of a rule that was looked at. *)
Lemma look_reports e t : Forall (fun f => fi_rule f ∈ look_rules (look e t)) (look_found (look e t)).
Proof.
  unfold look, evaluate. cbn zeta.
  match goal with |- context [seq_checks ?cs ?s] => set (checks := cs); set (s0 := s) end.
  assert (Hall : Forall (reports ("tinyuma_unreachable"%string :: match upstream_data (in_upstream (snd t)) with Some _ => UPSTREAM_RULES | None => [] end
                                   ++ EDGE_RULES ++ ["panel_feed_down"%string])) checks).
  { unfold checks. constructor; [apply plain_reports; by left|]. apply Forall_app. split; [|apply Forall_app; split].
    - destruct (upstream_data _) as [d|]; [|constructor]. unfold upstream_checks, loss_checks. cbn zeta. cbn [app]. repeat (constructor; [by_rule|]). constructor.
    - apply Forall_map, Forall_true. intros v. eapply reports_weaken; [|apply node_check_reports].
      intros x Hx. apply elem_of_cons. right. apply elem_of_app. right. apply elem_of_app. by left.
    - unfold cluster_checks. repeat constructor; apply plain_reports; destruct (upstream_data _); apply (bool_decide_unpack _); reflexivity. }
  assert (Hr := seq_checks_reports _ _ Hall s0). destruct (seq_checks checks s0) as [fs s']. exact Hr.
Qed.

(** No data is no recovery.  While the service cannot be polled, a condition of a rule
    on its counters stays exactly as it was, however long that lasts. *)
Theorem no_data_no_recovery r ts now i k c : let e := observe_all ts (engine_new r) in
  upstream_fresh (in_upstream i) = false -> conditions e !! k = Some c -> co_rule c ∈ UPSTREAM_RULES ->
  conditions (observe now i e) !! k = Some c.
Proof.
  cbn zeta. set (e := observe_all ts (engine_new r)). intros Hfresh Hc Hrule. rewrite observe_key, Hc.
  assert (Hev : look_rules (look e (now, i)) = "tinyuma_unreachable"%string :: EDGE_RULES ++ ["panel_feed_down"%string]).
  { unfold look, evaluate, upstream_data. cbn [fst snd]. rewrite Hfresh. by destruct (seq_checks _ _). }
  assert (Hsep : forall x, x ∈ UPSTREAM_RULES -> before_colon x = x /\ existsb (String.eqb x) ("tinyuma_unreachable"%string :: EDGE_RULES ++ ["panel_feed_down"%string]) = false).
  { apply Forall_forall. apply (bool_decide_unpack (Forall _ _)). reflexivity. }
  destruct (Hsep _ Hrule) as [Hcolon Hnot].
  assert (Hnil : List.filter (of_key k) (look_found (look e (now, i))) = []).
  { destruct (List.filter _ _) as [|f fs] eqn:E; [done|]. exfalso.
    assert (Hin : In f (List.filter (of_key k) (look_found (look e (now, i))))) by (rewrite E; by left).
    apply filter_In in Hin as [Hin Hk]. apply String.eqb_eq in Hk. assert (Hr := look_reports e (now, i)).
    rewrite Forall_forall in Hr. specialize (Hr f (proj2 (list_elem_of_In _ _) Hin)). rewrite Hev in Hr.
    assert (Hf : before_colon (fi_rule f) = fi_rule f).
    { revert Hr. generalize (fi_rule f). apply Forall_forall. apply (bool_decide_unpack (Forall _ _)). reflexivity. }
    assert (Eq : fi_rule f = co_rule c).
    { rewrite <- Hf, <- Hcolon, <- (before_colon_app _ (fi_subject f) Hf), <- (before_colon_app _ (co_subject c) Hcolon).
      f_equal. assert (Hkc := engine_keyed r ts k c Hc). unfold keyed in Hkc. unfold finding_key in Hk. congruence. }
    apply not_true_iff_false in Hnot. apply Hnot, existsb_exists. exists (co_rule c). split; [|apply String.eqb_refl].
    rewrite <- Eq. by apply list_elem_of_In. }
  rewrite Hnil. cbn [tick_key]. unfold checked_in. by rewrite Hev, Hnot.
Qed.

End Alerts.

(** ** The engine on concrete inputs *)

Module Samples.
#[local] Instance float_text : FloatText := {| fmt_f64 _ := "95"%string; fmt_f64_1 _ := "95.0"%string |}.

Definition T0 : Z := 10000000.
(** A status of the service; [connected] is its subscription to the chain. *)
Definition status (connected : bool) (at_ms : Z) : Json :=
  {| json_u64 k := (if String.eqb k "last_upstream_received_at_us" then Some (at_ms * 1000)
                   else if String.eqb k "catalog_markets" then Some 500000
                   else if existsb (String.eqb k) ["rpc_sources_connected"; "rpc_sources_configured"]%string then Some 1 else None)%string;
     json_bool k := if String.eqb k "rpc_connected" then Some connected else None |}.
Definition polled (connected : bool) (at_ms : Z) : UpstreamSnapshot :=
  {| base_url := "u"; fetched_at_ms := at_ms; ok := true; error := None; healthz := Some (status connected at_ms);
     dashboard := None; latest_sequence := 1000 |}.
Definition rules : AlertRules :=
  let r := AlertRules_default in
  {| upstream_unreachable_s := 60; rpc_disconnected_s := 30; rpc_sources_degraded_s := 300; rpc_reconnects_per_30m := 6;
     upstream_silent_min := 20; enrichment_recent_min_pct := enrichment_recent_min_pct r; enrichment_misses_per_1h := 30;
     decode_errors_per_1h := 30; slow_clients_per_10m := 3; cursor_rejected_per_10m := 10; storage_dropped_per_10m := 1;
     catalog_min_markets := 200000; min_serving_nodes := 0; edge_stale_s := 30; edge_upstream_down_s := 60;
     edge_sequence_lag := 20; edge_sequence_lag_s := 60; edge_link_lag_ms := 1000; edge_link_lag_s := 60;
     edge_accepted_per_1h := 800; edge_slow_clients_per_10m := 20; edge_bad_frames_per_10m := 1; edge_full_pct := 95;
     edge_full_s := 300; panel_feed_down_s := 300; resolve_after_s := 60; repeat_after_min := 60 |}.
Definition inputs (connected : bool) (at_ms : Z) : Inputs :=
  {| in_upstream := polled connected at_ms; in_nodes := []; feed_connected := true |}.
Definition unreachable : Inputs := {| in_upstream := snapshot_default; in_nodes := []; feed_connected := true |}.
Definition key : string := "rpc_disconnected:".

(** Down since [T0], down still at half a minute: it fires. *)
Definition down : list (Z * Inputs) := [(T0, inputs false T0); (T0 + 30000, inputs false (T0 + 30000))].
Definition fired : Engine := observe_all down (engine_new rules).
Definition firing_condition : Condition := default
  {| co_rule := ""; co_title := ""; co_severity := Warning; co_subject := ""; co_detail := ""; pending_since := 0; firing := false;
     notified_ms := None; absent_since := None |} (conditions fired !! key).

Example fires_at_the_hold :
  pending_message T0 None (observe T0 (inputs false T0) (engine_new rules)) = None
  /\ (keys <$> pending_message (T0 + 30000) None fired) = Some [key].
Proof. vm_compute. done. Qed.

Lemma alert_life_witness :
  held key (looks (down ++ [(T0 + 31000, inputs false (T0 + 31000))]) (engine_new rules))
    (default firing_condition (conditions (observe (T0 + 31000) (inputs false (T0 + 31000)) fired) !! key)).
Proof.
  assert (Hc : conditions (observe (T0 + 31000) (inputs false (T0 + 31000)) fired) !! key
    = Some (default firing_condition (conditions (observe (T0 + 31000) (inputs false (T0 + 31000)) fired) !! key)))
    by (vm_compute; reflexivity).
  assert (Hf : firing (default firing_condition (conditions (observe (T0 + 31000) (inputs false (T0 + 31000)) fired) !! key)) = true)
    by (vm_compute; reflexivity).
  exact (proj1 (alert_life rules down (T0 + 31000) (inputs false (T0 + 31000)) key) _ Hc Hf).
Defined.

Lemma no_data_no_recovery_witness :
  conditions (observe (T0 + 9000000) unreachable fired) !! key = Some firing_condition.
Proof.
  assert (Hf : upstream_fresh (in_upstream unreachable) = false) by reflexivity.
  assert (Hc : conditions (observe_all down (engine_new rules)) !! key = Some firing_condition) by (vm_compute; reflexivity).
  assert (Hu : co_rule firing_condition ∈ UPSTREAM_RULES) by (apply (bool_decide_unpack _); vm_compute; reflexivity).
  exact (no_data_no_recovery rules down (T0 + 9000000) unreachable key firing_condition Hf Hc Hu).
Defined.

Definition start : AlertsState :=
  {| engine := observe T0 (inputs false T0) (engine_new rules); delivery := delivery (alerts_new rules true) |}.
Definition message : string := default "" (fst (alert_tick (T0 + 30000) (inputs false (T0 + 30000)) None (Ok tt) start)).
Definition said : AlertsState := snd (alert_tick (T0 + 30000) (inputs false (T0 + 30000)) None (Ok tt) start).
Lemma alert_said_once_witness : pending_message (T0 + 30000) None (engine said) = None.
Proof.
  assert (Ht : alert_tick (T0 + 30000) (inputs false (T0 + 30000)) None (Ok tt) start = (Some message, said)) by (vm_compute; reflexivity).
  assert (Hr : 0 < repeat_ms_of (engine start)) by (vm_compute; reflexivity).
  exact (proj1 (alert_said_once _ _ _ _ _ _ _ Ht Hr)).
Defined.

Definition unsaid : Notification := default {| text := ""; keys := []; resolved_count := 0 |} (pending_message (T0 + 30000) None fired).
Lemma failed_push_keeps_alerts_witness :
  exists st', alert_tick (T0 + 30000) (inputs false (T0 + 30000)) None (Err "timeout"%string) start = (None, st')
    /\ last_error (delivery st') = Some "timeout"%string.
Proof.
  assert (Hw : webhook_configured (delivery start) = true) by reflexivity.
  assert (Hb : retry_blocked (T0 + 30000) (delivery start) = false) by (vm_compute; reflexivity).
  assert (Hn : pending_message (T0 + 30000) None (observe (T0 + 30000) (inputs false (T0 + 30000)) (engine start)) = Some unsaid)
    by (vm_compute; reflexivity).
  destruct (failed_push_keeps_alerts _ _ _ "timeout" _ _ Hw Hb Hn) as (st' & E & _ & He & _). exists st'. split; [exact E|exact He].
Defined.

(** A node that lost its upstream, then falls silent: nothing is known of it any more. *)
Definition node (st : Status) (at_ms : Z) : NodeView :=
  {| view_node := {| heartbeat_of := Heartbeat_default; remote_ip := ""; first_seen_ms := 0; last_seen_ms := at_ms;
                     desired_drain := false; pending_release := 0; released_total := 0; last_release_ms := 0 |};
     view_disabled := false; view_relay := false; view_note := ""; view_status := st; view_url := ""; view_balance_excess := 0 |}.
Definition node_inputs (st : Status) (at_ms : Z) : Inputs :=
  {| in_upstream := polled true at_ms; in_nodes := [node st at_ms]; feed_connected := true |}.
Definition lone_node_down : AlertsState :=
  foldl (fun st t => snd (alert_tick (T0 + t) (node_inputs NotReady (T0 + t)) None (Ok tt) st)) (alerts_new rules true) [0; 60000].

(** The rules on the nodes count as checked whatever the node: when it goes silent, its
    condition is reported as over although nothing was heard of it. *)
Example silent_node_reported_recovered :
  let quiet := foldl (fun e t => observe (T0 + t) (node_inputs Stale T0) e) (engine lone_node_down) [75000; 135000] in
  (firing <$> conditions (engine lone_node_down) !! "edge_upstream_down:") = Some true
  /\ conditions quiet !! "edge_upstream_down:" = None
  /\ map re_title (resolved quiet) = ["edge 与 tinyuma 断开"%string].
Proof. vm_compute. done. Qed.

Lemma series_increase_exact_witness :
  series_increase 3000 10000 (pushed [(0, 100); (1000, 150); (2000, 20); (3000, 30)]) = 80.
Proof.
  assert (Hs : StronglySorted Z.le (map fst ([(0, 100); (1000, 150); (2000, 20)] ++ [(3000, 30)])))
    by (repeat constructor; vm_compute; discriminate).
  assert (Hw : 0 <= 10000 <= SERIES_KEEP_MS) by (vm_compute; split; discriminate).
  etransitivity; [apply (series_increase_exact _ 3000 30 10000 Hs Hw); left; vm_compute; reflexivity|vm_compute; reflexivity].
Defined.
End Samples.
