(* ===== verification/AlertsTests.v ===== *)
(** * AlertsTests: the tests of [src/console/alerts.rs] on the model

    The functions of the source's test module under their names.  The engine is the state; a
    JSON value is given by its fields, and no rule that prints a float fires here. *)
From S2P Require Import Prelude Testing Float64 ConsoleFeed Registry Alerts.

#[local] Instance no_floats : FloatText := {| fmt_f64 _ := ""%string; fmt_f64_1 _ := ""%string |}.
Abbreviation T := (Test Engine).

Definition T0 : Z := 1800000000000.

Definition upstream (data : Json) (at_ : Z) : UpstreamSnapshot :=
  {| base_url := ""; fetched_at_ms := at_; ok := true; error := None; healthz := Some data; dashboard := Some data; latest_sequence := 1000 |}.

(** [healthy], with the value of [rpc_connected]. *)
Definition health (connected : bool) (at_ : Z) : Json :=
  {| json_u64 k :=
       snd <$> List.find (fun p => String.eqb p.1 k)
         [("rpc_sources_connected", 1); ("rpc_sources_configured", 1); ("rpc_reconnects_total", 0);
          ("last_upstream_received_at_us", at_ * 1000); ("catalog_markets", 500000)]%string;
     json_bool k := if String.eqb k "rpc_connected" then Some connected else None |}.
Definition healthy (at_ : Z) : Json := health true at_.

Definition node_with (id : string) (status : Status) (accepted at_ : Z) (connected is_relay : bool) : NodeView :=
  {| view_node :=
       {| heartbeat_of :=
            {| hb_node_id := id; hb_version := ""; hb_commit := ""; hb_started_at_ms := 0; hb_sent_at_ms := 0; hb_advertise_host := ""; hb_port := 0;
               hb_tls := false; hb_path := ""; hb_subprotocol := ""; hb_ready := false; hb_draining := false; hb_upstream_url := "";
               hb_upstream_connected := connected; hb_upstream_reconnects_total := 0; hb_last_frame_at_ms := 0; hb_frames_total := 0;
               hb_bytes_total := 0; hb_bad_frames_total := 0; hb_last_event_sequence := 1000; hb_ring_frames := 0; hb_ring_capacity := 0;
               hb_upstream_lag_last_us := 0; hb_upstream_lag_max_us := 0; hb_clients := 300; hb_max_clients := 1000;
               hb_clients_accepted_total := accepted; hb_clients_rejected_total := 0; hb_rejected_token_total := 0;
               hb_rejected_draining_total := 0; hb_rejected_full_total := 0; hb_rejected_subprotocol_total := 0;
               hb_rejected_replay_total := 0; hb_slow_clients_disconnected_total := 0; hb_deliveries_total := 0; hb_fanout_last_us := 0;
               hb_fanout_max_us := 0; hb_tokens_version := 0; hb_clients_by_token := ∅ |};
          remote_ip := ""; first_seen_ms := at_; last_seen_ms := at_; desired_drain := false; pending_release := 0; released_total := 0;
          last_release_ms := 0 |};
     view_disabled := false; view_relay := is_relay; view_note := ""; view_status := status; view_url := ""; view_balance_excess := 0 |}.
Definition node (id : string) (status : Status) (accepted at_ : Z) : NodeView := node_with id status accepted at_ true false.
Definition inputs (data : Json) (nodes : list NodeView) (at_ : Z) : Inputs :=
  {| in_upstream := upstream data at_; in_nodes := nodes; feed_connected := true |}.
Definition quiet (at_ : Z) : Inputs := inputs (healthy at_) [node "a" Serving 0 at_] at_.

Definition observes (t : Z) (i : Inputs) : T unit := act (observe t i).
Definition message (t : Z) (panel : option string) : T Notification := m ← peek (pending_message t panel); expect m.
Definition silent (t : Z) : T unit := m ← peek (pending_message t None); assert (match m with None => true | Some _ => false end).
Definition sent (n : Notification) (t : Z) : T unit := act (mark_sent n t).
Definition says (n : Notification) (s : string) : T unit := assert (contains s (text n)).

Definition counter_increase_survives_a_restart : T unit :=
  let series := series_push (T0 + 3000) 30 (series_push (T0 + 2000) 20 (series_push (T0 + 1000) 150 (series_push T0 100 []))) in
  assert (series_increase (T0 + 3000) 10000 series =? 50 + 20 + 10) ;; assert (series_increase (T0 + 3000) 1500 series =? 20 + 10).

(** The texts below are those of the source, [T0] its clock. *)
Definition sustained_condition_fires_once_then_resolves : T unit :=
  let down := health false T0 in
  observes T0 (inputs down [node "a" Serving 0 T0] T0) ;; silent T0 ;;
  let t := T0 + 30000 in
  observes t (inputs down [node "a" Serving 0 t] t) ;;
  n ← message t (Some "https://panel"%string);
  says n "RPC 订阅全部断开" ;; says n "面板：https://panel" ;; sent n t ;; silent (t + 15000) ;;
  observes (T0 + 60000) (quiet (T0 + 60000)) ;; silent (T0 + 60000) ;;
  let t := T0 + 120000 in
  observes t (quiet t) ;;
  n ← message t None;
  says n "✅ tinyuma 的 Polygon RPC 订阅全部断开" ;; sent n t ;;
  vs ← peek views; assert (length vs =? 0)%nat.

Definition churn_on_several_nodes_is_one_grouped_line : T unit :=
  let nodes a b c t := [node "uma-slave1" Serving a t; node "uma-slave2" Serving b t; node "ubuntu3" Serving c t] in
  observes T0 (inputs (healthy T0) (nodes 1000 5000 100 T0) T0) ;;
  let t := T0 + 30 * MINUTE_MS in
  observes t (inputs (healthy t) (nodes 1900 5850 215 t) t) ;;
  n ← message t None;
  assert (occurrences "edge 客户端反复断线重连" (text n) =? 1)%nat ;;
  says n "uma-slave1：近 1h 新接入 900" ;; says n "uma-slave2：近 1h 新接入 850" ;; assert (negb (contains "ubuntu3" (text n))) ;;
  assert (starts_with "【uma 告警】新触发 1 " (text n)).

Definition unreachable_tinyuma_does_not_fake_a_recovery : T unit :=
  let down := health false T0 in
  for_each [T0; T0 + 30000] (fun t => observes t (inputs down [node "a" Serving 0 t] t)) ;;
  n ← message (T0 + 30000) None; sent n (T0 + 30000) ;;
  let unreachable nodes :=
    {| in_upstream := {| base_url := ""; fetched_at_ms := T0; ok := false; error := Some "timeout"%string; healthz := Some (healthy T0);
                         dashboard := Some (healthy T0); latest_sequence := 1000 |};
       in_nodes := nodes; feed_connected := true |} in
  for_each (seqZ 1 10) (fun step => let t := T0 + 30000 + step * 15000 in observes t (unreachable [node "a" Serving 0 t])) ;;
  n ← message (T0 + 30000 + 150000) None;
  says n "console 抓不到 tinyuma" ;; assert (negb (contains "✅" (text n))).

Definition ten_minute_rules : AlertRules :=
  let r := AlertRules_default in
  {| upstream_unreachable_s := upstream_unreachable_s r; rpc_disconnected_s := rpc_disconnected_s r; rpc_sources_degraded_s := rpc_sources_degraded_s r;
     rpc_reconnects_per_30m := rpc_reconnects_per_30m r; upstream_silent_min := upstream_silent_min r;
     enrichment_recent_min_pct := enrichment_recent_min_pct r; enrichment_misses_per_1h := enrichment_misses_per_1h r;
     decode_errors_per_1h := decode_errors_per_1h r; slow_clients_per_10m := slow_clients_per_10m r;
     cursor_rejected_per_10m := cursor_rejected_per_10m r; storage_dropped_per_10m := storage_dropped_per_10m r;
     catalog_min_markets := catalog_min_markets r; min_serving_nodes := min_serving_nodes r; edge_stale_s := edge_stale_s r;
     edge_upstream_down_s := edge_upstream_down_s r; edge_sequence_lag := edge_sequence_lag r; edge_sequence_lag_s := edge_sequence_lag_s r;
     edge_link_lag_ms := edge_link_lag_ms r; edge_link_lag_s := edge_link_lag_s r; edge_accepted_per_1h := edge_accepted_per_1h r;
     edge_slow_clients_per_10m := edge_slow_clients_per_10m r; edge_bad_frames_per_10m := edge_bad_frames_per_10m r;
     edge_full_pct := edge_full_pct r; edge_full_s := edge_full_s r; panel_feed_down_s := panel_feed_down_s r;
     resolve_after_s := resolve_after_s r; repeat_after_min := 10 |}.
Definition failed_push_is_retried_and_repeats_after_interval : T unit :=
  act (fun _ => engine_new ten_minute_rules) ;;
  let stale t := inputs (healthy t) [node "a" Stale 0 (t - 60000)] t in
  observes T0 (stale T0) ;; observes (T0 + 30000) (stale (T0 + 30000)) ;;
  message (T0 + 30000) None ;;
  observes (T0 + 45000) (stale (T0 + 45000)) ;;
  n ← message (T0 + 45000) None; says n "新触发 1" ;; sent n (T0 + 45000) ;;
  silent (T0 + 60000) ;;
  let t := T0 + 45000 + 10 * MINUTE_MS in
  observes t (stale t) ;;
  n ← message t None; says n "仍未恢复（到期提醒）" ;; says n "a：心跳".

Definition relay_node_still_alerts : T unit :=
  let down t := inputs (healthy t) [node_with "uma-hk-master" Relay 0 t false true; node "a" Serving 0 t] t in
  observes T0 (down T0) ;;
  let t := T0 + 10 * MINUTE_MS in
  observes t (down t) ;;
  n ← message t None; says n "edge 与 tinyuma 断开" ;; says n "uma-hk-master".

Example alerts_tests_pass : forallb (fun t => passes t (engine_new AlertRules_default))
  [counter_increase_survives_a_restart; sustained_condition_fires_once_then_resolves; churn_on_several_nodes_is_one_grouped_line;
   unreachable_tinyuma_does_not_fake_a_recovery; failed_push_is_retried_and_repeats_after_interval; relay_node_still_alerts] = true.
Proof. vm_compute. reflexivity. Qed.
