(* ===== verification/Rpc.v ===== *)
(** * Rpc: reading the chain ([src/uma/rpc.rs])

    The racers' live subscriptions, the back-fill over HTTP and the gap-fill after a
    reconnection.  The endpoints are parameters: what a socket delivers is a list of items
    and what an HTTP endpoint answers is a function of the request.  No request is made
    twice in one run of the back-fill or of the search, so a function is any sequence of
    answers. *)
From S2P Require Import Prelude Model Channel Events Storage Pipeline.

(** ** Errors and HTTP calls *)

Inductive RpcError :=
| WebSocketError (e : string)
| HttpError (e : string)
| JsonError
| Remote (code : Z) (message : string)
| MissingResult
| SubscriptionClosed
| NumberError.

Record RpcResponse (A : Type) := { rpc_result : option A; rpc_error : option (Z * string) }.
#[global] Arguments rpc_result {_} _.
#[global] Arguments rpc_error {_} _.

(** A POST that fails, or whose body is not of the type, is a [reqwest::Error]. *)
Inductive http_answer (A : Type) := Failed (e : string) | Answered (r : RpcResponse A).
#[global] Arguments Failed {_} _.
#[global] Arguments Answered {_} _.

Definition call {A} (a : http_answer A) : result RpcError A :=
  match a with
  | Failed e => Err (HttpError e)
  | Answered r =>
      match rpc_error r with
      | Some (code, m) => Err (Remote code m)
      | None => match rpc_result r with Some x => Ok x | None => Err MissingResult end
      end
  end.

Record HttpRpc := {
  eth_blockNumber : http_answer string;
  eth_getBlockByNumber : string -> http_answer string;
  eth_getLogs : string -> string -> http_answer (list RpcLog) }.

Definition quantity (z : Z) : string := "0x" +:+ fmt_hex z.
Definition rpc_number (field value : string) : result RpcError Z :=
  match parse_hex_u64 value field with Ok z => Ok z | Err _ => Err NumberError end.
Definition latest_block (http : HttpRpc) : result RpcError Z := v ← call (eth_blockNumber http); rpc_number "blockNumber" v.
Definition block_timestamp (http : HttpRpc) (block : Z) : result RpcError Z :=
  v ← call (eth_getBlockByNumber http (quantity block)); rpc_number "timestamp" v.
Definition get_logs (http : HttpRpc) (from to : Z) : result RpcError (list RpcLog) :=
  call (eth_getLogs http (quantity from) (quantity to)).

(** [None] is out of fuel. *)
Fixpoint search_loop (fuel : nat) (http : HttpRpc) (target low high : Z) : option (result RpcError Z) :=
  match fuel with
  | O => None
  | S f =>
      if low <? high then
        let middle := low + (high - low) / 2 in
        match block_timestamp http middle with
        | Err e => Some (Err e)
        | Ok t => if t <? target then search_loop f http target (Z.min u64_max (middle + 1)) high
                  else search_loop f http target low middle
        end
      else Some (Ok low)
  end.
(** Every round at least halves the range, so 65 are enough for any two u64s. *)
Definition first_block_at_or_after (http : HttpRpc) (target low head : Z) : option (result RpcError Z) :=
  search_loop 65 http target low head.

(** ** Back-fill *)

(** The key of [sort_unstable_by_key]. *)
Definition log_key (l : RpcLog) : Z * Z :=
  (match parse_hex_u64 (log_block_number l) "blockNumber" with Ok b => b | Err _ => 0 end,
   match parse_hex_u64 (log_log_index l) "logIndex" with Ok i => i | Err _ => 0 end).
Definition log_le (a b : RpcLog) : bool :=
  let '((b1, i1), (b2, i2)) := (log_key a, log_key b) in (b1 <? b2) || ((b1 =? b2) && (i1 <=? i2)).

Section Rpc.
Context `{EthCodec} `{Mpsc StorageCommand}.
(** [sort_unstable_by_key], and the clock: the time of reception in microseconds and the
    processor's own clock, for the [i]-th log of a batch that starts at a block. *)
Variable sort_unstable : list RpcLog -> list RpcLog.
Variable clock : Z -> nat -> Z * Z.

Fixpoint feed (source : string) (at_ : Z) (k : nat) (logs : list RpcLog) (p : Processor) : Processor :=
  match logs with
  | [] => p
  | l :: logs => let '(us, now) := clock at_ k in feed source at_ (S k) logs (process l us source now p)
  end.

(** One batch: its logs in order, then its checkpoint. *)
Record Window := { w_from : Z; w_to : Z; w_logs : list RpcLog }.
Definition do_window (source : string) (p : Processor) (w : Window) : Processor :=
  checkpoint (w_to w) (feed source (w_from w) 0 (sort_unstable (w_logs w)) p).

Fixpoint range_loop (fuel : nat) (http : HttpRpc) (batch_blocks : Z) (source : string) (cursor to : Z) (p : Processor)
  : option (result RpcError unit * list Window * Processor) :=
  match fuel with
  | O => None
  | S f =>
      if cursor <=? to then
        let end_ := Z.min (Z.min u64_max (cursor + (Z.max batch_blocks 1 - 1))) to in
        match get_logs http cursor end_ with
        | Err e => Some (Err e, [], p)
        | Ok logs =>
            let w := {| w_from := cursor; w_to := end_; w_logs := logs |} in
            match range_loop f http batch_blocks source (Z.min u64_max (end_ + 1)) to (do_window source p w) with
            | Some (r, ws, p) => Some (r, w :: ws, p)
            | None => None
            end
        end
      else Some (Ok tt, [], p)
  end.

(** One round per batch; the last round sees that the range is done. *)
Definition range_fuel (batch_blocks from to : Z) : nat := S (S (Z.to_nat ((to - from) / Z.max batch_blocks 1))).
Definition backfill_range (http : HttpRpc) (from to batch_blocks : Z) (source : string) (p : Processor)
  : option (result RpcError unit * list Window * Processor) :=
  range_loop (range_fuel batch_blocks from to) http batch_blocks source from to p.

Record Config := { start_block : option Z; initial_backfill_days : Z; backfill_batch_blocks : Z }.

(** Where the back-fill starts: behind the checkpoint, at the configured block, or at the
    first block of the look-back window. *)
Definition backfill_from (cfg : Config) (http : HttpRpc) (cursor : option Z) (head : Z) : option (result RpcError Z) :=
  match cursor, start_block cfg with
  | Some c, _ => Some (Ok (Z.min u64_max (c + 1)))
  | None, Some start => Some (Ok start)
  | None, None =>
      match block_timestamp http head with
      | Err e => Some (Err e)
      | Ok head_timestamp =>
          let span := Z.min u64_max (initial_backfill_days cfg * (24 * 60 * 60)) in
          first_block_at_or_after http (sat_sub head_timestamp span) (sat_sub head span) head
      end
  end.

(** [storage.load_uma_cursor().ok().flatten()] *)
Definition stored_cursor (files : Files) : option Z := match load_uma_cursor files with Ok c => c | Err _ => None end.

Definition run_backfill (cfg : Config) (files : Files) (http : HttpRpc) (p : Processor)
  : option (result RpcError unit * list Window * Processor) :=
  match latest_block http with
  | Err e => Some (Err e, [], p)
  | Ok head =>
      match backfill_from cfg http (stored_cursor files) head with
      | None => None
      | Some (Err e) => Some (Err e, [], p)
      | Some (Ok from) =>
          if from <=? head then backfill_range http from head (backfill_batch_blocks cfg) "backfill" p
          else Some (Ok tt, [], p)
      end
  end.

(** The retries of [run_rpc_loop]: an attempt sees the files and the endpoint of its time;
    the first success ends them.  The delays between the attempts come out. *)
Fixpoint backfill_attempts (cfg : Config) (attempts : list (Files * HttpRpc)) (backoff_s : Z) (p : Processor)
  : option (bool * list Z * list Window * Processor) :=
  match attempts with
  | [] => Some (false, [], [], p)
  | (files, http) :: attempts =>
      match run_backfill cfg files http p with
      | None => None
      | Some (Ok _, ws, p) => Some (true, [], ws, p)
      | Some (Err _, ws, p) =>
          match backfill_attempts cfg attempts (Z.min (backoff_s * 2) 30) p with
          | Some (ok, delays, ws', p) => Some (ok, backoff_s :: delays, ws ++ ws', p)
          | None => None
          end
      end
  end.

(** ** Gap-fill *)

Definition gap_from (latest : Z) : option Z := let from := Z.min u64_max (latest + 1) in if from <=? 1 then None else Some from.
(** [GapFill::spawn]: [latest] is read when it is spawned, [p] is the processor the task
    works on. *)
Definition gap_fill (http : HttpRpc) (batch_blocks : Z) (source : string) (latest : Z) (p : Processor)
  : option (list Window * Processor) :=
  match gap_from latest with
  | None => Some ([], p)
  | Some from =>
      match latest_block http with
      | Err _ => Some ([], p)
      | Ok head =>
          if head <? from then Some ([], p)
          else match backfill_range http from head batch_blocks source p with
               | Some (_, ws, p) => Some (ws, p)
               | None => None
               end
      end
  end.

(** ** Live subscription *)

(** The counters of [Stats] the racers share. *)
Record RpcStats := {
  rpc_connected : bool;
  rpc_sources_connected : Z;
  rpc_reconnects : Z;
  rpc_bytes_received : Z;
  rpc_bytes_sent : Z }.

Definition mark_source_connected (s : RpcStats) : RpcStats :=
  {| rpc_connected := true; rpc_sources_connected := increment (rpc_sources_connected s); rpc_reconnects := rpc_reconnects s;
     rpc_bytes_received := rpc_bytes_received s; rpc_bytes_sent := rpc_bytes_sent s |}.
Definition mark_source_disconnected (s : RpcStats) : RpcStats :=
  let remaining := decrement_saturating (rpc_sources_connected s) in
  {| rpc_connected := 0 <? remaining; rpc_sources_connected := remaining; rpc_reconnects := rpc_reconnects s;
     rpc_bytes_received := rpc_bytes_received s; rpc_bytes_sent := rpc_bytes_sent s |}.
Definition count_received (n : Z) (s : RpcStats) : RpcStats :=
  {| rpc_connected := rpc_connected s; rpc_sources_connected := rpc_sources_connected s; rpc_reconnects := rpc_reconnects s;
     rpc_bytes_received := u64_add (rpc_bytes_received s) n; rpc_bytes_sent := rpc_bytes_sent s |}.
Definition count_sent (n : Z) (s : RpcStats) : RpcStats :=
  {| rpc_connected := rpc_connected s; rpc_sources_connected := rpc_sources_connected s; rpc_reconnects := rpc_reconnects s;
     rpc_bytes_received := rpc_bytes_received s; rpc_bytes_sent := u64_add (rpc_bytes_sent s) n |}.
Definition count_reconnect (s : RpcStats) : RpcStats :=
  {| rpc_connected := rpc_connected s; rpc_sources_connected := rpc_sources_connected s; rpc_reconnects := increment (rpc_reconnects s);
     rpc_bytes_received := rpc_bytes_received s; rpc_bytes_sent := rpc_bytes_sent s |}.

(** What a text message is: an answer to the subscription, a notification (which, read as
    an answer, has none of its fields), or neither. *)
Inductive ws_text :=
| WsResponse (id : option Z) (res : option string) (error : option (Z * string))
| Notification (method : string) (log : RpcLog)
| Garbage.
(** What the socket yields next; a pong may fail to be sent. *)
Inductive ws_item :=
| Text (len : Z) (t : ws_text)
| Ping (pong : result string unit)
| Close
| OtherMessage
| SocketError (e : string)
| StreamEnd.

(** The handshake after the request is sent: [None] waits for the socket.  The rest of the
    items are the reader's. *)
Fixpoint confirm (items : list ws_item) (s : RpcStats) : option (result RpcError (list ws_item)) * RpcStats :=
  match items with
  | [] => (None, s)
  | Text len t :: items =>
      let s := count_received len s in
      match t with
      | Garbage => (Some (Err JsonError), s)
      | WsResponse _ _ (Some (code, m)) => (Some (Err (Remote code m)), s)
      | WsResponse id res None =>
          if bool_decide (id = Some 1) && bool_decide (is_Some res) then (Some (Ok items), s) else confirm items s
      | Notification _ _ => confirm items s
      end
  | Ping (Ok _) :: items => confirm items s
  | Ping (Err e) :: _ | SocketError e :: _ => (Some (Err (WebSocketError e)), s)
  | (Close | StreamEnd) :: _ => (Some (Err SubscriptionClosed), s)
  | OtherMessage :: items => confirm items s
  end.

(** The reader task: the logs it puts on the channel (a full channel makes it wait), and
    whether it has ended. *)
Fixpoint reader (items : list ws_item) (s : RpcStats) : list RpcLog * bool * RpcStats :=
  match items with
  | [] => ([], false, s)
  | Text len t :: items =>
      let '(logs, done_, s) := reader items (count_received len s) in
      (match t with Notification m l => if String.eqb m "eth_subscription" then l :: logs else logs | _ => logs end, done_, s)
  | Ping (Ok _) :: items | OtherMessage :: items => reader items s
  | (Ping (Err _) | Close | SocketError _ | StreamEnd) :: _ => ([], true, s)
  end.

Definition live_log (source : string) (us now : Z) (l : RpcLog) (p : Processor) : Processor :=
  let block := fst (log_key l) in
  let p := process l us source now p in
  if 0 <? block then checkpoint block p else p.
Fixpoint live_logs (source : string) (k : nat) (logs : list RpcLog) (p : Processor) : Processor :=
  match logs with
  | [] => p
  | l :: logs => let '(us, now) := clock 0 k in live_logs source (S k) logs (live_log source us now l p)
  end.

(** [run_live_session]: [connect] and [sent] are the outcomes of the connection and of the
    sending of the request of [request_len] bytes, [stop] the number of logs before the shutdown is seen, if it is.
    [None] is a session that still runs.  The counters come out and, if the session got as
    far as subscribing, the processor from which a gap-fill would be spawned. *)
Definition run_live_session (source : string) (connect sent : result string unit) (request_len : Z) (items : list ws_item)
    (stop : option nat) (s : RpcStats) (p : Processor) : option (result RpcError unit) * bool * RpcStats * Processor :=
  match connect, sent with
  | Err e, _ => (Some (Err (WebSocketError e)), false, s, p)
  | Ok _, Err e => (Some (Err (WebSocketError e)), false, count_sent request_len s, p)
  | Ok _, Ok _ =>
      match confirm items (count_sent request_len s) with
      | (None, s) => (None, false, s, p)
      | (Some (Err e), s) => (Some (Err e), false, s, p)
      | (Some (Ok items), s) =>
          let '(logs, ended, s) := reader items (mark_source_connected s) in
          match stop with
          | Some n => if (n <=? length logs)%nat then (Some (Ok tt), true, s, live_logs source 0 (take n logs) p)
                      else (if ended then Some (Err SubscriptionClosed) else Some (Ok tt), true, s, live_logs source 0 logs p)
          | None => (if ended then Some (Err SubscriptionClosed) else None, true, s, live_logs source 0 logs p)
          end
      end
  end.
End Rpc.

(** ** Reconnection *)

Definition SECOND : Z := 1000000000.
Definition RECONNECT_BACKOFF_INITIAL : Z := SECOND.
Definition RECONNECT_BACKOFF_MAX : Z := 30 * SECOND.
Definition HEALTHY_SESSION : Z := 30 * SECOND.

(** Durations in nanoseconds. *)
Definition reconnect_backoff (current session_lasted : Z) : Z * Z :=
  let delay := if HEALTHY_SESSION <=? session_lasted then RECONNECT_BACKOFF_INITIAL else current in
  (delay, Z.min (delay * 2) RECONNECT_BACKOFF_MAX).

(** The part of [live_worker] behind a session that ended without a shutdown. *)
Record Worker := { sessions : Z; backoff : Z }.
Definition worker_new : Worker := {| sessions := 0; backoff := RECONNECT_BACKOFF_INITIAL |}.
Definition session_ended (lasted : Z) (w : Worker) (s : RpcStats) : Z * Worker * RpcStats :=
  let '(delay, next) := reconnect_backoff (backoff w) lasted in
  (delay, {| sessions := u64_add (sessions w) 1; backoff := next |}, count_reconnect (mark_source_disconnected s)).
(** Only a session that is not the first fills a gap. *)
Definition fills_gap (w : Worker) : bool := 0 <? sessions w.
Fixpoint delays (lasted : list Z) (w : Worker) (s : RpcStats) : list Z :=
  match lasted with
  | [] => []
  | l :: lasted => let '(d, w, s) := session_ended l w s in d :: delays lasted w s
  end.

(** ** The search for the first block *)

Section Search.
Variables (http : HttpRpc) (ts : Z -> Z) (target : Z).

Lemma search_loop_spec fuel : forall low high, 0 <= low -> low <= high -> high <= u64_max -> high - low < 2 ^ Z.of_nat fuel ->
  (forall b, low <= b < high -> block_timestamp http b = Ok (ts b)) ->
  (forall a b, low <= a -> a <= b -> b < high -> ts a <= ts b) ->
  exists b, search_loop (S fuel) http target low high = Some (Ok b) /\ low <= b <= high
    /\ (forall x, low <= x < b -> ts x < target) /\ (b < high -> target <= ts b).
Proof.
  induction fuel as [|fuel IH]; intros low high H0 Hle Hmax Hf Hts Hmono; cbn [search_loop].
  - replace high with low by (cbn in Hf; lia). rewrite Z.ltb_irrefl. exists low. repeat split; lia.
  - destruct (Z.ltb_spec low high) as [Hlt|Hge]; [|exists low; repeat split; lia].
    assert (Hmid : low <= low + (high - low) / 2 < high) by (pose proof (Z.div_mod (high - low) 2 ltac:(lia));
      pose proof (Z.mod_pos_bound (high - low) 2 ltac:(lia)); lia).
    assert (Hhalf : high - low < 2 * 2 ^ Z.of_nat fuel) by (rewrite <- Z.pow_succ_r, <- Nat2Z.inj_succ by lia; exact Hf).
    set (m := low + (high - low) / 2) in *. pose proof (Z.div_mod (high - low) 2 ltac:(lia)) as Hdm.
    pose proof (Z.mod_pos_bound (high - low) 2 ltac:(lia)) as Hmb.
    rewrite (Hts m) by lia. rewrite Z.min_r by lia. destruct (Z.ltb_spec (ts m) target) as [Hless|Hmore].
    + destruct (IH (m + 1) high) as (b & E & Hb & Hbelow & Habove); [lia|lia|lia|subst m; lia|intros; apply Hts; lia|intros; apply Hmono; lia|].
      exists b. split; [exact E|]. split; [lia|]. split; [|done]. intros x Hx.
      destruct (Z.le_gt_cases x m); [|apply Hbelow; lia]. apply (Z.le_lt_trans _ (ts m)); [apply Hmono; lia|done].
    + destruct (IH low m) as (b & E & Hb & Hbelow & Habove); [lia|lia|lia|subst m; lia|intros; apply Hts; lia|intros; apply Hmono; lia|].
      exists b. split; [exact E|]. split; [lia|]. split; [done|]. intros _.
      destruct (Z.eq_dec b m) as [->|Hne]; [done|apply Habove; lia].
Qed.
End Search.

(** On a chain whose timestamps do not decrease, the search ends and finds the first
    block of the range at or after the wanted time, or its end if there is none. *)
Theorem first_block_found http ts target low head : 0 <= low -> low <= head -> head <= u64_max ->
  (forall b, low <= b < head -> block_timestamp http b = Ok (ts b)) ->
  (forall a b, low <= a -> a <= b -> b < head -> ts a <= ts b) ->
  exists b, first_block_at_or_after http target low head = Some (Ok b) /\ low <= b <= head
    /\ (forall x, low <= x < b -> ts x < target) /\ (b < head -> target <= ts b).
Proof.
  intros H0 Hle Hmax Hts Hmono. apply (search_loop_spec http ts target 64); try done. unfold u64_max in Hmax. cbn. lia.
Qed.

(** The search ends whatever the endpoint answers. *)
Lemma search_loop_total http target fuel : forall low high, 0 <= low -> high <= u64_max -> high - low < 2 ^ Z.of_nat fuel ->
  exists r, search_loop (S fuel) http target low high = Some r.
Proof.
  induction fuel as [|fuel IH]; intros low high H0 Hmax Hf; cbn [search_loop].
  - destruct (Z.ltb_spec low high); [cbn in Hf; lia|by eexists].
  - destruct (Z.ltb_spec low high) as [Hlt|]; [|by eexists].
    assert (Hhalf : high - low < 2 * 2 ^ Z.of_nat fuel) by (rewrite <- Z.pow_succ_r, <- Nat2Z.inj_succ by lia; exact Hf).
    pose proof (Z.div_mod (high - low) 2 ltac:(lia)). pose proof (Z.mod_pos_bound (high - low) 2 ltac:(lia)).
    destruct (block_timestamp _ _) as [t|e]; [|by eexists]. rewrite Z.min_r by lia. destruct (t <? target); apply IH; lia.
Qed.

(** ** The back-fill of a range *)

(** The batches of at most [step] blocks the endpoint answered, from [c] up to [next]. *)
Inductive tiles (http : HttpRpc) (step to : Z) : Z -> list Window -> Z -> Prop :=
| tiles_nil c : tiles http step to c [] c
| tiles_cons c w ws next : w_from w = c -> w_to w = Z.min (c + (step - 1)) to -> c <= to ->
    get_logs http c (w_to w) = Ok (w_logs w) -> tiles http step to (w_to w + 1) ws next -> tiles http step to c (w :: ws) next.

Definition covers (w : Window) (b : Z) : bool := (w_from w <=? b) && (b <=? w_to w).

Lemma tiles_le http step to c ws next : 1 <= step -> tiles http step to c ws next -> c <= next.
Proof. intros Hs. induction 1; lia. Qed.
Lemma tiles_end http step to c ws next : tiles http step to c ws next -> c <= to + 1 -> next <= to + 1.
Proof. induction 1; lia. Qed.
Lemma tiles_in http step to c ws next w : 1 <= step -> tiles http step to c ws next -> w ∈ ws ->
  get_logs http (w_from w) (w_to w) = Ok (w_logs w) /\ c <= w_from w <= w_to w /\ w_to w < next /\ w_to w - w_from w < step.
Proof.
  intros Hs Ht. revert w. induction Ht as [c|c v ws next Hf He Hc Hg Ht IH]; intros w Hw; [by apply not_elem_of_nil in Hw|].
  assert (Hle := tiles_le _ _ _ _ _ _ Hs Ht). apply elem_of_cons in Hw as [->|Hw]; [rewrite Hf; repeat split; [done|lia..]|].
  destruct (IH w Hw) as (? & ? & ? & ?). repeat split; [done|lia..].
Qed.
(** Every block up to the end is in exactly one batch. *)
Lemma tiles_cover http step to c ws next b : 1 <= step -> tiles http step to c ws next -> c <= b < next ->
  length (List.filter (fun w => covers w b) ws) = 1%nat.
Proof.
  intros Hs Ht. induction Ht as [c|c w ws next Hf He Hc Hg Ht IH]; intros Hb; [lia|]. cbn [List.filter]. unfold covers at 1.
  destruct (Z.le_gt_cases b (w_to w)) as [Hin|Hout].
  - replace ((w_from w <=? b) && (b <=? w_to w)) with true by lia. cbn [length]. f_equal.
    destruct (List.filter _ ws) as [|v l] eqn:E; [done|]. exfalso.
    assert (Hv : In v (List.filter (fun w => covers w b) ws)) by (rewrite E; by left). apply filter_In in Hv as [Hv Hcov].
    apply list_elem_of_In in Hv. destruct (tiles_in _ _ _ _ _ _ v Hs Ht Hv) as (_ & Hvb & _). unfold covers in Hcov. lia.
  - replace ((w_from w <=? b) && (b <=? w_to w)) with false by lia. apply IH. lia.
Qed.

Section RangeProofs.
Context `{EthCodec} `{Mpsc StorageCommand}.
Variable sort_unstable : list RpcLog -> list RpcLog.
Variable clock : Z -> nat -> Z * Z.
#[local] Abbreviation do_window := (do_window sort_unstable clock).
#[local] Abbreviation range_loop := (range_loop sort_unstable clock).
#[local] Abbreviation backfill_range := (backfill_range sort_unstable clock).
#[local] Abbreviation run_backfill := (run_backfill sort_unstable clock).

(** What a run over a range is: its batches tile the range up to where it got. *)
Definition range_run (http : HttpRpc) (step from to : Z) (source : string) (p : Processor)
    (r : result RpcError unit) (ws : list Window) (p' : Processor) : Prop :=
  p' = foldl (do_window source) p ws
  /\ exists next, tiles http step to from ws next
     /\ match r with
        | Ok _ => next = to + 1
        | Err e => next <= to /\ get_logs http next (Z.min (next + (step - 1)) to) = Err e
        end.

Lemma range_loop_run http batch source to fuel : to < u64_max -> 0 <= batch <= u64_max ->
  forall c p, 0 <= c -> c <= to + 1 -> to + 1 - c + Z.max batch 1 <= Z.of_nat fuel * Z.max batch 1 ->
  exists r ws p', range_loop fuel http batch source c to p = Some (r, ws, p') /\ range_run http (Z.max batch 1) c to source p r ws p'.
Proof.
  intros Hto Hb. set (step := Z.max batch 1). assert (Hs : 1 <= step) by lia.
  induction fuel as [|fuel IH]; intros c p Hc Hle Hf; [lia|]. cbn [Rpc.range_loop]. fold step.
  destruct (Z.leb_spec c to) as [Hin|Hout].
  - rewrite Z.min_comm, (Z.min_comm u64_max), Z.min_assoc, (Z.min_l (Z.min to _)) by lia. rewrite Z.min_comm.
    set (e := Z.min (c + (step - 1)) to). destruct (get_logs http c e) as [logs|err] eqn:Eg.
    + rewrite Z.min_r by lia.
      set (w := {| w_from := c; w_to := e; w_logs := logs |}).
      destruct (IH (e + 1) (do_window source p w)) as (r & ws & p' & E & Hp & next & Ht & Hr); [lia|lia| |].
      { rewrite Nat2Z.inj_succ, Z.mul_succ_l in Hf. assert (1 <= Z.of_nat fuel) by nia. nia. }
      rewrite E. exists r, (w :: ws), p'. split; [done|]. split; [done|]. exists next. split; [|done]. by econstructor.
    + exists (Err err), [], p. split; [done|]. split; [done|]. exists c. split; [constructor|]. done.
  - exists (Ok tt), [], p. split; [done|]. split; [done|]. exists c. split; [constructor|]. lia.
Qed.

Lemma backfill_range_run http from to batch source p : 0 <= from -> from <= to + 1 -> to < u64_max -> 0 <= batch <= u64_max ->
  exists r ws p', backfill_range http from to batch source p = Some (r, ws, p') /\ range_run http (Z.max batch 1) from to source p r ws p'.
Proof.
  intros Hf Hle Hto Hb. unfold Rpc.backfill_range. apply range_loop_run; try done. unfold range_fuel.
  set (step := Z.max batch 1). assert (1 <= step) by lia.
  pose proof (Z.div_mod (to - from) step ltac:(lia)). pose proof (Z.mod_pos_bound (to - from) step ltac:(lia)).
  destruct (Z.le_gt_cases from to).
  - assert (0 <= (to - from) / step) by (apply Z.div_pos; lia). rewrite !Nat2Z.inj_succ, Z2Nat.id by lia. nia.
  - rewrite !Nat2Z.inj_succ. nia.
Qed.

(** C16: the walk over a range ends.  Its batches are no larger than asked and hold the
    endpoint's answers; each block up to where it got is in exactly one of them; it got to
    the end, or to the batch whose request failed, whose error it returns.  The processor
    has seen the batches in order, each with its checkpoint behind its last log. *)
Theorem backfill_range_covers http from to batch source p : 0 <= from -> from <= to + 1 -> to < u64_max -> 0 <= batch <= u64_max ->
  exists r ws p' next, backfill_range http from to batch source p = Some (r, ws, p')
    /\ p' = foldl (do_window source) p ws
    /\ (forall w, w ∈ ws -> get_logs http (w_from w) (w_to w) = Ok (w_logs w) /\ from <= w_from w <= w_to w /\ w_to w < next
          /\ w_to w - w_from w < Z.max batch 1)
    /\ (forall b, from <= b < next -> length (List.filter (fun w => covers w b) ws) = 1%nat)
    /\ match r with
       | Ok _ => next = to + 1
       | Err e => next <= to /\ get_logs http next (Z.min (next + (Z.max batch 1 - 1)) to) = Err e
       end.
Proof.
  intros Hf Hle Hto Hb. destruct (backfill_range_run http from to batch source p Hf Hle Hto Hb) as (r & ws & p' & E & Hp & next & Ht & Hr).
  exists r, ws, p', next. split; [done|]. split; [done|]. split; [|split; [|done]].
  - intros w Hw. apply (tiles_in http (Z.max batch 1) to from ws next); [lia|done|done].
  - intros b Hbn. apply (tiles_cover http (Z.max batch 1) to from ws next); [lia|done|done].
Qed.

(** ** Restarts *)

Lemma run_backfill_resumes cfg files http p c : stored_cursor files = Some c -> 0 <= c < u64_max ->
  0 <= backfill_batch_blocks cfg <= u64_max -> (forall h, latest_block http = Ok h -> h < u64_max) ->
  exists r ws p', run_backfill cfg files http p = Some (r, ws, p')
    /\ ((ws = [] /\ (forall h, r = Ok tt -> latest_block http = Ok h -> h <= c))
        \/ exists head, latest_block http = Ok head /\ c < head
             /\ range_run http (Z.max (backfill_batch_blocks cfg) 1) (c + 1) head "backfill" p r ws p').
Proof.
  intros Hc Hr Hb Hh. unfold Rpc.run_backfill, backfill_from. rewrite Hc, Z.min_r by lia.
  destruct (latest_block http) as [head|e] eqn:E; [|exists (Err e), [], p; split; [done|]; left; split; [done|]; by intros h ?].
  specialize (Hh head eq_refl). destruct (Z.leb_spec (c + 1) head) as [Hle|Hgt].
  - destruct (backfill_range_run http (c + 1) head (backfill_batch_blocks cfg) "backfill" p) as (r & ws & p' & Er & Hrun); [lia..|].
    exists r, ws, p'. split; [exact Er|]. right. exists head. repeat split; [lia|exact (proj1 Hrun)|exact (proj2 Hrun)].
  - exists (Ok tt), [], p. split; [done|]. left. split; [done|]. intros h _ [= <-]. lia.
Qed.

(** The batches done since block [c0] was checkpointed, over any number of attempts: each
    on a processor and files of its own time (a crash may be in between), with a stored
    cursor that is [c0] or the checkpoint of a batch done before. *)
Inductive history (cfg : Config) (c0 : Z) : list Window -> Prop :=
| history_start : history cfg c0 []
| history_attempt ws files http p r ws' p' c :
    history cfg c0 ws -> stored_cursor files = Some c -> c = c0 \/ c ∈ map w_to ws ->
    (forall h, latest_block http = Ok h -> h < u64_max) ->
    run_backfill cfg files http p = Some (r, ws', p') -> history cfg c0 (ws ++ ws').

(** Everything up to every checkpoint has been fetched. *)
Definition settled (c0 : Z) (ws : list Window) : Prop :=
  forall w, w ∈ ws -> c0 < w_to w < u64_max /\ forall b, c0 < b <= w_to w -> Exists (fun v => covers v b = true) ws.

Lemma run_settled c0 c ws http step head ws' next : 1 <= step -> head < u64_max -> c0 <= c ->
  settled c0 ws -> c = c0 \/ c ∈ map w_to ws -> tiles http step head (c + 1) ws' next -> c < head ->
  settled c0 (ws ++ ws') /\ forall b, c0 < b < next -> Exists (fun v => covers v b = true) (ws ++ ws').
Proof.
  intros Hs Hh Hc0 Hset Hc Ht Hlt.
  assert (Hold : forall b, c0 < b <= c -> Exists (fun v => covers v b = true) ws).
  { intros b Hb. destruct Hc as [->|Hin]; [lia|]. apply list_elem_of_fmap in Hin as (w & -> & Hw). by apply (Hset w Hw). }
  assert (Hnew : forall b, c0 < b < next -> Exists (fun v => covers v b = true) (ws ++ ws')).
  { intros b Hb. apply Exists_app. destruct (Z.le_gt_cases b c) as [Hle|Hgt]; [left; apply Hold; lia|]. right.
    assert (Hone := tiles_cover _ _ _ _ _ _ b Hs Ht ltac:(lia)).
    destruct (List.filter (fun w => covers w b) ws') as [|v l] eqn:E; [done|].
    assert (Hv : In v (List.filter (fun w => covers w b) ws')) by (rewrite E; by left). apply filter_In in Hv as [Hv Hcov].
    apply Exists_exists. exists v. split; [by apply list_elem_of_In|done]. }
  split; [|exact Hnew]. intros w Hw. apply elem_of_app in Hw as [Hw|Hw].
  - destruct (Hset w Hw) as [Hr Hcov]. split; [done|]. intros b Hb. apply Exists_app. left. by apply Hcov.
  - destruct (tiles_in _ _ _ _ _ _ w Hs Ht Hw) as (_ & ? & ? & _). assert (Hend := tiles_end _ _ _ _ _ _ Ht ltac:(lia)).
    split; [lia|]. intros b Hb. apply Hnew. lia.
Qed.

Lemma history_settled cfg c0 ws : 0 <= c0 < u64_max -> 0 <= backfill_batch_blocks cfg <= u64_max ->
  history cfg c0 ws -> settled c0 ws.
Proof.
  intros Hc0 Hb. induction 1 as [|ws files http p r ws' p' c Hist IH Hcur Hc Hhead Hrun]; [intros w Hw; by apply not_elem_of_nil in Hw|].
  assert (Hcr : c0 <= c < u64_max).
  { destruct Hc as [->|Hin]; [lia|]. apply list_elem_of_fmap in Hin as (w & -> & Hw). destruct (IH w Hw). lia. }
  destruct (run_backfill_resumes cfg files http p c Hcur ltac:(lia) Hb Hhead) as (r0 & ws0 & p0 & E & Hcase).
  rewrite Hrun in E. injection E as <- <- <-. destruct Hcase as [[-> _]|(head & Eh & Hlt & Hrr)]; [by rewrite app_nil_r|].
  destruct (proj2 Hrr) as (next & Ht & _). specialize (Hhead head Eh).
  apply (run_settled c0 c ws http (Z.max (backfill_batch_blocks cfg) 1) head ws' next); try done; lia.
Qed.

(** C15: restarts leave no block out.  Whatever attempts failed or were cut off by a crash,
    if each went on from a checkpoint a batch had stored, the attempt that succeeds has
    every block from the first checkpoint to its head fetched, by it or by one before. *)
Theorem restart_leaves_no_block_out cfg c0 ws files http p ws' p' c head : 0 <= c0 < u64_max ->
  0 <= backfill_batch_blocks cfg <= u64_max -> history cfg c0 ws -> stored_cursor files = Some c -> c = c0 \/ c ∈ map w_to ws ->
  run_backfill cfg files http p = Some (Ok tt, ws', p') -> latest_block http = Ok head -> head < u64_max ->
  forall b, c0 < b <= head -> Exists (fun v => covers v b = true) (ws ++ ws').
Proof.
  intros Hc0 Hb Hist Hcur Hc Hrun Eh Hhead b Hbr. assert (Hset := history_settled cfg c0 ws Hc0 Hb Hist).
  assert (Hcr : c0 <= c < u64_max).
  { destruct Hc as [->|Hin]; [lia|]. apply list_elem_of_fmap in Hin as (w & -> & Hw). destruct (Hset w Hw). lia. }
  destruct (run_backfill_resumes cfg files http p c Hcur ltac:(lia) Hb) as (r0 & ws0 & p0 & E & Hcase);
    [intros h Eh2; rewrite Eh in Eh2; injection Eh2 as <-; done|].
  rewrite Hrun in E. injection E as <- <- <-. destruct Hcase as [[-> Hle]|(head' & Eh' & Hlt & Hrr)].
  - specialize (Hle head eq_refl Eh). rewrite app_nil_r. destruct Hc as [->|Hin]; [lia|].
    apply list_elem_of_fmap in Hin as (w & -> & Hw). apply (Hset w Hw). lia.
  - rewrite Eh in Eh'. injection Eh' as <-. destruct (proj2 Hrr) as (next & Ht & ->).
    apply (run_settled c0 c ws http (Z.max (backfill_batch_blocks cfg) 1) head ws' (head + 1)); try done; lia.
Qed.
End RangeProofs.

(** ** The connection counters *)

(** The racers connect and their sessions end, one at a time; [up] are those subscribed. *)
Inductive racer_step := Subscribed (i : nat) | Ended (i : nat).
Definition racer_run1 (x : gset nat * RpcStats) (st : racer_step) : gset nat * RpcStats :=
  let '(up, s) := x in
  match st with
  | Subscribed i => if decide (i ∈ up) then x else ({[i]} ∪ up, mark_source_connected s)
  | Ended i => (up ∖ {[i]}, mark_source_disconnected s)
  end.
Definition racer_run := foldl racer_run1.
Definition rpc_stats_new : RpcStats :=
  {| rpc_connected := false; rpc_sources_connected := 0; rpc_reconnects := 0; rpc_bytes_received := 0; rpc_bytes_sent := 0 |}.

Definition racer_of (st : racer_step) : nat := match st with Subscribed i | Ended i => i end.
(** Every session that ends had subscribed. *)
Fixpoint paired (up : gset nat) (steps : list racer_step) : Prop :=
  match steps with
  | [] => True
  | Subscribed i :: steps => paired ({[i]} ∪ up) steps
  | Ended i :: steps => i ∈ up /\ paired (up ∖ {[i]}) steps
  end.

Record counted (racers : gset nat) (x : gset nat * RpcStats) : Prop := {
  counted_up : fst x ⊆ racers;
  counted_range : 0 <= rpc_sources_connected (snd x) <= Z.of_nat (size (fst x));
  counted_flag : rpc_connected (snd x) = (0 <? rpc_sources_connected (snd x)) }.

Lemma racer_step_size (racers up : gset nat) i : up ⊆ racers -> i ∈ racers -> i ∉ up ->
  size ({[i]} ∪ up) = S (size up) /\ (S (size up) <= size racers)%nat.
Proof.
  intros Hsub Hi Hn. assert (Hsz : size ({[i]} ∪ up) = S (size up)) by (rewrite size_union, size_singleton by set_solver; lia).
  split; [done|]. rewrite <- Hsz. apply subseteq_size. set_solver.
Qed.

Lemma racer_run1_counted racers x st : Z.of_nat (size racers) < 2 ^ 64 -> racer_of st ∈ racers -> counted racers x ->
  counted racers (racer_run1 x st).
Proof.
  intros Hn Hi [Hup Hr Hf]. destruct x as [up s]. cbn [fst snd] in *. destruct st as [i|i]; cbn [racer_run1 racer_of] in *.
  - destruct (decide (i ∈ up)) as [Hin|Hin]; [by split|].
    destruct (racer_step_size racers up i Hup Hi Hin) as [Hsz Hle].
    split; cbn [fst snd mark_source_connected rpc_sources_connected rpc_connected]; unfold increment; [set_solver|..];
      rewrite u64_add_small by (unfold u64_max; lia); [lia|]. symmetry. apply Z.ltb_lt. lia.
  - split; cbn [fst snd mark_source_disconnected rpc_sources_connected rpc_connected]; unfold decrement_saturating, sat_sub; [set_solver| |done].
    destruct (decide (i ∈ up)) as [Hin|Hin].
    + rewrite size_difference, size_singleton by set_solver. lia.
    + replace (up ∖ {[i]}) with up by set_solver. lia.
Qed.

Lemma racer_run_counted racers steps : Z.of_nat (size racers) < 2 ^ 64 -> Forall (fun st => racer_of st ∈ racers) steps ->
  forall x, counted racers x -> counted racers (racer_run x steps).
Proof.
  intros Hn Hall. induction Hall as [|st steps Hst _ IH]; intros x Hx; [done|]. cbn. apply IH. by apply racer_run1_counted.
Qed.

Lemma racer_run_exact racers steps : Z.of_nat (size racers) < 2 ^ 64 -> Forall (fun st => racer_of st ∈ racers) steps ->
  forall x, counted racers x -> rpc_sources_connected (snd x) = Z.of_nat (size (fst x)) -> paired (fst x) steps ->
  rpc_sources_connected (snd (racer_run x steps)) = Z.of_nat (size (fst (racer_run x steps))).
Proof.
  intros Hn Hall. induction Hall as [|st steps Hst Hall IH]; intros x Hx He Hp; [done|]. cbn.
  assert (Hx' := racer_run1_counted racers x st Hn Hst Hx). destruct x as [up s]. destruct Hx as [Hup Hr Hf]. cbn [fst snd] in *.
  destruct st as [i|i]; cbn [racer_run1 racer_of paired] in *.
  - destruct (decide (i ∈ up)) as [Hin|Hin].
    + apply IH; [done|done|]. cbn [fst]. by replace ({[i]} ∪ up) with up in Hp by set_solver.
    + destruct (racer_step_size racers up i Hup Hst Hin) as [Hsz Hle]. apply IH; [done| |done].
      cbn [fst snd mark_source_connected rpc_sources_connected]. unfold increment. rewrite u64_add_small by (unfold u64_max; lia). lia.
  - destruct Hp as [Hin Hp]. apply IH; [done| |done].
    cbn [fst snd mark_source_disconnected rpc_sources_connected]. unfold decrement_saturating, sat_sub.
    assert (Hsub : {[i]} ⊆ up) by set_solver. rewrite size_difference, size_singleton by done.
    apply subseteq_size in Hsub. rewrite size_singleton in Hsub. lia.
Qed.

(** The connection flag never claims more than there is: if it is set some racer is
    subscribed, and the count is at most the number of those that are.  When every session
    that ends had subscribed, flag and count are exact. *)
Theorem rpc_connected_sound (racers : gset nat) steps : Z.of_nat (size racers) < 2 ^ 64 -> Forall (fun st => racer_of st ∈ racers) steps ->
  let '(up, s) := racer_run (∅, rpc_stats_new) steps in
  (rpc_connected s = true -> up <> ∅)
  /\ 0 <= rpc_sources_connected s <= Z.of_nat (size up)
  /\ (paired ∅ steps -> rpc_sources_connected s = Z.of_nat (size up) /\ (rpc_connected s = true <-> up <> ∅)).
Proof.
  intros Hn Hall. assert (H0 : counted racers (∅, rpc_stats_new)) by (split; [set_solver|vm_compute; done|done]).
  assert (Hc := racer_run_counted racers steps Hn Hall _ H0).
  assert (Hx : paired ∅ steps -> rpc_sources_connected (snd (racer_run (∅, rpc_stats_new) steps)) = Z.of_nat (size (fst (racer_run (∅, rpc_stats_new) steps)))).
  { intros Hp. by apply (racer_run_exact racers steps Hn Hall _ H0). }
  destruct (racer_run _ steps) as [up s]. destruct Hc as [_ Hr Hf]. cbn [fst snd] in *.
  assert (Hflag : rpc_connected s = true -> up <> ∅).
  { rewrite Hf. intros Hpos ->. rewrite size_empty in Hr. lia. }
  split; [done|]. split; [done|]. intros Hp. specialize (Hx Hp). split; [done|]. split; [done|]. intros Hne. rewrite Hf, Hx.
  apply Z.ltb_lt. assert (size up <> 0%nat); [|lia]. intros Hz. apply Hne. by apply size_empty_inv in Hz; apply leibniz_equiv.
Qed.

(** A dial that fails counts as a disconnection: with racer 0 subscribed all the time the
    failures of racer 1 report the service as disconnected. *)
Example failed_dial_reports_disconnected :
  let '(up, s) := racer_run (∅, rpc_stats_new) [Subscribed 0; Ended 1] in
  up = {[0%nat]} /\ rpc_connected s = false /\ rpc_sources_connected s = 0.
Proof. vm_compute. done. Qed.

(** ** Backoff *)

Definition quick (l : Z) : Prop := 0 <= l < HEALTHY_SESSION.
Definition climb (k : nat) : Z := Z.min (2 ^ Z.of_nat k * SECOND) RECONNECT_BACKOFF_MAX.

Lemma climb_next k : Z.min (climb k * 2) RECONNECT_BACKOFF_MAX = climb (S k).
Proof. unfold climb. rewrite Nat2Z.inj_succ, Z.pow_succ_r by lia. unfold RECONNECT_BACKOFF_MAX, SECOND. lia. Qed.
Lemma climb_range k : RECONNECT_BACKOFF_INITIAL <= climb k <= RECONNECT_BACKOFF_MAX.
Proof. unfold climb, RECONNECT_BACKOFF_INITIAL, RECONNECT_BACKOFF_MAX, SECOND. assert (1 <= 2 ^ Z.of_nat k) by (apply Z.pow_pos_nonneg || idtac; lia). lia. Qed.

Lemma quick_delays lasted : forall k w s, Forall quick lasted -> backoff w = climb k ->
  delays lasted w s = map climb (seq k (length lasted)).
Proof.
  induction lasted as [|l lasted IH]; intros k w s Hq Hw; [done|]. inversion Hq as [|? ? Hl Hq']; subst.
  cbn [delays session_ended]. unfold session_ended, reconnect_backoff. rewrite Hw.
  replace (HEALTHY_SESSION <=? l) with false by (symmetry; apply Z.leb_gt; unfold quick in Hl; lia).
  cbn [length seq map]. f_equal. rewrite (IH (S k)); [done|done|]. cbn [backoff]. apply climb_next.
Qed.

(** The delays between sessions are within the bounds, whatever the sessions do; they
    double over quick failures up to the maximum, and a healthy session starts the climb
    again. *)
Theorem reconnect_delays lasted w s k : backoff w = climb k ->
  Forall (fun d => RECONNECT_BACKOFF_INITIAL <= d <= RECONNECT_BACKOFF_MAX) (delays lasted w s)
  /\ (Forall quick lasted -> delays lasted w s = map climb (seq k (length lasted)))
  /\ (forall l quicks, lasted = l :: quicks -> HEALTHY_SESSION <= l -> Forall quick quicks ->
        delays lasted w s = map climb (0%nat :: seq 1 (length quicks))).
Proof.
  intros Hw. split; [|split].
  - revert w s k Hw. induction lasted as [|l lasted IH]; intros w s k Hw; [done|]. cbn [delays session_ended].
    unfold session_ended, reconnect_backoff. destruct (HEALTHY_SESSION <=? l); constructor.
    + by apply (climb_range 0).
    + apply (IH _ _ 1%nat). reflexivity.
    + rewrite Hw. apply climb_range.
    + apply (IH _ _ (S k)). cbn [backoff]. rewrite Hw. apply climb_next.
  - intros Hq. by apply quick_delays.
  - intros l quicks -> Hl Hq. cbn [delays session_ended]. unfold session_ended, reconnect_backoff.
    replace (HEALTHY_SESSION <=? l) with true by (symmetry; by apply Z.leb_le).
    change (map climb (0%nat :: seq 1 (length quicks))) with (climb 0 :: map climb (seq 1 (length quicks))).
    f_equal. by apply quick_delays.
Qed.

(** ** Runs *)

Module RpcSample.
#[local] Instance codec : EthCodec := Events.sample_codec.
#[local] Instance queue : Mpsc StorageCommand := list_mpsc StorageCommand.
Definition start : Processor := PipelineSample.start.
Definition clock (at_ : Z) (k : nat) : Z * Z := (at_ + Z.of_nat k, at_).
Definition sort := sort_by log_le.
Definition log_at (block index : Z) : RpcLog :=
  {| address := ""; topics := []; data := ""; log_block_number := quantity block; block_hash := ""; log_transaction_hash := "";
     transaction_index := None; log_log_index := quantity index; log_removed := false |}.
Definition answer {A} (x : A) : http_answer A := Answered {| rpc_result := Some x; rpc_error := None |}.
(** Blocks of ten seconds; every request for logs is answered, or none. *)
Definition node (head : Z) (logs : option (list RpcLog)) : HttpRpc :=
  {| eth_blockNumber := answer (quantity head);
     eth_getBlockByNumber b := answer (match from_str_radix 16 u64_max (strip_0x b) with Some n => quantity (n * 10) | None => "" end);
     eth_getLogs _ _ := match logs with Some l => answer l | None => Failed "timeout" end |}.
Definition cfg : Config := {| start_block := None; initial_backfill_days := 7; backfill_batch_blocks := 10 |}.
Definition files (cursor : option Z) : Files :=
  {| catalog_bin := None; events_wal := None; enrichment_cursor := None; closed_cursor := None; uma_cursor := fmt_u64 <$> cursor |}.
Definition spans (x : option (result RpcError unit * list Window * Processor)) : option (bool * list (Z * Z)) :=
  (fun y => (match fst (fst y) with Ok _ => true | Err _ => false end, map (fun w => (w_from w, w_to w)) (snd (fst y)))) <$> x.

Example batches_of_ten : spans (backfill_range sort clock (node 125 (Some [])) 100 125 10 "gapfill[0]" start)
  = Some (true, [(100, 109); (110, 119); (120, 125)]).
Proof. vm_compute. reflexivity. Qed.
Example boundary : first_block_at_or_after (node 100 None) 555 0 100 = Some (Ok 56).
Proof. vm_compute. reflexivity. Qed.

(** The first attempt fails at block 1001.  A live log of block 2000 stores its own
    checkpoint; the retry starts behind it and the blocks from 1001 are never asked for. *)
Example live_checkpoint_hides_failed_backfill :
  spans (run_backfill sort clock cfg (files (Some 1000)) (node 2000 None) start) = Some (false, [])
  /\ queued (storage_tx (live_log "wss[0]" 1 1 (log_at 2000 0) start)) = [Checkpoint 2000]
  /\ spans (run_backfill sort clock cfg (files (Some 2000)) (node 2000 (Some [])) start) = Some (true, []).
Proof. vm_compute. done. Qed.

(** The session ends after the first of a block's two logs: the gap-fill starts at the
    next block. *)
Example gap_fill_skips_rest_of_block :
  gap_from 2000 = Some 2001 /\ gap_fill sort clock (node 2000 (Some [log_at 2000 1])) 10 "gapfill[0]" 2000 start = Some ([], start).
Proof. vm_compute. done. Qed.

Lemma first_block_found_witness :
  exists b, first_block_at_or_after (node 100 None) 555 0 100 = Some (Ok b) /\ 0 <= b <= 100 /\ (forall x, 0 <= x < b -> x * 10 < 555).
Proof.
  assert (Hts : forall b, 0 <= b < 100 -> block_timestamp (node 100 None) b = Ok (b * 10)).
  { intros b Hb. assert (Hall : Forall (fun n => block_timestamp (node 100 None) (Z.of_nat n) = Ok (Z.of_nat n * 10)) (seq 0 100)).
    { repeat constructor. }
    rewrite Forall_forall in Hall. specialize (Hall (Z.to_nat b)). rewrite Z2Nat.id in Hall by lia. apply Hall, elem_of_seq. lia. }
  destruct (first_block_found (node 100 None) (fun b => b * 10) 555 0 100) as (b & E & Hb & Hbelow & _);
    [lia|lia|unfold u64_max; lia|exact Hts|intros; lia|]. exists b. split; [exact E|]. split; [exact Hb|exact Hbelow].
Defined.

Lemma backfill_range_covers_witness :
  exists r ws p' next, backfill_range sort clock (node 125 (Some [])) 100 125 10 "gapfill[0]" start = Some (r, ws, p')
    /\ (forall b, 100 <= b < next -> length (List.filter (fun w => covers w b) ws) = 1%nat).
Proof.
  destruct (backfill_range_covers sort clock (node 125 (Some [])) 100 125 10 "gapfill[0]" start) as (r & ws & p' & next & E & _ & _ & Hc & _);
    [lia|lia|unfold u64_max; lia|unfold u64_max; lia|]. exists r, ws, p', next. split; [exact E|exact Hc].
Defined.

Definition retried : list Window := default [] ((fun y => snd (fst y)) <$>
  run_backfill sort clock cfg (files (Some 100)) (node 125 (Some [])) start).
Definition retried_p : Processor := default start (snd <$> run_backfill sort clock cfg (files (Some 100)) (node 125 (Some [])) start).
Lemma restart_leaves_no_block_out_witness : Exists (fun v => covers v 112 = true) ([] ++ retried).
Proof.
  assert (Hc0 : 0 <= 100 < u64_max) by (unfold u64_max; lia).
  assert (Hb : 0 <= backfill_batch_blocks cfg <= u64_max) by (cbn; unfold u64_max; lia).
  assert (Hcur : stored_cursor (files (Some 100)) = Some 100) by (vm_compute; reflexivity).
  assert (Hrun : run_backfill sort clock cfg (files (Some 100)) (node 125 (Some [])) start = Some (Ok tt, retried, retried_p))
    by (vm_compute; reflexivity).
  assert (Hh : latest_block (node 125 (Some [])) = Ok 125) by (vm_compute; reflexivity).
  exact (restart_leaves_no_block_out sort clock cfg 100 [] _ _ _ _ _ _ 125 Hc0 Hb (history_start sort clock cfg 100) Hcur
           (or_introl eq_refl) Hrun Hh ltac:(unfold u64_max; lia) 112 ltac:(lia)).
Defined.

Definition three_steps : gset nat * RpcStats := racer_run (∅, rpc_stats_new) [Subscribed 0; Subscribed 1; Ended 0].
Lemma rpc_connected_sound_witness : rpc_sources_connected (snd three_steps) = 1 /\ fst three_steps <> ∅.
Proof.
  assert (Hn : Z.of_nat (size ({[0%nat; 1%nat]} : gset nat)) < 2 ^ 64) by (vm_compute; reflexivity).
  assert (Hall : Forall (fun st => racer_of st ∈ ({[0%nat; 1%nat]} : gset nat)) [Subscribed 0; Subscribed 1; Ended 0]).
  { repeat constructor; apply (bool_decide_unpack _); vm_compute; reflexivity. }
  split; [vm_compute; reflexivity|].
  exact (proj1 (rpc_connected_sound {[0%nat; 1%nat]} [Subscribed 0; Subscribed 1; Ended 0] Hn Hall) ltac:(vm_compute; reflexivity)).
Defined.

Lemma reconnect_delays_witness :
  delays [0; 5; 5; HEALTHY_SESSION; 0] worker_new rpc_stats_new = [SECOND; 2 * SECOND; 4 * SECOND; SECOND; 2 * SECOND]
  /\ Forall (fun d => RECONNECT_BACKOFF_INITIAL <= d <= RECONNECT_BACKOFF_MAX) (delays [0; 5; 5; HEALTHY_SESSION; 0] worker_new rpc_stats_new).
Proof. split; [reflexivity|]. exact (proj1 (reconnect_delays [0; 5; 5; HEALTHY_SESSION; 0] worker_new rpc_stats_new 0 eq_refl)). Defined.
End RpcSample.
