(* ===== verification/PipelineTests.v ===== *)
(** * PipelineTests: the tests of the service's core on the model

    The functions of the test modules of [hub.rs], [model.rs], [pipeline.rs] and [uma/rpc.rs]
    under their names, with the real hash and the mainnet event of [ChainTests].  A mock
    server is the function its handler computes. *)
From S2P Require Import Prelude Testing Channel Model WireFrame Events Calldata Keccak ChainTests Uint256 Hubs Catalog Forfeit Pipeline Rpc.

#[local] Existing Instance ethereum.
#[local] Existing Instance sample_numbers.
#[local] Instance queues : Mpsc StorageCommand := list_mpsc StorageCommand.

(** ** [model.rs] *)

Definition test_uma_event (transaction_byte : Byte.byte) (market : Z) : UmaEvent :=
  ProposePrice
    {| chain_log := {| block_number := 10; transaction_hash := replicate 32 transaction_byte; log_index := 3; upstream_received_at_us := 8;
                       removed := false |};
       price_request := {| requester := replicate 20 x06; req_condition_id := replicate 32 x0a;
                           ancillary := {| question_id := replicate 32 x03; anc_market_id := Some market |};
                           proposed_price := replicate 32 x05 |} |}.

Definition formats_uint256_decimal : bool := eqb (uint256_decimal (replicate 30 x00 ++ [x01; x02])) "258"%string.

Definition price_outcome_matches_the_ctf_adapters_payout_convention : bool :=
  let yes := replicate 24 x00 ++ be_encode 8 1000000000000000000 in
  let tie := replicate 24 x00 ++ be_encode 8 500000000000000000 in
  eqb (map from_propose_price [yes; replicate 32 x00; tie; replicate 32 x07])
      [Outcome_Token0; Outcome_Token1; Outcome_Tie; Outcome_Unspecified].

Definition wire_fields_round_trip_through_protobuf : Test unit unit :=
  let record := {| sequence := 7; event := test_uma_event x02 42; enrichment := None; price_outcome := Outcome_Token0 |} in
  decoded ← expect (from_proto (to_proto record));
  assert (sequence decoded =? 7) ;;
  assert (bool_decide (event_kind (event decoded) = event_kind (event record))) ;;
  assert (eqb (transaction_hash (event_chain (event decoded))) (transaction_hash (event_chain (event record)))) ;;
  assert (log_index (event_chain (event decoded)) =? log_index (event_chain (event record))) ;;
  assert (event_market_id (event decoded) =? event_market_id (event record)) ;;
  assert (bool_decide (price_outcome decoded = Outcome_Token0)).

Definition neg_risk_event_broadcasts_gamma_condition_id_after_resolution : Test unit unit :=
  emitter ← unwrap (decode_fixed 20 (address neg_risk_log) "address");
  event ← unwrap (decode_signal_log neg_risk_log 1 [emitter] true);
  gamma_condition_id ← unwrap (decode_fixed 32 "0xa50547851bf565603ad7e866d9d2aa2c6c2ee77b2d390e581bf2e8a53b466902" "condition_id");
  let derived_condition_id := req_condition_id (event_request event) in
  assert (negb (eqb derived_condition_id gamma_condition_id)) ;;
  let catalog := catalog_new
    [{| market_id := 907474; condition_id := gamma_condition_id; token_ids := [replicate 32 x22]; tag_ids := [100];
        category := Category_Unspecified; bet_type := Bet_Unspecified; neg_risk := true |}] in
  let record :=
    {| sequence := 1; event := event; enrichment := resolve (anc_market_id (ancillary (event_request event))) derived_condition_id catalog;
       price_outcome := from_propose_price (proposed_price (event_request event)) |} in
  assert (eqb (resolved_condition_id record) gamma_condition_id) ;;
  let proto := to_proto record in
  assert (eqb (pb.condition_id proto) gamma_condition_id) ;;
  assert (pb.enrichment_status proto =? EnrichmentStatus_Hit) ;;
  assert (eqb (pb.token_ids proto) [replicate 32 x22]) ;;
  assert (pb.price_outcome proto =? PriceOutcome_num pb.PO_Token1) ;;
  assert (pb.neg_risk proto).

(** ** [hub.rs] *)

Definition record (sequence : Z) (tx : Byte.byte) : EventRecord :=
  {| sequence := sequence; event := test_uma_event tx 1; enrichment := None; price_outcome := Outcome_Unspecified |}.
Definition frame (first last : Z) : WireFrame :=
  {| WireFrame.batch_sequence := first; first_sequence := first; last_sequence := last; frame_bytes := [] |}.
Definition publishes (first last : Z) : Test FrameHub unit := act (publish_frame (frame first last)).
Definition finds (cursor : Z) (expected : option (list Z)) : Test FrameHub unit :=
  r ← peek (after cursor);
  assert (eqb (match r with Ok fs => Some (map first_sequence fs) | Err Lagged => None end) expected).

Definition cursor_in_a_miss_gap_after_restart_resumes : Test FrameHub unit :=
  act (fun _ => resuming_after 8 100) ;;
  publishes 102 102 ;; publishes 103 104 ;;
  finds 100 (Some [102; 103]) ;; finds 101 (Some [102; 103]) ;; finds 102 (Some [103]).

Definition cursor_before_the_previous_process_broadcast_is_lagged : Test FrameHub unit :=
  act (fun _ => resuming_after 8 100) ;;
  publishes 102 102 ;; finds 99 None ;; finds 0 (Some [102]).

Definition eviction_raises_the_replay_floor : Test FrameHub unit :=
  act (fun _ => frame_hub_new 2) ;;
  publishes 1 2 ;; publishes 4 4 ;; publishes 5 6 ;;
  finds 1 None ;; finds 2 (Some [4; 5]) ;; finds 3 (Some [4; 5]) ;;
  publishes 7 7 ;;
  finds 3 None ;; finds 4 (Some [5; 7]).

Definition event_ring_deduplicates_and_evicts : Test EventHub unit :=
  a ← calling (insert_event (record 1 x01)); assert a ;;
  a ← calling (insert_event (record 2 x01)); assert (negb a) ;;
  a ← calling (insert_event (record 2 x02)); assert a ;;
  a ← calling (insert_event (record 3 x03)); assert a ;;
  b ← peek bounds; assert (eqb b (2, 3)).

(** ** [pipeline.rs] *)

Abbreviation P := (Test Processor).

Definition propose_log : RpcLog :=
  let l := log TOPIC_PROPOSE_PRICE false in
  {| address := address l; topics := topics l; data := data l; log_block_number := log_block_number l; block_hash := block_hash l;
     log_transaction_hash := log_transaction_hash l; transaction_index := transaction_index l; log_log_index := "0x1";
     log_removed := log_removed l |}.
Definition build_processor_with (catalog : Catalog) (forfeit : ForfeitBlocklist) : Processor :=
  {| config := {| contract_address_bytes := []; require_market_id := false |}; Pipeline.catalog := catalog; hub := event_hub_new 16;
     Pipeline.forfeit := forfeit; counter := 0; window := []; stats := stats_default; storage_tx := chan_new 4; batch_tx := [];
     batch_open := true |}.
Definition build_processor (catalog : Catalog) : Processor := build_processor_with catalog forfeit_disabled.
Definition market : MarketEnrichment :=
  {| market_id := 42; condition_id := replicate 32 x09; token_ids := [replicate 32 x01; replicate 32 x02]; tag_ids := [];
     category := Category_Unspecified; bet_type := Bet_Unspecified; neg_risk := false |}.

Definition processes (at_ : Z) (source : string) : P unit := act (process propose_log at_ source 1000).
(** How many events the batcher would get, and that the journal got one. *)
Definition broadcast (n : Z) : P unit := l ← peek batch_tx; assert (zlen l =? n).
Definition journaled : P unit :=
  l ← peek (fun p => queued (storage_tx p)); assert (match l with StoreEvent _ :: _ => true | _ => false end).

Definition enrichment_miss_is_recorded_locally_but_never_broadcast : P unit :=
  act (fun _ => build_processor (catalog_new [])) ;;
  processes 1 "test" ;; broadcast 0 ;; journaled ;;
  n ← peek (fun p => enrichment_misses (stats p)); assert (n =? 1).

Definition enrichment_hit_is_broadcast : P unit :=
  act (fun _ => build_processor (catalog_new [market])) ;;
  processes 1 "test" ;; broadcast 1 ;; journaled ;;
  n ← peek (fun p => enrichment_hits (stats p)); assert (n =? 1).

#[local] Instance lookup_numbers : ForfeitNumbers := {| LookupStatus_try_from := fun n => if n =? 1 then Some Lookup_Matched else None |}.
Definition forfeit_blocklisted_condition_is_stored_but_never_broadcast : P unit :=
  let forfeited :=
    {| fe_sequence := 1; fe_match_id := 77; fe_game := ""; fe_league := ""; fe_match_name := ""; fe_team_a := ""; fe_team_b := "";
       fe_winner := ""; fe_forfeited_game_number := 0; fe_pm_event_slug := ""; fe_lookup_status := 1; fe_detect_at_us := 0;
       fe_markets := []; fe_condition_ids := [replicate 32 x09] |} in
  act (fun _ => build_processor_with (catalog_new [market]) (snd (apply forfeited 500 (forfeit_empty true 0)))) ;;
  processes 1 "test" ;; broadcast 0 ;; journaled ;;
  l ← peek Pipeline.forfeit;
  assert (blocked_events_total l =? 1) ;;
  b ← expect (head (recent_blocked l)); assert (be_match_id b =? 77) ;;
  m ← expect (head (matches_in_order (matches l))); assert (bx_blocked_events m =? 1).

Definition source_race_credits_the_winner_and_not_the_duplicate : P unit :=
  act (fun _ => build_processor (catalog_new [market])) ;;
  processes 1 "wss[0]" ;; processes 2 "wss[1]" ;; broadcast 1 ;;
  race ← peek (fun p => source_race (stats p));
  a ← expect (race !! "wss[0]"%string); assert ((received a =? 1) && (won a =? 1)) ;;
  b ← expect (race !! "wss[1]"%string); assert ((received b =? 1) && (won b =? 0)).

(** ** [uma/rpc.rs] *)

Definition answer {A} (x : A) : http_answer A := Answered {| rpc_result := Some x; rpc_error := None |}.
(** The test's servers: a block's timestamp is ten times its number, there are no logs. *)
Definition mock : HttpRpc :=
  {| eth_blockNumber := Rpc.Failed "";
     eth_getBlockByNumber b :=
       answer (match from_str_radix 16 u64_max (trim_start_matches "0x" b) with Some n => quantity (n * 10) | None => "" end);
     eth_getLogs _ _ := answer [] |}.

Definition finds_first_block_at_or_after_seven_day_boundary : bool :=
  match first_block_at_or_after mock 555 0 100 with Some (Ok n) => n =? 56 | _ => false end.

Definition backoff_escalates_across_quick_failures_and_resets_after_a_healthy_session : bool :=
  let quick := 200000000 in
  let '(d1, next) := reconnect_backoff RECONNECT_BACKOFF_INITIAL quick in
  let '(d2, next) := reconnect_backoff next quick in
  let '(d3, next) := reconnect_backoff next quick in
  let '(_, capped) := foldl (fun '(_, n) _ => reconnect_backoff n quick) (d3, next) (seq 0 10) in
  let '(delay, again) := reconnect_backoff capped HEALTHY_SESSION in
  eqb [d1; d2; d3; capped; delay; again]
      [SECOND; 2 * SECOND; 4 * SECOND; RECONNECT_BACKOFF_MAX; RECONNECT_BACKOFF_INITIAL; RECONNECT_BACKOFF_INITIAL * 2].

(** The processor's channel to the journal holds 16 here. *)
Definition backfill_range_walks_every_block_once_in_batches : bool :=
  let p := build_processor (catalog_new []) in
  let p := {| config := config p; Pipeline.catalog := Pipeline.catalog p; hub := hub p; Pipeline.forfeit := Pipeline.forfeit p;
              counter := counter p; window := window p; stats := stats p; storage_tx := chan_new 16; batch_tx := batch_tx p;
              batch_open := batch_open p |} in
  match backfill_range (sort_by log_le) (fun at_ k => (at_, at_)) mock 100 125 10 "gapfill[0]" p with
  | Some (Ok _, windows, p) =>
      eqb (map (fun w => (w_from w, w_to w)) windows) [(100, 109); (110, 119); (120, 125)]
      && eqb (omap (fun c => match c with Checkpoint b => Some b | StoreEvent _ => None end) (queued (storage_tx p))) [109; 119; 125]
  | _ => false
  end.

Example pipeline_tests_pass :
  [formats_uint256_decimal; price_outcome_matches_the_ctf_adapters_payout_convention; passes wire_fields_round_trip_through_protobuf tt;
   passes neg_risk_event_broadcasts_gamma_condition_id_after_resolution tt;
   passes cursor_in_a_miss_gap_after_restart_resumes (frame_hub_new 0);
   passes cursor_before_the_previous_process_broadcast_is_lagged (frame_hub_new 0); passes eviction_raises_the_replay_floor (frame_hub_new 0);
   passes event_ring_deduplicates_and_evicts (event_hub_new 2);
   passes enrichment_miss_is_recorded_locally_but_never_broadcast (build_processor (catalog_new []));
   passes enrichment_hit_is_broadcast (build_processor (catalog_new []));
   passes forfeit_blocklisted_condition_is_stored_but_never_broadcast (build_processor (catalog_new []));
   passes source_race_credits_the_winner_and_not_the_duplicate (build_processor (catalog_new []));
   finds_first_block_at_or_after_seven_day_boundary; backoff_escalates_across_quick_failures_and_resets_after_a_healthy_session;
   backfill_range_walks_every_block_once_in_batches] = replicate 15 true.
Proof. vm_compute. reflexivity. Qed.
