(* ===== verification/Readers.v ===== *)
(** * Readers: all sources of logs at once ([src/uma/rpc.rs])

    [run_rpc_loop]'s racers with their reconnections, the gap-fills they start and the
    start-up back-fill, as one transition system over the chain they read.  A step is one log
    or one batch of blocks through the processor, so every interleaving of the tasks is a list
    of steps.  What comes out is that the reconnections leave no log behind, and what the code
    relies on for that. *)
From S2P Require Import Prelude Model WireFrame Channel Events Calldata Hubs Category Catalog Forfeit Pipeline Storage Rpc.

(** ** State *)

Definition block_of (l : RpcLog) : Z := fst (log_key l).
#[global] Arguments block_of : simpl never.

(** A subscription: the logs the node has sent and [process] has not been given (in the
    socket or in [live]'s channel), whether the reader has ended, and the block of the last
    log it gave to [process]. *)
Record Session := { way : list RpcLog; over : bool; upto : Z }.
Record Racer := { worker : Worker; session : option Session }.

(** A walk over a range of blocks: a racer's gap-fill, or the start-up back-fill; [target]
    is the head it has read. *)
Record RangeWalk := { filler : option nat; next : Z; target : option Z }.

Inductive Action :=
| Mine (logs : list RpcLog)
| Subscribed (i : nat)
| Take (i : nat) (us now : Z)
| ReaderEnds (i n : nat)
| SessionEnds (i : nat) (lasted : Z)
| DialFails (i : nat) (lasted : Z)
| HeadRead (k : nat) (head : Z)
| BatchDone (k : nat)
| RequestFails (k : nat) (from : Z).

Definition in_blocks (from to : Z) (l : RpcLog) : bool := (from <=? block_of l) && (block_of l <=? to).

Section Readers.
Context `{EthCodec} `{Mpsc StorageCommand}.

Record Readers := {
  chain : list RpcLog;
  chain_head : Z;
  racers : list Racer;
  walks : list RangeWalk;
  any_connected : bool;
  rpc_stats : RpcStats;
  processor : Processor;
  given : list RpcLog }.

Variable sort_unstable : list RpcLog -> list RpcLog.
Variable clock : Z -> nat -> Z * Z.
Variable batch_blocks : Z.

Definition racer_source (i : nat) : string := "wss[" +:+ fmt_u64 (Z.of_nat i) +:+ "]".
Definition walk_source (w : RangeWalk) : string :=
  match filler w with Some i => "gapfill[" +:+ fmt_u64 (Z.of_nat i) +:+ "]" | None => "backfill" end.

Definition with_racers (rs : list Racer) (ws : list RangeWalk) (c : bool) (st : RpcStats) (s : Readers) : Readers :=
  {| chain := chain s; chain_head := chain_head s; racers := rs; walks := ws; any_connected := c; rpc_stats := st;
     processor := processor s; given := given s |}.
Definition with_given (rs : list Racer) (ws : list RangeWalk) (p : Processor) (logs : list RpcLog) (s : Readers) : Readers :=
  {| chain := chain s; chain_head := chain_head s; racers := rs; walks := ws; any_connected := any_connected s; rpc_stats := rpc_stats s;
     processor := p; given := given s ++ logs |}.

(** A node sends a block's logs to its subscribers. *)
Definition sent (logs : list RpcLog) (r : Racer) : Racer :=
  match session r with
  | Some se => if over se then r else {| worker := worker r; session := Some {| way := way se ++ logs; over := false; upto := upto se |} |}
  | None => r
  end.

(** [GapFill::spawn] up to its first request, when the session is not the racer's first. *)
Definition spawned (i : nat) (w : Worker) (latest : Z) : list RangeWalk :=
  if fills_gap w then
    match gap_from latest with Some from => [{| filler := Some i; next := from; target := None |}] | None => [] end
  else [].

(** The batch a walk asks for, and the walk after it. *)
Definition batch_end (w : RangeWalk) (to : Z) : Z := Z.min (Z.min u64_max (next w + (Z.max batch_blocks 1 - 1))) to.
Definition walk_on (from to : Z) (w : RangeWalk) : list RangeWalk :=
  if to <? from then [] else [{| filler := filler w; next := from; target := Some to |}].

(** A failed request ends a gap-fill; the back-fill tries again, from where its next attempt
    begins ([backfill_from]). *)
Definition failed (from : Z) (w : RangeWalk) : list RangeWalk :=
  match filler w with Some _ => [] | None => [{| filler := None; next := from; target := None |}] end.

Definition end_session (i : nat) (lasted : Z) (r : Racer) (s : Readers) : Readers :=
  let '(_, w, st) := session_ended lasted (worker r) (rpc_stats s) in
  with_racers (<[i := {| worker := w; session := None |}]> (racers s)) (walks s) (any_connected s) st s.

(** [None]: the step cannot happen now. *)
Definition exec (s : Readers) (a : Action) : option Readers :=
  match a with
  | Mine logs =>
      if (chain_head s + 1 <? u64_max) && forallb (fun l => block_of l =? chain_head s + 1) logs then
        Some {| chain := chain s ++ logs; chain_head := chain_head s + 1; racers := map (sent logs) (racers s); walks := walks s;
                any_connected := any_connected s; rpc_stats := rpc_stats s; processor := processor s; given := given s |}
      else None
  | Subscribed i =>
      r ← racers s !! i;
      match session r with
      | Some _ => None
      | None =>
          Some (with_racers (<[i := {| worker := worker r; session := Some {| way := []; over := false; upto := 0 |} |}]> (racers s))
                  (walks s ++ spawned i (worker r) (Pipeline.latest_block (stats (processor s)))) true (mark_source_connected (rpc_stats s)) s)
      end
  | Take i us now =>
      r ← racers s !! i; se ← session r;
      match way se with
      | [] => None
      | l :: rest =>
          Some (with_given (<[i := {| worker := worker r; session := Some {| way := rest; over := over se; upto := block_of l |} |}]> (racers s))
                  (walks s) (live_log (racer_source i) us now l (processor s)) [l] s)
      end
  | ReaderEnds i n =>
      r ← racers s !! i; se ← session r;
      if over se then None else
      Some (with_racers (<[i := {| worker := worker r; session := Some {| way := take n (way se); over := true; upto := upto se |} |}]> (racers s))
              (walks s) (any_connected s) (rpc_stats s) s)
  | SessionEnds i lasted =>
      r ← racers s !! i; se ← session r;
      match over se, way se with true, [] => Some (end_session i lasted r s) | _, _ => None end
  | DialFails i lasted =>
      r ← racers s !! i;
      match session r with None => Some (end_session i lasted r s) | Some _ => None end
  | HeadRead k head =>
      w ← walks s !! k;
      if bool_decide (target w = None) && (bool_decide (is_Some (filler w)) || any_connected s) then
        Some (with_racers (racers s) (delete k (walks s) ++ walk_on (next w) head w) (any_connected s) (rpc_stats s) s)
      else None
  | BatchDone k =>
      w ← walks s !! k; to ← target w;
      let end_ := batch_end w to in
      let logs := List.filter (in_blocks (next w) end_) (chain s) in
      Some (with_given (racers s) (delete k (walks s) ++ walk_on (Z.min u64_max (end_ + 1)) to w)
              (do_window sort_unstable clock (walk_source w) (processor s) {| w_from := next w; w_to := end_; w_logs := logs |}) (sort_unstable logs) s)
  | RequestFails k from =>
      w ← walks s !! k; Some (with_racers (racers s) (delete k (walks s) ++ failed from w) (any_connected s) (rpc_stats s) s)
  end.

Fixpoint run (s : Readers) (acts : list Action) : option Readers :=
  match acts with
  | [] => Some s
  | a :: acts => s ← exec s a; run s acts
  end.

(** At the start: [n] racers, the back-fill behind checkpoint [c], [latest_block] restored to
    it ([main.rs]). *)
Definition readers_start (n : nat) (c : Z) (blocks : list RpcLog) (head : Z) (p : Processor) : Readers :=
  {| chain := blocks; chain_head := head; racers := replicate n {| worker := worker_new; session := None |};
     walks := [{| filler := None; next := Z.min u64_max (c + 1); target := None |}]; any_connected := false; rpc_stats := rpc_stats_new;
     processor := p; given := [] |}.

(** ** What the program relies on *)

(** The steps after which nothing is missed: a session ends between two blocks; a racer's
    first session begins before the back-fill reads its head; the HTTP endpoint is not behind
    the chain; a gap-fill's requests do not fail, and the back-fill tries again from where
    it had got to or before. *)
Definition orderly (s : Readers) (a : Action) : Prop :=
  match a with
  | Subscribed i => forall r, racers s !! i = Some r -> fills_gap (worker r) = true \/ exists w, w ∈ walks s /\ filler w = None /\ target w = None
  | ReaderEnds i n => forall r se, racers s !! i = Some r -> session r = Some se ->
      Forall (fun x => upto se < block_of x /\ Forall (fun y => block_of y < block_of x) (take n (way se))) (drop n (way se))
  | HeadRead _ head => head = chain_head s
  | RequestFails k from => forall w, walks s !! k = Some w -> filler w = None /\ from <= next w
  | _ => True
  end.

(** What orderly steps lead to. *)
Inductive reaches (s0 : Readers) : Readers -> Prop :=
| reaches_start : reaches s0 s0
| reaches_step s a s' : reaches s0 s -> orderly s a -> exec s a = Some s' -> reaches s0 s'.

(** ** Where a log is *)

(** A walk will ask for the log. *)
Definition asked (w : RangeWalk) (l : RpcLog) : Prop :=
  next w <= block_of l /\ match target w with Some t => block_of l <= t | None => True end.
(** It is on the way to a racer. *)
Definition coming (r : Racer) (l : RpcLog) : Prop := exists se, session r = Some se /\ l ∈ way se.
(** ... and would not be lost if the session ended. *)
Definition sure (r : Racer) (l : RpcLog) : Prop :=
  exists se, session r = Some se /\ l ∈ way se /\ (over se = true \/ block_of l <= upto se).
Definition safe (s : Readers) (l : RpcLog) : Prop :=
  l ∈ given s \/ Exists (fun w => asked w l) (walks s) \/ Exists (fun r => sure r l) (racers s).
(** A racer that is subscribed. *)
Definition up (r : Racer) : Prop := exists se, session r = Some se /\ over se = false.

(** ** The newest block ([Stats::latest_block]) *)

Abbreviation newest p := (Pipeline.latest_block (stats p)).

#[local] Ltac bind_in E :=
  repeat match type of E with
  | _ ≫= _ = Ok _ => let x := fresh "x" in let Ex := fresh "E" in apply result_bind_ok in E as (x & Ex & E); cbn beta in E
  end.

Lemma signal_block n raw at_ s : parse_signal n raw at_ = Ok s -> block_number (chain_log s) = block_of raw.
Proof.
  unfold parse_signal, build_chain. intros E. bind_in E. bind_in E2. injection E as <-. injection E2 as <-.
  unfold block_of, log_key. cbn. by rewrite E4.
Qed.

Lemma decode_block raw at_ emitters req e : decode_signal_log raw at_ emitters req = Ok e -> block_number (event_chain e) = block_of raw.
Proof.
  unfold decode_signal_log. intros E. apply result_bind_ok in E as (em & _ & E). destruct (_ && _); [done|].
  apply result_bind_ok in E as (ev & Ev & E). destruct (_ && _); [done|]. injection E as ->.
  destruct (option_map _ _) as [topic|]; [|done]. unfold propose_price_parse, dispute_price_parse in Ev.
  destruct (String.eqb topic _); [|destruct (String.eqb topic _); [|done]]; apply result_bind_ok in Ev as (s & Es & Ev); injection Ev as <-;
    by apply signal_block in Es.
Qed.

(** A log takes it to its own block at most. *)
Lemma process_newest l us src now p : newest p <= newest (process l us src now p) <= Z.max (newest p) (block_of l).
Proof.
  unfold process, prepare. cbv zeta. destruct (decode_signal_log _ _ _ _) as [e|e] eqn:Ed; [|cbn -[Z.max block_of]; lia]. apply decode_block in Ed.
  destruct (contains _ _); [cbn -[Z.max block_of]; lia|]. destruct (record_recent_enrichment _ _ _) as [w hits]. unfold commit. cbn [prep_record event].
  destruct (insert_event _ _) as [[] h]; cbn [negb]; [|cbn -[Z.max block_of]; lia]. destruct (match try_send _ _ with Sent _ => _ | _ => _ end) as [tx st].
  destruct (enrichment _); [destruct (lookup_match _ _)|]; cbn -[Z.max block_of]; lia.
Qed.

Lemma checkpoint_newest b p : newest (checkpoint b p) = newest p.
Proof. unfold checkpoint. by destruct (try_send _ _). Qed.

Lemma live_log_newest src us now l p : newest p <= newest (live_log src us now l p) <= Z.max (newest p) (block_of l).
Proof. unfold live_log. cbv zeta. pose proof (process_newest l us src now p). destruct (_ <? _); rewrite ?checkpoint_newest; lia. Qed.

Lemma feed_newest src at_ b logs : forall k p, Forall (fun l => block_of l <= b) logs ->
  newest p <= newest (feed clock src at_ k logs p) <= Z.max (newest p) b.
Proof.
  induction logs as [|l logs IH]; intros k p Hl; cbn; [lia|]. apply Forall_cons in Hl as [Hb Hl]. destruct (clock at_ k) as [us now].
  pose proof (process_newest l us src now p). specialize (IH (S k) (process l us src now p) Hl). lia.
Qed.

Hypothesis sort_perm : forall ls, sort_unstable ls ≡ₚ ls.

Lemma do_window_newest src w p b : Forall (fun l => block_of l <= b) (w_logs w) ->
  newest p <= newest (do_window sort_unstable clock src p w) <= Z.max (newest p) b.
Proof. intros Hl. unfold do_window. rewrite checkpoint_newest. apply feed_newest. by rewrite sort_perm. Qed.

(** ** The invariant *)

Section Invariant.
Variable c : Z.
Variable S : RpcLog -> Prop.
Variables (blocks : list RpcLog) (top : Z).

(** A session's logs are in the chain's order; up to the last block it knows of, nothing is
    missing but what it still holds. *)
Definition session_ok (se : Session) : Prop :=
  (forall l, l ∈ way se -> l ∈ blocks) /\ StronglySorted (fun a b => block_of a <= block_of b) (way se)
  /\ Forall (fun l => upto se <= block_of l) (way se)
  /\ exists e, upto se <= e <= top /\ (over se = false -> e = top) /\ Forall (fun l => block_of l <= e) (way se)
       /\ (forall l, l ∈ blocks -> c < block_of l <= e -> S l \/ l ∈ way se).
Definition racer_ok (r : Racer) : Prop := match session r with Some se => session_ok se | None => True end.
(** Before a walk nothing is missing. *)
Definition walk_ok (w : RangeWalk) : Prop :=
  next w <= top + 1 /\ match target w with Some t => next w <= t <= top | None => True end
  /\ (forall l, l ∈ blocks -> c < block_of l < next w -> S l).
End Invariant.

Record inv (c : Z) (s : Readers) : Prop := {
  in_head : Forall (fun l => block_of l <= chain_head s) (chain s);
  in_range : 1 <= newest (processor s) <= chain_head s /\ chain_head s < u64_max;
  in_racers : Forall (racer_ok c (safe s) (chain s) (chain_head s)) (racers s);
  in_walks : Forall (walk_ok c (safe s) (chain s) (chain_head s)) (walks s);
  in_below : forall l, l ∈ chain s -> c < block_of l <= newest (processor s) -> safe s l }.

(** What holds of the safe logs holds after a step that keeps them safe and the chain. *)
Lemma racer_ok_mono c (S S' : RpcLog -> Prop) blocks top r : (forall l, l ∈ blocks -> S l -> S' l) ->
  racer_ok c S blocks top r -> racer_ok c S' blocks top r.
Proof.
  intros Hm. unfold racer_ok. destruct (session r) as [se|]; [|done]. intros (A & B & C & e & D & E & F & G).
  split; [done|]. split; [done|]. split; [done|]. exists e. split; [done|]. split; [done|]. split; [done|].
  intros l Hl Hb. destruct (G l Hl Hb); auto.
Qed.
Lemma walk_ok_mono c (S S' : RpcLog -> Prop) blocks top w : (forall l, l ∈ blocks -> S l -> S' l) ->
  walk_ok c S blocks top w -> walk_ok c S' blocks top w.
Proof. intros Hm (A & B & C). split; [done|]. split; [done|]. intros l Hl Hb. auto. Qed.

Lemma exists_insert {A} (P : A -> Prop) xs i x x' : xs !! i = Some x -> Exists P xs -> P x \/ Exists P (<[i:=x']> xs).
Proof.
  intros Hi (y & Hy & HP)%Exists_exists. apply list_elem_of_lookup in Hy as [j Hj]. destruct (decide (i = j)) as [->|Hne].
  - rewrite Hi in Hj. injection Hj as ->. by left.
  - right. apply Exists_exists. exists y. split; [|done]. apply list_elem_of_lookup. exists j. by rewrite list_lookup_insert_ne.
Qed.
Lemma exists_inserted {A} (P : A -> Prop) xs i x x' : xs !! i = Some x -> P x' -> Exists P (<[i:=x']> xs).
Proof.
  intros Hi HP. apply Exists_exists. exists x'. split; [|done]. apply list_elem_of_lookup. exists i. apply list_lookup_insert_eq. by eapply lookup_lt_Some.
Qed.
Lemma exists_delete {A} (P : A -> Prop) xs k x : xs !! k = Some x -> Exists P xs -> P x \/ Exists P (delete k xs).
Proof. intros Hk HE. apply delete_Permutation in Hk. rewrite Hk in HE. by apply Exists_cons in HE. Qed.
Lemma forall_delete {A} (P : A -> Prop) xs k x : xs !! k = Some x -> Forall P xs -> P x /\ Forall P (delete k xs).
Proof. intros Hk HF. apply delete_Permutation in Hk. rewrite Hk in HF. by apply Forall_cons in HF. Qed.

Lemma inv_start n c blocks head p : 1 <= c -> newest p = c -> c <= head < u64_max -> Forall (fun l => block_of l <= head) blocks ->
  inv c (readers_start n c blocks head p).
Proof.
  intros Hc Hp Hh Hb. split; cbn [readers_start chain chain_head racers walks processor].
  - done.
  - lia.
  - apply Forall_replicate. done.
  - apply Forall_singleton. unfold walk_ok. cbn [next target]. split; [unfold u64_max in *; lia|]. split; [done|]. intros l _ Hl. lia.
  - intros l _ Hl. lia.
Qed.

Lemma sent_sure logs r l : sure r l -> sure (sent logs r) l.
Proof.
  intros (se & E & Hl & Hs). unfold sent, sure. rewrite E. destruct (over se) eqn:Eo; [rewrite E; eauto|]. eexists. split; [done|].
  destruct Hs as [?|Hs]; [done|]. split; [apply elem_of_app; by left|by right].
Qed.

Lemma sorted_app_blocks b (xs ys : list RpcLog) : StronglySorted (fun a b => block_of a <= block_of b) xs -> Forall (fun l => block_of l <= b) xs ->
  Forall (fun l => block_of l = b + 1) ys -> StronglySorted (fun a b => block_of a <= block_of b) (xs ++ ys).
Proof.
  intros Hx Hb Hy. induction Hx as [|x xs Hx IH Hall]; cbn.
  - induction Hy as [|y ys Hy Hys IH]; [constructor|]. constructor; [done|]. eapply Forall_impl; [exact Hys|]. cbv beta in *; intros; lia.
  - apply Forall_cons in Hb as [Hb1 Hb2]. constructor; [auto|]. apply Forall_app. split; [done|].
    eapply Forall_impl; [exact Hy|]. cbv beta in *; intros; lia.
Qed.

Lemma mine_ok s logs s' c : exec s (Mine logs) = Some s' -> inv c s -> inv c s'.
Proof.
  intros He [Ih Ir Irs Iw Ib]. cbn in He. destruct (_ <? _) eqn:Eu; [|done]. destruct (forallb _ logs) eqn:El; [|done]. injection He as <-.
  assert (Hl : Forall (fun l => block_of l = chain_head s + 1) logs).
  { apply Forall_forall. intros l Hl. rewrite forallb_forall in El. apply Z.eqb_eq, El. by apply list_elem_of_In. }
  assert (Hnew : forall l, l ∈ chain s ++ logs -> block_of l <= chain_head s -> l ∈ chain s).
  { intros l [?|Hin]%elem_of_app Hb; [done|]. rewrite Forall_forall in Hl. rewrite (Hl l Hin) in Hb. lia. }
  set (s' := Build_Readers _ _ _ _ _ _ _ _). assert (Hsafe : forall l, safe s l -> safe s' l).
  { intros l [?|[?|Hr]]; [by left|by right; left|]. right; right. cbn [s' racers]. apply Exists_exists in Hr as (r & Hr & Hs). apply Exists_exists.
    exists (sent logs r). split; [by apply list_elem_of_fmap_2|by apply sent_sure]. }
  split; cbn [s' chain chain_head racers walks processor].
  - apply Forall_app. split; eapply Forall_impl; [exact Ih| |exact Hl|]; cbv beta in *; intros; lia.
  - lia.
  - apply Forall_map. eapply Forall_impl; [exact Irs|]. intros r Hr. unfold racer_ok, sent in *. destruct (session r) as [se|] eqn:Ese; [|by rewrite Ese].
    destruct Hr as (A & B & C & e & D & E & F & G). destruct (over se) eqn:Eo; cbn [session]; rewrite ?Ese; cbn [way over upto].
    + split; [intros l Hl0; apply elem_of_app; auto|]. split; [done|]. split; [done|]. exists e. split; [lia|]. split; [congruence|]. split; [done|].
      intros l Hl0 Hb. destruct (G l (Hnew l Hl0 ltac:(lia)) Hb); auto.
    + specialize (E eq_refl) as ->. repeat split; cbn [way over upto].
      * intros l [?|?]%elem_of_app; apply elem_of_app; auto.
      * by apply sorted_app_blocks with (chain_head s).
      * apply Forall_app. split; [done|]. eapply Forall_impl; [exact Hl|]. cbv beta in *; intros; lia.
      * exists (chain_head s + 1). split; [lia|]. split; [done|]. split.
        { apply Forall_app. split; eapply Forall_impl; [exact F| |exact Hl|]; cbv beta in *; intros; lia. }
        intros l [Hl0|Hl0]%elem_of_app Hb; [|right; apply elem_of_app; by right].
        rewrite Forall_forall in Ih. destruct (G l Hl0) as [?|?]; [specialize (Ih l Hl0); cbn in Ih; lia|auto|right; apply elem_of_app; by left].
  - eapply Forall_impl; [exact Iw|]. intros w (A & B & C). split; [lia|]. split; [destruct (target w); [lia|done]|].
    intros l Hl0 Hb. apply Hsafe, C; [apply Hnew; [done|lia]|done].
  - intros l Hl0 Hb. apply Hsafe, Ib; [apply Hnew; [done|lia]|done].
Qed.

(** The other steps leave the chain as it is; what they must show is what they change. *)
Lemma inv_same_chain c s s' : inv c s -> chain s' = chain s -> chain_head s' = chain_head s ->
  newest (processor s) <= newest (processor s') <= chain_head s ->
  (forall l, l ∈ chain s -> safe s l -> safe s' l) ->
  (forall l, l ∈ chain s -> c < block_of l -> newest (processor s) < block_of l <= newest (processor s') -> safe s' l) ->
  Forall (fun r => r ∈ racers s \/ racer_ok c (safe s') (chain s) (chain_head s) r) (racers s') ->
  Forall (fun w => w ∈ walks s \/ walk_ok c (safe s') (chain s) (chain_head s) w) (walks s') -> inv c s'.
Proof.
  intros [Ih Ir Irs Iw Ib] Ec Eh Hn Hm Hb Hr Hw. split; rewrite ?Ec, ?Eh; [done|lia| | |].
  - rewrite Forall_forall in Irs. eapply Forall_impl; [exact Hr|]. intros r [Hin|?]; [|done]. eapply racer_ok_mono; [exact Hm|auto].
  - rewrite Forall_forall in Iw. eapply Forall_impl; [exact Hw|]. intros w [Hin|?]; [|done]. eapply walk_ok_mono; [exact Hm|auto].
  - intros l Hl Hbl. destruct (Z.le_gt_cases (block_of l) (newest (processor s))); [|apply Hb; [done|lia|lia]].
    apply Hm, Ib; [done|done|lia].
Qed.

Lemma others {A} (Q : A -> Prop) xs i x' : Q x' -> Forall (fun x => x ∈ xs \/ Q x) (<[i:=x']> xs).
Proof.
  intros HQ. apply Forall_forall. intros x Hx. apply list_elem_of_lookup in Hx as [j Hj]. apply list_lookup_insert_Some in Hj as [(_ & <- & _)|(_ & Hj)]; [by right|].
  left. apply list_elem_of_lookup. by exists j.
Qed.
Lemma same {A} (Q : A -> Prop) xs : Forall (fun x => x ∈ xs \/ Q x) xs.
Proof. apply Forall_forall. auto. Qed.
Lemma fewer {A} (Q : A -> Prop) xs k ys : Forall Q ys -> Forall (fun x => x ∈ xs \/ Q x) (delete k xs ++ ys).
Proof.
  intros HQ. apply Forall_app. split; [|eapply Forall_impl; [exact HQ|]; auto]. apply Forall_forall. intros x Hx. left.
  by apply list_elem_of_delete_inv in Hx.
Qed.

(** A session that begins. *)
Lemma subscribed_ok s i s' c : exec s (Subscribed i) = Some s' -> orderly s (Subscribed i) -> inv c s -> inv c s'.
Proof.
  intros He Ho Hi. pose proof Hi as [Ih Ir Irs Iw Ib]. cbn in He. destruct (racers s !! i) as [r|] eqn:Er; [|done]. cbn in He.
  destruct (session r) eqn:Es; [done|]. injection He as <-. specialize (Ho r Er).
  assert (Hall : forall l, l ∈ chain s -> c < block_of l -> safe s l \/ Exists (fun w => asked w l) (spawned i (worker r) (newest (processor s)))).
  { intros l Hl Hc. rewrite Forall_forall in Ih. specialize (Ih l Hl). cbn beta in Ih. unfold spawned, gap_from. destruct (fills_gap (worker r)).
    - destruct (Z.le_gt_cases (block_of l) (newest (processor s))); [left; apply Ib; [done|lia]|right].
      rewrite Z.min_r by lia. destruct (_ <=? 1) eqn:E1; [lia|]. apply Exists_cons_hd. split; [cbn; lia|done].
    - destruct Ho as [?|(w & Hw & Hf & Ht)]; [done|]. left. rewrite Forall_forall in Iw. destruct (Iw w Hw) as (_ & _ & Hbefore).
      destruct (Z.le_gt_cases (next w) (block_of l)); [|apply Hbefore; [done|lia]]. right; left. apply Exists_exists. exists w. unfold asked. by rewrite Ht. }
  set (s' := with_racers _ _ _ _ s). assert (Hsafe : forall l, safe s l -> safe s' l).
  { intros l [?|[Hw|Hr]]; [by left|right; left; apply Exists_app; by left|]. right; right. cbn [s' with_racers racers].
    edestruct (exists_insert (fun r => sure r l)) as [(se & Ese & _)|Hr']; [exact Er|exact Hr|congruence|exact Hr']. }
  assert (Hall' : forall l, l ∈ chain s -> c < block_of l -> safe s' l).
  { intros l Hl Hc. destruct (Hall l Hl Hc) as [?|?]; [auto|]. right; left. apply Exists_app. by right. }
  eapply inv_same_chain; [exact Hi|done|done|cbn [s' with_racers processor]; lia|auto|auto| |].
  - apply others. split; [by intros l ?%not_elem_of_nil|]. split; [constructor|]. split; [constructor|]. exists (chain_head s).
    cbn [upto over way]. split; [lia|]. split; [done|]. split; [constructor|]. intros l Hl Hb. left. apply Hall'; [done|lia].
  - cbn [s' with_racers walks]. apply Forall_app. split; [apply same|]. unfold spawned, gap_from. destruct (fills_gap _); [|constructor].
    destruct (_ <=? 1); [constructor|]. apply Forall_singleton. right. unfold walk_ok. cbn [next target]. rewrite Z.min_r by lia.
    split; [lia|]. split; [done|]. intros l Hl Hb. apply Hall'; [done|lia].
Qed.

(** A log that is taken. *)
Lemma take_ok s i us now s' c : exec s (Take i us now) = Some s' -> inv c s -> inv c s'.
Proof.
  intros He Hi. pose proof Hi as [Ih Ir Irs Iw Ib]. cbn in He. destruct (racers s !! i) as [r|] eqn:Er; [|done]. cbn in He.
  destruct (session r) as [se|] eqn:Es; [|done]. cbn in He. destruct (way se) as [|x rest] eqn:Ew; [done|]. injection He as <-.
  pose proof (Forall_lookup_1 _ _ _ _ Irs Er) as Hr. unfold racer_ok in Hr. rewrite Es in Hr. destruct Hr as (A & B & C & e & D & E & F & G).
  rewrite Ew in A, B, C, F, G. apply StronglySorted_inv in B as [B1 B2]. apply Forall_cons in C as [C1 _]. apply Forall_cons in F as [F1 F2].
  pose proof (live_log_newest (racer_source i) us now x (processor s)) as Hn.
  set (r' := {| worker := worker r; session := Some {| way := rest; over := over se; upto := block_of x |} |}).
  set (s' := with_given _ _ _ _ s). assert (Hrest : forall l, l ∈ rest -> block_of l <= block_of x \/ over se = true -> safe s' l).
  { intros l Hl Hb. right; right. eapply exists_inserted; [exact Er|]. exists {| way := rest; over := over se; upto := block_of x |}.
    split; [done|]. split; [done|]. destruct Hb; [by right|by left]. }
  assert (Hsafe : forall l, safe s l -> safe s' l).
  { intros l [?|[Hw|Hr]]; [left; apply elem_of_app; by left|by right; left|].
    destruct (exists_insert (fun r => sure r l) (racers s) i r r' Er Hr) as [(se0 & E0 & Hl & Hs)|Hr']; [|by right; right].
    rewrite Es in E0. injection E0 as <-. rewrite Ew in Hl. apply elem_of_cons in Hl as [->|Hl]; [left; apply elem_of_app; right; by apply list_elem_of_singleton|].
    apply Hrest; [done|]. destruct Hs; [by right|left; lia]. }
  assert (Hx : forall l, l ∈ chain s -> c < block_of l <= e -> safe s' l \/ l ∈ rest).
  { intros l Hl Hb. destruct (G l Hl Hb) as [?|[->|?]%elem_of_cons]; [auto|left; left; apply elem_of_app; right; by apply list_elem_of_singleton|auto]. }
  assert (Hx0 : block_of x <= chain_head s) by lia.
  eapply inv_same_chain; [exact Hi|done|done|cbn [s' with_given processor]; lia|auto| | |apply same].
  - cbn [s' with_given processor]. intros l Hl Hc Hb. destruct (Hx l Hl ltac:(lia)) as [?|Hin]; [done|]. apply Hrest; [done|left; lia].
  - apply others. split; [intros l Hl; apply A; apply elem_of_cons; by right|]. split; [done|]. split; [done|]. exists e. cbn [upto over way]. split; [lia|]. auto.
Qed.

(** A session whose reader ends between two blocks. *)
Definition last_block (b : Z) (ls : list RpcLog) : Z := foldr (fun l b => Z.max (block_of l) b) b ls.
Lemma last_block_spec b ls : b <= last_block b ls /\ Forall (fun l => block_of l <= last_block b ls) ls
  /\ (forall d, b <= d -> Forall (fun l => block_of l <= d) ls -> last_block b ls <= d)
  /\ (forall d, b < d -> Forall (fun l => block_of l < d) ls -> last_block b ls < d).
Proof.
  induction ls as [|l ls (A & B & C & D)]; unfold last_block in *; cbn [foldr]; [repeat split; [lia|constructor|done|done]|]. split; [lia|]. split; [|split].
  - constructor; [lia|]. eapply Forall_impl; [exact B|]. cbv beta. intros; lia.
  - intros d Hd [Hl Hls]%Forall_cons. specialize (C d Hd Hls). lia.
  - intros d Hd [Hl Hls]%Forall_cons. specialize (D d Hd Hls). lia.
Qed.

Lemma reader_ends_ok s i n s' c : exec s (ReaderEnds i n) = Some s' -> orderly s (ReaderEnds i n) -> inv c s -> inv c s'.
Proof.
  intros He Ho Hi. pose proof Hi as [Ih Ir Irs Iw Ib]. cbn in He. destruct (racers s !! i) as [r|] eqn:Er; [|done]. cbn in He.
  destruct (session r) as [se|] eqn:Es; [|done]. cbn in He. destruct (over se) eqn:Eo; [done|]. injection He as <-. specialize (Ho r se Er Es).
  pose proof (Forall_lookup_1 _ _ _ _ Irs Er) as Hr. unfold racer_ok in Hr. rewrite Es in Hr. destruct Hr as (A & B & C & e & D & _ & F & G).
  set (kept := take n (way se)) in *. set (lost := drop n (way se)) in *. assert (Hw : way se = kept ++ lost) by (symmetry; apply take_drop).
  rewrite Hw in A, B, C, F, G. apply Forall_app in C as [C _]. apply Forall_app in F as [F _]. apply StronglySorted_app_1_l in B.
  destruct (last_block_spec (upto se) kept) as (L1 & L2 & L3 & L4). specialize (L3 e ltac:(lia) F).
  set (s' := with_racers _ _ _ _ s). assert (Hkept : forall l, l ∈ kept -> safe s' l).
  { intros l Hl. right; right. eapply exists_inserted; [exact Er|]. eexists. split; [done|]. cbn. auto. }
  assert (Hlost : forall l, l ∈ lost -> last_block (upto se) kept < block_of l).
  { intros l Hl. rewrite Forall_forall in Ho. destruct (Ho l Hl) as [O1 O2]. by apply L4. }
  assert (Hsafe : forall l, safe s l -> safe s' l).
  { intros l [?|[?|Hr]]; [by left|by right; left|].
    edestruct (exists_insert (fun r => sure r l)) as [(se0 & E0 & Hl & Hs)|Hr']; [exact Er|exact Hr| |right; right; exact Hr'].
    rewrite Es in E0. injection E0 as <-. rewrite Hw in Hl. destruct Hs as [?|Hs]; [congruence|].
    apply elem_of_app in Hl as [Hl|Hl]; [auto|]. specialize (Hlost l Hl). lia. }
  eapply inv_same_chain; [exact Hi|done|done|cbn [s' with_racers processor]; lia|auto|cbn [s' with_racers processor]; intros; lia| |apply same].
  apply others. split; [intros l Hl; apply A, elem_of_app; by left|]. split; [exact B|]. split; [exact C|]. exists (last_block (upto se) kept).
  cbn [upto over way]. split; [lia|]. split; [done|]. split; [exact L2|].
  intros l Hl Hb. destruct (G l Hl ltac:(lia)) as [?|[?|Hin]%elem_of_app]; [auto|auto|]. specialize (Hlost l Hin). lia.
Qed.

(** A session that is over, and a dial that failed. *)
Lemma end_session_ok s i lasted r c : racers s !! i = Some r -> (forall l, ~ coming r l) -> inv c s -> inv c (end_session i lasted r s).
Proof.
  intros Er Hno Hi. pose proof Hi as [_ Ir _ _ _]. unfold end_session. destruct (session_ended _ _ _) as [[d w] st].
  eapply inv_same_chain; [exact Hi|done|done|cbn [with_racers processor]; lia| |cbn [with_racers processor]; intros; lia|by apply others|apply same].
  intros l _ [?|[?|Hr]]; [by left|by right; left|].
  edestruct (exists_insert (fun r => sure r l)) as [(se & E & Hl & _)|Hr']; [exact Er|exact Hr| |right; right; exact Hr'].
  exfalso. apply (Hno l). by exists se.
Qed.

(** A walk that moves on: what it asked for is given or asked for by what is left of it. *)
Lemma walk_moves c s s' k w ws : inv c s -> walks s !! k = Some w -> chain s' = chain s -> chain_head s' = chain_head s ->
  racers s' = racers s -> walks s' = delete k (walks s) ++ ws -> (forall l, l ∈ given s -> l ∈ given s') ->
  newest (processor s) <= newest (processor s') <= chain_head s ->
  (forall l, l ∈ chain s -> asked w l -> l ∈ given s' \/ Exists (fun v => asked v l) ws) ->
  (forall l, l ∈ chain s -> next w <= block_of l -> newest (processor s) < block_of l <= newest (processor s') -> l ∈ given s') ->
  Forall (fun v => next v <= chain_head s + 1 /\ match target v with Some t => next v <= t <= chain_head s | None => True end
            /\ (forall l, l ∈ chain s -> next w <= block_of l < next v -> l ∈ given s')) ws -> inv c s'.
Proof.
  intros Hi Ek Ec Eh Er Ew Hg Hn Ha Hb Hv. pose proof Hi as [_ _ _ Iw _]. destruct (Forall_lookup_1 _ _ _ _ Iw Ek) as (_ & _ & W).
  assert (Hsafe : forall l, l ∈ chain s -> safe s l -> safe s' l).
  { intros l Hl [?|[He|He]]; [left; auto| |right; right; by rewrite Er]. destruct (exists_delete (fun v => asked v l) _ _ _ Ek He) as [Hw|Hw].
    - destruct (Ha l Hl Hw) as [?|?]; [by left|]. right; left. rewrite Ew. apply Exists_app. by right.
    - right; left. rewrite Ew. apply Exists_app. by left. }
  eapply inv_same_chain; [exact Hi|done|done|done|exact Hsafe| |rewrite Er; apply same|rewrite Ew; apply fewer].
  - intros l Hl Hc Hbl. destruct (Z.le_gt_cases (next w) (block_of l)); [left; by apply Hb|]. apply Hsafe; [done|]. apply W; [done|lia].
  - eapply Forall_impl; [exact Hv|]. cbv beta. intros v (V1 & V2 & V3). split; [done|]. split; [done|]. intros l Hl Hbl.
    destruct (Z.le_gt_cases (next w) (block_of l)); [left; apply V3; [done|lia]|]. apply Hsafe; [done|]. apply W; [done|lia].
Qed.

Lemma head_read_ok s k head s' c : exec s (HeadRead k head) = Some s' -> orderly s (HeadRead k head) -> inv c s -> inv c s'.
Proof.
  intros He Ho Hi. pose proof Hi as [Ih Ir _ Iw _]. cbn in Ho. subst head. cbn in He. destruct (walks s !! k) as [w|] eqn:Ek; [|done]. cbn in He.
  destruct (_ && _); [|done]. injection He as <-. destruct (Forall_lookup_1 _ _ _ _ Iw Ek) as (W1 & _ & _).
  eapply (walk_moves c s _ k w); [exact Hi|exact Ek|done..|cbn [with_racers processor]; lia| |cbn [with_racers processor]; intros; lia|].
  - intros l Hl [A _]. right. rewrite Forall_forall in Ih. specialize (Ih l Hl). cbn beta in Ih. unfold walk_on.
    destruct (Z.ltb_spec (chain_head s) (next w)); [lia|]. by apply Exists_cons_hd.
  - unfold walk_on. destruct (Z.ltb_spec (chain_head s) (next w)); [constructor|]. apply Forall_singleton. cbn [next target].
    split; [done|]. split; [lia|]. intros; lia.
Qed.

Lemma request_fails_ok s k from s' c : exec s (RequestFails k from) = Some s' -> orderly s (RequestFails k from) -> inv c s -> inv c s'.
Proof.
  intros He Ho Hi. pose proof Hi as [_ Ir _ Iw _]. cbn in He. destruct (walks s !! k) as [w|] eqn:Ek; [|done]. cbn in He. injection He as <-.
  destruct (Ho w Ek) as [Hf Hle]. destruct (Forall_lookup_1 _ _ _ _ Iw Ek) as (W1 & _ & _).
  eapply (walk_moves c s _ k w); [exact Hi|exact Ek|done..|cbn [with_racers processor]; lia| |cbn [with_racers processor]; intros; lia|];
    unfold failed; rewrite Hf.
  - intros l _ [A _]. right. apply Exists_cons_hd. split; [cbn; lia|done].
  - apply Forall_singleton. cbn [next target]. split; [lia|]. split; [done|]. intros; lia.
Qed.

Lemma in_blocks_spec from to ls l : l ∈ List.filter (in_blocks from to) ls <-> l ∈ ls /\ from <= block_of l <= to.
Proof.
  rewrite !list_elem_of_In, filter_In. unfold in_blocks. rewrite andb_true_iff, !Z.leb_le. tauto.
Qed.

Lemma batch_done_ok s k s' c : exec s (BatchDone k) = Some s' -> inv c s -> inv c s'.
Proof.
  intros He Hi. pose proof Hi as [Ih Ir _ Iw _]. cbn in He. destruct (walks s !! k) as [w|] eqn:Ek; [|done]. cbn in He.
  destruct (target w) as [to|] eqn:Et; [|done]. cbn in He. injection He as <-.
  destruct (Forall_lookup_1 _ _ _ _ Iw Ek) as (_ & W2 & _). rewrite Et in W2.
  set (end_ := batch_end w to). assert (He : next w <= end_ <= to) by (unfold end_, batch_end; lia).
  set (logs := List.filter (in_blocks (next w) end_) (chain s)).
  pose proof (do_window_newest (walk_source w) {| w_from := next w; w_to := end_; w_logs := logs |} (processor s) end_) as Hn.
  assert (Hlogs : Forall (fun l => block_of l <= end_) logs) by (apply Forall_forall; intros l Hl%in_blocks_spec; lia). specialize (Hn Hlogs).
  assert (Hin : forall l, l ∈ chain s -> next w <= block_of l <= end_ -> l ∈ given s ++ sort_unstable logs).
  { intros l Hl Hb. apply elem_of_app. right. rewrite sort_perm. by apply in_blocks_spec. }
  eapply (walk_moves c s _ k w); [exact Hi|exact Ek|done..|intros l Hl; apply elem_of_app; by left|cbn [with_given processor]; lia| | |].
  - intros l Hl [A B]. rewrite Et in B. destruct (Z.le_gt_cases (block_of l) end_); [left; by apply Hin|right]. rewrite Z.min_r by lia.
    unfold walk_on. destruct (Z.ltb_spec to (end_ + 1)); [lia|]. apply Exists_cons_hd. split; cbn [next target]; lia.
  - cbn [with_given processor given]. intros l Hl A Hb. apply Hin; [done|lia].
  - rewrite Z.min_r by lia. unfold walk_on. destruct (Z.ltb_spec to (end_ + 1)); [constructor|]. apply Forall_singleton. cbn [next target].
    split; [lia|]. split; [lia|]. intros l Hl Hb. apply Hin; [done|lia].
Qed.

Lemma exec_ok s a s' c : exec s a = Some s' -> orderly s a -> inv c s -> inv c s'.
Proof.
  intros He Ho Hi. destruct a as [logs|i|i us now|i n|i lasted|i lasted|k head|k|k from].
  - by eapply mine_ok.
  - by eapply subscribed_ok.
  - by eapply take_ok.
  - by eapply reader_ends_ok.
  - cbn in He. destruct (racers s !! i) as [r|] eqn:Er; [|done]. cbn in He. destruct (session r) as [se|] eqn:Es; [|done]. cbn in He.
    destruct (over se); [|done]. destruct (way se) eqn:Ew; [|done]. injection He as <-. apply end_session_ok; [done| |done].
    intros l (se' & E & Hl). rewrite Es in E. injection E as <-. rewrite Ew in Hl. by apply not_elem_of_nil in Hl.
  - cbn in He. destruct (racers s !! i) as [r|] eqn:Er; [|done]. cbn in He. destruct (session r) as [se|] eqn:Es; [done|]. injection He as <-.
    apply end_session_ok; [done| |done]. intros l (se' & E & _). congruence.
  - by eapply head_read_ok.
  - by eapply batch_done_ok.
  - by eapply request_fails_ok.
Qed.

Lemma reaches_ok c s0 s : reaches s0 s -> inv c s0 -> inv c s.
Proof. intros Hr Hi. induction Hr as [|s a s' _ IH Ho He]; [done|]. by eapply exec_ok. Qed.

(** C17: no log is missed.  However blocks come, racers connect, lose their connections and
    connect again, walks proceed side by side, and whichever of them gets a log first: every
    log above the checkpoint the service started from has been given to the pipeline, or is
    on the way to a racer, or a walk will ask for it, or it is newer than every accepted log
    while no racer is subscribed, and then the next one to subscribe asks for it.  So when a
    racer is subscribed and nothing is under way, every log has been given. *)
Theorem no_log_missed n c blocks head p s : 1 <= c -> newest p = c -> c <= head < u64_max ->
  Forall (fun l => block_of l <= head) blocks -> reaches (readers_start n c blocks head p) s ->
  (forall l, l ∈ chain s -> c < block_of l ->
     l ∈ given s \/ Exists (fun r => coming r l) (racers s) \/ Exists (fun w => asked w l) (walks s)
     \/ (newest (processor s) < block_of l /\ ~ Exists up (racers s)))
  /\ (Exists up (racers s) -> walks s = [] -> Forall (fun r => forall se, session r = Some se -> way se = []) (racers s) ->
        forall l, l ∈ chain s -> c < block_of l -> l ∈ given s).
Proof.
  intros Hc Hp Hh Hb Hr. pose proof (reaches_ok c _ _ Hr (inv_start n c blocks head p Hc Hp Hh Hb)) as [Ih Ir Irs Iw Ib].
  assert (Hsafe : forall l, safe s l -> l ∈ given s \/ Exists (fun r => coming r l) (racers s) \/ Exists (fun w => asked w l) (walks s)).
  { intros l [?|[?|He]]; [auto|auto|]. right; left. eapply Exists_impl; [exact He|]. intros r (se & E & Hl & _). by exists se. }
  assert (Hup : Exists up (racers s) -> forall l, l ∈ chain s -> c < block_of l ->
    l ∈ given s \/ Exists (fun r => coming r l) (racers s) \/ Exists (fun w => asked w l) (walks s)).
  { intros (r & Hin & se & Es & Eo)%Exists_exists l Hl Hcl. pose proof Irs as Hrs. rewrite Forall_forall in Hrs. specialize (Hrs r Hin). unfold racer_ok in Hrs. rewrite Es in Hrs.
    destruct Hrs as (_ & _ & _ & e & _ & E & _ & G). specialize (E Eo) as ->. rewrite Forall_forall in Ih. specialize (Ih l Hl). cbn beta in Ih.
    destruct (G l Hl ltac:(lia)) as [?|?]; [auto|]. right; left. apply Exists_exists. exists r. split; [done|]. by exists se. }
  split.
  - intros l Hl Hcl. destruct (Z.le_gt_cases (block_of l) (newest (processor s))).
    + destruct (Hsafe l (Ib l Hl ltac:(lia))) as [?|[?|?]]; auto.
    + assert (Hd : Decision (Exists up (racers s))).
      { apply Exists_dec. intros r. unfold up. destruct (session r) as [se|]; [|right; by intros (? & ? & _)].
        destruct (over se) eqn:Eo; [right; intros (? & [= <-] & ?); congruence|left; eauto]. }
      destruct Hd as [Hu|Hu]; [|auto]. destruct (Hup Hu l Hl Hcl) as [?|[?|?]]; auto.
  - intros Hu Hw Hway l Hl Hcl. destruct (Hup Hu l Hl Hcl) as [?|[He|He]]; [done| |rewrite Hw in He; by apply Exists_nil in He].
    apply Exists_exists in He as (r & Hin & se & Es & Hlw). rewrite Forall_forall in Hway. rewrite (Hway r Hin se Es) in Hlw. by apply not_elem_of_nil in Hlw.
Qed.
End Readers.

(** ** Runs *)

Module ReadersSample.
Import RpcSample.
#[local] Existing Instance PipelineSample.codec.
#[local] Existing Instance PipelineSample.queue.
(** A service that stopped at block 100; an event in each block it is given. *)
Definition resumed (newest_ : Z) : Processor :=
  let p := PipelineSample.start in
  with_stats (stats_accepted "" newest_ true (stats p)) p.
Definition event_in (block : Z) : RpcLog :=
  let l := PipelineSample.log block in
  {| address := address l; topics := topics l; data := data l; log_block_number := quantity block; block_hash := block_hash l;
     log_transaction_hash := log_transaction_hash l; transaction_index := transaction_index l; log_log_index := log_log_index l;
     log_removed := log_removed l |}.
Definition go (newest_ : Z) (acts : list Action) : option Readers :=
  run sort clock 10 (readers_start 2 newest_ [] 100 (resumed newest_)) acts.
(** The blocks of the chain's events, of those given, and how much is under way. *)
Definition outline (s : Readers) : list Z * list Z * nat :=
  (map block_of (chain s), map block_of (given s), (length (walks s) + sum_list_with (fun r => match session r with Some se => length (way se) | None => 0 end) (racers s))%nat).

Definition connects (i : nat) : list Action := [Subscribed i].
Definition mined (b : Z) : Action := Mine [event_in b].
Definition drops (i : nat) : list Action := [ReaderEnds i 0; SessionEnds i 5].

(** Both racers are down for block 102; the first to come back fills the gap. *)
Definition outage : list Action :=
  connects 0 ++ connects 1 ++ [HeadRead 0 100; mined 101; Take 1 7 7; Take 0 8 8] ++ drops 0 ++ drops 1 ++ [mined 102]
  ++ connects 1 ++ [mined 103; Take 1 9 9; HeadRead 0 103; BatchDone 0].
Example outage_filled : outline <$> go 100 outage = Some ([101; 102; 103], [101; 101; 103; 102; 103], 0%nat).
Proof. vm_compute. reflexivity. Qed.

(** A racer whose first dial takes long fills no gap, and what it accepts hides the gap from
    the next racer to come back: block 102 is never asked for. *)
Definition slow_first_dial : list Action :=
  connects 0 ++ [HeadRead 0 100; mined 101; Take 0 7 7] ++ drops 0 ++ [mined 102] ++ connects 1 ++ [mined 103; Take 1 8 8]
  ++ connects 0 ++ [HeadRead 0 103].
Example slow_first_dial_leaves_gap : outline <$> go 100 slow_first_dial = Some ([101; 102; 103], [101; 103], 0%nat).
Proof. vm_compute. reflexivity. Qed.

(** Without a checkpoint and before the first event a reconnection fills no gap either. *)
Definition before_first_event : list Action :=
  connects 0 ++ connects 1 ++ [HeadRead 0 100; BatchDone 0; BatchDone 0; BatchDone 0; BatchDone 0; BatchDone 0; BatchDone 0; BatchDone 0; BatchDone 0; BatchDone 0; BatchDone 0]
  ++ drops 0 ++ drops 1 ++ [mined 101] ++ connects 0.
Example no_event_no_gap_fill : outline <$> go 0 before_first_event = Some ([101], [], 0%nat).
Proof. vm_compute. reflexivity. Qed.

(** A gap-fill whose request fails is not tried again, and the next one starts behind the
    newest event. *)
Definition failed_gap_fill : list Action :=
  connects 0 ++ connects 1 ++ [HeadRead 0 100; mined 101; Take 1 7 7; Take 0 8 8] ++ drops 0 ++ drops 1 ++ [mined 102]
  ++ connects 1 ++ [RequestFails 0 0; mined 103; Take 1 9 9] ++ connects 0 ++ [HeadRead 0 103].
Example failed_gap_fill_leaves_gap : outline <$> go 100 failed_gap_fill = Some ([101; 102; 103], [101; 101; 103], 0%nat).
Proof. vm_compute. reflexivity. Qed.

(** A racer comes back after a block it missed. *)
Definition reconnects : list Action := connects 0 ++ [HeadRead 0 100] ++ drops 0 ++ [mined 101] ++ connects 0.
Definition initial : Readers := readers_start 2 100 [] 100 (resumed 100).

Lemma no_log_missed_witness : exists s, reaches sort clock 10 initial s /\ chain s = [event_in 101]
  /\ (event_in 101 ∈ given s \/ Exists (fun r => coming r (event_in 101)) (racers s) \/ Exists (fun w => asked w (event_in 101)) (walks s)
      \/ (Pipeline.latest_block (stats (processor s)) < 101 /\ ~ Exists up (racers s))).
Proof.
  assert (Hsort : forall ls, sort ls ≡ₚ ls) by (intros; apply sort_by_perm).
  assert (Hr : exists s, reaches sort clock 10 initial s /\ chain s = [event_in 101]).
  { eexists. split.
    - eapply reaches_step with (a := Subscribed 0); [eapply reaches_step with (a := mined 101); [eapply reaches_step with (a := SessionEnds 0 5);
        [eapply reaches_step with (a := ReaderEnds 0 0); [eapply reaches_step with (a := HeadRead 0 100);
        [eapply reaches_step with (a := Subscribed 0); [apply reaches_start| |reflexivity]| |reflexivity]| |reflexivity]| |reflexivity]| |reflexivity]| |reflexivity];
        cbn [orderly]; try done.
      + intros r [= <-]. right. eexists. split; [by left|done].
      + intros r se [= <-] [= <-]. constructor.
      + intros r [= <-]. by left.
    - reflexivity. }
  destruct Hr as (s & Hr & Hc). exists s. split; [exact Hr|]. split; [exact Hc|].
  assert (Hn : Pipeline.latest_block (stats (resumed 100)) = 100) by reflexivity.
  destruct (no_log_missed sort clock 10 Hsort 2 100 [] 100 (resumed 100) s ltac:(lia) Hn ltac:(unfold u64_max; lia) ltac:(constructor) Hr) as [H1 _].
  assert (Hb : block_of (event_in 101) = 101) by (vm_compute; reflexivity).
  specialize (H1 (event_in 101)). rewrite Hb in H1. apply H1; [rewrite Hc; by left|lia].
Defined.
End ReadersSample.
