(* ===== verification/Api.v ===== *)
(** * Api: the service's HTTP interface ([src/api.rs], [src/stats.rs])

    The routes, the health and dashboard answers, the Prometheus text and the handshake of the
    WebSocket.  The session behind the handshake is in [Hubs]; axum's framing and serde's JSON
    are not here: an answer is a record, a text is a string. *)
From S2P Require Import Prelude Model WireFrame Channel Events EdgeServer Hubs Category Catalog Forfeit ForfeitFeed Pipeline Config Rpc.

(** ** The counters ([Stats]) *)

(** [pipeline] and [rpc] are the parts the processor and the racers write. *)
Record ApiStats := {
  pipeline : Stats;
  rpc : RpcStats;
  catalog_markets : Z;
  catalog_reconcile_gaps_closed : Z;
  catalog_new_markets_added : Z;
  last_broadcast_at_us : Z;
  subscribers : Z;
  slow_clients_dropped : Z;
  ws_cursor_rejected : Z;
  ws_frames_sent_total : Z;
  ws_bytes_sent_total : Z }.

Record AppState := {
  api_config : Config.Config;
  api_events : EventHub;
  api_frames : FrameHub;
  api_catalog : Catalog;
  api_stats : ApiStats;
  api_forfeit : ForfeitBlocklist;
  api_feed : FeedStatus }.

(** ** Routes *)

Inductive Route := RHealth | RMetrics | RLlms | RWebsocket | RDashboardPage | RDashboardData.

Inductive Dispatch := Handle (r : Route) | MethodNotAllowed | NotFound.

(** [get] of axum also answers [HEAD]. *)
Definition router (method path : string) : Dispatch :=
  let r := if String.eqb path "/healthz" then Some RHealth
           else if String.eqb path "/metrics" then Some RMetrics
           else if String.eqb path "/llms.txt" then Some RLlms
           else if String.eqb path "/uma/v1/ws" then Some RWebsocket
           else if String.eqb path "/dashboard" then Some RDashboardPage
           else if String.eqb path "/uma/v1/dashboard-data" then Some RDashboardData
           else None in
  match r with
  | None => NotFound
  | Some r => if String.eqb method "GET" || String.eqb method "HEAD" then Handle r else MethodNotAllowed
  end.

(** ** Health *)

Record HealthResponse := {
  h_status : string;
  h_rpc_connected : bool;
  h_rpc_sources_connected : Z;
  h_rpc_sources_configured : Z;
  h_rpc_reconnects_total : Z;
  h_rpc_logs_received_total : Z;
  h_events_decoded_total : Z;
  h_decode_errors_total : Z;
  h_duplicates_total : Z;
  h_enrichment_hits_total : Z;
  h_enrichment_hits_via_market_id_total : Z;
  h_enrichment_misses_total : Z;
  h_catalog_markets : Z;
  h_catalog_reconcile_gaps_closed_total : Z;
  h_catalog_new_markets_added_total : Z;
  h_last_upstream_received_at_us : Z;
  h_last_broadcast_at_us : Z;
  h_subscribers : Z;
  h_slow_clients_dropped_total : Z;
  h_ws_cursor_rejected_total : Z;
  h_storage_queue_dropped_total : Z;
  h_latest_block : Z;
  h_event_ring_oldest_sequence : Z;
  h_event_ring_latest_sequence : Z;
  h_forfeit_enabled : bool;
  h_forfeit_feed_connected : bool;
  h_forfeit_blocked_condition_ids : Z;
  h_forfeit_blocked_events_total : Z }.

Definition health (s : AppState) : HealthResponse :=
  let st := api_stats s in let p := pipeline st in let r := rpc st in
  let '(oldest, latest) := bounds (api_events s) in
  {| h_status := if rpc_connected r then "ok" else "degraded";
     h_rpc_connected := rpc_connected r;
     h_rpc_sources_connected := rpc_sources_connected r;
     h_rpc_sources_configured := zlen (wss_rpc_urls (api_config s));
     h_rpc_reconnects_total := rpc_reconnects r;
     h_rpc_logs_received_total := rpc_logs_received p;
     h_events_decoded_total := events_decoded p;
     h_decode_errors_total := decode_errors p;
     h_duplicates_total := duplicates p;
     h_enrichment_hits_total := enrichment_hits p;
     h_enrichment_hits_via_market_id_total := enrichment_hits_via_market_id p;
     h_enrichment_misses_total := enrichment_misses p;
     h_catalog_markets := catalog_markets st;
     h_catalog_reconcile_gaps_closed_total := catalog_reconcile_gaps_closed st;
     h_catalog_new_markets_added_total := catalog_new_markets_added st;
     h_last_upstream_received_at_us := last_upstream_received_at_us p;
     h_last_broadcast_at_us := last_broadcast_at_us st;
     h_subscribers := subscribers st;
     h_slow_clients_dropped_total := slow_clients_dropped st;
     h_ws_cursor_rejected_total := ws_cursor_rejected st;
     h_storage_queue_dropped_total := storage_queue_dropped p;
     h_latest_block := Pipeline.latest_block p;
     h_event_ring_oldest_sequence := oldest;
     h_event_ring_latest_sequence := latest;
     h_forfeit_enabled := enabled (api_forfeit s);
     h_forfeit_feed_connected := connected (api_feed s);
     h_forfeit_blocked_condition_ids := blocked_condition_ids (api_forfeit s);
     h_forfeit_blocked_events_total := blocked_events_total (api_forfeit s) |}.

(** ** Metrics *)

Definition as_u64 (b : bool) : Z := if b then 1 else 0.

Definition metric_values (s : AppState) : list (string * Z) :=
  let st := api_stats s in let p := pipeline st in let r := rpc st in
  let '(oldest, latest) := bounds (api_events s) in
  [("rust_uma_rpc_connected", as_u64 (rpc_connected r));
   ("rust_uma_rpc_sources_connected", rpc_sources_connected r);
   ("rust_uma_rpc_sources_configured", zlen (wss_rpc_urls (api_config s)));
   ("rust_uma_rpc_reconnects_total", rpc_reconnects r);
   ("rust_uma_rpc_logs_received_total", rpc_logs_received p);
   ("rust_uma_events_decoded_total", events_decoded p);
   ("rust_uma_decode_errors_total", decode_errors p);
   ("rust_uma_duplicates_total", duplicates p);
   ("rust_uma_enrichment_hits_total", enrichment_hits p);
   ("rust_uma_enrichment_hits_via_market_id_total", enrichment_hits_via_market_id p);
   ("rust_uma_enrichment_misses_total", enrichment_misses p);
   ("rust_uma_catalog_markets", catalog_len (api_catalog s));
   ("rust_uma_catalog_reconcile_gaps_closed_total", catalog_reconcile_gaps_closed st);
   ("rust_uma_catalog_new_markets_added_total", catalog_new_markets_added st);
   ("rust_uma_subscribers", subscribers st);
   ("rust_uma_slow_clients_dropped_total", slow_clients_dropped st);
   ("rust_uma_ws_cursor_rejected_total", ws_cursor_rejected st);
   ("rust_uma_event_ring_oldest_sequence", oldest);
   ("rust_uma_event_ring_latest_sequence", latest);
   ("rust_uma_forfeit_feed_connected", as_u64 (connected (api_feed s)));
   ("rust_uma_forfeit_blocked_condition_ids", blocked_condition_ids (api_forfeit s));
   ("rust_uma_forfeit_blocked_events_total", blocked_events_total (api_forfeit s))].

Definition newline : ascii := "010".
Definition metric_line (v : string * Z) : string := fst v +:+ " " +:+ fmt_u64 (snd v) +:+ String newline "".
Definition metrics_text (vs : list (string * Z)) : string := foldr (fun v s => metric_line v +:+ s) "" vs.
Definition metrics (s : AppState) : string := metrics_text (metric_values s).

(** ** Dashboard *)

(** [ForfeitBlocklist::view]; the matches by the time they were detected, latest first. *)
Record ForfeitView := {
  v_enabled : bool;
  v_feed_connected : bool;
  v_feed_connects_total : Z;
  v_feed_frames_total : Z;
  v_feed_last_frame_at_us : Z;
  v_feed_server_last_sequence : Z;
  v_feed_last_error : option string;
  v_feed_last_error_at_us : Z;
  v_last_feed_sequence : Z;
  v_blocked_condition_ids : Z;
  v_blocked_events_total : Z;
  v_ttl_days : Z;
  v_matches : list BlockedMatch;
  v_recent_blocked : list BlockedEvent }.

Definition later_first (a b : BlockedMatch) : bool := bx_detect_at_us b <=? bx_detect_at_us a.
Definition forfeit_view (l : ForfeitBlocklist) (f : FeedStatus) : ForfeitView :=
  {| v_enabled := enabled l; v_feed_connected := connected f; v_feed_connects_total := connects f;
     v_feed_frames_total := ForfeitFeed.frames f; v_feed_last_frame_at_us := last_frame_at_us f;
     v_feed_server_last_sequence := server_last_sequence f; v_feed_last_error := snd <$> last_error f;
     v_feed_last_error_at_us := default 0 (fst <$> last_error f); v_last_feed_sequence := last_feed_sequence l;
     v_blocked_condition_ids := blocked_condition_ids l; v_blocked_events_total := blocked_events_total l;
     v_ttl_days := ttl_us l / 86400000000; v_matches := sort_by later_first (matches_in_order (matches l));
     v_recent_blocked := recent_blocked l |}.

Record SourceRace := { sr_source : string; sr_received : Z; sr_won : Z }.

(** [iter] is the order of the hash map, which the sort makes irrelevant. *)
Definition race_row (x : string * SourceRaceStats) : SourceRace :=
  {| sr_source := fst x; sr_received := received (snd x); sr_won := won (snd x) |}.
Definition source_le (a b : SourceRace) : bool := negb (str_ltb (sr_source b) (sr_source a)).
Definition race_rows (iter : gmap string SourceRaceStats -> list (string * SourceRaceStats)) (m : gmap string SourceRaceStats) : list SourceRace :=
  sort_by source_le (map race_row (iter m)).

(** The figures of the health answer and those it does not have. *)
Record DashboardData := {
  d_server_time_us : Z;
  d_health : HealthResponse;
  d_catalog_markets : Z;
  d_rpc_bytes_received_total : Z;
  d_rpc_bytes_sent_total : Z;
  d_enrichment_recent_hits : Z;
  d_enrichment_recent_total : Z;
  d_ws_frames_sent_total : Z;
  d_ws_bytes_sent_total : Z;
  d_rpc_source_race : list SourceRace;
  d_forfeit : ForfeitView }.

Record ApiError := { err_status : Z; err_message : string }.

Section Dashboard.
Variable iter : gmap string SourceRaceStats -> list (string * SourceRaceStats).
Definition dashboard_data (now_us : Z) (token : option string) (s : AppState) : result ApiError DashboardData :=
  if check_dashboard_token (dashboard_token (api_config s)) token then
    let st := api_stats s in
    Ok {| d_server_time_us := now_us; d_health := health s; d_catalog_markets := catalog_len (api_catalog s);
          d_rpc_bytes_received_total := rpc_bytes_received (rpc st); d_rpc_bytes_sent_total := rpc_bytes_sent (rpc st);
          d_enrichment_recent_hits := enrichment_recent_hits (pipeline st); d_enrichment_recent_total := enrichment_recent_total (pipeline st);
          d_ws_frames_sent_total := ws_frames_sent_total st; d_ws_bytes_sent_total := ws_bytes_sent_total st;
          d_rpc_source_race := race_rows iter (source_race (pipeline st)); d_forfeit := forfeit_view (api_forfeit s) (api_feed s) |}
  else Err {| err_status := 403; err_message := "invalid or missing token" |}.
End Dashboard.

(** ** The WebSocket *)

(** The handshake: the query's [after_sequence] goes to the session ([Hubs.session_open]). *)
Definition websocket (h : Headers) (after_sequence : option Z) : ApiError + option Z :=
  if offers_subprotocol h then inr after_sequence
  else inl {| err_status := 400; err_message := "Sec-WebSocket-Protocol: uma.pb.v1 is required" |}.

(** What a session does to the counters; the guard's drop is on every way out. *)
Definition with_session_stats (sub slow rejected frames bytes_ : Z) (st : ApiStats) : ApiStats :=
  {| pipeline := pipeline st; rpc := rpc st; catalog_markets := catalog_markets st;
     catalog_reconcile_gaps_closed := catalog_reconcile_gaps_closed st; catalog_new_markets_added := catalog_new_markets_added st;
     last_broadcast_at_us := last_broadcast_at_us st; subscribers := sub; slow_clients_dropped := slow;
     ws_cursor_rejected := rejected; ws_frames_sent_total := frames; ws_bytes_sent_total := bytes_ |}.
Definition session_begins (st : ApiStats) : ApiStats :=
  with_session_stats (increment (subscribers st)) (slow_clients_dropped st) (ws_cursor_rejected st) (ws_frames_sent_total st)
    (ws_bytes_sent_total st) st.
(** One frame written ([send_available]). *)
Definition frame_written (f : WireFrame) (st : ApiStats) : ApiStats :=
  with_session_stats (subscribers st) (slow_clients_dropped st) (ws_cursor_rejected st) (increment (ws_frames_sent_total st))
    (u64_add (ws_bytes_sent_total st) (zlen (frame_bytes f))) st.
Definition session_ends (close : SessionClose) (st : ApiStats) : ApiStats :=
  with_session_stats (u64_sub (subscribers st) 1)
    (match close with DroppedSlow => increment (slow_clients_dropped st) | _ => slow_clients_dropped st end)
    (match close with Close1013 => increment (ws_cursor_rejected st) | _ => ws_cursor_rejected st end)
    (ws_frames_sent_total st) (ws_bytes_sent_total st) st.

(** ** A reader of the metrics text *)

(** Lines of a name, a blank and a number, each line ended. *)
Definition scrape_line (l : string) : option (string * Z) :=
  '(name, v) ← split_once " " l; v ← parse_u64 v; Some (name, v).
Fixpoint scrape_lines (ls : list string) : option (list (string * Z)) :=
  match ls with
  | [] => None
  | [last] => if String.eqb last "" then Some [] else None
  | l :: ls => v ← scrape_line l; vs ← scrape_lines ls; Some (v :: vs)
  end.
Definition scrape (text : string) : option (list (string * Z)) := scrape_lines (split_on newline text).

Definition metric_ok (v : string * Z) : Prop :=
  has_char " " (fst v) = false /\ has_char newline (fst v) = false /\ u64_ok (snd v).

Lemma has_char_str_app c s t : has_char c s = false -> has_char c t = false -> has_char c (s +:+ t) = false.
Proof. intros Hs Ht. by rewrite has_char_app, Hs, Ht. Qed.

Lemma split_never_empty c s : split_on c s <> [].
Proof. induction s as [|a s IH]; [done|]. cbn. destruct (Ascii.eqb a c); [done|]. by destruct (split_on c s). Qed.

Lemma scrape_text vs : Forall metric_ok vs -> scrape (metrics_text vs) = Some vs.
Proof.
  unfold scrape. induction 1 as [|[n v] vs (H1 & H2 & H3) _ IH]; [done|]. cbn [metrics_text foldr]. fold (metrics_text vs).
  cbn [fst snd] in *. unfold metric_line. cbn [fst snd].
  assert (Hline : has_char newline (n +:+ " " +:+ fmt_u64 v) = false).
  { apply has_char_str_app; [done|]. apply has_char_str_app; [done|]. apply fmt_radix_no_char; [done|lia]. }
  replace ((n +:+ " " +:+ fmt_u64 v +:+ String newline "") +:+ metrics_text vs)
    with ((n +:+ " " +:+ fmt_u64 v) +:+ String newline (metrics_text vs)) by (rewrite !str_app_assoc; done).
  rewrite split_on_word by done. cbn [scrape_lines]. pose proof (split_never_empty newline (metrics_text vs)) as Hne.
  destruct (split_on newline (metrics_text vs)) as [|w ws]; [done|]. rewrite IH. unfold scrape_line.
  change (" " +:+ fmt_u64 v) with (String " " (fmt_u64 v)). rewrite split_once_app by done. cbn [mbind option_bind].
  unfold parse_u64, fmt_u64. rewrite from_str_radix_fmt; [done|lia|unfold u64_ok in H3; lia].
Qed.

(** The atomics of the process, and what else the page shows, are 64-bit numbers. *)
Definition figures_ok (s : AppState) : Prop := Forall (fun v => u64_ok (snd v)) (metric_values s).

Lemma metric_names_plain s : Forall (fun v => has_char " " (fst v) = false /\ has_char newline (fst v) = false) (metric_values s).
Proof. unfold metric_values. destruct (bounds (api_events s)) as [o l]. repeat constructor. Qed.

(** The figures of the health answer under the names of the page. *)
Definition health_figures (h : HealthResponse) : list (string * Z) :=
  [("rust_uma_rpc_connected", as_u64 (h_rpc_connected h)); ("rust_uma_rpc_sources_connected", h_rpc_sources_connected h);
   ("rust_uma_rpc_sources_configured", h_rpc_sources_configured h); ("rust_uma_rpc_reconnects_total", h_rpc_reconnects_total h);
   ("rust_uma_rpc_logs_received_total", h_rpc_logs_received_total h); ("rust_uma_events_decoded_total", h_events_decoded_total h);
   ("rust_uma_decode_errors_total", h_decode_errors_total h); ("rust_uma_duplicates_total", h_duplicates_total h);
   ("rust_uma_enrichment_hits_total", h_enrichment_hits_total h);
   ("rust_uma_enrichment_hits_via_market_id_total", h_enrichment_hits_via_market_id_total h);
   ("rust_uma_enrichment_misses_total", h_enrichment_misses_total h);
   ("rust_uma_catalog_reconcile_gaps_closed_total", h_catalog_reconcile_gaps_closed_total h);
   ("rust_uma_catalog_new_markets_added_total", h_catalog_new_markets_added_total h); ("rust_uma_subscribers", h_subscribers h);
   ("rust_uma_slow_clients_dropped_total", h_slow_clients_dropped_total h);
   ("rust_uma_ws_cursor_rejected_total", h_ws_cursor_rejected_total h);
   ("rust_uma_event_ring_oldest_sequence", h_event_ring_oldest_sequence h);
   ("rust_uma_event_ring_latest_sequence", h_event_ring_latest_sequence h);
   ("rust_uma_forfeit_feed_connected", as_u64 (h_forfeit_feed_connected h));
   ("rust_uma_forfeit_blocked_condition_ids", h_forfeit_blocked_condition_ids h);
   ("rust_uma_forfeit_blocked_events_total", h_forfeit_blocked_events_total h)].

(** C31: the metrics page.  Read as Prometheus reads it, line by line, the page gives back
    every figure under its name, and no name comes twice; apart from the number of markets,
    which is the catalog's own here and the last synchronisation's there, the page shows
    exactly the figures of the health answer. *)
Theorem metrics_scrape s : figures_ok s ->
  scrape (metrics s) = Some (metric_values s) /\ NoDup (map fst (metric_values s))
  /\ metric_values s ≡ₚ ("rust_uma_catalog_markets"%string, catalog_len (api_catalog s)) :: health_figures (health s).
Proof.
  intros Hf. split; [|split].
  - apply scrape_text. unfold figures_ok in Hf. pose proof (metric_names_plain s) as Hn. rewrite Forall_forall in Hf, Hn |- *.
    intros v Hv. destruct (Hn v Hv). split; [done|]. split; [done|]. by apply Hf.
  - unfold metric_values. destruct (bounds (api_events s)). cbn [map fst]. apply (bool_decide_unpack (NoDup _)). vm_compute. exact I.
  - unfold metric_values, health. destruct (bounds (api_events s)) as [o l].
    cbn [health_figures h_rpc_connected h_rpc_sources_connected h_rpc_sources_configured h_rpc_reconnects_total h_rpc_logs_received_total
      h_events_decoded_total h_decode_errors_total h_duplicates_total h_enrichment_hits_total h_enrichment_hits_via_market_id_total
      h_enrichment_misses_total h_catalog_reconcile_gaps_closed_total h_catalog_new_markets_added_total h_subscribers
      h_slow_clients_dropped_total h_ws_cursor_rejected_total h_event_ring_oldest_sequence h_event_ring_latest_sequence
      h_forfeit_feed_connected h_forfeit_blocked_condition_ids h_forfeit_blocked_events_total].
    match goal with |- ?a :: ?b :: ?c :: ?d :: ?e :: ?f :: ?g :: ?h :: ?i :: ?j :: ?k :: ?m :: ?r ≡ₚ _ =>
      exact (symmetry (Permutation_middle [a; b; c; d; e; f; g; h; i; j; k] r m)) end.
Qed.

(** *** The dashboard *)

Lemma later_first_total x y : later_first x y = false -> later_first y x = true.
Proof. unfold later_first. lia. Qed.
Lemma later_first_trans x y z : later_first x y = true -> later_first y z = true -> later_first x z = true.
Proof. unfold later_first. lia. Qed.
Lemma source_le_total x y : source_le x y = false -> source_le y x = true.
Proof.
  unfold source_le. intros E%negb_false_iff. apply negb_true_iff. destruct (str_ltb (sr_source x) (sr_source y)) eqn:E'; [|done].
  pose proof (str_ltb_trans _ _ _ E E') as Ht. by rewrite str_ltb_irrefl in Ht.
Qed.
Lemma source_le_trans x y z : source_le x y = true -> source_le y z = true -> source_le x z = true.
Proof.
  unfold source_le. intros E1%negb_true_iff E2%negb_true_iff. apply negb_true_iff. destruct (str_ltb (sr_source z) (sr_source x)) eqn:E; [|done].
  destruct (str_ltb (sr_source y) (sr_source x)) eqn:E3; [done|]. destruct (str_ltb (sr_source x) (sr_source y)) eqn:E4.
  - pose proof (str_ltb_trans _ _ _ E E4). congruence.
  - pose proof (str_ltb_total _ _ E4 E3) as Heq. congruence.
Qed.

(** The dashboard's data: refused unless a token is configured and given exactly; its rows
    are the sources of the map, each once, in the order of their names whatever the
    order of the map, and the matches of the blocklist, each once, latest first. *)
Theorem dashboard_data_spec iter now token s : (forall m, iter m ≡ₚ map_to_list m) ->
  match dashboard_data iter now token s with
  | Ok d => (exists t, dashboard_token (api_config s) = Some t /\ token = Some t /\ t <> ""%string)
            /\ StronglySorted (fun a b => source_le a b = true) (d_rpc_source_race d)
            /\ d_rpc_source_race d ≡ₚ map race_row (map_to_list (source_race (pipeline (api_stats s))))
            /\ StronglySorted (fun a b => later_first a b = true) (v_matches (d_forfeit d))
            /\ v_matches (d_forfeit d) ≡ₚ matches_in_order (matches (api_forfeit s))
  | Err e => err_status e = 403 /\ ~ (exists t, dashboard_token (api_config s) = Some t /\ token = Some t /\ t <> ""%string)
  end.
Proof.
  intros Hiter. unfold dashboard_data, check_dashboard_token. destruct (dashboard_token (api_config s)) as [e|].
  2: { split; [done|]. by intros (t & ? & _). }
  destruct token as [t|]; [|split; [done|]; by intros (t & _ & ? & _)].
  destruct (String.eqb_spec e ""%string) as [->|Hne]; cbn [negb andb]; [split; [done|]; by intros (? & [= <-] & _ & ?)|].
  destruct (String.eqb_spec e t) as [->|Ht]; [|split; [done|]; intros (? & [= <-] & [= <-] & _); done].
  cbn [d_rpc_source_race d_forfeit forfeit_view v_matches]. split; [by exists t|].
  split; [apply sort_by_sorted; [apply source_le_total|apply source_le_trans]|].
  split; [unfold race_rows; rewrite sort_by_perm; by apply Permutation_map|].
  split; [apply sort_by_sorted; [apply later_first_total|apply later_first_trans]|apply sort_by_perm].
Qed.

(** *** The gauge of sessions *)

Inductive session_change := Begins | Ends (c : SessionClose) | Writes (f : WireFrame).
Definition change (st : ApiStats) (x : session_change) : ApiStats :=
  match x with Begins => session_begins st | Ends c => session_ends c st | Writes f => frame_written f st end.
Definition begins (x : session_change) : bool := match x with Begins => true | _ => false end.
Definition ends (x : session_change) : bool := match x with Ends _ => true | _ => false end.

(** However sessions begin, write and end in between each other, the gauge is the number of
    those that are open, as 64-bit numbers count. *)
Lemma subscribers_counts_sessions xs st : u64_ok (subscribers st) ->
  subscribers (foldl change st xs)
  = (subscribers st + zlen (List.filter begins xs) - zlen (List.filter ends xs)) mod 2 ^ 64.
Proof.
  revert st. induction xs as [|x xs IH]; intros st Hst; cbn [foldl List.filter].
  { rewrite zlen_nil. rewrite Z.mod_small; unfold u64_ok, u64_max in Hst; lia. }
  assert (Hx : u64_ok (subscribers (change st x))).
  { destruct x; cbn; unfold increment, u64_add, u64_sub, u64_ok, u64_max;
      [pose proof (Z.mod_pos_bound (subscribers st + 1) (2 ^ 64) ltac:(lia)); lia
      |pose proof (Z.mod_pos_bound (subscribers st - 1) (2 ^ 64) ltac:(lia)); lia|exact Hst]. }
  rewrite IH by done. destruct x; cbn [change begins ends session_begins session_ends frame_written with_session_stats subscribers];
    rewrite ?zlen_cons; unfold increment, u64_add, u64_sub.
  - rewrite <- !Z.add_sub_assoc, Zplus_mod_idemp_l. f_equal. lia.
  - rewrite <- !Z.add_sub_assoc, Zplus_mod_idemp_l. f_equal. lia.
  - done.
Qed.

(** ** A page *)

Module ApiSample.
Definition stats0 : ApiStats :=
  {| pipeline := stats_default; rpc := {| rpc_connected := true; rpc_sources_connected := 2; rpc_reconnects := 7; rpc_bytes_received := 0; rpc_bytes_sent := 0 |};
     catalog_markets := 3; catalog_reconcile_gaps_closed := 0; catalog_new_markets_added := 0; last_broadcast_at_us := 9; subscribers := 5;
     slow_clients_dropped := 1; ws_cursor_rejected := 0; ws_frames_sent_total := 0; ws_bytes_sent_total := 0 |}.
Definition state (c : Config.Config) : AppState :=
  {| api_config := c; api_events := event_hub_new 10; api_frames := resuming_after 4 5; api_catalog := catalog_new []; api_stats := stats0;
     api_forfeit := forfeit_disabled; api_feed := feed_status_new |}.

Example routes : map (router "GET") ["/healthz"; "/uma/v1/ws"; "/healthz/"]%string = [Handle RHealth; Handle RWebsocket; NotFound]
  /\ router "POST" "/metrics" = MethodNotAllowed.
Proof. done. Qed.

Lemma metrics_scrape_witness : exists c, ConfigRuns.started ConfigRuns.vars = Some c
  /\ scrape (metrics (state c)) = Some (metric_values (state c))
  /\ ("rust_uma_rpc_sources_configured"%string, 2) ∈ metric_values (state c).
Proof.
  destruct (ConfigRuns.started ConfigRuns.vars) as [c|] eqn:E; [|vm_compute in E; discriminate]. exists c.
  assert (Hu : zlen (wss_rpc_urls c) = 2) by (vm_compute in E; injection E as <-; reflexivity).
  destruct (metrics_scrape (state c)) as (A & _).
  - unfold figures_ok, metric_values. cbn [state api_events api_config]. rewrite Hu. clear.
    repeat constructor; apply Z.leb_le; vm_compute; reflexivity.
  - split; [reflexivity|]. split; [exact A|]. unfold metric_values. cbn [state api_events api_config]. rewrite Hu. clear.
    do 2 right. left.
Defined.
End ApiSample.
