(* ===== verification/ForfeitTests.v ===== *)
(** * ForfeitTests: the tests of [src/forfeit.rs] and of the sessions of [src/api.rs]

    The functions of the source's test modules under their names.  The clock is an input:
    [now] where the test does not say.  A mock feed is the list of what it sends in each
    connection, a client that does not read a list of writes of which one times out. *)
From S2P Require Import Prelude Testing Model WireFrame Events Keccak Hubs Forfeit ForfeitFeed Pipeline Rpc Api.

#[local] Existing Instance ethereum.
#[local] Instance lookup_numbers : ForfeitNumbers :=
  {| LookupStatus_try_from n :=
       if n =? 0 then Some Lookup_Unspecified else if n =? 1 then Some Lookup_Matched else if n =? 2 then Some Lookup_NotFound
       else if n =? 3 then Some Lookup_Failed else None |}.

(** ** [forfeit.rs] *)

Abbreviation T := (Test ForfeitBlocklist).
Definition now : Z := 5000.

Definition cid (byte : Byte.byte) : bytes := replicate 32 byte.
Definition status_event (status : Z) (sequence match_id game : Z) (ids : list Byte.byte) : pb_ForfeitEvent :=
  {| fe_sequence := sequence; fe_match_id := match_id; fe_game := ""; fe_league := ""; fe_match_name := ""; fe_team_a := "A"; fe_team_b := "B";
     fe_winner := ""; fe_forfeited_game_number := game; fe_pm_event_slug := ""; fe_lookup_status := status; fe_detect_at_us := 0;
     fe_markets :=
       map (fun b => {| fm_condition_id := cid b; fm_sports_market_type := "child_moneyline"; fm_game_number := 0; fm_question := "";
                        fm_is_forfeited_market := false |}) ids;
     fe_condition_ids := map cid ids |}.
Definition event (sequence match_id game : Z) (ids : list Byte.byte) : pb_ForfeitEvent :=
  status_event (match ids with [] => 2 | _ => 1 end) sequence match_id game ids.
Definition enabled_list (ttl_us : Z) : ForfeitBlocklist := forfeit_empty true ttl_us.

Definition applies (e : pb_ForfeitEvent) : T bool := calling (apply e now).
Definition looks_up (byte : Byte.byte) (r : option Z) : T unit := m ← peek (lookup_match (cid byte)); assert (eqb m r).
Definition first_match : T BlockedMatch := m ← peek (fun l => head (matches_in_order (matches l))); expect m.
Definition status_is (s : string) : T unit := m ← first_match; assert (eqb (bx_lookup_status m) s).

Definition replay_is_idempotent_and_unions_condition_ids : T unit :=
  c ← applies (event 1 7 1 [x01; x02]); assert c ;;
  c ← applies (event 1 7 1 [x01; x02]); assert (negb c) ;;
  c ← applies (event 1 7 1 [x01; x02; x03]); assert c ;;
  c ← applies (event 2 7 2 [x02; x03]); assert c ;;
  n ← peek blocked_condition_ids; assert (n =? 3) ;;
  looks_up x03 (Some 7) ;; looks_up x09 None ;;
  m ← first_match; assert (eqb (bx_forfeited_games m) [1; 2]) ;; assert (eqb (bx_feed_sequences m) [1; 2]).

Definition not_found_then_matched_upgrades_status_and_never_downgrades : T unit :=
  applies (event 1 7 1 []) ;;
  n ← peek blocked_condition_ids; assert (n =? 0) ;;
  applies (event 1 7 1 [x04]) ;; status_is "matched" ;;
  applies (status_event 3 1 7 1 []) ;; status_is "matched" ;;
  looks_up x04 (Some 7).

Definition disabled_list_never_blocks : T unit :=
  act (fun _ => forfeit_disabled) ;; applies (event 1 7 1 [x01]) ;; looks_up x01 None.

Definition expired_matches_are_pruned_from_the_hot_index : T unit :=
  act (fun _ => enabled_list 1000) ;;
  applies (event 1 7 1 [x01]) ;;
  m ← first_match;
  let added := bx_added_at_us m in
  n ← calling (prune (added + 10)); assert (n =? 0) ;;
  n ← calling (prune (added + 2000)); assert (n =? 1) ;;
  looks_up x01 None.

Definition snapshot_round_trips_and_rebuilds_the_index : T unit :=
  applies (event 5 7 0 [x01; x02]) ;;
  file ← peek snapshot_of;
  act (fun _ => load (Some file) now (enabled_list 0)) ;;
  looks_up x02 (Some 7) ;;
  n ← peek last_feed_sequence; assert (n =? 5).

(** Frames of one byte, 0 the hello and 1 the event the mock feed sends. *)
Definition mock_decode (payload : bytes) : option (option frame_body) :=
  match payload with
  | [x00] => Some (Some (Hello 3))
  | [x01] => Some (Some (Event (event 3 9 2 [x05; x06])))
  | _ => None
  end.
Definition connection (event_parts : list list_action) : list list_action :=
  [FeedLoops false; FeedDials (Ok tt); FeedReceives now (Binary [x00]); FeedReceives now (Binary [x01]); FeedMerges now] ++ event_parts
  ++ [FeedReceives now CloseFrame; FeedFails now 10; FeedWakes].

(** The first connection brings new conditions, the second a replay. *)
Definition feed_task_decodes_frames_and_reconnects : T unit :=
  l ← peek (fun l => l);
  s ← expect (list_run mock_decode (run_forfeit_feed "ws://127.0.0.1" 10 None None l) (connection [FeedIndexes; FeedNotifies] ++ connection []));
  act (fun _ => memory s) ;;
  looks_up x06 (Some 9) ;;
  assert (server_last_sequence (ForfeitFeed.feed (feed_task s)) =? 3) ;; assert (2 <=? connects (ForfeitFeed.feed (feed_task s))).

Definition blocked_before_respects_when_the_match_was_learned : T unit :=
  applies (event 1 7 1 [x01]) ;;
  m ← first_match;
  let added := bx_added_at_us m in
  b ← peek (blocked_before (cid x01) (added + 1)); assert b ;;
  b ← peek (blocked_before (cid x01) (added - 1)); assert (negb b).

(** ** [api.rs] *)

Definition frame (first last : Z) : WireFrame :=
  {| WireFrame.batch_sequence := first; first_sequence := first; last_sequence := last; frame_bytes := [] |}.
Definition stats_new : ApiStats :=
  {| pipeline := stats_default; rpc := rpc_stats_new; catalog_markets := 0; catalog_reconcile_gaps_closed := 0; catalog_new_markets_added := 0;
     last_broadcast_at_us := 0; subscribers := 0; slow_clients_dropped := 0; ws_cursor_rejected := 0; ws_frames_sent_total := 0;
     ws_bytes_sent_total := 0 |}.
(** A session that ends, and the counters behind it. *)
Definition served (evs : list session_event) (h : FrameHub) (cursor : Z) : option (SessionClose * ApiStats) :=
  let '(close, _, _) := websocket_session evs h (session_open (Some cursor) h) in
  c ← close; Some (c, session_ends c (session_begins stats_new)).
(** The code of the close frame the client gets, if it gets one. *)
Definition close_frame (c : SessionClose) : option Z := match c with Close1013 => Some 1013 | DroppedSlow | ClosedByPeer => None end.

(** However many of the 64 frames the kernel's buffers take before a write times out. *)
Definition write_timeout_drops_the_socket_without_1013 : bool :=
  let h := foldl (fun h i => publish_frame (frame i i) h) (frame_hub_new 64) (seqZ 1 64) in
  forallb (fun k => match served [Wake (replicate k None ++ [Some Timeout])] h 0 with
                    | Some (c, st) => (slow_clients_dropped st =? 1) && eqb (close_frame c) None && (ws_cursor_rejected st =? 0)
                    | None => false
                    end) (seq 0 64).

Definition cursor_older_than_the_ring_closes_with_1013 : bool :=
  match served [Wake []] (publish_frame (frame 102 102) (resuming_after 16 100)) 50 with
  | Some (c, st) => eqb (close_frame c) (Some 1013) && (ws_cursor_rejected st =? 1) && (slow_clients_dropped st =? 0)
  | None => false
  end.

Example forfeit_tests_pass :
  map (fun t => passes t (enabled_list 0))
    [replay_is_idempotent_and_unions_condition_ids; not_found_then_matched_upgrades_status_and_never_downgrades; disabled_list_never_blocks;
     expired_matches_are_pruned_from_the_hot_index; snapshot_round_trips_and_rebuilds_the_index; feed_task_decodes_frames_and_reconnects;
     blocked_before_respects_when_the_match_was_learned] = replicate 7 true.
Proof. vm_compute. reflexivity. Qed.
Example api_tests_pass : write_timeout_drops_the_socket_without_1013 && cursor_older_than_the_ring_closes_with_1013 = true.
Proof. vm_compute. reflexivity. Qed.
