(* ===== verification/Programs.v ===== *)
(** * Programs: the entry points ([src/main.rs], [src/bin/])

    What [main] and [run] of the four programs do around the components: what they open, how
    long they run, and what a stop waits for.  Times are milliseconds after the signal; when a
    task ends by itself, when the HTTP server has shut down and what the files parse to are
    inputs. *)
From S2P Require Import Prelude Model Channel EdgeHub Tokens EdgeServer Events Calldata Float64 Gate Storage Config Registry Store ConsoleServer ConsoleFeed Alerts.

(** ** [main] *)

Definition exit_code {E A} (r : result E A) : Z := match r with Ok _ => 0 | Err _ => 1 end.

Inductive proc_event := Signal | ServeReturned (r : result string unit).
Definition is_signal (e : proc_event) : bool := match e with Signal => true | ServeReturned _ => false end.

(** ** The two services *)

Inductive Task := StorageWriter | Batcher | CatalogSync | NewMarketWatch | CatalogReconcile | ForfeitTask | RpcLoop
  | ConfirmFeed | PendingFeed | GateMinute.
#[global] Instance Task_eq_dec : EqDecision Task.
Proof. solve_decision. Defined.

Definition service_tasks : list Task :=
  [StorageWriter; Batcher; CatalogSync; NewMarketWatch; CatalogReconcile; ForfeitTask; RpcLoop].
Definition mempool_tasks : list Task :=
  [ForfeitTask; StorageWriter; Batcher; CatalogSync; NewMarketWatch; CatalogReconcile; ConfirmFeed; PendingFeed; GateMinute].

(** [select!] on the server and the signal: how it ends, if it does. *)
Definition service_wait (evs : list proc_event) : option (result string unit) :=
  match evs with [] => None | Signal :: _ => Some (Ok tt) | ServeReturned r :: _ => Some r end.

(** [for task in tasks { timeout(5s, task).await }]; [None] is a task that does not end. *)
Definition TASK_WAIT : Z := 5000.
Definition wait_task (t : Z) (ends : option Z) : Z :=
  match ends with Some d => Z.min (Z.max t d) (t + TASK_WAIT) | None => t + TASK_WAIT end.
Definition join (ends : list (option Z)) : Z := foldl wait_task 0 ends.

Record Stopped := { told : bool; ended_at : Z; code : Z }.

(** The end of [run] and of [main]: an error of the server is returned before anyone is told. *)
Definition service_stop (tasks : list Task) (evs : list proc_event) (ends : Task -> option Z) : option Stopped :=
  r ← service_wait evs;
  Some (match r with
        | Ok _ => {| told := true; ended_at := join (map ends tasks); code := exit_code r |}
        | Err _ => {| told := false; ended_at := 0; code := exit_code r |}
        end).

Section Disk.
Context `{WireNumbers} `{WalCodec}.

(** The journal and the cursor file of a process that ended: the writer's last flush if it
    was told and came to it, else what a crash leaves ([torn] bytes of the buffer). *)
Definition files_at_exit (capacity : Z) (w : Writer) (torn : nat) (flushed : bool) : bytes * option string :=
  if flushed then let w := writer_step capacity w FlushTick in (on_disk (journal w), uma_cursor (writer_files w))
  else (crash torn (journal w), uma_cursor (writer_files w)).
Definition service_disk (capacity : Z) (w : Writer) (torn : nat) (tasks : list Task) (evs : list proc_event) (ends : Task -> option Z)
  : option (Stopped * (bytes * option string)) :=
  s ← service_stop tasks evs ends;
  let in_time := match ends StorageWriter with Some d => d <=? ended_at s | None => false end in
  Some (s, files_at_exit capacity w torn (told s && in_time)).

Lemma wait_task_bounds t e : 0 <= t -> t <= wait_task t e <= t + TASK_WAIT.
Proof. unfold wait_task, TASK_WAIT. destruct e; lia. Qed.

Lemma foldl_wait_bounds ends : forall t, 0 <= t -> t <= foldl wait_task t ends <= t + TASK_WAIT * zlen ends.
Proof.
  induction ends as [|e ends IH]; intros t Ht; cbn [foldl]; [unfold zlen; cbn; lia|].
  pose proof (wait_task_bounds t e Ht). specialize (IH (wait_task t e) ltac:(lia)). unfold zlen, TASK_WAIT in *. cbn [length] in *. lia.
Qed.

(** A task that ends within the wait of one is waited for, wherever it stands. *)
Lemma join_waits ends d : Some d ∈ ends -> d <= TASK_WAIT -> d <= join ends.
Proof.
  intros (pre & post & ->)%list_elem_of_split Hd. unfold join. rewrite foldl_app. cbn [foldl].
  pose proof (foldl_wait_bounds pre 0 ltac:(lia)) as [Ht0 _]. set (t := foldl wait_task 0 pre) in *.
  assert (Hw : d <= wait_task t (Some d)) by (unfold wait_task; lia).
  pose proof (wait_task_bounds t (Some d) Ht0) as [Ht1 _].
  pose proof (foldl_wait_bounds post (wait_task t (Some d)) ltac:(lia)). lia.
Qed.

(** A stop loses nothing the writer has been given.  When a signal comes, or the server
    ends without an error, before anything else, the process ends by itself with code 0
    after at most five seconds for each of its tasks, and if the writer comes to its last
    flush within five seconds, the file then holds the whole journal and the cursor is the
    highest checkpoint. *)
Theorem stop_flushes capacity w torn tasks evs ends d :
  service_wait evs = Some (Ok tt) -> StorageWriter ∈ tasks -> ends StorageWriter = Some d -> d <= TASK_WAIT ->
  exists s, service_disk capacity w torn tasks evs ends
            = Some (s, (on_disk (journal w) ++ buffered (journal w),
                        if 0 <? writer_cursor w then Some (fmt_u64 (writer_cursor w)) else uma_cursor (writer_files w)))
    /\ code s = 0 /\ ended_at s <= TASK_WAIT * zlen tasks.
Proof.
  intros Hs Hin He Hd. unfold service_disk, service_stop. rewrite Hs. cbn [mbind option_bind told ended_at].
  assert (Hj : d <= join (map ends tasks)).
  { apply join_waits; [|done]. rewrite <- He. by apply list_elem_of_fmap_2. }
  rewrite He. replace (d <=? join (map ends tasks)) with true by lia. cbn [andb].
  exists {| told := true; ended_at := join (map ends tasks); code := 0 |}. split; [|split; [done|]].
  - unfold files_at_exit, writer_step. by destruct (0 <? writer_cursor w).
  - cbn [ended_at]. pose proof (foldl_wait_bounds (map ends tasks) 0 ltac:(lia)). unfold join, zlen in *. rewrite length_map in *. lia.
Qed.

(** An error of the server, a port in use at the start or the listener's own, leaves what a
    crash leaves: nobody is told to stop. *)
Lemma server_error_is_a_crash capacity w torn tasks e evs ends :
  service_disk capacity w torn tasks (ServeReturned (Err e) :: evs) ends
  = Some ({| told := false; ended_at := 0; code := 1 |}, (crash torn (journal w), uma_cursor (writer_files w))).
Proof. done. Qed.
End Disk.

(** ** What is particular to mempool-uma *)

Section Mempool.
Context `{EthCodec}.
(** [f64::from_str] *)
Variable parse_f64 : string -> option f64.
Variable env : Env.

Definition env_or {T} (from_str : string -> option T) (key : string) (default_ : T) : T :=
  default default_ (v ← env key; from_str (trim v)).

Definition gate_cfg : GateConfig :=
  let d := GateConfig_default in
  {| trust_min_n := env_or parse_u32 "MEMPOOL_TRUST_MIN_N" 50; trust_min_rate := env_or parse_f64 "MEMPOOL_TRUST_MIN_RATE" (f64_lit 98 100);
     tip_quantile := env_or parse_f64 "MEMPOOL_TIP_QUANTILE" (f64_lit 5 100); tip_window_us := tip_window_us d;
     tip_min_samples := tip_min_samples d; state_ttl_us := state_ttl_us d |}.

(** [read]: a file of scores, when it is there and parses. *)
Definition load_if (g : Gate) (file : option (list (string * (Z * Z)))) : Gate :=
  match file with Some f => load_senders f g | None => g end.
Definition gate_start (read : string -> option (list (string * (Z * Z)))) (senders_path : string) : Gate :=
  load_if (load_if (gate_new gate_cfg) (read senders_path)) (seed ← env "MEMPOOL_SENDER_SEED"; read seed).

Definition backfill_hours : Z := env_or parse_u64 "MEMPOOL_BACKFILL_HOURS" 3.
Definition backfill_chunk : Z := env_or parse_u64 "MEMPOOL_BACKFILL_CHUNK" 100.
Definition feed_addr : string := default "127.0.0.1:8014"%string (env "MEMPOOL_FEED_ADDR").
End Mempool.

(** ** The edge *)

(** Rounds of the drain that begin before [t]: at 0, [interval], ... *)
Definition rounds_by (interval t : Z) : nat := Z.to_nat ((t + interval - 1) / interval).

Definition edge_config (c : EdgeSettings) : EdgeConfig :=
  {| EdgeServer.upstream_url := Config.upstream_url c; EdgeServer.node_id := Config.node_id c;
     EdgeServer.advertise_host := Config.advertise_host c; EdgeServer.advertise_port := Config.advertise_port c;
     EdgeServer.advertise_tls := Config.advertise_tls c; EdgeServer.max_clients := Config.max_clients c;
     EdgeServer.admin_token := Config.admin_token c; EdgeServer.drain_batch := Config.drain_batch c;
     drain_timeout_rounds := rounds_by (drain_interval c) (drain_timeout c) |}.

Section Edge.
Context `{Mpsc Frame}.
Variable iter : gmap Z ClientInfo -> list (Z * ClientInfo).
Hypothesis iter_perm : forall m, iter m ≡ₚ map_to_list m.

Definition edge_start (c : EdgeSettings) (now : Z) : EdgeState :=
  {| EdgeServer.config := edge_config c; stats := stats_new; edge_hub := hub_new (ring_frames c) (client_queue c);
     auth := set_new (static_client_tokens c); EdgeServer.started_at_ms := now |}.

(** The edge waits for a signal only. *)
Definition edge_wait (evs : list proc_event) : bool := existsb is_signal evs.

(** How many rounds the drain takes until no client is left or its time is up. *)
Fixpoint drain_used (batch : Z) (rounds : nat) (h : Hub) : nat :=
  if clients h =? 0 then O else
  match rounds with O => O | S n => S (drain_used batch n (snd (release iter batch CLOSE_RESTART h))) end.

(** The end of the process after a signal: when the drain's loop exits it, or when [run] has
    waited for the HTTP server, whichever is first; and the hub then.  [http] is when the
    server has shut down. *)
Record EdgeExit := { exit_at : Z; exit_hub : Hub }.
Definition edge_stop (interval timeout batch : Z) (http : option Z) (h : Hub) : EdgeExit :=
  let total := rounds_by interval timeout in
  let drained_at := Z.of_nat (drain_used batch total h) * interval + 1500 in
  let waited := Z.min (default (timeout + 5000) http) (timeout + 5000) in
  let at_ := Z.min drained_at waited in
  {| exit_at := at_; exit_hub := snd (drain_loop iter batch (Nat.min total (rounds_by interval at_)) h) |}.

Lemma release_clients batch h : 1 <= batch -> clients (snd (release iter batch CLOSE_RESTART h)) = Z.max 0 (clients h - batch).
Proof using iter_perm.
  intros Hb. pose proof (release_spec iter iter_perm batch CLOSE_RESTART h ltac:(lia)) as Hr.
  destruct (release iter batch CLOSE_RESTART h) as [k h']. cbn [snd]. destruct Hr as (-> & -> & _). unfold clients. lia.
Qed.

Lemma drain_loop_left batch n : forall h, 1 <= batch ->
  clients (snd (drain_loop iter batch n h)) = Z.max 0 (clients h - batch * Z.of_nat n).
Proof using iter_perm.
  induction n as [|n IH]; intros h Hb; cbn [drain_loop]; (destruct (clients h =? 0) eqn:E; [cbn [snd]; apply Z.eqb_eq in E; rewrite E; lia|]).
  - cbn [snd]. unfold clients. lia.
  - rewrite IH, release_clients by done. lia.
Qed.

Lemma drain_used_spec batch n : forall h, 1 <= batch ->
  (drain_used batch n h <= n)%nat /\ (clients h <= batch * Z.of_nat n -> clients h <= batch * Z.of_nat (drain_used batch n h)).
Proof using iter_perm.
  induction n as [|n IH]; intros h Hb; cbn [drain_used]; (destruct (clients h =? 0) eqn:E; [apply Z.eqb_eq in E; rewrite E; lia|]); [lia|].
  destruct (IH (snd (release iter batch CLOSE_RESTART h)) Hb) as [I1 I2]. rewrite release_clients in I2 by done. split; [lia|]. intros Hc. lia.
Qed.

Lemma rounds_by_mono i a b : 0 < i -> a <= b -> (rounds_by i a <= rounds_by i b)%nat.
Proof. intros Hi Hab. unfold rounds_by. pose proof (Z.div_le_mono (a + i - 1) (b + i - 1) i ltac:(lia) ltac:(lia)). lia. Qed.

Lemma rounds_by_reaches i k t : 0 < i -> Z.of_nat k * i <= t -> (k <= rounds_by i t)%nat.
Proof.
  intros Hi Hk. unfold rounds_by. assert (Z.of_nat k <= (t + i - 1) / i) by (apply Z.div_le_lower_bound; lia). lia.
Qed.

(** C6: a stop of the edge drains it as far as the HTTP server lasts.  After a signal, with at
    least one client per batch: the process ends within the drain's time and five seconds; the
    clients left are those no round that began before the end has released; and if every
    client fits into the rounds there are and the server takes until the drain's deadline,
    none is left and each got 1012. *)
Theorem edge_stop_drains interval timeout batch http h :
  0 < interval -> 0 <= timeout -> 1 <= batch -> (forall t, http = Some t -> 0 <= t) ->
  let e := edge_stop interval timeout batch http h in
  0 <= exit_at e <= timeout + 5000
  /\ clients (exit_hub e) = Z.max 0 (clients h - batch * Z.of_nat (Nat.min (rounds_by interval timeout) (rounds_by interval (exit_at e))))
  /\ (clients h <= batch * Z.of_nat (rounds_by interval timeout) -> (forall t, http = Some t -> timeout <= t) ->
      clients (exit_hub e) = 0
      /\ forall i info, subs h !! i = Some info -> links (exit_hub e) !! i = store_code CLOSE_RESTART <$> links h !! i).
Proof using iter_perm.
  intros Hi Ht Hb Hp e. unfold e, edge_stop. cbv zeta. cbn [exit_at exit_hub].
  set (total := rounds_by interval timeout). destruct (drain_used_spec batch total h Hb) as [Hu1 Hu2].
  set (u := drain_used batch total h) in *. assert (Hui : 0 <= Z.of_nat u * interval) by nia.
  set (at_ := Z.min _ _). assert (Hat : 0 <= at_ <= timeout + 5000).
  { unfold at_. destruct http as [t|]; cbn [from_option Datatypes.id]; [specialize (Hp t eq_refl)|]; lia. }
  split; [done|]. rewrite drain_loop_left by done. split; [done|]. intros Hc Hl.
  assert (Hn : (u <= Nat.min total (rounds_by interval at_))%nat).
  { assert (Hcase : Z.of_nat u * interval <= at_ \/ timeout <= at_).
    { unfold at_. destruct http as [t|]; cbn [from_option Datatypes.id]; [specialize (Hl t eq_refl)|]; lia. }
    destruct Hcase as [Hcase|Hcase]; [pose proof (rounds_by_reaches interval u at_ Hi Hcase)|pose proof (rounds_by_mono interval timeout at_ Hi Hcase)];
      unfold total in *; lia. }
  specialize (Hu2 Hc). assert (Hz : Z.max 0 (clients h - batch * Z.of_nat (Nat.min total (rounds_by interval at_))) = 0) by nia.
  split; [done|]. intros i info Hs. destruct (drain_loop_codes iter iter_perm batch (Nat.min total (rounds_by interval at_)) h Hb) as [gone (_ & _ & D)].
  specialize (D i). rewrite Hs in D. rewrite <- (drain_loop_left batch _ h Hb) in Hz.
  destruct (gone i); [by destruct D|]. destruct D as [D _]. exfalso.
  assert (He : size (subs (snd (drain_loop iter batch (Nat.min total (rounds_by interval at_)) h))) = 0%nat) by (unfold clients in Hz; lia).
  apply map_size_empty_inv in He. rewrite He, lookup_empty in D. done.
Qed.

(** Whatever becomes of its server, a listener that never came up included, the edge runs on
    until a signal. *)
Lemma edge_ignores_its_server r evs : edge_wait (ServeReturned r :: evs) = edge_wait evs.
Proof. done. Qed.
End Edge.

(** ** The console *)

(** What its files read as ([load_json]). *)
Record ConsoleDisk := {
  nodes_json : result IoError (option NodesFile);
  tokens_json : result IoError (option TokensFile);
  alerts_json : result string (option AlertRules) }.

Section Console.
Context `{Broadcast bytes}.

Record Console := { con_state : ConsoleState; con_upstream : UpstreamSnapshot; con_feed : Feed; con_alerts : AlertsState }.

Definition console_start (c : ConsoleSettings) (d : ConsoleDisk) : result IoError Console :=
  n ← nodes_json d;
  t ← tokens_json d;
  let rules := load_rules (alerts_json d) in
  Ok {| con_state :=
          {| console_config :=
               {| ConsoleServer.node_token := Config.node_token c; ConsoleServer.console_admin_token := Config.console_admin_token c;
                  ConsoleServer.panel_token := Config.panel_token c; list_ttl_seconds := list_ttl c / 1000 |};
             registry := open_registry n (stale_after c); token_store := open_store t |};
        con_upstream := snapshot_default; con_feed := feed_default;
        con_alerts := alerts_new rules (bool_decide (is_Some (alert_webhook c))) |}.

(** After a signal the console waits for its server, however long that takes. *)
Definition console_stop (evs : list proc_event) (server : option (Z * result string unit)) : option (Z * Z) :=
  if existsb is_signal evs then '(t, r) ← server; Some (t, exit_code r) else None.

(** A file of nodes or tokens that does not read ends the start, one of alert rules only
    costs the rules; and a console starts again with the tokens, the flags and the settings
    that its last one had written, and with no nodes. *)
Lemma console_start_fails c d : (exists e, console_start c d = Err e) <-> (exists e, nodes_json d = Err e \/ tokens_json d = Err e).
Proof.
  unfold console_start. destruct (nodes_json d) as [n|e]; [destruct (tokens_json d) as [t|e]|]; cbn;
    (split; [intros [e' He]; first [discriminate He|eauto]|intros (e' & [He|He]); first [discriminate He|eauto]]).
Qed.
Lemma console_restart c (s : Console) al :
  Tokens.disk (token_store (con_state s)) = Some (inner (token_store (con_state s))) ->
  let r := registry (con_state s) in
  Registry.disk r = Some {| file_nodes := admin r; file_settings := settings r |} ->
  exists s', console_start c {| nodes_json := Ok (Registry.disk r); tokens_json := Ok (Tokens.disk (token_store (con_state s))); alerts_json := al |} = Ok s'
    /\ token_store (con_state s') = token_store (con_state s)
    /\ admin (registry (con_state s')) = admin r /\ settings (registry (con_state s')) = settings r /\ nodes (registry (con_state s')) = ∅.
Proof.
  intros Ht r Hr. eexists. split; [reflexivity|]. cbn. rewrite Ht, Hr. split; [|done]. unfold open_store. cbn. rewrite <- Ht.
  by destruct (token_store (con_state s)).
Qed.
End Console.

(** ** Instances *)

Module ProgramSample.
#[local] Existing Instance sample_numbers.
#[local] Existing Instance Storage.sample_codec.
#[local] Instance queues : Mpsc Frame := list_mpsc Frame.

Definition writer : Writer :=
  {| journal := snd (journal_append (sample_record 2) (journal_flush (snd (journal_append (sample_record 1) (journal_open None)))));
     writer_cursor := 77;
     writer_files := {| catalog_bin := None; events_wal := None; enrichment_cursor := None; closed_cursor := None; uma_cursor := None |} |}.
(** The chain reader hangs, the others end at once. *)
Definition ends (t : Task) : option Z := match t with RpcLoop => None | StorageWriter => Some 40 | _ => Some 3 end.

Lemma stop_flushes_witness :
  exists s, service_disk 10 writer 0 service_tasks [Signal] ends
            = Some (s, (on_disk (journal writer) ++ buffered (journal writer),
                        if 0 <? writer_cursor writer then Some (fmt_u64 (writer_cursor writer)) else uma_cursor (writer_files writer)))
    /\ code s = 0 /\ ended_at s <= TASK_WAIT * zlen service_tasks.
Proof. apply (stop_flushes 10 writer 0 service_tasks [Signal] ends 40); [done|by left|done|unfold TASK_WAIT; lia]. Defined.

(** The stop that follows takes five seconds for the reader; an error of the server instead
    of a signal loses the last record and the cursor. *)
Example stop_and_error :
  (fst <$> service_disk 10 writer 0 service_tasks [Signal] ends) = Some {| told := true; ended_at := 5040; code := 0 |}
  /\ (fst <$> service_disk 10 writer 0 mempool_tasks [Signal] ends) = Some {| told := true; ended_at := 40; code := 0 |}
  /\ service_disk 10 writer 0 service_tasks [ServeReturned (Err "accept"%string)] ends
     = Some ({| told := false; ended_at := 0; code := 1 |}, (on_disk (journal writer), None))
  /\ 0 < zlen (buffered (journal writer)).
Proof.
  split; [reflexivity|]. split; [reflexivity|]. split; [|vm_compute; reflexivity].
  rewrite server_error_is_a_crash. unfold crash. cbn [take]. by rewrite app_nil_r.
Qed.

Definition busy : Hub :=
  foldl (fun h i => snd (subscribe 0 "10.0.0.1" i None 0 h)) (hub_new 16 8) (seqZ 1 5).
Lemma edge_stop_drains_witness :
  let e := edge_stop map_to_list 2000 600000 2 None busy in
  clients (exit_hub e) = 0 /\ forall i info, subs busy !! i = Some info -> links (exit_hub e) !! i = store_code CLOSE_RESTART <$> links busy !! i.
Proof.
  apply (proj2 (proj2 (edge_stop_drains map_to_list (fun _ => Permutation_refl _) 2000 600000 2 None busy ltac:(lia) ltac:(lia) ltac:(lia) ltac:(done))));
    [vm_compute; congruence|done].
Defined.

(** The time it takes; and when the server has shut down at once, because the clients'
    connections are no longer its own, the process is gone before the first batch: all are
    cut off without a close frame. *)
Example drain_cut_short :
  exit_at (edge_stop map_to_list 2000 600000 2 None busy) = 7500
  /\ exit_at (edge_stop map_to_list 2000 600000 2 (Some 0) busy) = 0
  /\ clients (exit_hub (edge_stop map_to_list 2000 600000 2 (Some 0) busy)) = 5
  /\ clients (exit_hub (edge_stop map_to_list 2000 600000 2 (Some 10) busy)) = 3.
Proof. vm_compute. auto. Qed.

(** A listener that cannot be bound: the edge goes on, and once its upstream is there it
    tells the console that it is ready. *)
Example deaf_edge_is_ready st : upstream_connected (stats st) = true -> draining (stats st) = false ->
  edge_wait [ServeReturned (Err "address in use"%string)] = false /\ ready st = true.
Proof. intros Hu Hd. split; [done|]. unfold ready. by rewrite Hu, Hd. Qed.
Example deaf_console_runs server : console_stop [ServeReturned (Err "address in use"%string)] server = None.
Proof. done. Qed.

(** The seed only raises what the process has counted itself. *)
#[local] Existing Instance Events.sample_codec.
Definition mempool_env : Env := fun k => if String.eqb k "MEMPOOL_SENDER_SEED" then Some "seed.json"%string
  else if String.eqb k "MEMPOOL_TRUST_MIN_N" then Some " 5 "%string else None.
Definition score_files (path : string) : option (list (string * (Z * Z))) :=
  if String.eqb path "seed.json" then Some [(hex0x (replicate 20 x01), (9, 1)); (hex0x (replicate 20 x02), (3, 0))]
  else if String.eqb path "own.json" then Some [(hex0x (replicate 20 x01), (4, 2))] else None.
Example seed_is_merged :
  let g := gate_start (fun _ => None) mempool_env score_files "own.json" in
  (senders g !! replicate 20 x01) = Some {| agree := 9; disagree := 2 |} /\ (senders g !! replicate 20 x02) = Some {| agree := 3; disagree := 0 |}
  /\ trust_min_n (cfg g) = 5 /\ feed_addr mempool_env = "127.0.0.1:8014"%string.
Proof. vm_compute. auto. Qed.
End ProgramSample.
